(** * StateRail: the run execution engine and its event log

    A shallow embedding of [apps/api/src/db.ts] (the Store) and
    [apps/api/src/executor.ts] (the Executor) together with the theorems
    that relate them to the design specification.

    Conventions.
    - A SQLite table is the list of its rows in rowid order (an INSERT
      appends at the end).  PRIMARY KEY and FOREIGN KEY clauses of the schema
      are checked by the statements that can violate them.
    - A JavaScript exception is the [Throw] result of the monad [M]; the
      state reached before the exception is kept, as in JavaScript, except
      inside [transaction], which rolls the database back.
    - [now()] and [nanoid()] read two oracles of the environment: the n-th
      reading of the clock and the n-th identifier drawn.
    - An [async] function is cut at its [await]s: each piece between two
      [await]s is one atomic function on the [World], and the suspended
      calls are kept in the [World] as [Task]s. *)

From Stdlib Require Import ZArith Lia Permutation Sorted.
From stdpp Require Import base strings list gmap pretty.

Local Open Scope string_scope.
Local Open Scope list_scope.

(** ** Data model ([db.ts], lines 6-58) *)

Inductive StepType := HTTP | DELAY | MANUAL.
Inductive RunStatus := PENDING | RUNNING | SUCCEEDED | FAILED.
Inductive EventType :=
  | RUN_STARTED | STEP_STARTED | STEP_SUCCEEDED | STEP_FAILED
  | RUN_SUCCEEDED | RUN_FAILED.

#[global] Instance StepType_eq_dec : EqDecision StepType.
Proof. solve_decision. Defined.
#[global] Instance RunStatus_eq_dec : EqDecision RunStatus.
Proof. solve_decision. Defined.
#[global] Instance EventType_eq_dec : EqDecision EventType.
Proof. solve_decision. Defined.

(** A timestamp is what [new Date().toISOString()] writes.  It is kept as
    the instant it stands for, in milliseconds since 1970, and compared the
    way the database compares the column: as text.  [toISOString] writes a
    year up to 9999 with four digits ("2026-11-03T10:15:30.000Z") and a
    later year with a sign and six digits ("+010000-01-01T00:00:00.000Z").
    The texts of one form have one length and the same fields, so their
    order is the order of the instants; and "+" sorts before every digit,
    so every text of the second form sorts before every text of the first.
    [iso_rank t] is the place of the text of [t] in that order.  A [Date]
    holds no instant after [latest_instant]. *)
Definition Time := nat.

(* 9999-12-31T23:59:59.999Z *)
Definition last_four_digit_instant : Z := 253402300799999.
Definition latest_instant : Z := 8640000000000000.

Definition iso_rank (t : Time) : Z :=
  if (Z.of_nat t <=? last_four_digit_instant)%Z then Z.of_nat t
  else (Z.of_nat t - latest_instant - 1)%Z.

(** A JSON value, the [config] of a step.  Numbers are kept integral: the
    code only tests them for truthiness. *)
#[local] Unset Elimination Schemes.
Inductive Json :=
  | JNull
  | JBool (b : bool)
  | JNum (n : Z)
  | JStr (s : string)
  | JArr (items : list Json)
  | JObj (fields : list (string * Json)).
#[local] Set Elimination Schemes.

(** [v?.k]: the property [k] of an object; [undefined] ([None]) for
    [null], for a missing key and for the values without such a property. *)
Fixpoint assoc_get (k : string) (fields : list (string * Json)) : option Json :=
  match fields with
  | [] => None
  | (k', v) :: rest => if String.eqb k k' then Some v else assoc_get k rest
  end.

Definition get_prop (v : Json) (k : string) : option Json :=
  match v with
  | JObj fields => assoc_get k fields
  | _ => None
  end.

(** JavaScript truthiness of [v?.k]. *)
Definition truthy (o : option Json) : bool :=
  match o with
  | None | Some JNull | Some (JBool false) | Some (JStr "") => false
  | Some (JNum n) => negb (n =? 0)%Z
  | Some _ => true
  end.

(** A row of [workflows]. *)
Record WorkflowRow := {
  wf_id : string;
  wf_name : string;
  wf_description : option string;
  wf_createdAt : Time
}.

(** A row of [workflow_steps]; [row_config] is the TEXT column, which holds
    the JSON text of a value ([JSON.stringify], read back by [JSON.parse]) or
    NULL. *)
Record StepRow := {
  row_id : string;
  row_workflow_id : string;
  row_name : string;
  row_type : StepType;
  row_config : option Json;
  row_step_order : Z
}.

Record WorkflowStep := {
  ws_id : string;
  ws_workflowId : string;
  ws_name : string;
  ws_type : StepType;
  ws_config : Json;
  ws_order : Z
}.

Record Workflow := {
  w_id : string;
  w_name : string;
  w_description : option string;
  w_createdAt : Time;
  w_steps : list WorkflowStep
}.

Record WorkflowRun := {
  run_id : string;
  run_workflowId : string;
  run_status : RunStatus;
  run_createdAt : Time;
  run_startedAt : option Time;
  run_finishedAt : option Time
}.

Record StepRun := {
  sr_id : string;
  sr_workflowRunId : string;
  sr_workflowStepId : string;
  sr_status : RunStatus;
  sr_startedAt : option Time;
  sr_finishedAt : option Time
}.

Record Event := {
  ev_id : string;
  ev_workflowRunId : string;
  ev_stepRunId : option string;
  ev_type : EventType;
  ev_message : string;
  ev_createdAt : Time
}.

(** The database file: the five tables of the schema ([db.ts], lines 69-114)
    and the connection's [foreign_keys] pragma.  The code never sets the
    pragma; better-sqlite3 builds SQLite with foreign keys on by default, so
    [empty_db] has it on. *)
Record Db := {
  foreign_keys : bool;
  workflows : list WorkflowRow;
  workflow_steps : list StepRow;
  workflow_runs : list WorkflowRun;
  step_runs : list StepRun;
  events : list Event
}.

Definition set_workflows (l : list WorkflowRow) (d : Db) : Db :=
  {| foreign_keys := foreign_keys d; workflows := l;
     workflow_steps := workflow_steps d; workflow_runs := workflow_runs d;
     step_runs := step_runs d; events := events d |}.
Definition set_workflow_steps (l : list StepRow) (d : Db) : Db :=
  {| foreign_keys := foreign_keys d; workflows := workflows d;
     workflow_steps := l; workflow_runs := workflow_runs d;
     step_runs := step_runs d; events := events d |}.
Definition set_workflow_runs (l : list WorkflowRun) (d : Db) : Db :=
  {| foreign_keys := foreign_keys d; workflows := workflows d;
     workflow_steps := workflow_steps d; workflow_runs := l;
     step_runs := step_runs d; events := events d |}.
Definition set_step_runs (l : list StepRun) (d : Db) : Db :=
  {| foreign_keys := foreign_keys d; workflows := workflows d;
     workflow_steps := workflow_steps d; workflow_runs := workflow_runs d;
     step_runs := l; events := events d |}.
Definition set_events (l : list Event) (d : Db) : Db :=
  {| foreign_keys := foreign_keys d; workflows := workflows d;
     workflow_steps := workflow_steps d; workflow_runs := workflow_runs d;
     step_runs := step_runs d; events := l |}.

Definition empty_db : Db :=
  {| foreign_keys := true; workflows := []; workflow_steps := [];
     workflow_runs := []; step_runs := []; events := [] |}.

(** ** Exceptions *)

Inductive Exn :=
  | JsError (message : string)       (* [new Error(message)] *)
  | SqliteError (message : string)   (* thrown by a statement *)
  | TypeError (message : string).    (* thrown when a parameter is bound *)

(** [err?.message ?? err] in a template literal. *)
Definition exn_message (e : Exn) : string :=
  match e with JsError m | SqliteError m | TypeError m => m end.

Inductive Result (A : Type) :=
  | Ok (a : A)
  | Throw (e : Exn).
Arguments Ok {A} a.
Arguments Throw {A} e.

Definition map_result {A B} (f : A -> B) (r : Result A) : Result B :=
  match r with
  | Ok a => Ok (f a)
  | Throw e => Throw e
  end.
Infix "<$$>" := map_result (at level 61, left associativity).

(** ** Suspended calls of the Executor

    [execute] ([executor.ts], lines 29-77) and [runNonManualStep] (lines
    79-125) are cut at their [await]s.  A [Pc] is the place where a
    scheduling task waits, with the local variables that are live there. *)

Inductive Pc :=
  (* line 37: [await publishRun] after RUN_STARTED *)
  | AfterRunStarted (workflowId : string)
  (* line 65: [await publishRun] for a pending manual step; next is line 67 *)
  | AfterManualPublish
  (* line 92: [await publishRun] after STEP_STARTED; next is the try block *)
  | AfterStepStarted (stepRun : StepRun) (type : StepType) (config : Json)
      (rest : list WorkflowStep) (stepRunMap : gmap string StepRun)
  (* line 97: [await sleep] *)
  | Sleeping (stepRun : StepRun)
      (rest : list WorkflowStep) (stepRunMap : gmap string StepRun)
  (* line 102: [await fetch] *)
  | Fetching (url method : Json) (stepRun : StepRun)
      (rest : list WorkflowStep) (stepRunMap : gmap string StepRun)
  (* lines 112 and 123: the last [await publishRun] of [runNonManualStep];
     next is line 71 *)
  | AfterStepPublish
      (rest : list WorkflowStep) (stepRunMap : gmap string StepRun)
  (* line 76: [await publishRun] after RUN_SUCCEEDED *)
  | AfterRunSucceeded
  (* the promise of [execute] is settled; its [finally] callback is due *)
  | Settled (outcome : Result unit).

Record Task := {
  task_runId : string;
  task_pc : Pc
}.

(** The calls of the API that are suspended at an [await]:
    [completeManualStep] ([executor.ts], lines 127-155) and the [startRun]
    resolver. *)
Inductive Response :=
  | WorkflowResponse (workflow : Workflow)
  | StepRunResponse (stepRun : option StepRun)
  | RunResponse (run : WorkflowRun) (stepRuns : list StepRun) (events : list Event).

Inductive ReqPc :=
  (* line 139: [await publishRun] after the step's event *)
  | CmsAfterStepPublish (stepRunId : string) (success : bool) (stepRun : StepRun)
  (* line 148: [await publishRun] after RUN_FAILED *)
  | CmsAfterRunPublish (stepRunId : string)
  (* line 153: [await enqueueRun] *)
  | CmsAfterEnqueue (stepRunId : string)
  (* [startRun]: [await enqueueRun] *)
  | StartAfterEnqueue (run : WorkflowRun)
  (* the call has returned or thrown *)
  | Replied (response : Result Response).

(** ** The world *)

Record World := {
  db : Db;
  clockReads : nat;             (* calls of [now()] so far *)
  idDraws : nat;                (* calls of [nanoid()] so far *)
  activeRuns : gset string;     (* [executor.ts], line 17 *)
  published : list string;      (* topics given to [pubsub.publish], oldest first *)
  tasks : list Task;            (* scheduling tasks that have not been finalised *)
  requests : list ReqPc         (* calls of the API in flight *)
}.

Definition empty_world : World :=
  {| db := empty_db; clockReads := 0; idDraws := 0; activeRuns := ∅;
     published := []; tasks := []; requests := [] |}.

Definition with_db (d : Db) (w : World) : World :=
  {| db := d; clockReads := clockReads w; idDraws := idDraws w;
     activeRuns := activeRuns w; published := published w; tasks := tasks w;
     requests := requests w |}.

Definition with_activeRuns (s : gset string) (w : World) : World :=
  {| db := db w; clockReads := clockReads w; idDraws := idDraws w;
     activeRuns := s; published := published w; tasks := tasks w;
     requests := requests w |}.

Definition with_tasks (ts : list Task) (w : World) : World :=
  {| db := db w; clockReads := clockReads w; idDraws := idDraws w;
     activeRuns := activeRuns w; published := published w; tasks := ts;
     requests := requests w |}.

Definition tick (w : World) : World :=
  {| db := db w; clockReads := S (clockReads w); idDraws := idDraws w;
     activeRuns := activeRuns w; published := published w; tasks := tasks w;
     requests := requests w |}.

Definition draw (w : World) : World :=
  {| db := db w; clockReads := clockReads w; idDraws := S (idDraws w);
     activeRuns := activeRuns w; published := published w; tasks := tasks w;
     requests := requests w |}.

Definition with_published (l : list string) (w : World) : World :=
  {| db := db w; clockReads := clockReads w; idDraws := idDraws w;
     activeRuns := activeRuns w; published := l; tasks := tasks w;
     requests := requests w |}.

Definition with_requests (l : list ReqPc) (w : World) : World :=
  {| db := db w; clockReads := clockReads w; idDraws := idDraws w;
     activeRuns := activeRuns w; published := published w; tasks := tasks w;
     requests := l |}.

(** ** The monad of the code: state, and exceptions that keep the state *)

Definition M (A : Type) : Type := World -> Result A * World.

Definition ret {A} (a : A) : M A := fun w => (Ok a, w).

Definition throw {A} (e : Exn) : M A := fun w => (Throw e, w).

Definition bind {A B} (c : M A) (k : A -> M B) : M B :=
  fun w =>
    match c w with
    | (Ok a, w') => k a w'
    | (Throw e, w') => (Throw e, w')
    end.

Declare Scope m_scope.
Delimit Scope m_scope with m.
Notation "'let*' x ':=' c 'in' k" := (bind c (fun x => k))
  (at level 10, x name, c at level 100, k at level 200) : m_scope.
Notation "c '>>' k" := (bind c (fun _ => k))
  (at level 100, k at level 200, right associativity) : m_scope.
Local Open Scope m_scope.

(** [try { body } catch (err) { handler }] *)
Definition try_catch {A} (body : M A) (handler : Exn -> M A) : M A :=
  fun w =>
    match body w with
    | (Ok a, w') => (Ok a, w')
    | (Throw e, w') => handler e w'
    end.

(** [db.transaction(() => body)()]: an exception rolls the database back to
    what it was and is thrown again. *)
Definition transaction {A} (body : M A) : M A :=
  fun w =>
    match body w with
    | (Ok a, w') => (Ok a, w')
    | (Throw e, w') => (Throw e, with_db (db w) w')
    end.

(** [list.forEach(f)] *)
Fixpoint forEach {A} (f : A -> M unit) (l : list A) : M unit :=
  match l with
  | [] => ret tt
  | x :: rest => f x >> forEach f rest
  end.

Definition get_db : M Db := fun w => (Ok (db w), w).
Definition put_db (d : Db) : M unit := fun w => (Ok tt, with_db d w).

(** ** The environment: the clock and the identifier generator *)

Record Env := {
  clock : nat -> Time;     (* the n-th reading of the clock *)
  ids : nat -> string      (* the n-th identifier drawn by nanoid *)
}.

Section Store.

Context (env : Env).

(** [now()], [db.ts] line 116 *)
Definition now : M Time :=
  fun w => (Ok (clock env (clockReads w)), tick w).

Definition nanoid : M string :=
  fun w => (Ok (ids env (idDraws w)), draw w).

(** *** SQL statements

    A statement throws when it would break a constraint of the schema: the
    PRIMARY KEY of its table, or, with the [foreign_keys] pragma on, one of
    the table's FOREIGN KEY clauses. *)

Definition has_workflow (d : Db) (id : string) : bool :=
  existsb (fun r => String.eqb (wf_id r) id) (workflows d).
Definition has_step (d : Db) (id : string) : bool :=
  existsb (fun r => String.eqb (row_id r) id) (workflow_steps d).
Definition has_run (d : Db) (id : string) : bool :=
  existsb (fun r => String.eqb (run_id r) id) (workflow_runs d).
Definition has_step_run (d : Db) (id : string) : bool :=
  existsb (fun r => String.eqb (sr_id r) id) (step_runs d).
Definition has_event (d : Db) (id : string) : bool :=
  existsb (fun r => String.eqb (ev_id r) id) (events d).

(** A reference is accepted when the pragma is off or the row exists. *)
Definition fk_ok (d : Db) (referenced : bool) : bool :=
  negb (foreign_keys d) || referenced.

Definition unique_failed (column : string) : Exn :=
  SqliteError ("UNIQUE constraint failed: " +:+ column).
Definition fk_failed : Exn := SqliteError "FOREIGN KEY constraint failed".

Definition insert_workflow (r : WorkflowRow) : M unit :=
  let* d := get_db in
  if has_workflow d (wf_id r) then throw (unique_failed "workflows.id")
  else put_db (set_workflows (workflows d ++ [r]) d).

Definition insert_step (r : StepRow) : M unit :=
  let* d := get_db in
  if has_step d (row_id r) then throw (unique_failed "workflow_steps.id")
  else if negb (fk_ok d (has_workflow d (row_workflow_id r))) then throw fk_failed
  else put_db (set_workflow_steps (workflow_steps d ++ [r]) d).

Definition insert_run (r : WorkflowRun) : M unit :=
  let* d := get_db in
  if has_run d (run_id r) then throw (unique_failed "workflow_runs.id")
  else if negb (fk_ok d (has_workflow d (run_workflowId r))) then throw fk_failed
  else put_db (set_workflow_runs (workflow_runs d ++ [r]) d).

Definition insert_step_run (r : StepRun) : M unit :=
  let* d := get_db in
  if has_step_run d (sr_id r) then throw (unique_failed "step_runs.id")
  else if negb (fk_ok d (has_run d (sr_workflowRunId r)
                         && has_step d (sr_workflowStepId r)))
       then throw fk_failed
  else put_db (set_step_runs (step_runs d ++ [r]) d).

Definition insert_event (r : Event) : M unit :=
  let* d := get_db in
  if has_event d (ev_id r) then throw (unique_failed "events.id")
  else if negb (fk_ok d (has_run d (ev_workflowRunId r)
                         && match ev_stepRunId r with
                            | None => true
                            | Some s => has_step_run d s
                            end))
       then throw fk_failed
  else put_db (set_events (events d ++ [r]) d).

(** [DELETE FROM workflow_steps WHERE workflow_id = ?].  With foreign keys
    on, ON DELETE CASCADE removes the step runs of the deleted steps and the
    events of those step runs. *)
Definition cascade_delete_steps (workflowId : string) (d : Db) : Db :=
  let doomed r := String.eqb (row_workflow_id r) workflowId in
  let gone_steps := map row_id (List.filter doomed (workflow_steps d)) in
  let sr_doomed (r : StepRun) :=
    foreign_keys d && existsb (String.eqb (sr_workflowStepId r)) gone_steps in
  let gone_step_runs := map sr_id (List.filter sr_doomed (step_runs d)) in
  let ev_doomed (r : Event) :=
    match ev_stepRunId r with
    | None => false
    | Some s => existsb (String.eqb s) gone_step_runs
    end in
  set_workflow_steps (List.filter (fun r => negb (doomed r)) (workflow_steps d))
    (set_step_runs (List.filter (fun r => negb (sr_doomed r)) (step_runs d))
       (set_events (List.filter (fun r => negb (ev_doomed r)) (events d)) d)).

Definition delete_steps (workflowId : string) : M unit :=
  let* d := get_db in
  put_db (cascade_delete_steps workflowId d).

(** [ORDER BY key ASC]: rows with equal keys stay in rowid order. *)
Fixpoint insert_by {A} (key : A -> Z) (x : A) (l : list A) : list A :=
  match l with
  | [] => [x]
  | y :: l' => if (key x <=? key y)%Z then x :: y :: l' else y :: insert_by key x l'
  end.

Fixpoint order_by {A} (key : A -> Z) (l : list A) : list A :=
  match l with
  | [] => []
  | x :: l' => insert_by key x (order_by key l')
  end.

(** *** The Store's functions *)

(** lines 143-155 *)
Definition step_of_row (r : StepRow) : WorkflowStep :=
  {| ws_id := row_id r;
     ws_workflowId := row_workflow_id r;
     ws_name := row_name r;
     ws_type := row_type r;
     ws_config := match row_config r with Some v => v | None => JNull end;
     ws_order := row_step_order r |}.

Definition select_steps (d : Db) (workflowId : string) : list WorkflowStep :=
  map step_of_row
    (order_by row_step_order
       (List.filter (fun r => String.eqb (row_workflow_id r) workflowId)
          (workflow_steps d))).

Definition listWorkflowSteps (workflowId : string) : M (list WorkflowStep) :=
  let* d := get_db in
  ret (select_steps d workflowId).

(** [SELECT * FROM workflows WHERE id = ?] *)
Definition lookup_workflow (d : Db) (id : string) : option WorkflowRow :=
  List.find (fun r => String.eqb (wf_id r) id) (workflows d).

(** lines 131-141 *)
Definition getWorkflow (id : string) : M (option Workflow) :=
  let* d := get_db in
  match lookup_workflow d id with
  | None => ret None
  | Some row =>
      let* steps := listWorkflowSteps id in
      ret (Some {| w_id := wf_id row; w_name := wf_name row;
                   w_description := wf_description row;
                   w_createdAt := wf_createdAt row; w_steps := steps |})
  end.

(** The [steps] of the input of [createWorkflow] and [updateWorkflow]:
    [si_id] is absent for [createWorkflow]; [si_config] is [None] when the
    property is absent. *)
Record StepInput := {
  si_id : option string;
  si_name : string;
  si_type : StepType;
  si_config : option Json;
  si_order : Z
}.

(** [JSON.stringify(s.config ?? {})] *)
Definition stored_config (c : option Json) : option Json :=
  match c with
  | None | Some JNull => Some (JObj [])
  | Some v => Some v
  end.

(** lines 157-178 *)
Definition createWorkflow (name : string) (description : option string)
    (steps : list StepInput) : M Workflow :=
  let* id := nanoid in
  let* createdAt := now in
  transaction
    (insert_workflow {| wf_id := id; wf_name := name;
                        wf_description := description;
                        wf_createdAt := createdAt |} >>
     forEach (fun s =>
        let* sid := nanoid in
        insert_step {| row_id := sid; row_workflow_id := id;
                       row_name := si_name s; row_type := si_type s;
                       row_config := stored_config (si_config s);
                       row_step_order := si_order s |}) steps) >>
  let* wf := getWorkflow id in
  match wf with
  | Some wf => ret wf
  | None => throw (JsError "getWorkflow returned null")
  end.

(** [UPDATE workflows SET name = ?, description = ? WHERE id = ?] *)
Definition update_workflow_row (id name : string) (description : option string)
    : M unit :=
  let* d := get_db in
  put_db (set_workflows
            (map (fun r => if String.eqb (wf_id r) id
                           then {| wf_id := wf_id r; wf_name := name;
                                   wf_description := description;
                                   wf_createdAt := wf_createdAt r |}
                           else r) (workflows d)) d).

(** lines 180-210; [description] is [None] when absent or null *)
Definition updateWorkflow (id : string) (name : option string)
    (description : option string) (steps : list StepInput) : M Workflow :=
  let* existing := getWorkflow id in
  match existing with
  | None => throw (JsError "Workflow not found")
  | Some existing =>
      transaction
        (update_workflow_row id
           (match name with Some n => n | None => w_name existing end)
           (match description with
            | Some x => Some x
            | None => w_description existing
            end) >>
         delete_steps id >>
         forEach (fun s =>
            let* sid := match si_id s with
                        | Some i => ret i
                        | None => nanoid
                        end in
            insert_step {| row_id := sid; row_workflow_id := id;
                           row_name := si_name s; row_type := si_type s;
                           row_config := stored_config (si_config s);
                           row_step_order := si_order s |}) steps) >>
      let* wf := getWorkflow id in
      match wf with
      | Some wf => ret wf
      | None => throw (JsError "getWorkflow returned null")
      end
  end.

(** lines 229-240 *)
Definition lookup_run (d : Db) (id : string) : option WorkflowRun :=
  List.find (fun r => String.eqb (run_id r) id) (workflow_runs d).

Definition getRun (id : string) : M (option WorkflowRun) :=
  let* d := get_db in
  ret (lookup_run d id).

(** lines 212-227 *)
Definition createRun (workflowId : string) : M WorkflowRun :=
  let* id := nanoid in
  let* createdAt := now in
  insert_run {| run_id := id; run_workflowId := workflowId;
                run_status := PENDING; run_createdAt := createdAt;
                run_startedAt := None; run_finishedAt := None |} >>
  let* steps := listWorkflowSteps workflowId in
  transaction
    (forEach (fun s =>
        let* srid := nanoid in
        insert_step_run {| sr_id := srid; sr_workflowRunId := id;
                           sr_workflowStepId := ws_id s;
                           sr_status := PENDING;
                           sr_startedAt := None; sr_finishedAt := None |})
       steps) >>
  let* run := getRun id in
  match run with
  | Some run => ret run
  | None => throw (JsError "getRun returned null")
  end.

(** lines 256-268: [ORDER BY rowid ASC] *)
Definition select_step_runs (d : Db) (runId : string) : list StepRun :=
  List.filter (fun r => String.eqb (sr_workflowRunId r) runId) (step_runs d).

Definition listStepRuns (runId : string) : M (list StepRun) :=
  let* d := get_db in
  ret (select_step_runs d runId).

(** lines 270-282: [ORDER BY created_at ASC] *)
Definition select_events (d : Db) (runId : string) : list Event :=
  order_by (fun e => iso_rank (ev_createdAt e))
    (List.filter (fun r => String.eqb (ev_workflowRunId r) runId) (events d)).

Definition listEvents (runId : string) : M (list Event) :=
  let* d := get_db in
  ret (select_events d runId).

(** [COALESCE(old, new)] *)
Definition coalesce {A} (old new : option A) : option A :=
  match old with
  | Some x => Some x
  | None => new
  end.

Definition is_terminal (s : RunStatus) : bool :=
  match s with
  | SUCCEEDED | FAILED => true
  | _ => false
  end.

(** The status parameter of the two UPDATE statements reads the clock when
    it is not NULL. *)
Definition now_if (b : bool) : M (option Time) :=
  if b then (let* t := now in ret (Some t)) else ret None.

(** The row that [UPDATE workflow_runs SET status = ?, started_at =
    COALESCE(started_at, ?), finished_at = COALESCE(finished_at, ?)] writes. *)
Definition stamp_run (status : RunStatus) (started finished : option Time)
    (r : WorkflowRun) : WorkflowRun :=
  {| run_id := run_id r;
     run_workflowId := run_workflowId r;
     run_status := status;
     run_createdAt := run_createdAt r;
     run_startedAt := coalesce (run_startedAt r) started;
     run_finishedAt := coalesce (run_finishedAt r) finished |}.

Definition stamp_step_run (status : RunStatus) (started finished : option Time)
    (r : StepRun) : StepRun :=
  {| sr_id := sr_id r;
     sr_workflowRunId := sr_workflowRunId r;
     sr_workflowStepId := sr_workflowStepId r;
     sr_status := status;
     sr_startedAt := coalesce (sr_startedAt r) started;
     sr_finishedAt := coalesce (sr_finishedAt r) finished |}.

(** [UPDATE workflow_runs SET ... WHERE id = ?] *)
Definition update_run_row (runId : string) (status : RunStatus)
    (started finished : option Time) : M unit :=
  let* d := get_db in
  put_db (set_workflow_runs
            (map (fun r => if String.eqb (run_id r) runId
                           then stamp_run status started finished r
                           else r) (workflow_runs d)) d).

(** [UPDATE step_runs SET ... WHERE id = ?] *)
Definition update_step_run_row (stepRunId : string) (status : RunStatus)
    (started finished : option Time) : M unit :=
  let* d := get_db in
  put_db (set_step_runs
            (map (fun r => if String.eqb (sr_id r) stepRunId
                           then stamp_step_run status started finished r
                           else r) (step_runs d)) d).

(** lines 284-290 *)
Definition updateRunStatus (runId : string) (status : RunStatus) : M unit :=
  let* finished := now_if (is_terminal status) in
  let* started := now_if (bool_decide (status = RUNNING)) in
  update_run_row runId status started finished.

(** lines 292-301 *)
Definition updateStepRunStatus (stepRunId : string) (status : RunStatus)
    : M unit :=
  let* finished := now_if (is_terminal status) in
  let* started := now_if (bool_decide (status = RUNNING)) in
  update_step_run_row stepRunId status started finished.

(** [updateStepRunStatus] called with an identifier that is [undefined]:
    the parameters are computed as above, the clock being read for them,
    and [run] refuses the identifier before the statement is executed
    (better-sqlite3 binds numbers, strings, bigints, buffers and null), so
    the call never returns. *)
Definition bind_refused : Exn :=
  TypeError "SQLite3 can only bind numbers, strings, bigints, buffers, and null".

Definition updateStepRunStatus_undefined {A} (status : RunStatus) : M A :=
  let* finished := now_if (is_terminal status) in
  let* started := now_if (bool_decide (status = RUNNING)) in
  throw bind_refused.

(** lines 303-312 *)
Definition appendEvent (workflowRunId : string) (stepRunId : option string)
    (type : EventType) (message : string) : M unit :=
  let* id := nanoid in
  let* t := now in
  insert_event {| ev_id := id; ev_workflowRunId := workflowRunId;
                  ev_stepRunId := stepRunId; ev_type := type;
                  ev_message := message; ev_createdAt := t |}.

(** lines 314-325 *)
Definition lookup_step_run (d : Db) (id : string) : option StepRun :=
  List.find (fun r => String.eqb (sr_id r) id) (step_runs d).

Definition getStepRunById (id : string) : M (option StepRun) :=
  let* d := get_db in
  ret (lookup_step_run d id).

(** lines 327-330: [Object.fromEntries]; a later entry with the same key
    replaces an earlier one.  The map holds the entries of the object; what
    reading the object under a key gives is [get_property] below. *)
Definition fromEntries (list : list StepRun) : gmap string StepRun :=
  fold_left (fun m s => <[sr_workflowStepId s := s]> m) list ∅.

Definition getStepRunsMap (runId : string) : M (gmap string StepRun) :=
  let* list := listStepRuns runId in
  ret (fromEntries list).

End Store.

(** ** Reading the map of the step runs

    [stepRunMap[key]] ([executor.ts], line 43).  The map is a plain object,
    so a key that is no entry of [Object.fromEntries] is looked up in
    [Object.prototype].  What is found there is a function or, under
    ["__proto__"], the prototype itself: a value that is truthy and has
    neither a [status] nor an [id].  An entry hides the member of the
    prototype that has its name, ["__proto__"] included. *)
Inductive Property :=
  | Own (stepRun : StepRun)   (* an entry of the map *)
  | Inherited                 (* a member of [Object.prototype] *)
  | Undefined.

Definition object_prototype : list string :=
  ["constructor"; "hasOwnProperty"; "isPrototypeOf"; "propertyIsEnumerable";
   "toLocaleString"; "toString"; "valueOf"; "__proto__";
   "__defineGetter__"; "__defineSetter__";
   "__lookupGetter__"; "__lookupSetter__"].

Definition get_property (stepRunMap : gmap string StepRun) (key : string)
    : Property :=
  match stepRunMap !! key with
  | Some stepRun => Own stepRun
  | None =>
      if bool_decide (key ∈ object_prototype) then Inherited else Undefined
  end.

(** ** The Executor ([executor.ts]) and the resolvers that call it *)

(** What [await fetch(url, { method })] gives: a response, of which the code
    reads [status] and [ok], or a rejection (network error, bad URL). *)
Inductive Fetched :=
  | FetchResponse (status : nat)
  | FetchRejected (message : string).

(** [res.ok] *)
Definition response_ok (status : nat) : bool :=
  (200 <=? status)%nat && (status <=? 299)%nat.

Section Executor.

Context (env : Env).

(** lines 157-159 *)
Definition publishRun (runId : string) : M unit :=
  fun w => (Ok tt, with_published (published w ++ ["runUpdated:" +:+ runId]) w).

(** lines 30-37: [execute] from its call to its first [await] *)
Definition execute_start (runId : string) : M Pc :=
  let* run := getRun runId in
  match run with
  | None => ret (Settled (Ok tt))
  | Some run =>
      let* workflow := getWorkflow (run_workflowId run) in
      match workflow with
      | None => ret (Settled (Ok tt))
      | Some workflow =>
          updateRunStatus env runId RUNNING >>
          appendEvent env runId None RUN_STARTED "Run started" >>
          publishRun runId >>
          ret (AfterRunStarted (w_id workflow))
      end
  end.

(** lines 85-92: [runNonManualStep] up to its first [await] *)
Definition runNonManualStep_start (runId : string) (stepRun : StepRun) : M unit :=
  updateStepRunStatus env (sr_id stepRun) RUNNING >>
  appendEvent env runId (Some (sr_id stepRun)) STEP_STARTED "Step started" >>
  publishRun runId.

(** lines 42-76: the loop over the steps that are left, up to the next
    [await] or [return] *)
Fixpoint execute_loop (runId : string) (stepRunMap : gmap string StepRun)
    (steps : list WorkflowStep) : M Pc :=
  match steps with
  | [] =>
      updateRunStatus env runId SUCCEEDED >>
      appendEvent env runId None RUN_SUCCEEDED "Run succeeded" >>
      publishRun runId >>
      ret AfterRunSucceeded
  | step :: rest =>
      match get_property stepRunMap (ws_id step) with
      | Undefined => execute_loop runId stepRunMap rest
      | Inherited =>
          (* truthy, and its [status] is none of the three that are tested;
             [runNonManualStep] passes its [id] on at line 85 *)
          match ws_type step with
          | MANUAL => ret (Settled (Ok tt))
          | _ => updateStepRunStatus_undefined env RUNNING
          end
      | Own stepRun =>
          match sr_status stepRun with
          | SUCCEEDED => execute_loop runId stepRunMap rest
          | FAILED =>
              updateRunStatus env runId FAILED >>
              appendEvent env runId (Some (sr_id stepRun)) RUN_FAILED
                "Run already failed" >>
              ret (Settled (Ok tt))
          | status =>
              match ws_type step with
              | MANUAL =>
                  if decide (status = PENDING) then
                    appendEvent env runId (Some (sr_id stepRun)) STEP_STARTED
                      ("Manual step '" +:+ ws_name step +:+ "' awaiting completion") >>
                    publishRun runId >>
                    ret AfterManualPublish
                  else ret (Settled (Ok tt))
              | type =>
                  runNonManualStep_start runId stepRun >>
                  ret (AfterStepStarted stepRun type (ws_config step) rest stepRunMap)
              end
          end
      end
  end.

(** lines 113-123: the [catch] block *)
Definition runNonManualStep_catch (runId : string) (stepRun : StepRun)
    (err : Exn) : M unit :=
  updateStepRunStatus env (sr_id stepRun) FAILED >>
  appendEvent env runId (Some (sr_id stepRun)) STEP_FAILED
    ("Step failed: " +:+ exn_message err) >>
  updateRunStatus env runId FAILED >>
  appendEvent env runId None RUN_FAILED "Run failed" >>
  publishRun runId.

(** lines 105-112: the end of the [try] block *)
Definition runNonManualStep_succeed (runId : string) (stepRun : StepRun) : M unit :=
  updateStepRunStatus env (sr_id stepRun) SUCCEEDED >>
  appendEvent env runId (Some (sr_id stepRun)) STEP_SUCCEEDED "Step succeeded" >>
  publishRun runId.

(** The rest of the [try] block once the handler has returned or thrown. *)
Definition runNonManualStep_finish (runId : string) (stepRun : StepRun)
    (handler : Result unit) : M unit :=
  try_catch
    (match handler with
     | Ok _ => runNonManualStep_succeed runId stepRun
     | Throw err => throw err
     end)
    (runNonManualStep_catch runId stepRun).

(** One task from the [await] it waits at to the next one; [fetched] is
    read by a task that waits for [fetch] and by no other. *)
Definition execute_resume (runId : string) (pc : Pc) (fetched : Fetched) : M Pc :=
  match pc with
  | AfterRunStarted workflowId =>
      let* steps := listWorkflowSteps workflowId in
      let* stepRunMap := getStepRunsMap runId in
      execute_loop runId stepRunMap steps
  | AfterManualPublish => ret (Settled (Ok tt))
  | AfterStepStarted stepRun type config rest stepRunMap =>
      match type with
      | DELAY => ret (Sleeping stepRun rest stepRunMap)
      | HTTP =>
          let url := get_prop config "url" in
          if truthy url then
            ret (Fetching
                   (default JNull url)
                   (match get_prop config "method" with
                    | None | Some JNull => JStr "GET"
                    | Some m => m
                    end)
                   stepRun rest stepRunMap)
          else
            runNonManualStep_finish runId stepRun (Throw (JsError "Missing url")) >>
            ret (AfterStepPublish rest stepRunMap)
      | MANUAL =>
          runNonManualStep_finish runId stepRun (Ok tt) >>
          ret (AfterStepPublish rest stepRunMap)
      end
  | Sleeping stepRun rest stepRunMap =>
      runNonManualStep_finish runId stepRun (Ok tt) >>
      ret (AfterStepPublish rest stepRunMap)
  | Fetching _ _ stepRun rest stepRunMap =>
      runNonManualStep_finish runId stepRun
        (match fetched with
         | FetchResponse status =>
             if response_ok status then Ok tt
             else Throw (JsError ("HTTP " +:+ pretty status))
         | FetchRejected message => Throw (JsError message)
         end) >>
      ret (AfterStepPublish rest stepRunMap)
  | AfterStepPublish rest stepRunMap =>
      let* run := getRun runId in
      if decide (run_status <$> run = Some FAILED) then ret (Settled (Ok tt))
      else execute_loop runId stepRunMap rest
  | AfterRunSucceeded => ret (Settled (Ok tt))
  | Settled outcome => ret (Settled outcome)
  end.

(** An exception that leaves [execute] rejects its promise. *)
Definition settle (r : Result Pc) : Pc :=
  match r with
  | Ok pc => pc
  | Throw err => Settled (Throw err)
  end.

(** lines 23-27.  [execute(runId)] runs up to its first [await] inside the
    call; the task it leaves behind carries the [finally] callback. *)
Definition enqueueRun (runId : string) : M unit :=
  fun w =>
    if decide (runId ∈ activeRuns w) then (Ok tt, w)
    else
      let w1 := with_activeRuns ({[runId]} ∪ activeRuns w) w in
      let (r, w2) := execute_start runId w1 in
      (Ok tt,
       with_tasks (tasks w2 ++ [{| task_runId := runId; task_pc := settle r |}]) w2).

(** lines 132-139: the step run's transition and its event *)
Definition completeManualStep_record (stepRunId : string) (success : bool)
    (stepRun : StepRun) : M unit :=
  updateStepRunStatus env stepRunId (if success then SUCCEEDED else FAILED) >>
  appendEvent env (sr_workflowRunId stepRun) (Some stepRunId)
    (if success then STEP_SUCCEEDED else STEP_FAILED)
    (if success then "Manual step completed" else "Manual step failed") >>
  publishRun (sr_workflowRunId stepRun).

(** lines 142-148: the run fails with the step *)
Definition completeManualStep_fail (stepRun : StepRun) : M unit :=
  updateRunStatus env (sr_workflowRunId stepRun) FAILED >>
  appendEvent env (sr_workflowRunId stepRun) None RUN_FAILED
    "Run failed by manual step" >>
  publishRun (sr_workflowRunId stepRun).

(** lines 127-155, as one call that nothing interrupts at its [await]s *)
Definition completeManualStep (stepRunId : string) (success : bool)
    : M (option StepRun) :=
  let* stepRun := getStepRunById stepRunId in
  match stepRun with
  | None => throw (JsError "StepRun not found")
  | Some stepRun =>
      if is_terminal (sr_status stepRun) then ret (Some stepRun)
      else
        completeManualStep_record stepRunId success stepRun >>
        if negb success then
          completeManualStep_fail stepRun >>
          getStepRunById stepRunId
        else
          enqueueRun (sr_workflowRunId stepRun) >>
          getStepRunById stepRunId
  end.

(** The same function cut at its [await]s: lines 128-139, *)
Definition completeManualStep_start (stepRunId : string) (success : bool)
    : M ReqPc :=
  let* stepRun := getStepRunById stepRunId in
  match stepRun with
  | None => throw (JsError "StepRun not found")
  | Some stepRun =>
      if is_terminal (sr_status stepRun)
      then ret (Replied (Ok (StepRunResponse (Some stepRun))))
      else
        completeManualStep_record stepRunId success stepRun >>
        ret (CmsAfterStepPublish stepRunId success stepRun)
  end.

(** the [startRun] resolver up to its [await], *)
Definition startRun_start (workflowId : string) : M ReqPc :=
  let* run := createRun env workflowId in
  appendEvent env (run_id run) None RUN_STARTED "Run enqueued" >>
  enqueueRun (run_id run) >>
  ret (StartAfterEnqueue run).

(** and a suspended call from one [await] to the next. *)
Definition request_resume (pc : ReqPc) : M ReqPc :=
  match pc with
  | CmsAfterStepPublish stepRunId success stepRun =>
      if negb success then
        completeManualStep_fail stepRun >>
        ret (CmsAfterRunPublish stepRunId)
      else
        enqueueRun (sr_workflowRunId stepRun) >>
        ret (CmsAfterEnqueue stepRunId)
  | CmsAfterRunPublish stepRunId | CmsAfterEnqueue stepRunId =>
      let* stepRun := getStepRunById stepRunId in
      ret (Replied (Ok (StepRunResponse stepRun)))
  | StartAfterEnqueue run =>
      let* stepRuns := listStepRuns (run_id run) in
      let* events := listEvents (run_id run) in
      ret (Replied (Ok (RunResponse run stepRuns events)))
  | Replied response => ret (Replied response)
  end.

(** An exception that leaves a call is its reply. *)
Definition reply (r : Result ReqPc) : ReqPc :=
  match r with
  | Ok pc => pc
  | Throw err => Replied (Throw err)
  end.

(** *** The engine as a transition system

    What can happen next: a call of the API arrives, a suspended call or a
    suspended scheduling task goes on to its next [await], or the [finally]
    callback of a settled task runs.  Tasks and calls are named by their
    position in [tasks] and [requests]. *)
Inductive Action :=
  | CallCreateWorkflow (name : string) (description : option string)
      (steps : list StepInput)
  | CallUpdateWorkflow (id : string) (name : option string)
      (description : option string) (steps : list StepInput)
  | CallStartRun (workflowId : string)
  | CallCompleteManualStep (stepRunId : string) (success : bool)
  | ResumeRequest (i : nat)
  | ResumeTask (i : nat) (fetched : Fetched)
  | Finalise (i : nat).


Definition is_settled (pc : Pc) : bool :=
  match pc with
  | Settled _ => true
  | _ => false
  end.

Definition step (a : Action) (w : World) : World :=
  match a with
  | CallCreateWorkflow name description steps =>
      let (r, w') := createWorkflow env name description steps w in
      with_requests (requests w' ++ [Replied (WorkflowResponse <$$> r)]) w'
  | CallUpdateWorkflow id name description steps =>
      let (r, w') := updateWorkflow env id name description steps w in
      with_requests (requests w' ++ [Replied (WorkflowResponse <$$> r)]) w'
  | CallStartRun workflowId =>
      let (r, w') := startRun_start workflowId w in
      with_requests (requests w' ++ [reply r]) w'
  | CallCompleteManualStep stepRunId success =>
      let (r, w') := completeManualStep_start stepRunId success w in
      with_requests (requests w' ++ [reply r]) w'
  | ResumeRequest i =>
      match requests w !! i with
      | Some pc =>
          let (r, w') := request_resume pc w in
          with_requests (<[i := reply r]> (requests w')) w'
      | None => w
      end
  | ResumeTask i fetched =>
      match tasks w !! i with
      | Some t =>
          let (r, w') := execute_resume (task_runId t) (task_pc t) fetched w in
          with_tasks
            (<[i := {| task_runId := task_runId t; task_pc := settle r |}]> (tasks w'))
            w'
      | None => w
      end
  | Finalise i =>
      match tasks w !! i with
      | Some t =>
          if is_settled (task_pc t) then
            with_activeRuns (activeRuns w ∖ {[task_runId t]})
              (with_tasks (delete i (tasks w)) w)
          else w
      | None => w
      end
  end.

Definition run_actions (actions : list Action) (w : World) : World :=
  fold_left (fun w a => step a w) actions w.

End Executor.

(** ** The listings of the Store ([db.ts]) *)

(** [rows.map((row) => f(row))] for an [f] that reads the database. *)
Fixpoint mapM {A B} (f : A -> M B) (l : list A) : M (list B) :=
  match l with
  | [] => ret []
  | x :: rest =>
      let* y := f x in
      let* ys := mapM f rest in
      ret (y :: ys)
  end.

(** [ORDER BY created_at DESC] *)
Definition newest_first {A} (createdAt : A -> Time) (l : list A) : list A :=
  order_by (fun r => (- iso_rank (createdAt r))%Z) l.

(** lines 120-129 *)
Definition listWorkflows : M (list Workflow) :=
  let* d := get_db in
  mapM (fun row =>
      let* steps := listWorkflowSteps (wf_id row) in
      ret {| w_id := wf_id row; w_name := wf_name row;
             w_description := wf_description row;
             w_createdAt := wf_createdAt row; w_steps := steps |})
    (newest_first wf_createdAt (workflows d)).

(** lines 242-254 *)
Definition listRuns (workflowId : string) : M (list WorkflowRun) :=
  let* d := get_db in
  ret (newest_first run_createdAt
         (List.filter (fun r => String.eqb (run_workflowId r) workflowId)
            (workflow_runs d))).

(** ** The web client ([apps/web], the workflow editor and the run graph)

    The client's [WorkflowStep] has the fields of [StepInput]: an optional
    [id], [name], [type], an optional [config] and [order]. *)

Definition with_order (order : Z) (s : StepInput) : StepInput :=
  {| si_id := si_id s; si_name := si_name s; si_type := si_type s;
     si_config := si_config s; si_order := order |}.

(** [l.filter((_, i) => p(i))], the first index being [i] *)
Fixpoint filter_index {A} (p : nat -> bool) (i : nat) (l : list A) : list A :=
  match l with
  | [] => []
  | x :: rest =>
      if p i then x :: filter_index p (S i) rest else filter_index p (S i) rest
  end.

(** [removeStep]: the step at [idx] is dropped and the others are numbered
    again. *)
Definition removeStep (idx : nat) (steps : list StepInput) : list StepInput :=
  imap (fun i s => with_order (Z.of_nat i) s)
    (filter_index (fun i => negb (Nat.eqb i idx)) 0 steps).

(** [addStep] *)
Definition addStep (steps : list StepInput) : list StepInput :=
  steps ++ [ {| si_id := None; si_name := "New Step"; si_type := HTTP;
                si_config := Some (JObj [("url", JStr "https://example.com")]);
                si_order := Z.of_nat (length steps) |} ].

(** The [steps] variable of the UpdateWorkflow mutation that "Save" sends:
    [wf.steps.map((s, idx) => ({ ..., config: s.config ?? {}, order: idx }))] *)
Definition saved_steps (steps : list StepInput) : list StepInput :=
  imap (fun idx s =>
      {| si_id := si_id s; si_name := si_name s; si_type := si_type s;
         si_config := Some (match si_config s with
                            | None | Some JNull => JObj []
                            | Some c => c
                            end);
         si_order := Z.of_nat idx |}) steps.

(** [colorForStatus] *)
Definition colorForStatus (status : option RunStatus) : string :=
  match status with
  | Some RUNNING => "#2563eb"
  | Some SUCCEEDED => "#16a34a"
  | Some FAILED => "#dc2626"
  | _ => "#6b7280"
  end.

(** What [RunGraph] gives to ReactFlow. *)
Record GraphNode := {
  node_id : string;
  node_label : string;
  node_x : Z;
  node_y : Z;
  node_background : string
}.

Record GraphEdge := {
  edge_id : string;
  edge_source : string;
  edge_target : string
}.

Definition type_name (t : StepType) : string :=
  match t with HTTP => "HTTP" | DELAY => "DELAY" | MANUAL => "MANUAL" end.

(** [step.id] in a template literal *)
Definition id_text (s : StepInput) : string := default "undefined" (si_id s).

(** [steps.map((step, idx) => ...)] of [RunGraph] *)
Definition graph_nodes (steps : list StepInput) (stepRuns : list StepRun)
    : list GraphNode :=
  let stepRunsMap := fromEntries stepRuns in
  imap (fun idx step =>
      let sr := stepRunsMap !! default "" (si_id step) in
      let statusColor := colorForStatus (sr_status <$> sr) in
      {| node_id := default (pretty idx) (si_id step);
         node_label := si_name step +:+ " (" +:+ type_name (si_type step) +:+ ")";
         node_x := (Z.of_nat idx * 180)%Z;
         node_y := 50;
         node_background := if String.eqb statusColor "#6b7280" then "#f3f4f6"
                            else statusColor +:+ "22" |}) steps.

(** [steps.slice(0, -1)] *)
Definition all_but_last {A} (l : list A) : list A := take (length l - 1) l.

(** [steps.slice(0, -1).map((step, idx) => ...)]; [steps[idx + 1]] exists for
    every [idx] that the map visits. *)
Definition graph_edges (steps : list StepInput) : list GraphEdge :=
  omap id
    (imap (fun idx step =>
         next ← steps !! S idx;
         Some {| edge_id := "e-" +:+ id_text step +:+ "-" +:+ id_text next;
                 edge_source := default (pretty idx) (si_id step);
                 edge_target := default (pretty (S idx)) (si_id next) |})
       (all_but_last steps)).

(** * Vocabulary of the properties *)

Create HintDb stable.

(** [stable R c]: running [c] from any world leads to a world related to it
    by [R], whether [c] returns or throws. *)
Definition stable {A} (R : World -> World -> Prop) (c : M A) : Prop :=
  forall w, R w (c w).2.

(** [R] does not look at what a rollback restores. *)
Definition rollback_closed (R : World -> World -> Prop) : Prop :=
  forall w w', R w w' -> R w (with_db (db w) w').

(** What the Store leaves alone: the Executor's bookkeeping. *)
Definition same_exec (w w' : World) : Prop :=
  activeRuns w' = activeRuns w /\ tasks w' = tasks w.

(** At most one scheduling task per run, and every task's run is in the
    active set. *)
Definition one_task_per_run (w : World) : Prop :=
  NoDup (task_runId <$> tasks w) /\
  forall t, t ∈ tasks w -> task_runId t ∈ activeRuns w.

(** The scheduling tasks of a run that have been started and not yet
    finalised. *)
Definition scheduling_tasks (w : World) (runId : string) : list Task :=
  List.filter (fun t => String.eqb (task_runId t) runId) (tasks w).

(** * A worked scenario

    An environment whose clock advances by one millisecond at each reading
    and whose identifiers are id0, id1, ...; a workflow of two manual steps
    and one run of it. *)

Definition env0 : Env :=
  {| clock := fun n => 1000 + n; ids := fun n => "id" +:+ pretty n |}.

Definition manual_step (name : string) (order : Z) : StepInput :=
  {| si_id := None; si_name := name; si_type := MANUAL; si_config := None;
     si_order := order |}.

(** The workflow id0 with the steps id1 and id2 is created and started: the
    run is id3, its step runs are id4 and id5. *)
Definition started_world : World :=
  run_actions env0
    [CallCreateWorkflow "two approvals" None
       [manual_step "first" 0; manual_step "second" 1];
     CallStartRun "id0"]
    empty_world.

(** The scheduling task reaches the first manual step and returns; its
    [finally] callback runs; [startRun] replies. *)
Definition paused_world : World :=
  run_actions env0
    [ResumeTask 0 (FetchResponse 200); ResumeTask 0 (FetchResponse 200);
     Finalise 0; ResumeRequest 1]
    started_world.

(** The second step is rejected by hand while the run waits at the first. *)
Definition rejected_world : World :=
  run_actions env0
    [CallCompleteManualStep "id5" false; ResumeRequest 2; ResumeRequest 2]
    paused_world.

(** Then the first step is approved, which enqueues the run again. *)
Definition reopened_world : World :=
  run_actions env0
    [CallCompleteManualStep "id4" true; ResumeRequest 3]
    rejected_world.

(** The rows of the scenario's run and step runs while the run waits at
    the first manual step. *)
Definition paused_run : WorkflowRun :=
  {| run_id := "id3"; run_workflowId := "id0"; run_status := RUNNING;
     run_createdAt := 1001; run_startedAt := Some 1003;
     run_finishedAt := None |}.

Definition pending_step_run (id stepId : string) : StepRun :=
  {| sr_id := id; sr_workflowRunId := "id3"; sr_workflowStepId := stepId;
     sr_status := PENDING; sr_startedAt := None; sr_finishedAt := None |}.

(** ** Relations between the database before and after *)

Definition on_db (P : Db -> Db -> Prop) (w w' : World) : Prop :=
  P (db w) (db w').

Definition same_step_runs (d d' : Db) : Prop := step_runs d' = step_runs d.

(** The journal only grows, and by events that satisfy [ok]. *)
Definition appends (ok : Event -> Prop) (d d' : Db) : Prop :=
  exists more, events d' = events d ++ more /\ Forall ok more.

(** The event that [appendEvent] inserts in the world [w]. *)
Definition new_event (env : Env) (w : World) (workflowRunId : string)
    (stepRunId : option string) (type : EventType) (message : string) : Event :=
  {| ev_id := ids env (idDraws w); ev_workflowRunId := workflowRunId;
     ev_stepRunId := stepRunId; ev_type := type; ev_message := message;
     ev_createdAt := clock env (clockReads w) |}.

(** The constraints of [events] accept the event that [appendEvent] would
    insert in [w]: its id is not taken and, with foreign keys on, the run and
    the step run exist. *)
Definition event_accepted (env : Env) (w : World) (workflowRunId : string)
    (stepRunId : option string) : Prop :=
  has_event (db w) (ids env (idDraws w)) = false /\
  fk_ok (db w)
    (has_run (db w) workflowRunId
     && match stepRunId with
        | None => true
        | Some s => has_step_run (db w) s
        end) = true.

Definition delay_step (name : string) (seconds order : Z) : StepInput :=
  {| si_id := None; si_name := name; si_type := DELAY;
     si_config := Some (JObj [("seconds", JNum seconds)]); si_order := order |}.

Definition http_step (name url : string) (order : Z) : StepInput :=
  {| si_id := None; si_name := name; si_type := HTTP;
     si_config := Some (JObj [("url", JStr url)]); si_order := order |}.

(** A workflow id0 of one DELAY step id1; its run id2 has started and the
    scheduling task waits for the timer of the step run id3. *)
Definition sleeping_world : World :=
  run_actions env0
    [CallCreateWorkflow "timer" None [delay_step "wait" 60 0];
     CallStartRun "id0";
     ResumeTask 0 (FetchResponse 200); ResumeTask 0 (FetchResponse 200)]
    empty_world.

Definition sleeping_step_run : StepRun :=
  {| sr_id := "id3"; sr_workflowRunId := "id2"; sr_workflowStepId := "id1";
     sr_status := RUNNING; sr_startedAt := Some 1005; sr_finishedAt := None |}.

(** A workflow id0 of one HTTP step id1; its run id2 has started and the
    scheduling task waits for the response to the request of the step run
    id3. *)
Definition fetching_world : World :=
  run_actions env0
    [CallCreateWorkflow "call" None [http_step "get" "http://fail" 0];
     CallStartRun "id0";
     ResumeTask 0 (FetchResponse 200); ResumeTask 0 (FetchResponse 200)]
    empty_world.

(** ** Failure of a handler *)




(** In both worlds the run and the step run are RUNNING; the task holds the
    step run as it was when the pass read it. *)
Definition running_run : WorkflowRun :=
  {| run_id := "id2"; run_workflowId := "id0"; run_status := RUNNING;
     run_createdAt := 1001; run_startedAt := Some 1003;
     run_finishedAt := None |}.

Definition read_step_run : StepRun :=
  {| sr_id := "id3"; sr_workflowRunId := "id2"; sr_workflowStepId := "id1";
     sr_status := PENDING; sr_startedAt := None; sr_finishedAt := None |}.

Definition fetching_pc : Pc :=
  Fetching (JStr "http://fail") (JStr "GET") read_step_run []
    (fromEntries [read_step_run]).

(** The run of the scenario once its second step has been rejected. *)
Definition failed_run : WorkflowRun :=
  {| run_id := "id3"; run_workflowId := "id0"; run_status := FAILED;
     run_createdAt := 1001; run_startedAt := Some 1003;
     run_finishedAt := Some 1008 |}.

Definition scenario_workflow : WorkflowRow :=
  {| wf_id := "id0"; wf_name := "two approvals"; wf_description := None;
     wf_createdAt := 1000 |}.

(** ** The start of a scheduling pass *)

(** The RUN_STARTED event that a pass appends in [w]; the status update
    before it has read the clock once. *)
Definition run_started_event (env : Env) (w : World) (runId : string) : Event :=
  new_event env (tick w) runId None RUN_STARTED "Run started".

(** The number of RUN_STARTED events of a run. *)
Definition run_started_count (d : Db) (runId : string) : nat :=
  length (List.filter (fun e => bool_decide (ev_type e = RUN_STARTED))
            (List.filter (fun e => String.eqb (ev_workflowRunId e) runId)
               (events d))).

(** A pass that starts on a run already RUNNING would append no RUN_STARTED
    event and leave the run as it is. *)
Definition starts_only_when_pending (env : Env) (w : World) (runId : string)
    : Prop :=
  forall run,
    lookup_run (db w) runId = Some run ->
    run_status run = RUNNING ->
    run_started_count (db (execute_start env runId w).2) runId
    = run_started_count (db w) runId /\
    lookup_run (db (execute_start env runId w).2) runId = Some run.

(** ** Creating a run *)

(** An identifier generator that draws, at its eleventh call, an identifier
    it has drawn before. *)
Definition env_collision : Env :=
  {| clock := fun n => 1000 + n;
     ids := fun n => if Nat.eqb n 10 then "id4" else "id" +:+ pretty n |}.

(** ** Rewriting the steps of a workflow *)

(** The identifiers that [updateWorkflow] gives to the steps: the one
    provided, or the next one that [nanoid] draws ([n] have been drawn). *)
Fixpoint assign_ids (env : Env) (n : nat) (steps : list StepInput) : list string :=
  match steps with
  | [] => []
  | s :: rest =>
      match si_id s with
      | Some i => i :: assign_ids env n rest
      | None => ids env n :: assign_ids env (S n) rest
      end
  end.

(** The row inserted for a step. *)
Definition row_of_input (workflowId sid : string) (s : StepInput) : StepRow :=
  {| row_id := sid; row_workflow_id := workflowId; row_name := si_name s;
     row_type := si_type s; row_config := stored_config (si_config s);
     row_step_order := si_order s |}.

(** A provided step as [getWorkflow] returns it: its content, with the empty
    object for a config that is absent or null. *)
Definition step_of_input (workflowId sid : string) (s : StepInput) : WorkflowStep :=
  {| ws_id := sid; ws_workflowId := workflowId; ws_name := si_name s;
     ws_type := si_type s;
     ws_config := match si_config s with
                  | None | Some JNull => JObj []
                  | Some v => v
                  end;
     ws_order := si_order s |}.

(** A provided step word for word: its content, and null for no config. *)
Definition step_verbatim (workflowId sid : string) (s : StepInput) : WorkflowStep :=
  {| ws_id := sid; ws_workflowId := workflowId; ws_name := si_name s;
     ws_type := si_type s; ws_config := default JNull (si_config s);
     ws_order := si_order s |}.

(** [updateWorkflow] followed by [getWorkflow] would yield the provided
    steps, in the order of the list, word for word. *)
Definition yields_steps_as_provided (env : Env) (w : World) (id : string)
    (name description : option string) (steps : list StepInput) : Prop :=
  forall r w1 wf w2,
    updateWorkflow env id name description steps w = (r, w1) ->
    getWorkflow id w1 = (Ok (Some wf), w2) ->
    w_steps wf
    = zip_with (step_verbatim id) (assign_ids env (idDraws w) steps) steps.

(** Two steps given out of order, the second one without a config. *)
Definition unordered_steps : list StepInput :=
  [ {| si_id := Some "step-b"; si_name := "b"; si_type := HTTP;
       si_config := Some (JObj [("url", JStr "http://ok")]); si_order := 1 |};
    {| si_id := Some "step-a"; si_name := "a"; si_type := MANUAL;
       si_config := None; si_order := 0 |} ].

(** The scenario's workflow after its steps have been replaced by
    [unordered_steps]. *)
Definition reordered_world : World :=
  (updateWorkflow env0 "id0" None None unordered_steps started_world).2.

(** ** The journal of a run *)

Definition is_step_end (e : Event) : bool :=
  match ev_type e with
  | STEP_SUCCEEDED | STEP_FAILED => true
  | _ => false
  end.

(** The events of a run, in the order in which they were inserted. *)
Definition journal_of (l : list Event) (runId : string) : list Event :=
  List.filter (fun e => String.eqb (ev_workflowRunId e) runId) l.

Definition journal (d : Db) (runId : string) : list Event :=
  journal_of (events d) runId.

(** [l] holds a STEP_STARTED event for the step run. *)
Definition started_in (l : list Event) (stepRunId : option string) : Prop :=
  exists e, e ∈ l /\ ev_type e = STEP_STARTED /\ ev_stepRunId e = stepRunId.

(** Every event of [l] that [counts] comes after a STEP_STARTED event of
    [l] with the same step run. *)
Definition ends_follow_starts (counts : Event -> bool) (l : list Event) : Prop :=
  forall l1 e l2,
    l = l1 ++ e :: l2 -> counts e = true ->
    started_in l1 (ev_stepRunId e).

(** Every STEP_SUCCEEDED or STEP_FAILED event of [l] comes after a
    STEP_STARTED event of [l] with the same step run. *)
Definition step_ends_follow_starts (l : list Event) : Prop :=
  ends_follow_starts is_step_end l.

(** The STEP_SUCCEEDED and STEP_FAILED events that a scheduling task
    appends ([executor.ts], lines 106-111 and 115-120) are known by their
    messages; those of [completeManualStep] (lines 133-138) say "Manual step
    completed" and "Manual step failed". *)
Definition is_scheduler_end (e : Event) : bool :=
  match ev_type e with
  | STEP_SUCCEEDED => String.eqb (ev_message e) "Step succeeded"
  | STEP_FAILED => String.prefix "Step failed: " (ev_message e)
  | _ => false
  end.

(** The property for every run of the database. *)
Definition causal (w : World) : Prop :=
  forall runId, step_ends_follow_starts (journal (db w) runId).

(** The step run whose handler a task is running or about to run. *)
Definition pc_step_run (pc : Pc) : option StepRun :=
  match pc with
  | AfterStepStarted stepRun _ _ _ _ | Sleeping stepRun _ _
  | Fetching _ _ stepRun _ _ => Some stepRun
  | _ => None
  end.

(** [nanoid] never gives an identifier twice. *)
Definition fresh_ids (env : Env) : Prop :=
  forall i j, ids env i = ids env j -> i = j.

(** The identifier is one that [nanoid] has given. *)
Definition drawn_before (env : Env) (w : World) (id : string) : Prop :=
  exists k, (k < idDraws w)%nat /\ id = ids env k.

(** For every step run that a task is running, the journal of the task's
    run holds a STEP_STARTED event, as long as the step run has not been
    deleted. *)
Definition tasks_started (env : Env) (w : World) : Prop :=
  forall t sr,
    t ∈ tasks w -> pc_step_run (task_pc t) = Some sr ->
    drawn_before env w (sr_id sr) /\
    (has_step_run (db w) (sr_id sr) = true ->
     started_in (journal (db w) (task_runId t)) (Some (sr_id sr))).

(** The identifiers of the step runs are identifiers that [nanoid] has
    given. *)
Definition step_runs_drawn (env : Env) (w : World) : Prop :=
  forall sr, sr ∈ step_runs (db w) -> drawn_before env w (sr_id sr).

(** The calls that the precedence of STEP_STARTED relies on:
    [completeManualStep] is called for a step run whose STEP_STARTED event is
    in the journal. *)
Definition guarded (a : Action) (w : World) : Prop :=
  match a with
  | CallCompleteManualStep stepRunId _ =>
      forall sr,
        lookup_step_run (db w) stepRunId = Some sr ->
        started_in (journal (db w) (sr_workflowRunId sr)) (Some stepRunId)
  | _ => True
  end.

Fixpoint guarded_run (env : Env) (actions : list Action) (w : World) : Prop :=
  match actions with
  | [] => True
  | a :: rest => guarded a w /\ guarded_run env rest (step env a w)
  end.

(** The events that an operation may append. *)
Definition quiet (e : Event) : Prop := is_step_end e = false.

Definition only_for (runId stepRunId : string) (e : Event) : Prop :=
  is_step_end e = true ->
  ev_workflowRunId e = runId /\ ev_stepRunId e = Some stepRunId.

(** The journal loses the events of some step runs, all or none of the
    events of each, and none of the events of a step run that is still
    there. *)
Definition pruned (d d' : Db) : Prop :=
  exists keep : option string -> bool,
    events d' = List.filter (fun e => keep (ev_stepRunId e)) (events d) /\
    (NoDup (map sr_id (step_runs d)) ->
     NoDup (map sr_id (step_runs d')) /\
     forall i, has_step_run d' i = true ->
               has_step_run d i = true /\ keep (Some i) = true).

(** The step runs that are new have identifiers that [nanoid] has given
    in the meantime. *)
Definition draws_step_runs (env : Env) (w w' : World) : Prop :=
  (idDraws w <= idDraws w')%nat /\
  forall i, has_step_run (db w') i = true ->
            has_step_run (db w) i = true \/
            exists k, (idDraws w <= k < idDraws w')%nat /\ i = ids env k.

(** New tasks may appear, none of them inside a step. *)
Definition tasks_grow_idle (w w' : World) : Prop :=
  exists new,
    tasks w' = tasks w ++ new /\
    Forall (fun t => pc_step_run (task_pc t) = None) new.

(** The scenario as the interface of the engine leads to it: the first
    manual step is approved once the scheduler has reached it, then the
    second one. *)
Definition approvals : list Action :=
  [CallCreateWorkflow "two approvals" None
     [manual_step "first" 0; manual_step "second" 1];
   CallStartRun "id0";
   ResumeTask 0 (FetchResponse 200); ResumeTask 0 (FetchResponse 200);
   Finalise 0; ResumeRequest 1;
   CallCompleteManualStep "id4" true; ResumeRequest 2; ResumeRequest 2;
   ResumeTask 0 (FetchResponse 200); ResumeTask 0 (FetchResponse 200);
   Finalise 0;
   CallCompleteManualStep "id5" true; ResumeRequest 3; ResumeRequest 3;
   ResumeTask 0 (FetchResponse 200); ResumeTask 0 (FetchResponse 200);
   Finalise 0].

(** ** The journal and the clock *)

(** The clock never goes back. *)
Definition monotone_clock (env : Env) : Prop :=
  forall i j, (i <= j)%nat -> (clock env i <= clock env j)%nat.

(** The instant is written with a year of four digits; and so are the first
    [n] readings of the clock. *)
Definition four_digit_year (t : Time) : Prop :=
  (Z.of_nat t <= last_four_digit_instant)%Z.

Definition four_digit_years (env : Env) (n : nat) : Prop :=
  forall k, (k < n)%nat -> four_digit_year (clock env k).

(** The events are in the order of their timestamps, each of which is a
    reading that the clock has given. *)
Definition timely (env : Env) (w : World) : Prop :=
  StronglySorted le (map ev_createdAt (events (db w))) /\
  forall e, e ∈ events (db w) ->
            exists k, (k < clockReads w)%nat /\ ev_createdAt e = clock env k.

Definition keeps_time (env : Env) (w w' : World) : Prop :=
  (clockReads w <= clockReads w')%nat /\ (timely env w -> timely env w').

(** ** The pragma *)

Definition same_pragma (d d' : Db) : Prop := foreign_keys d' = foreign_keys d.

(** ** Creating and rewriting a workflow *)

(** The row of the workflow [id] after [UPDATE workflows SET name = ?,
    description = ?]. *)
Definition renamed_row (id name : string) (description : option string)
    (r : WorkflowRow) : WorkflowRow :=
  if String.eqb (wf_id r) id
  then {| wf_id := wf_id r; wf_name := name; wf_description := description;
          wf_createdAt := wf_createdAt r |}
  else r.

(** The [k] identifiers that [nanoid] draws after [n] draws. *)
Definition drawn (env : Env) (n k : nat) : list string := map (ids env) (seq n k).

(** A step as [createWorkflow] reads it: without [id]. *)
Definition without_id (s : StepInput) : StepInput :=
  {| si_id := None; si_name := si_name s; si_type := si_type s;
     si_config := si_config s; si_order := si_order s |}.

(** Only [workflow_steps] differs. *)
Definition only_steps_differ (d d' : Db) : Prop :=
  foreign_keys d' = foreign_keys d /\ workflows d' = workflows d /\
  workflow_runs d' = workflow_runs d /\ step_runs d' = step_runs d /\
  events d' = events d.

(** An identifier generator that always draws the same identifier. *)
Definition env_stuck : Env :=
  {| clock := fun n => 1000 + n; ids := fun _ => "same" |}.

(** [stepId] is the identifier of a step of the workflow [id]. *)
Definition step_of_workflow (d : Db) (id stepId : string) : Prop :=
  exists r, r ∈ workflow_steps d /\ row_workflow_id r = id /\ row_id r = stepId.

(** Two steps of the same name, for [createWorkflow]. *)
Definition twin_steps : list StepInput := [manual_step "a" 0; manual_step "b" 1].

(** What the editor holds for a workflow of three steps whose [order]
    fields are stale; the last step is new. *)
Definition edited_steps : list StepInput :=
  [ {| si_id := Some "id2"; si_name := "second"; si_type := MANUAL;
       si_config := Some JNull; si_order := 7 |};
    {| si_id := Some "id1"; si_name := "first"; si_type := MANUAL;
       si_config := None; si_order := 3 |};
    {| si_id := None; si_name := "New Step"; si_type := HTTP;
       si_config := Some (JObj [("url", JStr "https://example.com")]);
       si_order := 2 |} ].

(** Steps for the scenario's workflow, the third of which asks for the
    identifier that the first one is about to draw. *)
Definition clashing_steps : list StepInput :=
  [ manual_step "a" 0; manual_step "b" 1;
    {| si_id := Some "id8"; si_name := "c"; si_type := MANUAL;
       si_config := None; si_order := 2 |} ].

(** ** Creating a run: the rows *)

(** The run that [createRun] inserts in the world [w]. *)
Definition new_run (env : Env) (w : World) (workflowId : string) : WorkflowRun :=
  {| run_id := ids env (idDraws w); run_workflowId := workflowId;
     run_status := PENDING; run_createdAt := clock env (clockReads w);
     run_startedAt := None; run_finishedAt := None |}.

(** The step run that [createRun] inserts for a step. *)
Definition new_step_run (runId srid : string) (s : WorkflowStep) : StepRun :=
  {| sr_id := srid; sr_workflowRunId := runId; sr_workflowStepId := ws_id s;
     sr_status := PENDING; sr_startedAt := None; sr_finishedAt := None |}.

(** The scenario before its run is started: the workflow id0 with the
    steps id1 and id2. *)
Definition created_world : World :=
  run_actions env0
    [CallCreateWorkflow "two approvals" None
       [manual_step "first" 0; manual_step "second" 1]]
    empty_world.

(** ** Listings *)

(** The workflow that [getWorkflow] and [listWorkflows] build from a row. *)
Definition workflow_of_row (d : Db) (row : WorkflowRow) : Workflow :=
  {| w_id := wf_id row; w_name := wf_name row;
     w_description := wf_description row; w_createdAt := wf_createdAt row;
     w_steps := select_steps d (wf_id row) |}.

(** A second workflow and two more runs of the first one are added to the
    scenario. *)
Definition busy_world : World :=
  run_actions env0
    [CallCreateWorkflow "other" (Some "no steps") [];
     CallStartRun "id0"; CallStartRun "id9"; CallStartRun "id0"]
    paused_world.

(** ** The loop of a scheduling pass *)

(** The loop goes past the step: [stepRunMap[step.id]] is [undefined], or a
    step run that is SUCCEEDED. *)
Definition passed_over (stepRunMap : gmap string StepRun) (s : WorkflowStep)
    : Prop :=
  match get_property stepRunMap (ws_id s) with
  | Undefined => True
  | Own sr => sr_status sr = SUCCEEDED
  | Inherited => False
  end.

(** [handler_returns pc fetched stepRun rest stepRunMap]: the task that waits
    at [pc] and is resumed with [fetched] sees the handler of [stepRun]
    return: the timer of a DELAY step has fired, or the response of an HTTP
    step is 2xx. *)
Inductive handler_returns :
    Pc -> Fetched -> StepRun -> list WorkflowStep -> gmap string StepRun ->
    Prop :=
  | timer_fired stepRun rest stepRunMap fetched :
      handler_returns (Sleeping stepRun rest stepRunMap) fetched
        stepRun rest stepRunMap
  | status_2xx url method stepRun rest stepRunMap status :
      response_ok status = true ->
      handler_returns (Fetching url method stepRun rest stepRunMap)
        (FetchResponse status) stepRun rest stepRunMap.

(** The scenario's steps as the pass reads them. *)
Definition first_step : WorkflowStep :=
  {| ws_id := "id1"; ws_workflowId := "id0"; ws_name := "first";
     ws_type := MANUAL; ws_config := JObj []; ws_order := 0 |}.
Definition second_step : WorkflowStep :=
  {| ws_id := "id2"; ws_workflowId := "id0"; ws_name := "second";
     ws_type := MANUAL; ws_config := JObj []; ws_order := 1 |}.

(** The scenario when both of its steps have been approved by hand while
    the run waited at the first. *)
Definition approved_world : World :=
  run_actions env0
    [CallCompleteManualStep "id5" true; ResumeRequest 2;
     CallCompleteManualStep "id4" true; ResumeRequest 3]
    paused_world.

(** Only [step_runs] differs. *)
Definition only_step_runs_differ (d d' : Db) : Prop :=
  foreign_keys d' = foreign_keys d /\ workflows d' = workflows d /\
  workflow_steps d' = workflow_steps d /\
  workflow_runs d' = workflow_runs d /\ events d' = events d.

(** ** The consistency of the database *)

(** PRIMARY KEY: no identifier is used twice in a table. *)
Definition unique_ids (d : Db) : Prop :=
  NoDup (map wf_id (workflows d)) /\ NoDup (map row_id (workflow_steps d)) /\
  NoDup (map run_id (workflow_runs d)) /\ NoDup (map sr_id (step_runs d)) /\
  NoDup (map ev_id (events d)).

(** FOREIGN KEY: every row that a row refers to exists. *)
Definition references_hold (d : Db) : Prop :=
  (forall r, r ∈ workflow_steps d -> has_workflow d (row_workflow_id r) = true) /\
  (forall r, r ∈ workflow_runs d -> has_workflow d (run_workflowId r) = true) /\
  (forall r, r ∈ step_runs d ->
             has_run d (sr_workflowRunId r) = true /\
             has_step d (sr_workflowStepId r) = true) /\
  (forall e, e ∈ events d ->
             has_run d (ev_workflowRunId e) = true /\
             forall s, ev_stepRunId e = Some s -> has_step_run d s = true).

(** Every step run is for a step of the workflow of its run, and a run has
    at most one step run for a step. *)
Definition step_runs_fit (d : Db) : Prop :=
  (forall sr, sr ∈ step_runs d ->
     exists run row,
       lookup_run d (sr_workflowRunId sr) = Some run /\
       row ∈ workflow_steps d /\
       row_id row = sr_workflowStepId sr /\
       row_workflow_id row = run_workflowId run) /\
  (forall runId, NoDup (map sr_workflowStepId (select_step_runs d runId))).

Definition consistent (d : Db) : Prop :=
  foreign_keys d = true /\ unique_ids d /\ references_hold d /\ step_runs_fit d.

Definition keeps_consistent (d d' : Db) : Prop := consistent d -> consistent d'.

(** The invariant behind the precedence of STEP_STARTED, for the events
    that [counts]. *)
Definition journal_inv (env : Env) (counts : Event -> bool) (w : World) : Prop :=
  (forall runId, ends_follow_starts counts (journal (db w) runId)) /\
  tasks_started env w /\ step_runs_drawn env w /\ consistent (db w).

(** The events that a call of [completeManualStep] appends and that
    [counts] have their STEP_STARTED event in the journal. *)
Definition manual_ends_started (env : Env) (counts : Event -> bool)
    (a : Action) (w : World) : Prop :=
  match a with
  | CallCompleteManualStep stepRunId success =>
      appends (fun e => counts e = true ->
                        started_in (journal (db w) (ev_workflowRunId e))
                          (ev_stepRunId e))
        (db w) (db (completeManualStep_start env stepRunId success w).2)
  | _ => True
  end.

(** ** A workflow rewritten while its run is under way *)

(** What "Save" sends for the workflow of [fetching_world] when nothing has
    been edited: its one step, under the identifier it has. *)
Definition saved_again : list StepInput :=
  [ {| si_id := Some "id1"; si_name := "get"; si_type := HTTP;
       si_config := Some (JObj [("url", JStr "http://fail")]);
       si_order := 0 |} ].

(** The workflow is saved while the request of its step is under way: the
    DELETE of [updateWorkflow] has removed the step run id3, and the task
    still holds it. *)
Definition rewritten_world : World :=
  step env0 (CallUpdateWorkflow "id0" None None saved_again) fetching_world.


(** A workflow whose one step, MANUAL or DELAY, has the name of a member of
    [Object.prototype] as its identifier and was added after the run id1
    was created: the run has no step run, and its pass has not yet read
    the steps. *)
Definition named_step (type : StepType) : StepInput :=
  {| si_id := Some "constructor"; si_name := "approve"; si_type := type;
     si_config := None; si_order := 0 |}.

Definition prototype_world (type : StepType) : World :=
  run_actions env0
    [CallCreateWorkflow "empty" None [];
     CallStartRun "id0";
     CallUpdateWorkflow "id0" None None [named_step type]]
    empty_world.

(** * Properties *)

(** ** Reasoning about the monad *)


Section Stable.

Context (R : World -> World -> Prop) `{!PreOrder R}.

Lemma stable_ret {A} (a : A) : stable R (ret a).
Proof. intros w. simpl. reflexivity. Qed.

Lemma stable_throw {A} (e : Exn) : stable R (@throw A e).
Proof. intros w. simpl. reflexivity. Qed.

Lemma stable_get_db : stable R get_db.
Proof. intros w. simpl. reflexivity. Qed.

Lemma stable_bind {A B} (c : M A) (k : A -> M B) :
  stable R c -> (forall a, stable R (k a)) -> stable R (bind c k).
Proof.
  intros Hc Hk w. unfold bind. specialize (Hc w).
  destruct (c w) as [[a|e] w1]; simpl in *; [|done].
  etransitivity; [exact Hc|apply Hk].
Qed.

Lemma stable_try_catch {A} (body : M A) (handler : Exn -> M A) :
  stable R body -> (forall e, stable R (handler e)) ->
  stable R (try_catch body handler).
Proof.
  intros Hc Hk w. unfold try_catch. specialize (Hc w).
  destruct (body w) as [[a|e] w1]; simpl in *; [done|].
  etransitivity; [exact Hc|apply Hk].
Qed.

Lemma stable_transaction {A} (body : M A) :
  rollback_closed R -> stable R body -> stable R (transaction body).
Proof.
  intros Hroll Hc w. unfold transaction. specialize (Hc w).
  destruct (body w) as [[a|e] w1]; simpl in *; [done|].
  by apply Hroll.
Qed.

Lemma stable_forEach {A} (f : A -> M unit) (l : list A) :
  (forall x, stable R (f x)) -> stable R (forEach f l).
Proof.
  intros Hf. induction l as [|x l IH]; simpl.
  - apply stable_ret.
  - apply stable_bind; [apply Hf|intros _; exact IH].
Qed.

End Stable.

(** Splits a goal [stable R c] along the structure of [c], leaving the
    statements and the calls it does not know. *)
Ltac stable_step :=
  match goal with
  | |- PreOrder _ => apply _
  | |- forall _, _ => intros ?
  | |- stable _ (bind _ _) => apply stable_bind
  | |- stable _ (ret _) => apply stable_ret
  | |- stable _ (throw _) => apply stable_throw
  | |- stable _ get_db => apply stable_get_db
  | |- stable _ (try_catch _ _) => apply stable_try_catch
  | |- stable _ (transaction _) => apply stable_transaction
  | |- stable _ (forEach _ _) => apply stable_forEach
  | |- stable _ (if ?b then _ else _) => destruct b
  | |- stable _ (match ?x with _ => _ end) => destruct x
  | |- stable _ (now_if _ _) => unfold now_if
  | |- stable _ (updateStepRunStatus_undefined _ _) =>
      unfold updateStepRunStatus_undefined
  end.

Ltac stable_tac := repeat (first [progress eauto with stable | stable_step]).

#[global] Instance same_exec_preorder : PreOrder same_exec.
Proof.
  split.
  - by intros w.
  - intros w1 w2 w3 [H1 H2] [H3 H4]. split; congruence.
Qed.

Lemma same_exec_rollback : rollback_closed same_exec.
Proof. by intros w w' [H1 H2]. Qed.

Section StoreFrame.

Context (env : Env).

Lemma same_exec_put_db d : stable same_exec (put_db d).
Proof. by intros w. Qed.
Lemma same_exec_now : stable same_exec (now env).
Proof. by intros w. Qed.
Lemma same_exec_nanoid : stable same_exec (nanoid env).
Proof. by intros w. Qed.
Lemma same_exec_publishRun r : stable same_exec (publishRun r).
Proof. by intros w. Qed.

#[local] Hint Resolve same_exec_put_db same_exec_now same_exec_nanoid
  same_exec_publishRun same_exec_rollback : stable.

Lemma same_exec_insert_workflow r : stable same_exec (insert_workflow r).
Proof. unfold insert_workflow. stable_tac. Qed.
Lemma same_exec_insert_step r : stable same_exec (insert_step r).
Proof. unfold insert_step. stable_tac. Qed.
Lemma same_exec_insert_run r : stable same_exec (insert_run r).
Proof. unfold insert_run. stable_tac. Qed.
Lemma same_exec_insert_step_run r : stable same_exec (insert_step_run r).
Proof. unfold insert_step_run. stable_tac. Qed.
Lemma same_exec_insert_event r : stable same_exec (insert_event r).
Proof. unfold insert_event. stable_tac. Qed.
Lemma same_exec_delete_steps i : stable same_exec (delete_steps i).
Proof. unfold delete_steps. stable_tac. Qed.
Lemma same_exec_update_workflow_row i n d :
  stable same_exec (update_workflow_row i n d).
Proof. unfold update_workflow_row. stable_tac. Qed.
Lemma same_exec_update_run_row i s a b :
  stable same_exec (update_run_row i s a b).
Proof. unfold update_run_row. stable_tac. Qed.
Lemma same_exec_update_step_run_row i s a b :
  stable same_exec (update_step_run_row i s a b).
Proof. unfold update_step_run_row. stable_tac. Qed.

#[local] Hint Resolve same_exec_insert_workflow same_exec_insert_step
  same_exec_insert_run same_exec_insert_step_run same_exec_insert_event
  same_exec_delete_steps same_exec_update_workflow_row
  same_exec_update_run_row same_exec_update_step_run_row : stable.

Lemma same_exec_listWorkflowSteps i : stable same_exec (listWorkflowSteps i).
Proof. unfold listWorkflowSteps. stable_tac. Qed.
#[local] Hint Resolve same_exec_listWorkflowSteps : stable.

Lemma same_exec_getWorkflow i : stable same_exec (getWorkflow i).
Proof. unfold getWorkflow. stable_tac. Qed.
Lemma same_exec_getRun i : stable same_exec (getRun i).
Proof. unfold getRun. stable_tac. Qed.
Lemma same_exec_getStepRunById i : stable same_exec (getStepRunById i).
Proof. unfold getStepRunById. stable_tac. Qed.
Lemma same_exec_listStepRuns i : stable same_exec (listStepRuns i).
Proof. unfold listStepRuns. stable_tac. Qed.
Lemma same_exec_listEvents i : stable same_exec (listEvents i).
Proof. unfold listEvents. stable_tac. Qed.
#[local] Hint Resolve same_exec_getWorkflow same_exec_getRun
  same_exec_getStepRunById same_exec_listStepRuns same_exec_listEvents : stable.

Lemma same_exec_getStepRunsMap i : stable same_exec (getStepRunsMap i).
Proof. unfold getStepRunsMap. stable_tac. Qed.
Lemma same_exec_createWorkflow n d l : stable same_exec (createWorkflow env n d l).
Proof. unfold createWorkflow. stable_tac. Qed.
Lemma same_exec_updateWorkflow i n d l :
  stable same_exec (updateWorkflow env i n d l).
Proof. unfold updateWorkflow. stable_tac. Qed.
Lemma same_exec_createRun i : stable same_exec (createRun env i).
Proof. unfold createRun. stable_tac. Qed.
Lemma same_exec_updateRunStatus i s : stable same_exec (updateRunStatus env i s).
Proof. unfold updateRunStatus. stable_tac. Qed.
Lemma same_exec_updateStepRunStatus i s :
  stable same_exec (updateStepRunStatus env i s).
Proof. unfold updateStepRunStatus. stable_tac. Qed.
Lemma same_exec_appendEvent r s t m : stable same_exec (appendEvent env r s t m).
Proof. unfold appendEvent. stable_tac. Qed.

End StoreFrame.

#[global] Hint Resolve same_exec_rollback same_exec_put_db same_exec_now
  same_exec_nanoid same_exec_publishRun same_exec_listWorkflowSteps
  same_exec_getWorkflow same_exec_getRun same_exec_getStepRunById
  same_exec_listStepRuns same_exec_listEvents same_exec_getStepRunsMap
  same_exec_createWorkflow same_exec_updateWorkflow same_exec_createRun
  same_exec_updateRunStatus same_exec_updateStepRunStatus
  same_exec_appendEvent : stable.

Section ExecutorFrame.

Context (env : Env).

Lemma same_exec_execute_start r : stable same_exec (execute_start env r).
Proof. unfold execute_start. stable_tac. Qed.

Lemma same_exec_runNonManualStep_finish r sr h :
  stable same_exec (runNonManualStep_finish env r sr h).
Proof.
  unfold runNonManualStep_finish, runNonManualStep_succeed,
    runNonManualStep_catch.
  stable_tac.
Qed.

Lemma same_exec_execute_loop r m l : stable same_exec (execute_loop env r m l).
Proof.
  induction l as [|s l IH]; simpl; unfold runNonManualStep_start; stable_tac.
Qed.

Lemma same_exec_execute_resume r pc f :
  stable same_exec (execute_resume env r pc f).
Proof.
  pose proof same_exec_execute_loop.
  pose proof same_exec_runNonManualStep_finish.
  unfold execute_resume. stable_tac.
Qed.

Lemma same_exec_completeManualStep_record i b sr :
  stable same_exec (completeManualStep_record env i b sr).
Proof. unfold completeManualStep_record. stable_tac. Qed.

Lemma same_exec_completeManualStep_fail sr :
  stable same_exec (completeManualStep_fail env sr).
Proof. unfold completeManualStep_fail. stable_tac. Qed.

Lemma same_exec_completeManualStep_start i b :
  stable same_exec (completeManualStep_start env i b).
Proof.
  pose proof same_exec_completeManualStep_record.
  unfold completeManualStep_start. stable_tac.
Qed.

End ExecutorFrame.

Section ActiveSet.

Context (env : Env).

Lemma one_task_same_exec w w' :
  same_exec w w' -> one_task_per_run w -> one_task_per_run w'.
Proof. intros [Ha Ht]. unfold one_task_per_run. by rewrite Ha, Ht. Qed.

Lemma enqueueRun_active runId w :
  runId ∈ activeRuns w -> enqueueRun env runId w = (Ok tt, w).
Proof. intros H. unfold enqueueRun. by rewrite decide_True. Qed.

Lemma enqueueRun_idle runId w :
  runId ∉ activeRuns w ->
  exists pc w',
    enqueueRun env runId w = (Ok tt, w') /\
    activeRuns w' = {[runId]} ∪ activeRuns w /\
    tasks w' = tasks w ++ [{| task_runId := runId; task_pc := pc |}].
Proof.
  intros H. unfold enqueueRun. rewrite decide_False by done.
  pose proof (same_exec_execute_start env runId
                (with_activeRuns ({[runId]} ∪ activeRuns w) w)) as [Ha Ht].
  destruct (execute_start env runId _) as [r w2]; simpl in *.
  eexists _, _. split; [reflexivity|]. simpl. by rewrite Ha, Ht.
Qed.

Lemma one_task_enqueueRun runId w :
  one_task_per_run w -> one_task_per_run (enqueueRun env runId w).2.
Proof.
  intros [Hnd Hin]. destruct (decide (runId ∈ activeRuns w)) as [Ha|Ha].
  - by rewrite enqueueRun_active.
  - destruct (enqueueRun_idle runId w Ha) as (pc & w' & -> & Hact & Htasks).
    simpl. unfold one_task_per_run. rewrite Hact, Htasks. split.
    + rewrite fmap_app. simpl. apply NoDup_app. split; [done|]. split.
      * intros r Hr [->|[]]%list_elem_of_In. simpl in *.
        apply list_elem_of_fmap in Hr as (t & -> & Ht). by apply Ha, Hin.
      * apply NoDup_singleton.
    + intros t [Ht| ->%list_elem_of_singleton]%elem_of_app.
      * apply elem_of_union_r. by apply Hin.
      * simpl. apply elem_of_union_l. by apply elem_of_singleton.
Qed.

Lemma same_exec_requests (l : list ReqPc) w : same_exec w (with_requests l w).
Proof. done. Qed.

Lemma one_task_request_resume pc w :
  one_task_per_run w -> one_task_per_run (request_resume env pc w).2.
Proof.
  intros Hinv. destruct pc as [i [] sr|i|i|run|r]; simpl.
  - unfold bind. pose proof (one_task_enqueueRun (sr_workflowRunId sr) w Hinv).
    by destruct (enqueueRun env _ w) as [[[]|e] w1].
  - eapply one_task_same_exec; [|done].
    assert (Hst : stable same_exec (request_resume env (CmsAfterStepPublish i false sr)))
      by (pose proof (same_exec_completeManualStep_fail env); simpl; stable_tac).
    apply Hst.
  - eapply one_task_same_exec; [|done].
    assert (Hst : stable same_exec (request_resume env (CmsAfterRunPublish i)))
      by (simpl; stable_tac).
    apply Hst.
  - eapply one_task_same_exec; [|done].
    assert (Hst : stable same_exec (request_resume env (CmsAfterEnqueue i)))
      by (simpl; stable_tac).
    apply Hst.
  - eapply one_task_same_exec; [|done].
    assert (Hst : stable same_exec (request_resume env (StartAfterEnqueue run)))
      by (simpl; stable_tac).
    apply Hst.
  - done.
Qed.

Lemma one_task_startRun_start workflowId w :
  one_task_per_run w -> one_task_per_run (startRun_start env workflowId w).2.
Proof.
  intros Hinv. unfold startRun_start, bind.
  pose proof (same_exec_createRun env workflowId w) as H1.
  destruct (createRun env workflowId w) as [[run|e] w1]; simpl in *;
    [|by eapply one_task_same_exec].
  pose proof (same_exec_appendEvent env (run_id run) None RUN_STARTED
                "Run enqueued" w1) as H2.
  destruct (appendEvent env _ _ _ _ w1) as [[[]|e] w2]; simpl in *;
    [|eapply one_task_same_exec; [|done]; by etransitivity].
  assert (one_task_per_run w2) as Hinv2
    by (eapply one_task_same_exec; [|done]; by etransitivity).
  pose proof (one_task_enqueueRun (run_id run) w2 Hinv2).
  by destruct (enqueueRun env _ w2) as [[[]|e] w3].
Qed.

Lemma one_task_finalise i w :
  one_task_per_run w -> one_task_per_run (step env (Finalise i) w).
Proof.
  intros [Hnd Hin]. simpl. destruct (tasks w !! i) as [t|] eqn:Hi; [|done].
  destruct (is_settled (task_pc t)); [|done].
  unfold one_task_per_run. simpl.
  apply list_elem_of_split_length in Hi as (l1 & l2 & Hw & ->).
  rewrite Hw in Hnd, Hin |- *. rewrite delete_middle.
  rewrite fmap_app, fmap_cons in Hnd.
  apply NoDup_app in Hnd as (Hnd1 & Hdisj & Hnd2).
  apply NoDup_cons in Hnd2 as [Hnotin Hnd2].
  split.
  - rewrite fmap_app. apply NoDup_app. split; [done|]. split; [|done].
    intros r Hr1 Hr2. apply (Hdisj r Hr1). by right.
  - intros t' Ht'. apply elem_of_difference. split.
    + apply Hin. apply elem_of_app in Ht' as [?|?]; apply elem_of_app; [by left|].
      right. by right.
    + intros Heq%elem_of_singleton. apply elem_of_app in Ht' as [Ht'|Ht'].
      * apply (Hdisj (task_runId t')); [by apply list_elem_of_fmap_2|].
        rewrite Heq. by left.
      * apply Hnotin. rewrite <- Heq. by apply list_elem_of_fmap_2.
Qed.

Lemma one_task_resume i f w :
  one_task_per_run w -> one_task_per_run (step env (ResumeTask i f) w).
Proof.
  intros [Hnd Hin]. simpl. destruct (tasks w !! i) as [t|] eqn:Hi; [|done].
  pose proof (same_exec_execute_resume env (task_runId t) (task_pc t) f w)
    as [Ha Ht].
  destruct (execute_resume env _ _ f w) as [r w1]. simpl in *.
  unfold one_task_per_run. simpl. rewrite Ha, Ht. split.
  - rewrite list_fmap_insert. simpl. rewrite list_insert_id; [done|].
    by rewrite list_lookup_fmap, Hi.
  - intros t' Ht'. apply list_elem_of_lookup in Ht' as [j Hj].
    destruct (decide (i = j)) as [->|Hne].
    + rewrite list_lookup_insert_eq in Hj by (by eapply lookup_lt_Some).
      injection Hj as <-. simpl. apply Hin. by eapply list_elem_of_lookup_2.
    + rewrite list_lookup_insert_ne in Hj by done.
      apply Hin. by eapply list_elem_of_lookup_2.
Qed.

Lemma one_task_step a w :
  one_task_per_run w -> one_task_per_run (step env a w).
Proof.
  intros Hinv. destruct a as [n d l|i n d l|wid|sid b|i|i f|i].
  - simpl. pose proof (same_exec_createWorkflow env n d l w) as H.
    destruct (createWorkflow env n d l w) as [r w1].
    eapply one_task_same_exec; [|exact Hinv]. exact H.
  - simpl. pose proof (same_exec_updateWorkflow env i n d l w) as H.
    destruct (updateWorkflow env i n d l w) as [r w1].
    eapply one_task_same_exec; [|exact Hinv]. exact H.
  - simpl. pose proof (one_task_startRun_start wid w Hinv) as H.
    by destruct (startRun_start env wid w) as [r w1].
  - simpl. pose proof (same_exec_completeManualStep_start env sid b w) as H.
    destruct (completeManualStep_start env sid b w) as [r w1].
    eapply one_task_same_exec; [|exact Hinv]. exact H.
  - simpl. destruct (requests w !! i) as [pc|]; [|done].
    pose proof (one_task_request_resume pc w Hinv) as H.
    by destruct (request_resume env pc w) as [r w1].
  - by apply one_task_resume.
  - by apply one_task_finalise.
Qed.

Lemma one_task_run_actions actions w :
  one_task_per_run w -> one_task_per_run (run_actions env actions w).
Proof.
  revert w. induction actions as [|a l IH]; intros w Hinv; [done|].
  simpl. apply IH. by apply one_task_step.
Qed.

Lemma one_task_empty : one_task_per_run empty_world.
Proof. split; [constructor|]. intros t Ht. by apply elem_of_nil in Ht. Qed.

Lemma NoDup_filter_le_1 (l : list Task) runId :
  NoDup (task_runId <$> l) ->
  length (List.filter (fun t => String.eqb (task_runId t) runId) l) <= 1.
Proof.
  induction l as [|t l IH]; simpl; [lia|].
  intros [Hnotin Hnd]%NoDup_cons. specialize (IH Hnd).
  destruct (String.eqb_spec (task_runId t) runId) as [Heq|Hne]; [|done].
  simpl. assert (List.filter (fun t => String.eqb (task_runId t) runId) l = [])
    as ->; [|simpl; lia].
  destruct (List.filter _ l) as [|t' l'] eqn:Hf; [done|]. exfalso.
  assert (In t' (List.filter (fun t => String.eqb (task_runId t) runId) l))
    as Hin by (rewrite Hf; by left).
  apply filter_In in Hin as [Hin Heq'%String.eqb_eq].
  apply Hnotin. rewrite Heq, <- Heq'.
  apply list_elem_of_fmap_2. by apply list_elem_of_In.
Qed.

End ActiveSet.

(** ** Theorems about the active set *)

(** C7.  [enqueueRun] on a run that is in the active set changes nothing and
    starts no task; on a run that is not, it adds the run to the set and
    starts exactly one scheduling task; the [finally] callback of a task
    drops the run from the set, and only once the task has settled; hence
    however the calls of the API and the resumptions of the tasks
    interleave, a run never has more than one scheduling task and every
    task's run is in the active set. *)
Theorem enqueueRun_idempotent (env : Env) :
  (forall runId w,
     runId ∈ activeRuns w -> enqueueRun env runId w = (Ok tt, w)) /\
  (forall runId w,
     runId ∉ activeRuns w ->
     exists pc w',
       enqueueRun env runId w = (Ok tt, w') /\
       activeRuns w' = {[runId]} ∪ activeRuns w /\
       tasks w' = tasks w ++ [{| task_runId := runId; task_pc := pc |}]) /\
  (forall i t w,
     tasks w !! i = Some t ->
     (is_settled (task_pc t) = true ->
      activeRuns (step env (Finalise i) w) = activeRuns w ∖ {[task_runId t]} /\
      tasks (step env (Finalise i) w) = delete i (tasks w)) /\
     (is_settled (task_pc t) = false -> step env (Finalise i) w = w)) /\
  (forall actions,
     one_task_per_run (run_actions env actions empty_world) /\
     forall runId,
       length (scheduling_tasks (run_actions env actions empty_world) runId) <= 1).
Proof.
  split; [apply enqueueRun_active|]. split; [apply enqueueRun_idle|]. split.
  - intros i t w Hi. simpl. rewrite Hi. split; intros ->; done.
  - intros actions.
    pose proof (one_task_run_actions env actions _ one_task_empty) as Hinv.
    split; [done|]. intros runId. apply NoDup_filter_le_1, Hinv.
Qed.

Lemma enqueueRun_idempotent_witness :
  enqueueRun env0 "id3" started_world = (Ok tt, started_world) /\
  (exists pc w',
     enqueueRun env0 "id3" paused_world = (Ok tt, w') /\
     activeRuns w' = {["id3"]} ∪ activeRuns paused_world /\
     tasks w' = tasks paused_world ++ [{| task_runId := "id3"; task_pc := pc |}]) /\
  step env0 (Finalise 0) started_world = started_world /\
  (let w := run_actions env0 [ResumeTask 0 (FetchResponse 200);
                              ResumeTask 0 (FetchResponse 200)] started_world in
   activeRuns (step env0 (Finalise 0) w) = activeRuns w ∖ {["id3"]}).
Proof.
  destruct (enqueueRun_idempotent env0) as (H1 & H2 & H3 & H4).
  split; [|split; [|split]].
  - apply H1. apply (bool_decide_unpack _). vm_compute. exact I.
  - apply H2. apply (bool_decide_unpack _). vm_compute. exact I.
  - apply (H3 0%nat {| task_runId := "id3"; task_pc := AfterRunStarted "id0" |}).
    + vm_compute. reflexivity.
    + reflexivity.
  - intros w.
    refine (proj1 (proj1 (H3 0%nat {| task_runId := "id3";
                                      task_pc := Settled (Ok tt) |} w _) _)).
    + vm_compute. reflexivity.
    + reflexivity.
Defined.

(** ** Timestamps of the status updates *)

Lemma find_map_same_key {A} (key : A -> string) (f : A -> A) id (l : list A) :
  (forall x, key (f x) = key x) ->
  List.find (fun r => String.eqb (key r) id) (map f l)
  = f <$> List.find (fun r => String.eqb (key r) id) l.
Proof.
  intros Hkey. induction l as [|x l IH]; simpl; [done|].
  rewrite Hkey. by destruct (String.eqb (key x) id).
Qed.

Lemma existsb_map_same_key {A} (key : A -> string) (f : A -> A) id (l : list A) :
  (forall x, key (f x) = key x) ->
  existsb (fun r => String.eqb (key r) id) (map f l)
  = existsb (fun r => String.eqb (key r) id) l.
Proof.
  intros Hkey. induction l as [|x l IH]; simpl; [done|].
  by rewrite Hkey, IH.
Qed.

Section StatusUpdates.

Context (env : Env).

(** The time that a status update reads from the clock. *)
Lemma updateRunStatus_eq runId s w :
  updateRunStatus env runId s w
  = update_run_row runId s
      (if bool_decide (s = RUNNING) then Some (clock env (clockReads w)) else None)
      (if is_terminal s then Some (clock env (clockReads w)) else None)
      (if bool_decide (s = PENDING) then w else tick w).
Proof. by destruct s. Qed.

Lemma updateStepRunStatus_eq stepRunId s w :
  updateStepRunStatus env stepRunId s w
  = update_step_run_row stepRunId s
      (if bool_decide (s = RUNNING) then Some (clock env (clockReads w)) else None)
      (if is_terminal s then Some (clock env (clockReads w)) else None)
      (if bool_decide (s = PENDING) then w else tick w).
Proof. by destruct s. Qed.

Lemma lookup_run_update_run_row runId s a b w id :
  lookup_run (db (update_run_row runId s a b w).2) id
  = (fun r => if String.eqb (run_id r) runId then stamp_run s a b r else r)
      <$> lookup_run (db w) id.
Proof.
  simpl. unfold lookup_run. simpl.
  apply (find_map_same_key run_id). intros x. by destruct (String.eqb _ _).
Qed.

Lemma lookup_step_run_update_step_run_row stepRunId s a b w id :
  lookup_step_run (db (update_step_run_row stepRunId s a b w).2) id
  = (fun r => if String.eqb (sr_id r) stepRunId then stamp_step_run s a b r else r)
      <$> lookup_step_run (db w) id.
Proof.
  simpl. unfold lookup_step_run. simpl.
  apply (find_map_same_key sr_id). intros x. by destruct (String.eqb _ _).
Qed.

Lemma lookup_run_id d id r : lookup_run d id = Some r -> run_id r = id.
Proof.
  unfold lookup_run. intros [_ H]%find_some. by apply String.eqb_eq in H.
Qed.

Lemma lookup_step_run_id d id r : lookup_step_run d id = Some r -> sr_id r = id.
Proof.
  unfold lookup_step_run. intros [_ H]%find_some. by apply String.eqb_eq in H.
Qed.

End StatusUpdates.

(** C5.  [updateRunStatus] gives the run the new status; it sets
    [startedAt] to the time read from the clock exactly when the new status
    is RUNNING and [startedAt] was null, sets [finishedAt] to that time
    exactly when the new status is SUCCEEDED or FAILED and [finishedAt] was
    null, and leaves both as they were in every other case.
    [updateStepRunStatus] does the same to a step run. *)
Theorem status_update_timestamps (env : Env) (s : RunStatus) (w : World) :
  let t := clock env (clockReads w) in
  (forall runId r,
     lookup_run (db w) runId = Some r ->
     exists r',
       lookup_run (db (updateRunStatus env runId s w).2) runId = Some r' /\
       run_status r' = s /\
       (s = RUNNING -> run_startedAt r = None -> run_startedAt r' = Some t) /\
       (~ (s = RUNNING /\ run_startedAt r = None) ->
        run_startedAt r' = run_startedAt r) /\
       (is_terminal s = true -> run_finishedAt r = None ->
        run_finishedAt r' = Some t) /\
       (~ (is_terminal s = true /\ run_finishedAt r = None) ->
        run_finishedAt r' = run_finishedAt r)) /\
  (forall stepRunId r,
     lookup_step_run (db w) stepRunId = Some r ->
     exists r',
       lookup_step_run (db (updateStepRunStatus env stepRunId s w).2) stepRunId
         = Some r' /\
       sr_status r' = s /\
       (s = RUNNING -> sr_startedAt r = None -> sr_startedAt r' = Some t) /\
       (~ (s = RUNNING /\ sr_startedAt r = None) ->
        sr_startedAt r' = sr_startedAt r) /\
       (is_terminal s = true -> sr_finishedAt r = None ->
        sr_finishedAt r' = Some t) /\
       (~ (is_terminal s = true /\ sr_finishedAt r = None) ->
        sr_finishedAt r' = sr_finishedAt r)).
Proof.
  intros t. split.
  - intros runId r Hr. rewrite updateRunStatus_eq, lookup_run_update_run_row.
    assert (db (if bool_decide (s = PENDING) then w else tick w) = db w) as ->
      by (by destruct (bool_decide _)).
    rewrite Hr. simpl. rewrite (lookup_run_id _ _ _ Hr), String.eqb_refl.
    eexists. split; [reflexivity|]. simpl.
    destruct s, (run_startedAt r), (run_finishedAt r); simpl;
      repeat split; try done; intros; try done; exfalso; tauto.
  - intros stepRunId r Hr.
    rewrite updateStepRunStatus_eq, lookup_step_run_update_step_run_row.
    assert (db (if bool_decide (s = PENDING) then w else tick w) = db w) as ->
      by (by destruct (bool_decide _)).
    rewrite Hr. simpl. rewrite (lookup_step_run_id _ _ _ Hr), String.eqb_refl.
    eexists. split; [reflexivity|]. simpl.
    destruct s, (sr_startedAt r), (sr_finishedAt r); simpl;
      repeat split; try done; intros; try done; exfalso; tauto.
Qed.

Lemma status_update_timestamps_witness :
  (exists r',
     lookup_run (db (updateRunStatus env0 "id3" FAILED paused_world).2) "id3"
       = Some r' /\
     run_status r' = FAILED /\
     run_startedAt r' = Some 1003 /\
     run_finishedAt r' = Some (clock env0 (clockReads paused_world))) /\
  (exists r',
     lookup_step_run (db (updateStepRunStatus env0 "id4" RUNNING paused_world).2)
       "id4" = Some r' /\
     sr_status r' = RUNNING /\
     sr_startedAt r' = Some (clock env0 (clockReads paused_world)) /\
     sr_finishedAt r' = None).
Proof.
  split.
  - destruct (status_update_timestamps env0 FAILED paused_world) as [H _].
    destruct (H "id3" paused_run) as (r' & H1 & H2 & H3 & H4 & H5 & H6).
    { vm_compute. reflexivity. }
    exists r'. repeat split; [exact H1|exact H2| |].
    + rewrite H4; [reflexivity|]. intros [Hs _]. discriminate Hs.
    + apply H5; reflexivity.
  - destruct (status_update_timestamps env0 RUNNING paused_world) as [_ H].
    destruct (H "id4" (pending_step_run "id4" "id1"))
      as (r' & H1 & H2 & H3 & H4 & H5 & H6).
    { vm_compute. reflexivity. }
    exists r'. repeat split; [exact H1|exact H2| |].
    + apply H3; reflexivity.
    + rewrite H6; [reflexivity|]. intros [Hs _]. discriminate Hs.
Defined.

(** ** Relations on the database *)

#[global] Instance on_db_preorder P `{!PreOrder P} : PreOrder (on_db P).
Proof.
  split.
  - intros w. unfold on_db. reflexivity.
  - intros w1 w2 w3. unfold on_db. intros. by etransitivity.
Qed.

#[global] Instance same_step_runs_preorder : PreOrder same_step_runs.
Proof.
  split.
  - by intros d.
  - intros d1 d2 d3. unfold same_step_runs. congruence.
Qed.

#[global] Instance appends_preorder ok : PreOrder (appends ok).
Proof.
  split.
  - intros d. exists []. by rewrite app_nil_r.
  - intros d1 d2 d3 (m1 & H1 & F1) (m2 & H2 & F2). exists (m1 ++ m2).
    rewrite H2, H1, app_assoc. split; [done|]. by apply Forall_app.
Qed.

Lemma appends_weaken (ok ok' : Event -> Prop) d d' :
  (forall e, ok e -> ok' e) -> appends ok d d' -> appends ok' d d'.
Proof.
  intros Hok (m & H & F). exists m. split; [done|].
  eapply Forall_impl; [exact F|exact Hok].
Qed.

Lemma stable_run {A} R (c : M A) w r w' : stable R c -> c w = (r, w') -> R w w'.
Proof. intros H Hc. specialize (H w). by rewrite Hc in H. Qed.

Lemma stable_weaken {A} (R R' : World -> World -> Prop) (c : M A) :
  (forall w w', R w w' -> R' w w') -> stable R c -> stable R' c.
Proof. intros HR H w. apply HR, H. Qed.

Section OnDb.

Context (env : Env) (P : Db -> Db -> Prop) `{!PreOrder P}.

Lemma on_db_rollback : rollback_closed (on_db P).
Proof. intros w w' _. unfold on_db. simpl. reflexivity. Qed.
Lemma on_db_now : stable (on_db P) (now env).
Proof. intros w. unfold on_db. simpl. reflexivity. Qed.
Lemma on_db_nanoid : stable (on_db P) (nanoid env).
Proof. intros w. unfold on_db. simpl. reflexivity. Qed.
Lemma on_db_publishRun r : stable (on_db P) (publishRun r).
Proof. intros w. unfold on_db. simpl. reflexivity. Qed.
Lemma on_db_listWorkflowSteps i : stable (on_db P) (listWorkflowSteps i).
Proof. intros w. unfold on_db. simpl. reflexivity. Qed.
Lemma on_db_getWorkflow i : stable (on_db P) (getWorkflow i).
Proof.
  intros w. unfold on_db, getWorkflow, bind. simpl.
  destruct (lookup_workflow (db w) i); simpl; reflexivity.
Qed.
Lemma on_db_getRun i : stable (on_db P) (getRun i).
Proof. intros w. unfold on_db. simpl. reflexivity. Qed.
Lemma on_db_getStepRunById i : stable (on_db P) (getStepRunById i).
Proof. intros w. unfold on_db. simpl. reflexivity. Qed.
Lemma on_db_listStepRuns i : stable (on_db P) (listStepRuns i).
Proof. intros w. unfold on_db. simpl. reflexivity. Qed.
Lemma on_db_listEvents i : stable (on_db P) (listEvents i).
Proof. intros w. unfold on_db. simpl. reflexivity. Qed.
Lemma on_db_getStepRunsMap i : stable (on_db P) (getStepRunsMap i).
Proof. intros w. unfold on_db. simpl. reflexivity. Qed.

End OnDb.

#[global] Hint Extern 1 (PreOrder _) => apply _ : stable.
#[global] Hint Resolve on_db_rollback on_db_now on_db_nanoid on_db_publishRun
  on_db_listWorkflowSteps on_db_getWorkflow on_db_getRun on_db_getStepRunById
  on_db_listStepRuns on_db_listEvents on_db_getStepRunsMap : stable.

Section AppendEvent.

Context (env : Env).

(** [appendEvent] inserts [new_event] when the constraints accept it, *)
Lemma appendEvent_ok r s t m w :
  event_accepted env w r s ->
  appendEvent env r s t m w
  = (Ok tt,
     with_db (set_events (events (db w) ++ [new_event env w r s t m]) (db w))
       (tick (draw w))).
Proof.
  intros [Hid Hfk]. unfold appendEvent, insert_event, bind. simpl.
  rewrite Hid. by rewrite Hfk.
Qed.

(** and throws, leaving the database as it was, when they do not. *)
Lemma appendEvent_cases r s t m w :
  appendEvent env r s t m w
  = (Ok tt,
     with_db (set_events (events (db w) ++ [new_event env w r s t m]) (db w))
       (tick (draw w))) \/
  exists e, appendEvent env r s t m w = (Throw e, tick (draw w)).
Proof.
  unfold appendEvent, insert_event, bind. simpl.
  destruct (has_event _ _); [right; by eexists|].
  destruct (negb _); [right; by eexists|]. by left.
Qed.

Lemma same_step_runs_appendEvent r s t m :
  stable (on_db same_step_runs) (appendEvent env r s t m).
Proof. intros w. by destruct (appendEvent_cases r s t m w) as [->|[e ->]]. Qed.

Lemma same_step_runs_update_run_row i s a b :
  stable (on_db same_step_runs) (update_run_row i s a b).
Proof. by intros w. Qed.

Lemma same_step_runs_updateRunStatus i s :
  stable (on_db same_step_runs) (updateRunStatus env i s).
Proof.
  pose proof same_step_runs_update_run_row.
  unfold updateRunStatus. stable_tac.
Qed.

Lemma appends_appendEvent (ok : Event -> Prop) r s t m :
  (forall w, ok (new_event env w r s t m)) ->
  stable (on_db (appends ok)) (appendEvent env r s t m).
Proof.
  intros Hok w. destruct (appendEvent_cases r s t m w) as [->|[e ->]].
  - eexists. split; [reflexivity|]. by constructor.
  - unfold on_db. simpl. reflexivity.
Qed.

Lemma appends_update_run_row ok i s a b :
  stable (on_db (appends ok)) (update_run_row i s a b).
Proof. intros w. unfold on_db. simpl. by exists []; rewrite app_nil_r. Qed.

Lemma appends_update_step_run_row ok i s a b :
  stable (on_db (appends ok)) (update_step_run_row i s a b).
Proof. intros w. unfold on_db. simpl. by exists []; rewrite app_nil_r. Qed.

Lemma appends_updateRunStatus ok i s :
  stable (on_db (appends ok)) (updateRunStatus env i s).
Proof.
  pose proof (appends_update_run_row ok).
  unfold updateRunStatus. stable_tac.
Qed.

Lemma appends_updateStepRunStatus ok i s :
  stable (on_db (appends ok)) (updateStepRunStatus env i s).
Proof.
  pose proof (appends_update_step_run_row ok).
  unfold updateStepRunStatus. stable_tac.
Qed.

End AppendEvent.

#[global] Hint Resolve same_step_runs_appendEvent same_step_runs_updateRunStatus
  appends_updateRunStatus appends_updateStepRunStatus : stable.

(** ** Manual completion *)

Lemma bind_inv {A B} (c : M A) (k : A -> M B) w b w' :
  bind c k w = (Ok b, w') ->
  exists a w1, c w = (Ok a, w1) /\ k a w1 = (Ok b, w').
Proof.
  unfold bind. destruct (c w) as [[a|e] w1]; [|done]. intros H. by exists a, w1.
Qed.

Section ManualCompletion.

Context (env : Env).

Lemma on_db_enqueueRun P `{!PreOrder P} r :
  stable (on_db P) (execute_start env r) -> stable (on_db P) (enqueueRun env r).
Proof.
  intros Hst w. unfold enqueueRun. destruct (decide _); [simpl; reflexivity|].
  specialize (Hst (with_activeRuns ({[r]} ∪ activeRuns w) w)).
  by destruct (execute_start env r _) as [x w2].
Qed.

Lemma same_step_runs_execute_start r :
  stable (on_db same_step_runs) (execute_start env r).
Proof. unfold execute_start. stable_tac. Qed.

Lemma same_step_runs_enqueueRun r :
  stable (on_db same_step_runs) (enqueueRun env r).
Proof. apply on_db_enqueueRun; [apply _|apply same_step_runs_execute_start]. Qed.

(** A call on a step run that is already SUCCEEDED or FAILED returns it and
    changes nothing. *)
Lemma completeManualStep_terminal stepRunId success w sr :
  lookup_step_run (db w) stepRunId = Some sr ->
  is_terminal (sr_status sr) = true ->
  completeManualStep env stepRunId success w = (Ok (Some sr), w).
Proof.
  intros Hsr Hterm. unfold completeManualStep, bind. simpl.
  by rewrite Hsr, Hterm.
Qed.

(** The row that [updateStepRunStatus] leaves for a terminal status. *)
Lemma updateStepRunStatus_terminal stepRunId s w sr :
  lookup_step_run (db w) stepRunId = Some sr ->
  is_terminal s = true ->
  exists w',
    updateStepRunStatus env stepRunId s w = (Ok tt, w') /\
    lookup_step_run (db w') stepRunId
    = Some (stamp_step_run s None (Some (clock env (clockReads w))) sr) /\
    events (db w') = events (db w) /\
    workflow_runs (db w') = workflow_runs (db w) /\
    foreign_keys (db w') = foreign_keys (db w) /\
    idDraws w' = idDraws w /\
    clockReads w' = S (clockReads w) /\
    same_exec w w'.
Proof.
  intros Hsr Hterm.
  exists (update_step_run_row stepRunId s None
            (Some (clock env (clockReads w))) (tick w)).2.
  split; [by destruct s|].
  pose proof (lookup_step_run_update_step_run_row stepRunId s None
                (Some (clock env (clockReads w))) (tick w) stepRunId) as Hl.
  simpl in Hl. simpl. unfold lookup_step_run in *. simpl in *.
  rewrite Hl, Hsr. simpl.
  apply lookup_step_run_id in Hsr. rewrite Hsr, String.eqb_refl.
  by destruct s.
Qed.

Lemma same_step_runs_completeManualStep_fail sr :
  stable (on_db same_step_runs) (completeManualStep_fail env sr).
Proof. unfold completeManualStep_fail. stable_tac. Qed.

(** Whether or not its event is accepted, the first part of a call leaves
    the step run in the status asked for. *)
Lemma completeManualStep_record_row stepRunId success sr w r w1 :
  lookup_step_run (db w) stepRunId = Some sr ->
  completeManualStep_record env stepRunId success sr w = (r, w1) ->
  lookup_step_run (db w1) stepRunId
  = Some (stamp_step_run (if success then SUCCEEDED else FAILED) None
            (Some (clock env (clockReads w))) sr).
Proof.
  intros Hsr. unfold completeManualStep_record.
  destruct (updateStepRunStatus_terminal stepRunId
              (if success then SUCCEEDED else FAILED) w sr Hsr)
    as (wa & Ha & Hla & _); [by destruct success|].
  unfold bind at 1. rewrite Ha. intros H.
  assert (stable (on_db same_step_runs)
            (appendEvent env (sr_workflowRunId sr) (Some stepRunId)
               (if success then STEP_SUCCEEDED else STEP_FAILED)
               (if success then "Manual step completed" else "Manual step failed") >>
             publishRun (sr_workflowRunId sr))) as Hst by stable_tac.
  apply (stable_run _ _ _ _ _ Hst) in H.
  unfold lookup_step_run in *. by rewrite H.
Qed.

Lemma completeManualStep_result stepRunId success w r1 w1 :
  completeManualStep env stepRunId success w = (Ok r1, w1) ->
  exists sr1,
    r1 = Some sr1 /\ lookup_step_run (db w1) stepRunId = Some sr1 /\
    is_terminal (sr_status sr1) = true.
Proof.
  unfold completeManualStep. intros H.
  apply bind_inv in H as (osr & w0 & H0 & H). injection H0 as <- <-.
  destruct (lookup_step_run (db w) stepRunId) as [sr|] eqn:Hsr; [|done].
  destruct (is_terminal (sr_status sr)) eqn:Hterm.
  { injection H as <- <-. by exists sr. }
  apply bind_inv in H as ([] & wc & Hc & H).
  apply (completeManualStep_record_row _ _ _ _ _ _ Hsr) in Hc.
  assert (exists wd, step_runs (db wd) = step_runs (db wc) /\
                     getStepRunById stepRunId wd = (Ok r1, w1))
    as (wd & Hd & Hget).
  { destruct success; simpl in H.
    - apply bind_inv in H as ([] & wd & Hd & H). exists wd. split; [|done].
      by apply (stable_run _ _ _ _ _ (same_step_runs_enqueueRun _)) in Hd.
    - apply bind_inv in H as ([] & wd & Hd & H). exists wd. split; [|done].
      by apply (stable_run _ _ _ _ _
                  (same_step_runs_completeManualStep_fail _)) in Hd. }
  assert (lookup_step_run (db wd) stepRunId
          = Some (stamp_step_run (if success then SUCCEEDED else FAILED) None
                    (Some (clock env (clockReads w))) sr)) as Hfinal.
  { unfold lookup_step_run in *. by rewrite Hd. }
  injection Hget as <- <-. rewrite Hfinal.
  eexists. split; [reflexivity|]. split; [done|]. by destruct success.
Qed.

End ManualCompletion.

(** C6.  [completeManualStep] on a step run whose status is already
    SUCCEEDED or FAILED returns that step run and leaves the whole world as
    it was: no event, no status, no timestamp changes.  In particular, when
    a call has returned, the same call made again returns the same step run
    and changes nothing. *)
Theorem completeManualStep_idempotent (env : Env) (stepRunId : string)
    (success : bool) (w : World) :
  (forall sr,
     lookup_step_run (db w) stepRunId = Some sr ->
     is_terminal (sr_status sr) = true ->
     completeManualStep env stepRunId success w = (Ok (Some sr), w)) /\
  (forall r1 w1,
     completeManualStep env stepRunId success w = (Ok r1, w1) ->
     completeManualStep env stepRunId success w1 = (Ok r1, w1)).
Proof.
  split.
  - intros sr. apply completeManualStep_terminal.
  - intros r1 w1 H.
    apply completeManualStep_result in H as (sr1 & -> & Hl & Hterm).
    by apply completeManualStep_terminal.
Qed.

Lemma completeManualStep_idempotent_witness :
  (exists sr,
     completeManualStep env0 "id5" false rejected_world
     = (Ok (Some sr), rejected_world)) /\
  (exists r1 w1,
     completeManualStep env0 "id4" true paused_world = (Ok r1, w1) /\
     completeManualStep env0 "id4" true w1 = (Ok r1, w1)).
Proof.
  split.
  - eexists.
    apply (proj1 (completeManualStep_idempotent env0 "id5" false rejected_world));
      vm_compute; reflexivity.
  - eexists _, _. split; [vm_compute; reflexivity|].
    apply (proj2 (completeManualStep_idempotent env0 "id4" true paused_world)).
    vm_compute. reflexivity.
Defined.

Section AnyStep.

Context (env : Env).

Lemma bind_ok {A B} (c : M A) (k : A -> M B) w a w1 :
  c w = (Ok a, w1) -> bind c k w = k a w1.
Proof. intros H. unfold bind. by rewrite H. Qed.

Lemma lookup_step_run_has d id r :
  lookup_step_run d id = Some r -> has_step_run d id = true.
Proof.
  unfold lookup_step_run, has_step_run. intros [Hin Heq]%find_some.
  apply existsb_exists. by exists r.
Qed.

Lemma lookup_run_has d id r : lookup_run d id = Some r -> has_run d id = true.
Proof.
  unfold lookup_run, has_run. intros [Hin Heq]%find_some.
  apply existsb_exists. by exists r.
Qed.

Lemma enqueueRun_returns r w : (enqueueRun env r w).1 = Ok tt.
Proof.
  unfold enqueueRun. destruct (decide _); [done|].
  by destruct (execute_start env r _).
Qed.

Lemma appends_any_execute_start r :
  stable (on_db (appends (fun _ => True))) (execute_start env r).
Proof.
  pose proof (appends_appendEvent env (fun _ => True)).
  unfold execute_start. stable_tac.
Qed.

Lemma appends_any_enqueueRun r :
  stable (on_db (appends (fun _ => True))) (enqueueRun env r).
Proof. apply on_db_enqueueRun; [apply _|apply appends_any_execute_start]. Qed.

Lemma appends_any_completeManualStep_fail sr :
  stable (on_db (appends (fun _ => True))) (completeManualStep_fail env sr).
Proof.
  pose proof (appends_appendEvent env (fun _ => True)).
  unfold completeManualStep_fail. stable_tac.
Qed.

(** The first part of [completeManualStep] when its event is accepted. *)
Lemma completeManualStep_record_ok stepRunId success sr w :
  lookup_step_run (db w) stepRunId = Some sr ->
  has_event (db w) (ids env (idDraws w)) = false ->
  has_run (db w) (sr_workflowRunId sr) = true ->
  exists w1,
    completeManualStep_record env stepRunId success sr w = (Ok tt, w1) /\
    events (db w1)
    = events (db w)
      ++ [new_event env (tick w) (sr_workflowRunId sr) (Some stepRunId)
            (if success then STEP_SUCCEEDED else STEP_FAILED)
            (if success then "Manual step completed" else "Manual step failed")] /\
    same_exec w w1.
Proof.
  intros Hsr Hfresh Hrun. unfold completeManualStep_record.
  destruct (updateStepRunStatus_terminal env stepRunId
              (if success then SUCCEEDED else FAILED) w sr Hsr)
    as (wa & Ha & Hla & Hev & Hruns & Hfk & Hids & Hclock & Hex);
    [by destruct success|].
  rewrite (bind_ok _ _ _ _ _ Ha).
  assert (event_accepted env wa (sr_workflowRunId sr) (Some stepRunId)) as Hacc.
  { split.
    - unfold has_event in *. by rewrite Hev, Hids.
    - unfold fk_ok. rewrite (lookup_step_run_has _ _ _ Hla).
      unfold has_run in *. rewrite Hruns, Hrun. simpl. apply orb_true_r. }
  rewrite (bind_ok _ _ _ _ _ (appendEvent_ok env _ _ _ _ _ Hacc)).
  eexists. split; [reflexivity|]. simpl. split.
  - rewrite Hev. unfold new_event. simpl. by rewrite Hids, Hclock.
  - destruct Hex as [Hact Htasks]. by split.
Qed.

End AnyStep.

(** C10.  [completeManualStep] asks neither for a MANUAL step nor for a
    step that waits for completion: for every step run that exists and is
    PENDING or RUNNING, whatever its step and whatever the scheduling tasks
    are doing, the call gives it the status asked for, appends the
    STEP_SUCCEEDED or STEP_FAILED event, touches no scheduling task in doing
    so and, on success, calls [enqueueRun] for its run. *)
Theorem completeManualStep_any_step (env : Env) (stepRunId : string)
    (success : bool) (w : World) (sr : StepRun) :
  lookup_step_run (db w) stepRunId = Some sr ->
  is_terminal (sr_status sr) = false ->
  has_event (db w) (ids env (idDraws w)) = false ->
  has_run (db w) (sr_workflowRunId sr) = true ->
  let sr' := stamp_step_run (if success then SUCCEEDED else FAILED) None
               (Some (clock env (clockReads w))) sr in
  let event := new_event env (tick w) (sr_workflowRunId sr) (Some stepRunId)
                 (if success then STEP_SUCCEEDED else STEP_FAILED)
                 (if success then "Manual step completed"
                  else "Manual step failed") in
  exists w1,
    completeManualStep_record env stepRunId success sr w = (Ok tt, w1) /\
    lookup_step_run (db w1) stepRunId = Some sr' /\
    events (db w1) = events (db w) ++ [event] /\
    same_exec w w1 /\
    (let w' := (completeManualStep env stepRunId success w).2 in
     lookup_step_run (db w') stepRunId = Some sr' /\
     exists more, events (db w') = events (db w) ++ event :: more) /\
    (success = true ->
     completeManualStep env stepRunId success w
     = (Ok (Some sr'), (enqueueRun env (sr_workflowRunId sr) w1).2)).
Proof.
  intros Hsr Hterm Hfresh Hrun sr' event.
  destruct (completeManualStep_record_ok env stepRunId success sr w Hsr Hfresh Hrun)
    as (w1 & Hrec & Hev & Hex).
  pose proof (completeManualStep_record_row env _ _ _ _ _ _ Hsr Hrec) as Hrow.
  exists w1. split; [done|]. split; [done|]. split; [done|]. split; [done|].
  assert (completeManualStep env stepRunId success w
          = (if negb success
             then completeManualStep_fail env sr >> getStepRunById stepRunId
             else enqueueRun env (sr_workflowRunId sr) >> getStepRunById stepRunId)
              w1) as Hcall.
  { unfold completeManualStep. unfold bind at 1. simpl. rewrite Hsr, Hterm.
    by rewrite (bind_ok _ _ _ _ _ Hrec). }
  split.
  - rewrite Hcall. clear Hcall.
    assert (stable (on_db same_step_runs)
              (if negb success
               then completeManualStep_fail env sr >> getStepRunById stepRunId
               else enqueueRun env (sr_workflowRunId sr) >> getStepRunById stepRunId))
      as Hs1.
    { pose proof (same_step_runs_completeManualStep_fail env).
      pose proof (same_step_runs_enqueueRun env). stable_tac. }
    assert (stable (on_db (appends (fun _ => True)))
              (if negb success
               then completeManualStep_fail env sr >> getStepRunById stepRunId
               else enqueueRun env (sr_workflowRunId sr) >> getStepRunById stepRunId))
      as Hs2.
    { pose proof (appends_any_completeManualStep_fail env).
      pose proof (appends_any_enqueueRun env). stable_tac. }
    specialize (Hs1 w1). specialize (Hs2 w1). simpl. split.
    + unfold lookup_step_run in *. by rewrite Hs1.
    + destruct Hs2 as (more & Hmore & _). exists more.
      by rewrite Hmore, Hev, <- app_assoc.
  - intros ->. rewrite Hcall. simpl. unfold bind.
    pose proof (enqueueRun_returns env (sr_workflowRunId sr) w1) as Hret.
    pose proof (same_step_runs_enqueueRun env (sr_workflowRunId sr) w1) as Hsame.
    destruct (enqueueRun env (sr_workflowRunId sr) w1) as [r w2].
    simpl in *. subst r. simpl. unfold on_db, same_step_runs in Hsame.
    unfold getStepRunById, bind, get_db, ret, lookup_step_run in *.
    by rewrite Hsame, Hrow.
Qed.

Lemma completeManualStep_any_step_witness :
  exists w1,
    completeManualStep_record env0 "id3" true sleeping_step_run sleeping_world
    = (Ok tt, w1) /\
    tasks w1 = tasks sleeping_world /\
    completeManualStep env0 "id3" true sleeping_world
    = (Ok (Some (stamp_step_run SUCCEEDED None
                   (Some (clock env0 (clockReads sleeping_world)))
                   sleeping_step_run)),
       (enqueueRun env0 "id2" w1).2).
Proof.
  destruct (completeManualStep_any_step env0 "id3" true sleeping_world
              sleeping_step_run)
    as (w1 & H1 & H2 & H3 & H4 & H5 & H6); [vm_compute; reflexivity ..|].
  exists w1. split; [exact H1|]. split; [apply H4|]. apply H6. reflexivity.
Defined.

(** ** Failure of an automated step *)

Section HandlerFailure.

Context (env : Env).

Lemma update_step_run_row_eq id s a b w :
  update_step_run_row id s a b w
  = (Ok tt,
     with_db (set_step_runs
                (map (fun r => if String.eqb (sr_id r) id
                               then stamp_step_run s a b r else r)
                   (step_runs (db w))) (db w)) w).
Proof. reflexivity. Qed.

Lemma update_run_row_eq id s a b w :
  update_run_row id s a b w
  = (Ok tt,
     with_db (set_workflow_runs
                (map (fun r => if String.eqb (run_id r) id
                               then stamp_run s a b r else r)
                   (workflow_runs (db w))) (db w)) w).
Proof. reflexivity. Qed.

Lemma has_step_run_stamped id s a b d i :
  existsb (fun r => String.eqb (sr_id r) i)
    (map (fun r => if String.eqb (sr_id r) id then stamp_step_run s a b r else r)
       (step_runs d))
  = has_step_run d i.
Proof.
  apply (existsb_map_same_key sr_id). intros x. by destruct (String.eqb _ _).
Qed.

Lemma has_run_stamped id s a b d i :
  existsb (fun r => String.eqb (run_id r) i)
    (map (fun r => if String.eqb (run_id r) id then stamp_run s a b r else r)
       (workflow_runs d))
  = has_run d i.
Proof.
  apply (existsb_map_same_key run_id). intros x. by destruct (String.eqb _ _).
Qed.


End HandlerFailure.






(** ** The start of a scheduling pass *)

Section PassStart.

Context (env : Env).

(** Lines 30-37 test that the run and its workflow exist and nothing else:
    whatever the status of the run, the pass sets it to RUNNING and appends
    RUN_STARTED. *)
Lemma execute_start_ok runId w run wf :
  lookup_run (db w) runId = Some run ->
  lookup_workflow (db w) (run_workflowId run) = Some wf ->
  has_event (db w) (ids env (idDraws w)) = false ->
  exists w',
    execute_start env runId w = (Ok (AfterRunStarted (wf_id wf)), w') /\
    lookup_run (db w') runId
    = Some (stamp_run RUNNING (Some (clock env (clockReads w))) None run) /\
    events (db w') = events (db w) ++ [run_started_event env w runId] /\
    step_runs (db w') = step_runs (db w) /\
    published w' = published w ++ ["runUpdated:" +:+ runId] /\
    same_exec w w'.
Proof.
  intros Hrun Hwf Hfresh. unfold execute_start.
  unfold bind at 1. simpl. rewrite Hrun.
  unfold getWorkflow. unfold bind at 1. unfold bind at 1. simpl. rewrite Hwf.
  simpl.
  rewrite (bind_ok _ _ _ _ _ (eq_trans (updateRunStatus_eq env _ _ _)
                                (update_run_row_eq _ _ _ _ _))).
  cbn [is_terminal bool_decide decide_rel].
  set (w1 := with_db _ (if bool_decide (RUNNING = PENDING) then w else tick w)).
  assert (event_accepted env w1 runId None) as Hacc.
  { split; [exact Hfresh|]. unfold fk_ok. subst w1. simpl.
    unfold has_run. simpl.
    rewrite has_run_stamped, (lookup_run_has _ _ _ Hrun). apply orb_true_r. }
  rewrite (bind_ok _ _ _ _ _ (appendEvent_ok env _ _ _ _ _ Hacc)).
  eexists. split; [reflexivity|]. subst w1. simpl.
  split; [|done].
  unfold lookup_run in *. simpl.
  rewrite (find_map_same_key run_id); [|intros x; by destruct (String.eqb _ _)].
  rewrite Hrun. simpl.
  apply (lookup_run_id (db w)) in Hrun. by rewrite Hrun, String.eqb_refl.
Qed.

End PassStart.

(** C2, as the code has it.  A scheduling pass over a run that is PENDING or
    RUNNING, and whose workflow exists, sets the run to RUNNING and appends
    a RUN_STARTED event at its start in both cases.  For a run that was
    already RUNNING with [startedAt] set, the run's row stays as it was; the
    RUN_STARTED event is appended all the same. *)
Theorem pass_start_marks_running (env : Env) (runId : string) (w : World)
    (run : WorkflowRun) (wf : WorkflowRow) :
  lookup_run (db w) runId = Some run ->
  is_terminal (run_status run) = false ->
  lookup_workflow (db w) (run_workflowId run) = Some wf ->
  has_event (db w) (ids env (idDraws w)) = false ->
  exists w' run',
    execute_start env runId w = (Ok (AfterRunStarted (wf_id wf)), w') /\
    lookup_run (db w') runId = Some run' /\
    run_status run' = RUNNING /\
    run_startedAt run'
    = coalesce (run_startedAt run) (Some (clock env (clockReads w))) /\
    run_finishedAt run' = run_finishedAt run /\
    (run_status run = RUNNING -> run_startedAt run <> None -> run' = run) /\
    events (db w') = events (db w) ++ [run_started_event env w runId] /\
    ev_type (run_started_event env w runId) = RUN_STARTED.
Proof.
  intros Hrun _ Hwf Hfresh.
  destruct (execute_start_ok env runId w run wf Hrun Hwf Hfresh)
    as (w' & Hstart & Hrun' & Hev & _).
  exists w', (stamp_run RUNNING (Some (clock env (clockReads w))) None run).
  split; [done|]. split; [done|]. split; [done|]. split; [done|].
  split; [simpl; by destruct (run_finishedAt run)|]. split; [|done].
  intros Hst Hstarted. destruct run as [i wid st c [t|] f]; simpl in *; [|done].
  subst st. unfold stamp_run. simpl. by destruct f.
Qed.

Lemma pass_start_marks_running_witness :
  exists w',
    execute_start env0 "id3" paused_world = (Ok (AfterRunStarted "id0"), w') /\
    lookup_run (db w') "id3" = Some paused_run /\
    events (db w')
    = events (db paused_world) ++ [run_started_event env0 paused_world "id3"].
Proof.
  destruct (pass_start_marks_running env0 "id3" paused_world paused_run
              scenario_workflow)
    as (w' & run' & H1 & H2 & H3 & H4 & H5 & H6 & H7 & H8);
    [vm_compute; reflexivity ..|].
  exists w'. split; [exact H1|]. split; [|exact H7].
  rewrite H2. f_equal. apply H6; [reflexivity|discriminate].
Defined.

(** The claim C2 as it was stated fails on the scenario: the run waits at its
    first manual step, RUNNING, and a pass that starts on it appends a
    second RUN_STARTED event. *)
Lemma pass_over_running_run_restarts :
  ~ starts_only_when_pending env0 paused_world "id3".
Proof.
  intros H. destruct (H paused_run) as [Hev _]; [vm_compute; reflexivity ..|].
  vm_compute in Hev. discriminate Hev.
Qed.

(** C1 fails on the code.  A pass that starts on a run whose status is
    SUCCEEDED or FAILED does not return: it sets the run back to RUNNING,
    with its [finishedAt] still set, and appends a RUN_STARTED event. *)
Theorem terminal_run_is_reopened (env : Env) (runId : string) (w : World)
    (run : WorkflowRun) (wf : WorkflowRow) :
  lookup_run (db w) runId = Some run ->
  is_terminal (run_status run) = true ->
  lookup_workflow (db w) (run_workflowId run) = Some wf ->
  has_event (db w) (ids env (idDraws w)) = false ->
  exists w' run',
    execute_start env runId w = (Ok (AfterRunStarted (wf_id wf)), w') /\
    lookup_run (db w') runId = Some run' /\
    run_status run' = RUNNING /\
    run_status run' <> run_status run /\
    run_finishedAt run' = run_finishedAt run /\
    events (db w') = events (db w) ++ [run_started_event env w runId].
Proof.
  intros Hrun Hterm Hwf Hfresh.
  destruct (execute_start_ok env runId w run wf Hrun Hwf Hfresh)
    as (w' & Hstart & Hrun' & Hev & _).
  exists w', (stamp_run RUNNING (Some (clock env (clockReads w))) None run).
  split; [done|]. split; [done|]. split; [done|].
  split; [simpl; by destruct (run_status run)|].
  split; [simpl; by destruct (run_finishedAt run)|]. done.
Qed.

Lemma terminal_run_is_reopened_witness :
  (exists w' run',
     execute_start env0 "id3" rejected_world = (Ok (AfterRunStarted "id0"), w') /\
     lookup_run (db w') "id3" = Some run' /\
     run_status run' = RUNNING /\
     run_finishedAt run' = Some 1008) /\
  map ev_type (events (db rejected_world))
  = [RUN_STARTED; RUN_STARTED; STEP_STARTED; STEP_FAILED; RUN_FAILED] /\
  map ev_type (events (db reopened_world))
  = [RUN_STARTED; RUN_STARTED; STEP_STARTED; STEP_FAILED; RUN_FAILED;
     STEP_SUCCEEDED; RUN_STARTED] /\
  run_status <$> lookup_run (db reopened_world) "id3" = Some RUNNING.
Proof.
  split; [|vm_compute; repeat split; reflexivity].
  destruct (terminal_run_is_reopened env0 "id3" rejected_world failed_run
              scenario_workflow)
    as (w' & run' & H1 & H2 & H3 & H4 & H5 & H6);
    [vm_compute; reflexivity ..|].
  exists w', run'. split; [exact H1|]. split; [exact H2|].
  split; [exact H3|exact H5].
Defined.

(** ** Creating a run *)

Section CreateRun.

Context (env : Env).

(** With foreign keys on, [createRun] for a workflow that does not exist
    throws at its first statement and leaves the database as it was. *)
Lemma createRun_unknown_workflow workflowId w :
  foreign_keys (db w) = true ->
  has_workflow (db w) workflowId = false ->
  exists e w',
    createRun env workflowId w = (Throw e, w') /\ db w' = db w /\ same_exec w w'.
Proof.
  intros Hfk Hwf. unfold createRun, insert_run, bind. simpl.
  destruct (has_run (db w) (ids env (idDraws w))); [by eexists _, _|].
  unfold fk_ok. rewrite Hfk, Hwf. simpl. by eexists _, _.
Qed.

(** With foreign keys off the same call inserts a run of no workflow. *)
Lemma createRun_unknown_workflow_unchecked workflowId w :
  foreign_keys (db w) = false ->
  has_run (db w) (ids env (idDraws w)) = false ->
  (forall r, r ∈ workflow_steps (db w) -> row_workflow_id r <> workflowId) ->
  exists run w',
    createRun env workflowId w = (Ok run, w') /\
    run_workflowId run = workflowId /\ run_status run = PENDING /\
    lookup_run (db w') (run_id run) = Some run.
Proof.
  intros Hfk Hfresh Hnone. unfold createRun, insert_run, bind. simpl.
  rewrite Hfresh. unfold fk_ok. rewrite Hfk. simpl.
  assert (select_steps
            (set_workflow_runs
               (workflow_runs (db w) ++
                [{| run_id := ids env (idDraws w); run_workflowId := workflowId;
                    run_status := PENDING;
                    run_createdAt := clock env (clockReads w);
                    run_startedAt := None; run_finishedAt := None |}])
               (db w)) workflowId = []) as ->.
  { unfold select_steps. simpl.
    assert (List.filter (fun r => String.eqb (row_workflow_id r) workflowId)
              (workflow_steps (db w)) = []) as ->; [|done].
    induction (workflow_steps (db w)) as [|r l IH]; simpl; [done|].
    destruct (String.eqb_spec (row_workflow_id r) workflowId) as [Heq|Hne].
    - exfalso. apply (Hnone r); [by left|done].
    - apply IH. intros r' Hr'. apply Hnone. by right. }
  simpl. unfold lookup_run. simpl.
  assert (forall l (x : WorkflowRun),
            existsb (fun r => String.eqb (run_id r) (run_id x)) l = false ->
            List.find (fun r => String.eqb (run_id r) (run_id x)) (l ++ [x])
            = Some x) as Hfind.
  { intros l x. induction l as [|y l IH]; simpl.
    - by rewrite String.eqb_refl.
    - destruct (String.eqb (run_id y) (run_id x)); [done|]. exact IH. }
  rewrite (Hfind _ {| run_id := ids env (idDraws w) |}) by exact Hfresh.
  eexists _, _. split; [reflexivity|]. simpl. split; [done|]. split; [done|].
  by apply (Hfind _ {| run_id := ids env (idDraws w) |}).
Qed.

End CreateRun.

(** C4 fails on the code: the run is inserted before the transaction
    begins.  When a step run cannot be inserted, here because its identifier
    is already taken, the transaction rolls the step runs back, [createRun]
    throws, and the run stays in the database, PENDING and without any step
    run, although its workflow has two steps. *)
Theorem createRun_is_not_atomic :
  exists w',
    createRun env_collision "id0" started_world
    = (Throw (SqliteError "UNIQUE constraint failed: step_runs.id"), w') /\
    has_run (db started_world) "id8" = false /\
    (exists run, lookup_run (db w') "id8" = Some run /\ run_status run = PENDING) /\
    select_step_runs (db w') "id8" = [] /\
    length (select_steps (db w') "id0") = 2%nat /\
    step_runs (db w') = step_runs (db started_world).
Proof.
  eexists. split; [vm_compute; reflexivity|].
  split; [vm_compute; reflexivity|]. split.
  - eexists. split; vm_compute; reflexivity.
  - repeat split; vm_compute; reflexivity.
Qed.

(** ** [ORDER BY] *)

Section OrderBy.

Context {A : Type} (key : A -> Z).

Lemma insert_by_perm x l : Permutation (insert_by key x l) (x :: l).
Proof.
  induction l as [|y l IH]; simpl; [done|].
  destruct (key x <=? key y)%Z; [done|].
  rewrite IH. apply perm_swap.
Qed.

Lemma order_by_perm l : Permutation (order_by key l) l.
Proof.
  induction l as [|x l IH]; simpl; [done|].
  rewrite insert_by_perm. by constructor.
Qed.

Lemma insert_by_sorted x l :
  StronglySorted Z.le (map key l) ->
  StronglySorted Z.le (map key (insert_by key x l)).
Proof.
  induction l as [|y l IH]; simpl; intros Hs.
  - repeat constructor.
  - apply StronglySorted_inv in Hs as [Hs Hall].
    destruct (Z.leb_spec (key x) (key y)) as [Hle|Hlt]; simpl.
    + constructor; [by constructor|]. constructor; [done|].
      eapply Forall_impl; [exact Hall|]. simpl. intros z Hz. lia.
    + constructor; [by apply IH|].
      apply List.Forall_forall. intros z Hz.
      apply (Permutation_in _ (Permutation_map key (insert_by_perm x l))) in Hz.
      destruct Hz as [<-|Hz]; [lia|].
      rewrite List.Forall_forall in Hall. by apply Hall.
Qed.

Lemma order_by_sorted l : StronglySorted Z.le (map key (order_by key l)).
Proof.
  induction l as [|x l IH]; simpl; [constructor|]. by apply insert_by_sorted.
Qed.

Lemma order_by_of_sorted l :
  StronglySorted Z.le (map key l) -> order_by key l = l.
Proof.
  induction l as [|x l IH]; simpl; [done|].
  intros [Hs Hall]%StronglySorted_inv. rewrite (IH Hs).
  destruct l as [|y l]; simpl; [done|].
  apply Forall_cons in Hall as [Hle _].
  by destruct (Z.leb_spec (key x) (key y)) as [_|Hlt]; [|lia].
Qed.

End OrderBy.

Lemma order_by_map {A B} (keyA : A -> Z) (keyB : B -> Z) (f : A -> B) l :
  (forall x, keyB (f x) = keyA x) ->
  order_by keyB (map f l) = map f (order_by keyA l).
Proof.
  intros Hkey. induction l as [|x l IH]; simpl; [done|]. rewrite IH.
  generalize (order_by keyA l). intros k.
  induction k as [|y k IHk]; simpl; [done|].
  rewrite !Hkey. destruct (keyA x <=? keyA y)%Z; simpl; [done|]. by rewrite IHk.
Qed.

Lemma sorted_le_nodup_lt (l : list Z) :
  StronglySorted Z.le l -> NoDup l -> StronglySorted Z.lt l.
Proof.
  induction l as [|x l IH]; [constructor|].
  intros [Hs Hall]%StronglySorted_inv [Hnotin Hnd]%NoDup_cons.
  constructor; [by apply IH|].
  apply List.Forall_forall. intros y Hy. rewrite List.Forall_forall in Hall.
  specialize (Hall y Hy). apply list_elem_of_In in Hy.
  assert (x <> y) by (by intros ->). lia.
Qed.

(** ** Rewriting the steps of a workflow *)

Section UpdateWorkflow.

Context (env : Env).

Lemma assign_ids_length n steps : length (assign_ids env n steps) = length steps.
Proof.
  revert n. induction steps as [|s l IH]; intros n; simpl; [done|].
  destruct (si_id s); simpl; by rewrite IH.
Qed.

Lemma has_step_app d row x :
  has_step (set_workflow_steps (workflow_steps d ++ [row]) d) x
  = has_step d x || String.eqb (row_id row) x.
Proof.
  unfold has_step. simpl. rewrite existsb_app. simpl. by rewrite orb_false_r.
Qed.

(** The loop of [updateWorkflow]: every row is inserted when the
    identifiers are distinct and free. *)
Lemma forEach_insert_steps id steps : forall w,
  fk_ok (db w) (has_workflow (db w) id) = true ->
  NoDup (assign_ids env (idDraws w) steps) ->
  (forall x, x ∈ assign_ids env (idDraws w) steps -> has_step (db w) x = false) ->
  exists w',
    forEach (fun s =>
       let* sid := match si_id s with
                   | Some i => ret i
                   | None => nanoid env
                   end in
       insert_step {| row_id := sid; row_workflow_id := id;
                      row_name := si_name s; row_type := si_type s;
                      row_config := stored_config (si_config s);
                      row_step_order := si_order s |}) steps w
    = (Ok tt, w') /\
    db w'
    = set_workflow_steps
        (workflow_steps (db w)
         ++ zip_with (row_of_input id) (assign_ids env (idDraws w) steps) steps)
        (db w).
Proof.
  induction steps as [|s l IH]; intros w Hfk Hnd Hfree.
  - exists w. split; [done|]. simpl. rewrite app_nil_r. by destruct (db w).
  - simpl forEach.
    set (sid := match si_id s with Some i => i | None => ids env (idDraws w) end).
    set (w0 := match si_id s with Some _ => w | None => draw w end).
    assert (assign_ids env (idDraws w) (s :: l)
            = sid :: assign_ids env (idDraws w0) l) as Hids
      by (subst sid w0; simpl; by destruct (si_id s)).
    rewrite Hids in Hnd, Hfree |- *.
    apply NoDup_cons in Hnd as [Hnotin Hnd].
    set (w1 := with_db (set_workflow_steps
                          (workflow_steps (db w) ++ [row_of_input id sid s])
                          (db w)) w0).
    assert (db w0 = db w) as Hdb0 by (subst w0; by destruct (si_id s)).
    assert ((let* sid := match si_id s with
                         | Some i => ret i
                         | None => nanoid env
                         end in
             insert_step {| row_id := sid; row_workflow_id := id;
                            row_name := si_name s; row_type := si_type s;
                            row_config := stored_config (si_config s);
                            row_step_order := si_order s |}) w
            = (Ok tt, w1)) as Hins.
    { assert (has_step (db w) sid = false) as Hsid by (apply Hfree; by left).
      subst w1 w0 sid. unfold bind, insert_step.
      destruct (si_id s) as [i|]; simpl in *; unfold bind; simpl;
        rewrite Hsid; simpl; by rewrite Hfk. }
    rewrite (bind_ok _ _ _ _ _ Hins).
    destruct (IH w1) as (w' & Hrest & Hdb').
    + subst w1. simpl. unfold fk_ok, has_workflow in *. simpl. by rewrite Hfk.
    + subst w1. simpl. done.
    + intros x Hx. subst w1. simpl. rewrite has_step_app.
      rewrite Hfree by (by right). simpl.
      apply String.eqb_neq. intros ->. done.
    + exists w'. split; [exact Hrest|]. rewrite Hdb'. subst w1. simpl.
      by rewrite <- app_assoc.
Qed.

Lemma zip_rows_workflow id sids steps :
  List.filter (fun r => String.eqb (row_workflow_id r) id)
    (zip_with (row_of_input id) sids steps)
  = zip_with (row_of_input id) sids steps.
Proof.
  revert steps. induction sids as [|x sids IH]; intros [|s steps]; simpl; try done.
  by rewrite String.eqb_refl, IH.
Qed.

Lemma zip_rows_steps id sids steps :
  map step_of_row (zip_with (row_of_input id) sids steps)
  = zip_with (step_of_input id) sids steps.
Proof.
  revert steps. induction sids as [|x sids IH]; intros [|s steps]; simpl; try done.
  rewrite IH. f_equal. unfold step_of_row, step_of_input. simpl. f_equal.
  by destruct (si_config s) as [[]|].
Qed.

Lemma zip_steps_order id sids steps :
  length sids = length steps ->
  map ws_order (zip_with (step_of_input id) sids steps) = map si_order steps.
Proof.
  revert steps. induction sids as [|x sids IH]; intros [|s steps]; simpl; try done.
  intros [= Hlen]. by rewrite IH.
Qed.

Lemma filter_others_empty id (l : list StepRow) :
  List.filter (fun r => String.eqb (row_workflow_id r) id)
    (List.filter (fun r => negb (String.eqb (row_workflow_id r) id)) l) = [].
Proof.
  induction l as [|r l IH]; simpl; [done|].
  destruct (String.eqb (row_workflow_id r) id) eqn:E; simpl; [done|].
  by rewrite E.
Qed.

(** What [getWorkflow] reads after the steps of [id] have been replaced by
    the rows of the provided steps. *)
Lemma select_steps_replaced d id l sids steps :
  workflow_steps d
  = List.filter (fun r => negb (String.eqb (row_workflow_id r) id)) l
    ++ zip_with (row_of_input id) sids steps ->
  select_steps d id = order_by ws_order (zip_with (step_of_input id) sids steps).
Proof.
  intros Hd. unfold select_steps. rewrite Hd.
  rewrite List.filter_app, filter_others_empty, zip_rows_workflow. simpl.
  rewrite <- zip_rows_steps. symmetry. by apply order_by_map.
Qed.

Lemma getWorkflow_found id w row :
  lookup_workflow (db w) id = Some row ->
  getWorkflow id w
  = (Ok (Some {| w_id := wf_id row; w_name := wf_name row;
                 w_description := wf_description row;
                 w_createdAt := wf_createdAt row;
                 w_steps := select_steps (db w) id |}), w).
Proof. intros H. unfold getWorkflow, bind. simpl. by rewrite H. Qed.

Lemma lookup_workflow_has d id row :
  lookup_workflow d id = Some row -> has_workflow d id = true.
Proof.
  unfold lookup_workflow, has_workflow. intros [Hin Heq]%find_some.
  apply existsb_exists. by exists row.
Qed.

Lemma has_step_filtered id (l : list StepRow) x :
  (forall r, r ∈ l -> row_id r = x -> row_workflow_id r = id) ->
  existsb (fun r => String.eqb (row_id r) x)
    (List.filter (fun r => negb (String.eqb (row_workflow_id r) id)) l) = false.
Proof.
  intros H. induction l as [|r l IH]; simpl; [done|].
  assert (existsb (fun r => String.eqb (row_id r) x)
            (List.filter (fun r => negb (String.eqb (row_workflow_id r) id)) l)
          = false) as IH' by (apply IH; intros r' Hr'; apply H; by right).
  destruct (String.eqb_spec (row_workflow_id r) id) as [Heq|Hne]; simpl; [done|].
  rewrite IH', orb_false_r. apply String.eqb_neq. intros Hx.
  apply Hne, H; [by left|done].
Qed.

End UpdateWorkflow.

(** C9, as the code has it.  For a workflow that exists and a list of steps
    with distinct [order] values, whose identifiers (the ones provided, and
    the ones drawn for the steps without one) are distinct and not used by
    the steps of another workflow, [updateWorkflow] succeeds and [getWorkflow]
    then returns exactly the provided steps sorted by ascending [order]: a
    permutation of the provided list, equal to it when the list was given in
    ascending order.  Name, kind and order are as provided, and so is the
    config, except that a config that is absent or null reads back as the
    empty object.  A step keeps the identifier it was given and gets the next
    identifier of the generator otherwise. *)
Theorem updateWorkflow_then_getWorkflow (env : Env) (id : string)
    (name description : option string) (steps : list StepInput) (w : World)
    (row : WorkflowRow) :
  lookup_workflow (db w) id = Some row ->
  NoDup (map si_order steps) ->
  NoDup (assign_ids env (idDraws w) steps) ->
  (forall r, r ∈ workflow_steps (db w) ->
             row_id r ∈ assign_ids env (idDraws w) steps ->
             row_workflow_id r = id) ->
  let provided :=
    zip_with (step_of_input id) (assign_ids env (idDraws w) steps) steps in
  exists wf w',
    updateWorkflow env id name description steps w = (Ok wf, w') /\
    getWorkflow id w' = (Ok (Some wf), w') /\
    w_steps wf = order_by ws_order provided /\
    Permutation (w_steps wf) provided /\
    StronglySorted Z.lt (map ws_order (w_steps wf)) /\
    (StronglySorted Z.le (map si_order steps) -> w_steps wf = provided).
Proof.
  intros Hrow Horders Hnd Hfree provided.
  unfold updateWorkflow.
  rewrite (bind_ok _ _ _ _ _ (getWorkflow_found id w row Hrow)).
  set (name' := match name with Some n => n | None => _ end).
  set (description' := match description with Some x => Some x | None => _ end).
  set (touch := fun r : WorkflowRow =>
         if String.eqb (wf_id r) id
         then {| wf_id := wf_id r; wf_name := name';
                 wf_description := description';
                 wf_createdAt := wf_createdAt r |}
         else r).
  set (w2 := with_db (cascade_delete_steps id
                        (set_workflows (map touch (workflows (db w))) (db w))) w).
  assert (lookup_workflow (db w2) id = Some (touch row)) as Hrow2.
  { subst w2. unfold lookup_workflow in *. simpl.
    rewrite (find_map_same_key wf_id);
      [by rewrite Hrow|intros x; unfold touch; by destruct (String.eqb _ _)]. }
  destruct (forEach_insert_steps env id steps w2) as (w3 & Hloop & Hdb3).
  { unfold fk_ok. rewrite (lookup_workflow_has _ _ _ Hrow2). apply orb_true_r. }
  { exact Hnd. }
  { intros x Hx. subst w2. unfold has_step. simpl.
    apply has_step_filtered. intros r Hr <-. by apply Hfree. }
  assert (transaction
            (update_workflow_row id name' description' >>
             delete_steps id >>
             forEach (fun s =>
                let* sid := match si_id s with
                            | Some i => ret i
                            | None => nanoid env
                            end in
                insert_step {| row_id := sid; row_workflow_id := id;
                               row_name := si_name s; row_type := si_type s;
                               row_config := stored_config (si_config s);
                               row_step_order := si_order s |}) steps) w
          = (Ok tt, w3)) as Htx.
  { unfold transaction.
    rewrite (bind_ok _ _ w _
               (with_db (set_workflows (map touch (workflows (db w))) (db w)) w)
               (eq_refl : update_workflow_row id name' description' w = _)).
    rewrite (bind_ok _ _ _ _ w2
               (eq_refl : delete_steps id
                            (with_db (set_workflows (map touch (workflows (db w)))
                                        (db w)) w) = _)).
    by rewrite Hloop. }
  rewrite (bind_ok _ _ _ _ _ Htx).
  assert (lookup_workflow (db w3) id = Some (touch row)) as Hrow3.
  { rewrite Hdb3. exact Hrow2. }
  rewrite (bind_ok _ _ _ _ _ (getWorkflow_found id w3 _ Hrow3)).
  assert (select_steps (db w3) id = order_by ws_order provided) as Hsteps.
  { apply (select_steps_replaced _ _ (workflow_steps (db w))).
    rewrite Hdb3. subst w2. reflexivity. }
  eexists _, w3. split; [reflexivity|].
  split; [by apply getWorkflow_found|]. simpl. rewrite Hsteps.
  assert (map ws_order provided = map si_order steps) as Hord
    by (apply zip_steps_order, assign_ids_length).
  split; [done|]. split; [apply order_by_perm|]. split.
  - apply sorted_le_nodup_lt; [apply order_by_sorted|].
    assert (Permutation (map ws_order (order_by ws_order provided))
              (map si_order steps)) as Hp
      by (rewrite <- Hord; apply Permutation_map, order_by_perm).
    by rewrite Hp.
  - intros Hsorted. apply order_by_of_sorted. by rewrite Hord.
Qed.

Lemma updateWorkflow_then_getWorkflow_witness :
  exists wf w',
    updateWorkflow env0 "id0" None None unordered_steps started_world
    = (Ok wf, w') /\
    getWorkflow "id0" w' = (Ok (Some wf), w') /\
    map ws_id (w_steps wf) = ["step-a"; "step-b"] /\
    map ws_name (w_steps wf) = ["a"; "b"] /\
    map ws_order (w_steps wf) = [0%Z; 1%Z] /\
    map ws_config (w_steps wf) = [JObj []; JObj [("url", JStr "http://ok")]].
Proof.
  destruct (updateWorkflow_then_getWorkflow env0 "id0" None None unordered_steps
              started_world scenario_workflow)
    as (wf & w' & H1 & H2 & H3 & _).
  - vm_compute. reflexivity.
  - apply (bool_decide_unpack _). vm_compute. exact I.
  - apply (bool_decide_unpack _). vm_compute. exact I.
  - intros r Hr _. apply list_elem_of_In in Hr. vm_compute in Hr.
    destruct Hr as [<-|[<-|[]]]; reflexivity.
  - exists wf, w'. split; [exact H1|]. split; [exact H2|]. rewrite H3.
    repeat split; vm_compute; reflexivity.
Defined.

(** The claim C9 as it was stated fails on the scenario: the two steps are
    given with the orders 1 and 0, and [getWorkflow] returns them by
    ascending order, the second before the first, the config that was absent
    being the empty object. *)
Lemma updateWorkflow_sorts_the_steps :
  ~ yields_steps_as_provided env0 started_world "id0" None None unordered_steps.
Proof.
  intros H.
  assert (updateWorkflow env0 "id0" None None unordered_steps started_world
          = ((updateWorkflow env0 "id0" None None unordered_steps
                started_world).1, reordered_world)) as E1
    by apply surjective_pairing.
  eassert (getWorkflow "id0" reordered_world = (Ok (Some _), _)) as E2
    by (vm_compute; reflexivity).
  specialize (H _ _ _ _ E1 E2). vm_compute in H. discriminate H.
Qed.

(** ** The journal *)

Lemma started_in_app l k s : started_in l s -> started_in (l ++ k) s.
Proof.
  intros (e & He & Ht & Hs). exists e. split; [|done].
  apply elem_of_app. by left.
Qed.

Section EndsFollowStarts.

Context (counts : Event -> bool).

Lemma step_ends_nil : ends_follow_starts counts [].
Proof. intros l1 e l2 H. by destruct l1. Qed.

Lemma step_ends_prefix l k :
  ends_follow_starts counts (l ++ k) -> ends_follow_starts counts l.
Proof.
  intros H l1 e l2 -> He. apply (H l1 e (l2 ++ k)); [|done].
  by rewrite <- app_assoc.
Qed.

Lemma step_ends_last l e :
  ends_follow_starts counts (l ++ [e]) -> counts e = true ->
  started_in l (ev_stepRunId e).
Proof. intros H He. by apply (H l e []). Qed.

Lemma step_ends_snoc l e :
  ends_follow_starts counts l ->
  (counts e = true -> started_in l (ev_stepRunId e)) ->
  ends_follow_starts counts (l ++ [e]).
Proof.
  intros Hl He l1 e0 l2 Heq He0.
  destruct l2 as [|x l2 _] using rev_ind.
  - apply app_inj_tail in Heq as [-> ->]. by apply He.
  - change (l ++ [e] = l1 ++ (e0 :: l2) ++ [x]) in Heq.
    rewrite app_assoc in Heq. apply app_inj_tail in Heq as [-> _].
    by apply (Hl l1 e0 l2).
Qed.

Lemma step_ends_app l more :
  ends_follow_starts counts l ->
  Forall (fun e => counts e = true -> started_in l (ev_stepRunId e)) more ->
  ends_follow_starts counts (l ++ more).
Proof.
  revert l. induction more as [|e more IH]; intros l Hl Hmore.
  - by rewrite app_nil_r.
  - apply Forall_cons in Hmore as [He Hmore].
    change (ends_follow_starts counts (l ++ [e] ++ more)). rewrite app_assoc.
    apply IH; [by apply step_ends_snoc|].
    eapply Forall_impl; [exact Hmore|]. simpl. intros e' He' Hend.
    by apply started_in_app, He'.
Qed.

Lemma step_ends_pruned (keep : option string -> bool) l :
  ends_follow_starts counts l ->
  ends_follow_starts counts (List.filter (fun e => keep (ev_stepRunId e)) l).
Proof.
  induction l as [|e l IH] using rev_ind; intros Hl; [apply step_ends_nil|].
  rewrite List.filter_app. simpl.
  specialize (IH (step_ends_prefix _ _ Hl)).
  destruct (keep (ev_stepRunId e)) eqn:Hk; [|by rewrite app_nil_r].
  apply step_ends_snoc; [done|]. intros Hend.
  destruct (step_ends_last _ _ Hl Hend) as (e' & He' & Ht & Hs).
  exists e'. split; [|done].
  apply list_elem_of_In, filter_In. split; [by apply list_elem_of_In|].
  by rewrite Hs.
Qed.

End EndsFollowStarts.

Lemma journal_of_app l k r : journal_of (l ++ k) r = journal_of l r ++ journal_of k r.
Proof. unfold journal_of. apply List.filter_app. Qed.

Lemma journal_of_elem e l r :
  e ∈ journal_of l r <-> e ∈ l /\ ev_workflowRunId e = r.
Proof.
  unfold journal_of. rewrite !list_elem_of_In, filter_In.
  by rewrite String.eqb_eq.
Qed.

(** Events whose STEP_STARTED is already in the journal of their run, or
    that do not count, keep the journals in order. *)
Lemma causal_appends (counts : Event -> bool) d d' :
  (forall r, ends_follow_starts counts (journal d r)) ->
  appends (fun e => counts e = true ->
                    started_in (journal d (ev_workflowRunId e))
                      (ev_stepRunId e)) d d' ->
  forall r, ends_follow_starts counts (journal d' r).
Proof.
  intros Hc (more & Hev & Hok) r. unfold journal. rewrite Hev, journal_of_app.
  apply step_ends_app; [apply Hc|].
  apply List.Forall_forall. intros e He Hend.
  apply list_elem_of_In, journal_of_elem in He as [He <-].
  rewrite List.Forall_forall in Hok. apply Hok; [by apply list_elem_of_In|done].
Qed.

Lemma started_in_appends ok d d' r s :
  appends ok d d' -> started_in (journal d r) s -> started_in (journal d' r) s.
Proof.
  intros (more & Hev & _) H. unfold journal. rewrite Hev, journal_of_app.
  by apply started_in_app.
Qed.

Lemma filter_comm {A} (f g : A -> bool) l :
  List.filter f (List.filter g l) = List.filter g (List.filter f l).
Proof.
  induction l as [|x l IH]; simpl; [done|].
  destruct (f x) eqn:Ef, (g x) eqn:Eg; simpl; rewrite ?Ef, ?Eg, ?IH; done.
Qed.

Lemma causal_pruned (counts : Event -> bool) d d' :
  (forall r, ends_follow_starts counts (journal d r)) -> pruned d d' ->
  forall r, ends_follow_starts counts (journal d' r).
Proof.
  intros Hc (keep & Hev & _) r. unfold journal, journal_of.
  rewrite Hev, filter_comm. apply step_ends_pruned, Hc.
Qed.

Lemma filter_all {A} (l : list A) : List.filter (fun _ => true) l = l.
Proof. induction l as [|x l IH]; simpl; [done|]. by rewrite IH. Qed.

Lemma filter_both {A} (f g : A -> bool) l :
  List.filter g (List.filter f l) = List.filter (fun x => f x && g x) l.
Proof.
  induction l as [|x l IH]; simpl; [done|].
  destruct (f x) eqn:Ef; simpl; [|done].
  destruct (g x); by rewrite IH.
Qed.

#[global] Instance pruned_preorder : PreOrder pruned.
Proof.
  split.
  - intros d. exists (fun _ => true). by rewrite filter_all.
  - intros d1 d2 d3 (k1 & H1 & N1) (k2 & H2 & N2).
    exists (fun s => k1 s && k2 s). split; [by rewrite H2, H1, filter_both|].
    intros Hnd. destruct (N1 Hnd) as [Hnd2 Hi1].
    destruct (N2 Hnd2) as [Hnd3 Hi2]. split; [done|].
    intros i Hi. destruct (Hi2 i Hi) as [Hi' Hk2].
    destruct (Hi1 i Hi') as [Hi'' Hk1]. by rewrite Hk1, Hk2.
Qed.

Section JournalOfTheEngine.

Context (env : Env).

Lemma quiet_only_for r i e : quiet e -> only_for r i e.
Proof. unfold quiet, only_for. intros -> H. discriminate H. Qed.

(** *** What each operation appends *)

Lemma appends_quiet_appendEvent r s t m :
  is_step_end {| ev_id := ""; ev_workflowRunId := r; ev_stepRunId := s;
                 ev_type := t; ev_message := m; ev_createdAt := 0 |} = false ->
  stable (on_db (appends quiet)) (appendEvent env r s t m).
Proof. intros H. apply appends_appendEvent. intros w. exact H. Qed.

Lemma appends_only_for_appendEvent r i t m :
  stable (on_db (appends (only_for r i))) (appendEvent env r (Some i) t m).
Proof. apply appends_appendEvent. by intros w _. Qed.

Lemma appends_insert_run ok r : stable (on_db (appends ok)) (insert_run r).
Proof.
  intros w. unfold insert_run, bind, on_db. simpl.
  destruct (has_run _ _); simpl; [reflexivity|].
  destruct (negb _); simpl; [reflexivity|]. exists []. by rewrite app_nil_r.
Qed.

Lemma appends_insert_step_run ok r :
  stable (on_db (appends ok)) (insert_step_run r).
Proof.
  intros w. unfold insert_step_run, bind, on_db. simpl.
  destruct (has_step_run _ _); simpl; [reflexivity|].
  destruct (negb _); simpl; [reflexivity|]. exists []. by rewrite app_nil_r.
Qed.

#[local] Hint Resolve appends_quiet_appendEvent appends_only_for_appendEvent
  appends_insert_run appends_insert_step_run : stable.

Lemma appends_quiet_createRun i : stable (on_db (appends quiet)) (createRun env i).
Proof. unfold createRun. stable_tac. Qed.

Lemma appends_quiet_execute_start r :
  stable (on_db (appends quiet)) (execute_start env r).
Proof. unfold execute_start. stable_tac. Qed.

Lemma appends_quiet_enqueueRun r :
  stable (on_db (appends quiet)) (enqueueRun env r).
Proof. apply on_db_enqueueRun; [apply _|apply appends_quiet_execute_start]. Qed.

Lemma appends_quiet_execute_loop r m l :
  stable (on_db (appends quiet)) (execute_loop env r m l).
Proof.
  induction l as [|s l IH]; simpl; unfold runNonManualStep_start; stable_tac.
Qed.

Lemma appends_quiet_completeManualStep_fail sr :
  stable (on_db (appends quiet)) (completeManualStep_fail env sr).
Proof. unfold completeManualStep_fail. stable_tac. Qed.

#[local] Hint Resolve appends_quiet_createRun appends_quiet_execute_start
  appends_quiet_enqueueRun appends_quiet_execute_loop
  appends_quiet_completeManualStep_fail : stable.

Lemma appends_quiet_startRun_start i :
  stable (on_db (appends quiet)) (startRun_start env i).
Proof. unfold startRun_start. stable_tac. Qed.

Lemma appends_quiet_request_resume pc :
  stable (on_db (appends quiet)) (request_resume env pc).
Proof. unfold request_resume. stable_tac. Qed.

Lemma appends_only_for_runNonManualStep_finish r sr h :
  stable (on_db (appends (only_for r (sr_id sr))))
    (runNonManualStep_finish env r sr h).
Proof.
  assert (forall s t m,
            is_step_end {| ev_id := ""; ev_workflowRunId := r; ev_stepRunId := s;
                           ev_type := t; ev_message := m; ev_createdAt := 0 |}
            = false ->
            stable (on_db (appends (only_for r (sr_id sr))))
              (appendEvent env r s t m)) as Hq.
  { intros s t m H. apply appends_appendEvent. intros w.
    by apply quiet_only_for. }
  unfold runNonManualStep_finish, runNonManualStep_succeed,
    runNonManualStep_catch.
  stable_tac.
Qed.

Lemma appends_only_for_completeManualStep_record i b sr :
  stable (on_db (appends (only_for (sr_workflowRunId sr) i)))
    (completeManualStep_record env i b sr).
Proof. unfold completeManualStep_record. stable_tac. Qed.

Lemma appends_only_for_completeManualStep_start i b w :
  match lookup_step_run (db w) i with
  | Some sr =>
      appends (only_for (sr_workflowRunId sr) i) (db w)
        (db (completeManualStep_start env i b w).2)
  | None => db (completeManualStep_start env i b w).2 = db w
  end.
Proof.
  assert (getStepRunById i w = (Ok (lookup_step_run (db w) i), w)) as Hget
    by done.
  unfold completeManualStep_start. rewrite (bind_ok _ _ _ _ _ Hget).
  destruct (lookup_step_run (db w) i) as [sr|]; [|done].
  destruct (is_terminal (sr_status sr)); [simpl; reflexivity|].
  assert (stable (on_db (appends (only_for (sr_workflowRunId sr) i)))
            (completeManualStep_record env i b sr >>
             ret (CmsAfterStepPublish i b sr))) as H.
  { pose proof appends_only_for_completeManualStep_record. stable_tac. }
  apply H.
Qed.

(** *** What rewriting the steps of a workflow removes *)

Lemma pruned_same_events d d' :
  events d' = events d -> step_runs d' = step_runs d -> pruned d d'.
Proof.
  intros He Hs. exists (fun _ => true). split; [by rewrite filter_all|].
  unfold has_step_run. rewrite Hs. intros Hnd. split; [done|].
  intros i Hi. by split.
Qed.

Lemma pruned_insert_workflow r : stable (on_db pruned) (insert_workflow r).
Proof.
  intros w. unfold insert_workflow, bind, on_db. simpl.
  destruct (has_workflow _ _); simpl; by apply pruned_same_events.
Qed.

Lemma pruned_insert_step r : stable (on_db pruned) (insert_step r).
Proof.
  intros w. unfold insert_step, bind, on_db. simpl.
  destruct (has_step _ _); simpl; [by apply pruned_same_events|].
  destruct (negb _); simpl; by apply pruned_same_events.
Qed.

Lemma pruned_update_workflow_row i n d :
  stable (on_db pruned) (update_workflow_row i n d).
Proof. intros w. unfold on_db. simpl. by apply pruned_same_events. Qed.

Lemma NoDup_key_eq {A} (key : A -> string) (l : list A) x y :
  NoDup (map key l) -> In x l -> In y l -> key x = key y -> x = y.
Proof.
  induction l as [|z l IH]; simpl; intros Hnd Hx Hy Hk; [done|].
  apply NoDup_cons in Hnd as [Hz Hnd].
  destruct Hx as [->|Hx], Hy as [->|Hy]; [done| | |by apply IH].
  - exfalso. apply Hz. rewrite Hk. by apply list_elem_of_In, in_map.
  - exfalso. apply Hz. rewrite <- Hk. by apply list_elem_of_In, in_map.
Qed.

Lemma NoDup_map_filter_key {A} (key : A -> string) (p : A -> bool) l :
  NoDup (map key l) -> NoDup (map key (List.filter p l)).
Proof.
  induction l as [|x l IH]; simpl; [done|].
  intros [Hx Hnd]%NoDup_cons. destruct (p x); simpl; [|by apply IH].
  apply NoDup_cons. split; [|by apply IH].
  intros Hin. apply Hx. apply list_elem_of_In, in_map_iff in Hin as (y & Hy & Hin).
  apply filter_In in Hin as [Hin _]. rewrite <- Hy.
  by apply list_elem_of_In, in_map.
Qed.

Lemma pruned_delete_steps i : stable (on_db pruned) (delete_steps i).
Proof.
  intros w. unfold on_db, delete_steps, bind, cascade_delete_steps. simpl.
  eexists (fun s => negb match s with
                         | Some s0 => existsb (String.eqb s0) _
                         | None => false
                         end).
  split; [reflexivity|]. intros Hnd.
  split; [by apply NoDup_map_filter_key|].
  intros id Hid. unfold has_step_run in *. simpl in Hid.
  apply existsb_exists in Hid as (r & Hr & Hrid).
  apply filter_In in Hr as [Hr Hkeep]. apply String.eqb_eq in Hrid.
  split; [apply existsb_exists; exists r; by rewrite Hrid, String.eqb_refl|].
  apply negb_true_iff. apply not_true_iff_false. intros Hgone.
  apply existsb_exists in Hgone as (j & Hj & Hjid).
  apply String.eqb_eq in Hjid. subst j.
  apply in_map_iff in Hj as (r' & Hr'id & Hr').
  apply filter_In in Hr' as [Hr' Hdoomed].
  assert (r' = r) as -> by (apply (NoDup_key_eq sr_id _ _ _ Hnd); congruence).
  rewrite Hdoomed in Hkeep. discriminate Hkeep.
Qed.

#[local] Hint Resolve pruned_insert_workflow pruned_insert_step
  pruned_update_workflow_row pruned_delete_steps : stable.

Lemma pruned_updateWorkflow i n d l :
  stable (on_db pruned) (updateWorkflow env i n d l).
Proof. unfold updateWorkflow. stable_tac. Qed.

End JournalOfTheEngine.

#[global] Instance tasks_grow_idle_preorder : PreOrder tasks_grow_idle.
Proof.
  split.
  - intros w. exists []. by rewrite app_nil_r.
  - intros w1 w2 w3 (n1 & H1 & F1) (n2 & H2 & F2). exists (n1 ++ n2).
    rewrite H2, H1, app_assoc. split; [done|]. by apply Forall_app.
Qed.

Lemma same_exec_tasks_grow_idle w w' : same_exec w w' -> tasks_grow_idle w w'.
Proof. intros [_ H]. exists []. by rewrite app_nil_r. Qed.

Lemma tasks_grow_idle_rollback : rollback_closed tasks_grow_idle.
Proof. intros w w' (new & H & F). by exists new. Qed.

Section JournalInvariant.

Context (env : Env).

(** *** The program counter after a segment *)

Lemma bind_result {A B} (c : M A) (k : A -> M B) (Q : Result B -> Prop) w :
  (forall e, Q (Throw e)) -> (forall a w1, Q (k a w1).1) -> Q (bind c k w).1.
Proof.
  intros Hthrow Hk. unfold bind. destruct (c w) as [[a|e] w1]; simpl; auto.
Qed.

Lemma execute_start_idle r w :
  pc_step_run (settle (execute_start env r w).1) = None.
Proof.
  unfold execute_start.
  apply (bind_result _ _ (fun x => pc_step_run (settle x) = None)); [done|].
  intros [run|] w1; [|done].
  apply (bind_result _ _ (fun x => pc_step_run (settle x) = None)); [done|].
  intros [wf|] w2; [|done].
  do 3 (apply (bind_result _ _ (fun x => pc_step_run (settle x) = None));
        [done|]; intros ? ?).
  done.
Qed.

Lemma tasks_grow_idle_enqueueRun r : stable tasks_grow_idle (enqueueRun env r).
Proof.
  intros w. unfold enqueueRun. destruct (decide _); [simpl; reflexivity|].
  pose proof (same_exec_execute_start env r
                (with_activeRuns ({[r]} ∪ activeRuns w) w)) as [_ Ht].
  pose proof (execute_start_idle r (with_activeRuns ({[r]} ∪ activeRuns w) w))
    as Hidle.
  destruct (execute_start env r _) as [x w2]. simpl in *.
  eexists. split; [by rewrite Ht|]. by repeat constructor.
Qed.

Lemma tasks_grow_idle_store {A} (c : M A) :
  stable same_exec c -> stable tasks_grow_idle c.
Proof. apply stable_weaken, same_exec_tasks_grow_idle. Qed.

Lemma tasks_grow_idle_startRun_start i :
  stable tasks_grow_idle (startRun_start env i).
Proof.
  pose proof tasks_grow_idle_enqueueRun.
  pose proof (tasks_grow_idle_store (createRun env i)
                (same_exec_createRun env i)).
  pose proof (fun r s t m => tasks_grow_idle_store (appendEvent env r s t m)
                               (same_exec_appendEvent env r s t m)).
  unfold startRun_start. stable_tac.
Qed.

Lemma tasks_grow_idle_request_resume pc :
  stable tasks_grow_idle (request_resume env pc).
Proof.
  pose proof tasks_grow_idle_enqueueRun.
  pose proof (fun sr => tasks_grow_idle_store (completeManualStep_fail env sr)
                          (same_exec_completeManualStep_fail env sr)).
  pose proof (fun i => tasks_grow_idle_store (getStepRunById i)
                         (same_exec_getStepRunById env i)).
  pose proof (fun i => tasks_grow_idle_store (listStepRuns i)
                         (same_exec_listStepRuns env i)).
  pose proof (fun i => tasks_grow_idle_store (listEvents i)
                         (same_exec_listEvents env i)).
  unfold request_resume. stable_tac.
Qed.

(** A task leaves the loop inside a step only after it has appended the
    STEP_STARTED event of that step. *)
Lemma runNonManualStep_start_started r sr w w' :
  runNonManualStep_start env r sr w = (Ok tt, w') ->
  started_in (journal (db w') r) (Some (sr_id sr)).
Proof.
  unfold runNonManualStep_start. intros H.
  apply bind_inv in H as ([] & wa & _ & H).
  apply bind_inv in H as ([] & wb & Hb & H).
  destruct (appendEvent_cases env r (Some (sr_id sr)) STEP_STARTED
              "Step started" wa) as [Hok|[e He]]; [|congruence].
  rewrite Hok in Hb. injection Hb as <-. injection H as <-. simpl.
  exists (new_event env wa r (Some (sr_id sr)) STEP_STARTED "Step started").
  split; [|done].
  apply journal_of_elem. split; [|reflexivity].
  apply elem_of_app. right. by left.
Qed.

Lemma execute_loop_started r m steps : forall w pc w' sr,
  execute_loop env r m steps w = (Ok pc, w') ->
  pc_step_run pc = Some sr ->
  started_in (journal (db w') r) (Some (sr_id sr)).
Proof.
  induction steps as [|s l IH]; intros w pc w' sr H Hpc; simpl in H.
  - apply bind_inv in H as ([] & w1 & _ & H).
    apply bind_inv in H as ([] & w2 & _ & H).
    apply bind_inv in H as ([] & w3 & _ & H). injection H as <- <-. done.
  - destruct (get_property m (ws_id s)) as [stepRun| |]; [| |by eapply IH].
    2:{ destruct (ws_type s); try discriminate H.
        injection H as <- <-. done. }
    destruct (sr_status stepRun) eqn:Hst; try (by eapply IH).
    + destruct (ws_type s).
      * apply bind_inv in H as ([] & w1 & H1 & H). injection H as <- <-.
        injection Hpc as <-. by eapply runNonManualStep_start_started.
      * apply bind_inv in H as ([] & w1 & H1 & H). injection H as <- <-.
        injection Hpc as <-. by eapply runNonManualStep_start_started.
      * simpl in H. apply bind_inv in H as ([] & w1 & _ & H).
        apply bind_inv in H as ([] & w2 & _ & H). injection H as <- <-. done.
    + destruct (ws_type s).
      * apply bind_inv in H as ([] & w1 & H1 & H). injection H as <- <-.
        injection Hpc as <-. by eapply runNonManualStep_start_started.
      * apply bind_inv in H as ([] & w1 & H1 & H). injection H as <- <-.
        injection Hpc as <-. by eapply runNonManualStep_start_started.
      * simpl in H. injection H as <- <-. done.
    + apply bind_inv in H as ([] & w1 & _ & H).
      apply bind_inv in H as ([] & w2 & _ & H). injection H as <- <-. done.
Qed.

(** After a segment, the step run that the task holds is one it held
    before or one whose STEP_STARTED event is in the journal. *)
Lemma execute_resume_started r pc f w x w' sr :
  execute_resume env r pc f w = (x, w') ->
  pc_step_run (settle x) = Some sr ->
  pc_step_run pc = Some sr \/ started_in (journal (db w') r) (Some (sr_id sr)).
Proof.
  intros H Hpc. destruct x as [pc'|e]; [|done]. simpl in Hpc.
  destruct pc as [wid| |sr0 ty cfg rest m|sr0 rest m|u me sr0 rest m|rest m| |o];
    simpl in H.
  - right. unfold bind in H. simpl in H. by eapply execute_loop_started.
  - injection H as <- <-. done.
  - destruct ty.
    + destruct (truthy (get_prop cfg "url")).
      * injection H as <- <-. by left.
      * apply bind_inv in H as ([] & w1 & _ & H). injection H as <- <-. done.
    + injection H as <- <-. by left.
    + apply bind_inv in H as ([] & w1 & _ & H). injection H as <- <-. done.
  - apply bind_inv in H as ([] & w1 & _ & H). injection H as <- <-. done.
  - apply bind_inv in H as ([] & w1 & _ & H). injection H as <- <-. done.
  - right. unfold bind in H. simpl in H.
    destruct (decide _); [injection H as <- <-; done|].
    by eapply execute_loop_started.
  - injection H as <- <-. done.
  - injection H as <- <-. done.
Qed.

(** The events that a segment may append: those that end the step the
    task is in, and events that end no step. *)
Lemma execute_resume_appends r pc f :
  stable (on_db (appends (fun e =>
            is_step_end e = true ->
            exists sr, pc_step_run pc = Some sr /\
                       ev_workflowRunId e = r /\
                       ev_stepRunId e = Some (sr_id sr))))
    (execute_resume env r pc f).
Proof.
  assert (forall c : M Pc,
            stable (on_db (appends quiet)) c ->
            stable (on_db (appends (fun e =>
              is_step_end e = true ->
              exists sr, pc_step_run pc = Some sr /\
                         ev_workflowRunId e = r /\
                         ev_stepRunId e = Some (sr_id sr)))) c) as Hquiet.
  { intros c. apply stable_weaken. intros w w'. apply appends_weaken.
    intros e He Hend. unfold quiet in He. congruence. }
  assert (forall sr (c : M Pc),
            pc_step_run pc = Some sr ->
            stable (on_db (appends (only_for r (sr_id sr)))) c ->
            stable (on_db (appends (fun e =>
              is_step_end e = true ->
              exists sr, pc_step_run pc = Some sr /\
                         ev_workflowRunId e = r /\
                         ev_stepRunId e = Some (sr_id sr)))) c) as Hfor.
  { intros sr c Hpc. apply stable_weaken. intros w w'. apply appends_weaken.
    intros e He Hend. exists sr. split; [done|]. by apply He. }
  pose proof (appends_only_for_runNonManualStep_finish env r) as Hfin.
  pose proof (appends_quiet_execute_loop env r) as Hloop.
  destruct pc as [wid| |sr0 ty cfg rest m|sr0 rest m|u me sr0 rest m|rest m| |o].
  - apply Hquiet. simpl. stable_tac.
  - apply Hquiet. simpl. stable_tac.
  - apply (Hfor sr0); [done|]. simpl. stable_tac.
  - apply (Hfor sr0); [done|]. simpl. stable_tac.
  - apply (Hfor sr0); [done|]. simpl. stable_tac.
  - apply Hquiet. simpl. stable_tac.
  - apply Hquiet. simpl. stable_tac.
  - apply Hquiet. simpl. stable_tac.
Qed.

End JournalInvariant.

Section JournalSteps.

Context (env : Env).

Lemma appends_insert_workflow ok r : stable (on_db (appends ok)) (insert_workflow r).
Proof.
  intros w. unfold insert_workflow, bind, on_db. simpl.
  destruct (has_workflow _ _); simpl; [reflexivity|].
  exists []. by rewrite app_nil_r.
Qed.

Lemma appends_insert_step ok r : stable (on_db (appends ok)) (insert_step r).
Proof.
  intros w. unfold insert_step, bind, on_db. simpl.
  destruct (has_step _ _); simpl; [reflexivity|].
  destruct (negb _); simpl; [reflexivity|]. exists []. by rewrite app_nil_r.
Qed.

Lemma appends_quiet_createWorkflow n d l :
  stable (on_db (appends quiet)) (createWorkflow env n d l).
Proof.
  pose proof (appends_insert_workflow quiet).
  pose proof (appends_insert_step quiet).
  unfold createWorkflow. stable_tac.
Qed.

Lemma elem_of_insert_inv {A} (l : list A) i x y :
  y ∈ <[i := x]> l -> y = x \/ y ∈ l.
Proof.
  intros [j Hj]%list_elem_of_lookup. destruct (decide (i = j)) as [->|Hne].
  - destruct (decide (j < length l)%nat) as [Hlt|Hge].
    + rewrite list_lookup_insert_eq in Hj by done. left. congruence.
    + rewrite list_insert_ge in Hj by lia. right.
      by eapply list_elem_of_lookup_2.
  - rewrite list_lookup_insert_ne in Hj by done. right.
    by eapply list_elem_of_lookup_2.
Qed.

End JournalSteps.

(** The claim C3 as it was stated fails on the scenario: the second manual
    step is rejected while the run waits at the first one, and the journal
    of the run gets a STEP_FAILED event for a step run that has no
    STEP_STARTED event. *)
Lemma step_end_without_start : ~ causal rejected_world.
Proof.
  intros H. specialize (H "id3").
  eassert (journal (db rejected_world) "id3" = _) as Hj
    by (vm_compute; reflexivity).
  rewrite Hj in H.
  pose proof (H [_; _; _] _ [_] eq_refl eq_refl) as (e & Hin & Ht & Hs).
  apply list_elem_of_In in Hin. simpl in Hin.
  destruct Hin as [<-|[<-|[<-|[]]]]; discriminate.
Qed.

(** ** The journal and the clock

    With a clock that never goes back and stays within the years that
    are written with four digits, the events of a run sorted by
    [created_at], which is what [listEvents] returns, are its journal. *)

#[global] Instance keeps_time_preorder env : PreOrder (keeps_time env).
Proof.
  split.
  - by intros w.
  - intros w1 w2 w3 [H1 K1] [H2 K2]. split; [lia|auto].
Qed.

Lemma timely_same_events env w w' :
  events (db w') = events (db w) -> (clockReads w <= clockReads w')%nat ->
  keeps_time env w w'.
Proof.
  intros Hev Hclock. split; [done|]. unfold timely. rewrite Hev.
  intros [Hs Hb]. split; [done|]. intros e He.
  destruct (Hb e He) as (k & Hk & Hc). exists k. split; [lia|done].
Qed.

Lemma keeps_time_rollback env : rollback_closed (keeps_time env).
Proof. intros w w' [Hc _]. by apply timely_same_events. Qed.

Lemma keeps_time_unchanged env {A} (c : M A) :
  (forall w, (c w).2 = w) -> stable (keeps_time env) c.
Proof. intros H w. rewrite H. reflexivity. Qed.

Lemma StronglySorted_map_filter {A} (f : A -> nat) (p : A -> bool) l :
  StronglySorted le (map f l) -> StronglySorted le (map f (List.filter p l)).
Proof.
  induction l as [|x l IH]; simpl; [done|].
  intros [Hs Hall]%StronglySorted_inv. destruct (p x); simpl; [|by apply IH].
  constructor; [by apply IH|].
  apply List.Forall_forall. intros y Hy. rewrite List.Forall_forall in Hall.
  apply Hall. apply in_map_iff in Hy as (z & <- & Hz).
  apply in_map. by apply filter_In in Hz as [Hz _].
Qed.

Lemma StronglySorted_snoc (l : list nat) x :
  StronglySorted le l -> (forall y, In y l -> (y <= x)%nat) ->
  StronglySorted le (l ++ [x]).
Proof.
  induction l as [|a l IH]; simpl; intros Hs Hle; [repeat constructor|].
  apply StronglySorted_inv in Hs as [Hs Hall]. constructor; [by auto|].
  apply List.Forall_app. split; [done|]. repeat constructor. by auto.
Qed.

Section Clock.

Context (env : Env) (Hclock : monotone_clock env).

Lemma keeps_time_now : stable (keeps_time env) (now env).
Proof. intros w. apply timely_same_events; simpl; [done|lia]. Qed.
Lemma keeps_time_nanoid : stable (keeps_time env) (nanoid env).
Proof. intros w. by apply timely_same_events. Qed.
Lemma keeps_time_publishRun r : stable (keeps_time env) (publishRun r).
Proof. intros w. by apply timely_same_events. Qed.
Lemma keeps_time_insert_workflow r : stable (keeps_time env) (insert_workflow r).
Proof.
  intros w. unfold insert_workflow, bind. simpl.
  destruct (has_workflow _ _); by apply timely_same_events.
Qed.
Lemma keeps_time_insert_step r : stable (keeps_time env) (insert_step r).
Proof.
  intros w. unfold insert_step, bind. simpl.
  destruct (has_step _ _); [by apply timely_same_events|].
  destruct (negb _); by apply timely_same_events.
Qed.
Lemma keeps_time_insert_run r : stable (keeps_time env) (insert_run r).
Proof.
  intros w. unfold insert_run, bind. simpl.
  destruct (has_run _ _); [by apply timely_same_events|].
  destruct (negb _); by apply timely_same_events.
Qed.
Lemma keeps_time_insert_step_run r : stable (keeps_time env) (insert_step_run r).
Proof.
  intros w. unfold insert_step_run, bind. simpl.
  destruct (has_step_run _ _); [by apply timely_same_events|].
  destruct (negb _); by apply timely_same_events.
Qed.
Lemma keeps_time_update_workflow_row i n d :
  stable (keeps_time env) (update_workflow_row i n d).
Proof. intros w. by apply timely_same_events. Qed.
Lemma keeps_time_update_run_row i s a b :
  stable (keeps_time env) (update_run_row i s a b).
Proof. intros w. by apply timely_same_events. Qed.
Lemma keeps_time_update_step_run_row i s a b :
  stable (keeps_time env) (update_step_run_row i s a b).
Proof. intros w. by apply timely_same_events. Qed.

Lemma keeps_time_delete_steps i : stable (keeps_time env) (delete_steps i).
Proof.
  intros w. split; [done|]. intros [Hs Hb]. split.
  - simpl. by apply StronglySorted_map_filter.
  - intros e He. simpl in He. apply Hb.
    apply list_elem_of_In, filter_In in He as [He _]. by apply list_elem_of_In.
Qed.

Lemma keeps_time_appendEvent r s t m :
  stable (keeps_time env) (appendEvent env r s t m).
Proof.
  intros w. destruct (appendEvent_cases env r s t m w) as [->|[e ->]];
    [|apply timely_same_events; simpl; [done|lia]].
  split; [simpl; lia|]. intros [Hs Hb]. split; simpl.
  - rewrite map_app. simpl. apply StronglySorted_snoc; [done|].
    intros y (e & <- & He)%in_map_iff.
    destruct (Hb e) as (k & Hk & ->); [by apply list_elem_of_In|].
    apply Hclock. lia.
  - intros e [He| ->%list_elem_of_singleton]%elem_of_app.
    + destruct (Hb e He) as (k & Hk & Hc). exists k. split; [lia|done].
    + exists (clockReads w). split; [lia|done].
Qed.

Lemma keeps_time_listWorkflowSteps i : stable (keeps_time env) (listWorkflowSteps i).
Proof. by apply keeps_time_unchanged. Qed.
Lemma keeps_time_getWorkflow i : stable (keeps_time env) (getWorkflow i).
Proof.
  apply keeps_time_unchanged. intros w. unfold getWorkflow, bind. simpl.
  by destruct (lookup_workflow (db w) i).
Qed.
Lemma keeps_time_getRun i : stable (keeps_time env) (getRun i).
Proof. by apply keeps_time_unchanged. Qed.
Lemma keeps_time_getStepRunById i : stable (keeps_time env) (getStepRunById i).
Proof. by apply keeps_time_unchanged. Qed.
Lemma keeps_time_listStepRuns i : stable (keeps_time env) (listStepRuns i).
Proof. by apply keeps_time_unchanged. Qed.
Lemma keeps_time_listEvents i : stable (keeps_time env) (listEvents i).
Proof. by apply keeps_time_unchanged. Qed.
Lemma keeps_time_getStepRunsMap i : stable (keeps_time env) (getStepRunsMap i).
Proof. by apply keeps_time_unchanged. Qed.

#[local] Hint Resolve keeps_time_rollback keeps_time_now keeps_time_nanoid
  keeps_time_publishRun keeps_time_insert_workflow keeps_time_insert_step
  keeps_time_insert_run keeps_time_insert_step_run keeps_time_update_workflow_row
  keeps_time_update_run_row keeps_time_update_step_run_row keeps_time_delete_steps
  keeps_time_appendEvent keeps_time_listWorkflowSteps keeps_time_getWorkflow
  keeps_time_getRun keeps_time_getStepRunById keeps_time_listStepRuns
  keeps_time_listEvents keeps_time_getStepRunsMap : stable.

Lemma keeps_time_updateRunStatus i s : stable (keeps_time env) (updateRunStatus env i s).
Proof. unfold updateRunStatus. stable_tac. Qed.
Lemma keeps_time_updateStepRunStatus i s :
  stable (keeps_time env) (updateStepRunStatus env i s).
Proof. unfold updateStepRunStatus. stable_tac. Qed.
Lemma keeps_time_createWorkflow n d l :
  stable (keeps_time env) (createWorkflow env n d l).
Proof. unfold createWorkflow. stable_tac. Qed.
Lemma keeps_time_updateWorkflow i n d l :
  stable (keeps_time env) (updateWorkflow env i n d l).
Proof. unfold updateWorkflow. stable_tac. Qed.
Lemma keeps_time_createRun i : stable (keeps_time env) (createRun env i).
Proof. unfold createRun. stable_tac. Qed.

#[local] Hint Resolve keeps_time_updateRunStatus keeps_time_updateStepRunStatus
  keeps_time_createRun : stable.

Lemma keeps_time_execute_start r : stable (keeps_time env) (execute_start env r).
Proof. unfold execute_start. stable_tac. Qed.

Lemma keeps_time_enqueueRun r : stable (keeps_time env) (enqueueRun env r).
Proof.
  intros w. unfold enqueueRun. destruct (decide _); [simpl; reflexivity|].
  pose proof (keeps_time_execute_start r
                (with_activeRuns ({[r]} ∪ activeRuns w) w)) as H.
  by destruct (execute_start env r _) as [x w2].
Qed.

Lemma keeps_time_execute_loop r m l :
  stable (keeps_time env) (execute_loop env r m l).
Proof.
  induction l as [|s l IH]; simpl; unfold runNonManualStep_start; stable_tac.
Qed.

Lemma keeps_time_runNonManualStep_finish r sr h :
  stable (keeps_time env) (runNonManualStep_finish env r sr h).
Proof.
  unfold runNonManualStep_finish, runNonManualStep_succeed,
    runNonManualStep_catch.
  stable_tac.
Qed.

#[local] Hint Resolve keeps_time_enqueueRun keeps_time_execute_loop
  keeps_time_runNonManualStep_finish : stable.

Lemma keeps_time_execute_resume r pc fetched :
  stable (keeps_time env) (execute_resume env r pc fetched).
Proof. unfold execute_resume. stable_tac. Qed.

Lemma keeps_time_completeManualStep_start i b :
  stable (keeps_time env) (completeManualStep_start env i b).
Proof. unfold completeManualStep_start, completeManualStep_record. stable_tac. Qed.

Lemma keeps_time_startRun_start i : stable (keeps_time env) (startRun_start env i).
Proof. unfold startRun_start. stable_tac. Qed.

Lemma keeps_time_request_resume pc : stable (keeps_time env) (request_resume env pc).
Proof. unfold request_resume, completeManualStep_fail. stable_tac. Qed.

Lemma keeps_time_step a w : keeps_time env w (step env a w).
Proof.
  destruct a as [n d l|i n d l|i|i b|i|i fetched|i]; simpl.
  - pose proof (keeps_time_createWorkflow n d l w) as H.
    by destruct (createWorkflow env n d l w).
  - pose proof (keeps_time_updateWorkflow i n d l w) as H.
    by destruct (updateWorkflow env i n d l w).
  - pose proof (keeps_time_startRun_start i w) as H.
    by destruct (startRun_start env i w).
  - pose proof (keeps_time_completeManualStep_start i b w) as H.
    by destruct (completeManualStep_start env i b w).
  - destruct (requests w !! i) as [pc|]; [|reflexivity].
    pose proof (keeps_time_request_resume pc w) as H.
    by destruct (request_resume env pc w).
  - destruct (tasks w !! i) as [t|]; [|reflexivity].
    pose proof (keeps_time_execute_resume (task_runId t) (task_pc t) fetched w) as H.
    by destruct (execute_resume env _ _ _ w).
  - destruct (tasks w !! i) as [t|]; [|reflexivity].
    destruct (is_settled _); [by apply timely_same_events|reflexivity].
Qed.

Lemma timely_run_actions actions w :
  timely env w -> timely env (run_actions env actions w).
Proof.
  revert w. induction actions as [|a l IH]; intros w Hw; simpl; [done|].
  apply IH. by apply (keeps_time_step a w).
Qed.

End Clock.

Lemma timely_empty_world env : timely env empty_world.
Proof. split; [constructor|]. by intros e ?%elem_of_nil. Qed.

Lemma StronglySorted_of_nat {A} (f : A -> nat) l :
  StronglySorted le (map f l) ->
  StronglySorted Z.le (map (fun x => Z.of_nat (f x)) l).
Proof.
  induction l as [|x l IH]; simpl; [constructor|].
  intros [Hs Hall]%StronglySorted_inv. constructor; [by apply IH|].
  rewrite List.Forall_forall in Hall. apply List.Forall_forall.
  intros y (z & <- & Hz)%in_map_iff. apply inj_le, Hall. by apply in_map.
Qed.

Lemma iso_rank_four_digit t : four_digit_year t -> iso_rank t = Z.of_nat t.
Proof.
  unfold four_digit_year, iso_rank. intros H.
  by destruct (Z.leb_spec (Z.of_nat t) last_four_digit_instant); [|lia].
Qed.

(** A timestamp written with six digits for the year sorts before every
    timestamp written with four. *)
Lemma iso_rank_six_digits_first t1 t2 :
  four_digit_year t1 -> ~ four_digit_year t2 ->
  (Z.of_nat t2 <= latest_instant)%Z ->
  (iso_rank t2 < iso_rank t1)%Z.
Proof.
  unfold four_digit_year, iso_rank. intros H1 H2 H3.
  destruct (Z.leb_spec (Z.of_nat t1) last_four_digit_instant); [|lia].
  destruct (Z.leb_spec (Z.of_nat t2) last_four_digit_instant); lia.
Qed.

Lemma map_iso_rank {A} (f : A -> Time) (l : list A) :
  Forall (fun x => four_digit_year (f x)) l ->
  map (fun x => iso_rank (f x)) l = map (fun x => Z.of_nat (f x)) l.
Proof.
  induction 1 as [|x l Hx _ IH]; simpl; [done|].
  by rewrite IH, iso_rank_four_digit.
Qed.

Lemma select_events_journal env w runId :
  timely env w -> four_digit_years env (clockReads w) ->
  select_events (db w) runId = journal (db w) runId.
Proof.
  intros [Hs Hread] Hyears. unfold select_events, journal, journal_of.
  apply order_by_of_sorted. rewrite map_iso_rank.
  - by apply StronglySorted_of_nat, StronglySorted_map_filter.
  - apply List.Forall_forall. intros e [He _]%filter_In.
    destruct (Hread e) as (k & Hk & ->); [by apply list_elem_of_In|].
    by apply Hyears.
Qed.

(** X11.  [listEvents] returns the journal: with a clock that never goes
    back and whose readings so far are all written with a year of four
    digits (none is after 9999-12-31T23:59:59.999Z, where the text of a
    timestamp changes its form), in every state the engine reaches,
    whatever the calls and however they interleave, the events of a run
    sorted by [created_at] are its events in the order in which they were
    appended (events of one timestamp being kept in the order of their
    rows). *)
Theorem listEvents_journal (env : Env) (actions : list Action) (runId : string) :
  monotone_clock env ->
  let w := run_actions env actions empty_world in
  four_digit_years env (clockReads w) ->
  listEvents runId w = (Ok (journal (db w) runId), w).
Proof.
  intros Hclock w Hyears. unfold listEvents, bind. simpl.
  rewrite (select_events_journal env); [done| |done].
  by apply timely_run_actions, timely_empty_world.
Qed.

Lemma listEvents_journal_witness :
  listEvents "id3" started_world
  = (Ok (journal (db started_world) "id3"), started_world).
Proof.
  apply (listEvents_journal env0
           [CallCreateWorkflow "two approvals" None
              [manual_step "first" 0; manual_step "second" 1];
            CallStartRun "id0"] "id3").
  - intros i j Hij. simpl. lia.
  - intros k Hk. unfold four_digit_year, last_four_digit_instant.
    vm_compute in Hk. simpl. lia.
Defined.

(** ** The pragma

    No statement of the code touches [foreign_keys]: it is on in every
    world the engine reaches. *)

#[global] Instance same_pragma_preorder : PreOrder same_pragma.
Proof.
  split.
  - by intros d.
  - intros d1 d2 d3 H1 H2. unfold same_pragma in *. congruence.
Qed.

Section Pragma.

Context (env : Env).

Lemma same_pragma_insert_workflow r : stable (on_db same_pragma) (insert_workflow r).
Proof.
  intros w. unfold insert_workflow, bind, on_db. simpl.
  by destruct (has_workflow _ _).
Qed.
Lemma same_pragma_insert_step r : stable (on_db same_pragma) (insert_step r).
Proof.
  intros w. unfold insert_step, bind, on_db. simpl.
  destruct (has_step _ _); [done|]. by destruct (negb _).
Qed.
Lemma same_pragma_insert_run r : stable (on_db same_pragma) (insert_run r).
Proof.
  intros w. unfold insert_run, bind, on_db. simpl.
  destruct (has_run _ _); [done|]. by destruct (negb _).
Qed.
Lemma same_pragma_insert_step_run r : stable (on_db same_pragma) (insert_step_run r).
Proof.
  intros w. unfold insert_step_run, bind, on_db. simpl.
  destruct (has_step_run _ _); [done|]. by destruct (negb _).
Qed.
Lemma same_pragma_insert_event r : stable (on_db same_pragma) (insert_event r).
Proof.
  intros w. unfold insert_event, bind, on_db. simpl.
  destruct (has_event _ _); [done|]. by destruct (negb _).
Qed.
Lemma same_pragma_update_workflow_row i n d :
  stable (on_db same_pragma) (update_workflow_row i n d).
Proof. by intros w. Qed.
Lemma same_pragma_update_run_row i s a b :
  stable (on_db same_pragma) (update_run_row i s a b).
Proof. by intros w. Qed.
Lemma same_pragma_update_step_run_row i s a b :
  stable (on_db same_pragma) (update_step_run_row i s a b).
Proof. by intros w. Qed.
Lemma same_pragma_delete_steps i : stable (on_db same_pragma) (delete_steps i).
Proof. by intros w. Qed.

#[local] Hint Resolve same_pragma_insert_workflow same_pragma_insert_step
  same_pragma_insert_run same_pragma_insert_step_run same_pragma_insert_event
  same_pragma_update_workflow_row same_pragma_update_run_row
  same_pragma_update_step_run_row same_pragma_delete_steps : stable.

Lemma same_pragma_appendEvent r s t m :
  stable (on_db same_pragma) (appendEvent env r s t m).
Proof. unfold appendEvent. stable_tac. Qed.
Lemma same_pragma_updateRunStatus i s :
  stable (on_db same_pragma) (updateRunStatus env i s).
Proof. unfold updateRunStatus. stable_tac. Qed.
Lemma same_pragma_updateStepRunStatus i s :
  stable (on_db same_pragma) (updateStepRunStatus env i s).
Proof. unfold updateStepRunStatus. stable_tac. Qed.
Lemma same_pragma_createRun i : stable (on_db same_pragma) (createRun env i).
Proof. unfold createRun. stable_tac. Qed.

#[local] Hint Resolve same_pragma_appendEvent same_pragma_updateRunStatus
  same_pragma_updateStepRunStatus same_pragma_createRun : stable.

Lemma same_pragma_execute_start r : stable (on_db same_pragma) (execute_start env r).
Proof. unfold execute_start. stable_tac. Qed.
Lemma same_pragma_enqueueRun r : stable (on_db same_pragma) (enqueueRun env r).
Proof. apply on_db_enqueueRun; [apply _|apply same_pragma_execute_start]. Qed.
Lemma same_pragma_execute_loop r m l :
  stable (on_db same_pragma) (execute_loop env r m l).
Proof.
  induction l as [|s l IH]; simpl; unfold runNonManualStep_start; stable_tac.
Qed.
Lemma same_pragma_runNonManualStep_finish r sr h :
  stable (on_db same_pragma) (runNonManualStep_finish env r sr h).
Proof.
  unfold runNonManualStep_finish, runNonManualStep_succeed,
    runNonManualStep_catch.
  stable_tac.
Qed.

#[local] Hint Resolve same_pragma_enqueueRun same_pragma_execute_loop
  same_pragma_runNonManualStep_finish : stable.

Lemma same_pragma_step a w : same_pragma (db w) (db (step env a w)).
Proof.
  destruct a as [n d l|i n d l|i|i b|i|i fetched|i]; simpl.
  - assert (stable (on_db same_pragma) (createWorkflow env n d l)) as H
      by (unfold createWorkflow; stable_tac).
    specialize (H w). by destruct (createWorkflow env n d l w).
  - assert (stable (on_db same_pragma) (updateWorkflow env i n d l)) as H
      by (unfold updateWorkflow; stable_tac).
    specialize (H w). by destruct (updateWorkflow env i n d l w).
  - assert (stable (on_db same_pragma) (startRun_start env i)) as H
      by (unfold startRun_start; stable_tac).
    specialize (H w). by destruct (startRun_start env i w).
  - assert (stable (on_db same_pragma) (completeManualStep_start env i b)) as H
      by (unfold completeManualStep_start, completeManualStep_record; stable_tac).
    specialize (H w). by destruct (completeManualStep_start env i b w).
  - destruct (requests w !! i) as [pc|]; [|reflexivity].
    assert (stable (on_db same_pragma) (request_resume env pc)) as H
      by (unfold request_resume, completeManualStep_fail; stable_tac).
    specialize (H w). by destruct (request_resume env pc w).
  - destruct (tasks w !! i) as [t|]; [|reflexivity].
    assert (stable (on_db same_pragma)
              (execute_resume env (task_runId t) (task_pc t) fetched)) as H
      by (unfold execute_resume; stable_tac).
    specialize (H w). by destruct (execute_resume env _ _ _ w).
  - destruct (tasks w !! i) as [t|]; [|reflexivity].
    destruct (is_settled _); reflexivity.
Qed.

Lemma foreign_keys_on actions :
  foreign_keys (db (run_actions env actions empty_world)) = true.
Proof.
  enough (forall w, foreign_keys (db (run_actions env actions w))
                    = foreign_keys (db w)) as H by apply H.
  induction actions as [|a l IH]; intros w; simpl; [done|].
  rewrite IH. apply same_pragma_step.
Qed.

End Pragma.

(** ** [completeManualStep] and its segments

    When nothing else runs at its [await]s, the call cut into segments does
    what the call does in one piece. *)
Lemma completeManualStep_segments env stepRunId success w :
  let (r0, w1) := completeManualStep_start env stepRunId success w in
  let (r1, w2) := request_resume env (reply r0) w1 in
  let (r2, w3) := request_resume env (reply r1) w2 in
  w3 = (completeManualStep env stepRunId success w).2 /\
  reply r2
  = Replied (StepRunResponse <$$> (completeManualStep env stepRunId success w).1).
Proof.
  unfold completeManualStep, completeManualStep_start, bind. simpl.
  destruct (lookup_step_run (db w) stepRunId) as [sr|]; simpl; [|done].
  destruct (is_terminal (sr_status sr)); simpl; [done|].
  destruct (completeManualStep_record env stepRunId success sr w)
    as [[[]|e] w1]; simpl; [|done].
  destruct success; simpl; unfold bind.
  - by destruct (enqueueRun env (sr_workflowRunId sr) w1) as [[[]|e] w2].
  - by destruct (completeManualStep_fail env sr w1) as [[[]|e] w2].
Qed.

(** * The web client: the workflow editor *)

Lemma filter_index_delete {A} (idx : nat) (l : list A) : forall k,
  filter_index (fun i => negb (Nat.eqb i idx)) k l
  = if decide (k <= idx)%nat then delete (idx - k)%nat l else l.
Proof.
  induction l as [|x l IH]; intros k; simpl.
  - by destruct (decide _).
  - rewrite IH. destruct (Nat.eqb_spec k idx) as [->|Hne]; simpl.
    + rewrite Nat.sub_diag.
      destruct (decide (S idx <= idx)%nat); [lia|].
      by destruct (decide (idx <= idx)%nat); [|lia].
    + destruct (decide (k <= idx)%nat), (decide (S k <= idx)%nat); try lia; [|done].
      by replace (idx - k)%nat with (S (idx - S k)) by lia.
Qed.

Lemma imap_with_order_orders (l : list StepInput) :
  map si_order (imap (fun i s => with_order (Z.of_nat i) s) l)
  = Z.of_nat <$> seq 0 (length l).
Proof.
  change (map si_order) with (fmap (M:=list) si_order).
  rewrite fmap_imap. apply (imap_seq_0 l Z.of_nat).
Qed.

(** X1.  [removeStep idx] drops exactly the step at position [idx] (no step
    when there is none at that position) and numbers the steps that are left
    0, 1, 2, ... in the order they had. *)
Theorem removeStep_renumbers (idx : nat) (steps : list StepInput) :
  removeStep idx steps
  = imap (fun i s => with_order (Z.of_nat i) s) (delete idx steps) /\
  map si_order (removeStep idx steps)
  = Z.of_nat <$> seq 0 (length (removeStep idx steps)) /\
  map si_name (removeStep idx steps) = map si_name (delete idx steps) /\
  length (removeStep idx steps)
  = (if decide (idx < length steps)%nat then length steps - 1 else length steps)%nat.
Proof.
  assert (removeStep idx steps
          = imap (fun i s => with_order (Z.of_nat i) s) (delete idx steps)) as E.
  { unfold removeStep. rewrite filter_index_delete. simpl.
    by rewrite Nat.sub_0_r. }
  split; [exact E|]. rewrite E, length_imap. split; [apply imap_with_order_orders|].
  split.
  - change (map si_name) with (fmap (M:=list) si_name). rewrite fmap_imap.
    by rewrite (imap_const si_name).
  - destruct (decide _) as [Hlt|Hge].
    + by apply length_delete, lookup_lt_is_Some_2.
    + f_equal. clear E. revert idx Hge.
      induction steps as [|x l IH]; intros [|i] Hge; simpl in *; try done; [lia|].
      f_equal. apply IH. lia.
Qed.

(** * The Store: creating and rewriting a workflow *)

#[global] Instance only_steps_differ_preorder : PreOrder only_steps_differ.
Proof.
  split.
  - by intros d.
  - intros d1 d2 d3 (A1 & A2 & A3 & A4 & A5) (B1 & B2 & B3 & B4 & B5).
    unfold only_steps_differ. repeat split; congruence.
Qed.

Lemma transaction_throw {A} (body : M A) w e w' :
  transaction body w = (Throw e, w') -> db w' = db w.
Proof.
  unfold transaction. destruct (body w) as [[a|e1] w1]; [done|].
  by intros [= _ <-].
Qed.

Lemma transaction_ok {A} (body : M A) w a w' :
  transaction body w = (Ok a, w') -> body w = (Ok a, w').
Proof. unfold transaction. by destruct (body w) as [[a1|e1] w1]. Qed.

Lemma bind_throw_inv {A B} (c : M A) (k : A -> M B) w e w' :
  bind c k w = (Throw e, w') ->
  c w = (Throw e, w') \/ exists a w1, c w = (Ok a, w1) /\ k a w1 = (Throw e, w').
Proof.
  unfold bind. destruct (c w) as [[a|e1] w1]; intros H.
  - right. by exists a, w1.
  - left. by injection H as -> ->.
Qed.

Lemma find_app_new {A} (p : A -> bool) l x :
  existsb p l = false -> p x = true -> List.find p (l ++ [x]) = Some x.
Proof.
  induction l as [|y l IH]; simpl; intros Hl Hx; [by rewrite Hx|].
  apply orb_false_iff in Hl as [-> Hl]. by apply IH.
Qed.

Lemma filter_none {A} (p : A -> bool) l :
  (forall x, In x l -> p x = false) -> List.filter p l = [].
Proof.
  induction l as [|y l IH]; simpl; intros H; [done|].
  rewrite (H y) by (by left). apply IH. intros x Hx. apply H. by right.
Qed.

Lemma filter_every {A} (p : A -> bool) l :
  (forall x, In x l -> p x = true) -> List.filter p l = l.
Proof.
  induction l as [|y l IH]; simpl; intros H; [done|].
  rewrite (H y) by (by left). f_equal. apply IH. intros x Hx. apply H. by right.
Qed.

Section Workflows.

Context (env : Env).

Lemma only_steps_insert_step r : stable (on_db only_steps_differ) (insert_step r).
Proof.
  intros w. unfold insert_step, bind, on_db. simpl.
  destruct (has_step _ _); [reflexivity|]. destruct (negb _); [reflexivity|].
  by repeat split.
Qed.

#[local] Hint Resolve only_steps_insert_step : stable.

Lemma assign_ids_without_id n steps :
  assign_ids env n (map without_id steps) = drawn env n (length steps).
Proof.
  revert n. induction steps as [|s l IH]; intros n; simpl; [done|].
  by rewrite IH.
Qed.

Lemma zip_rows_without_id id sids steps :
  zip_with (row_of_input id) sids (map without_id steps)
  = zip_with (row_of_input id) sids steps.
Proof.
  revert steps. induction sids as [|x sids IH]; intros [|s steps]; simpl; try done.
  by rewrite IH.
Qed.

Lemma zip_steps_without_id id sids steps :
  zip_with (step_of_input id) sids (map without_id steps)
  = zip_with (step_of_input id) sids steps.
Proof.
  revert steps. induction sids as [|x sids IH]; intros [|s steps]; simpl; try done.
  by rewrite IH.
Qed.

(** The loop of [createWorkflow] is the loop of [updateWorkflow] over steps
    without identifiers. *)
Lemma forEach_create_as_update id steps w :
  forEach (fun s =>
     let* sid := nanoid env in
     insert_step {| row_id := sid; row_workflow_id := id;
                    row_name := si_name s; row_type := si_type s;
                    row_config := stored_config (si_config s);
                    row_step_order := si_order s |}) steps w
  = forEach (fun s =>
       let* sid := match si_id s with
                   | Some i => ret i
                   | None => nanoid env
                   end in
       insert_step {| row_id := sid; row_workflow_id := id;
                      row_name := si_name s; row_type := si_type s;
                      row_config := stored_config (si_config s);
                      row_step_order := si_order s |}) (map without_id steps) w.
Proof.
  revert w. induction steps as [|s l IH]; intros w; [done|].
  set (f := fun s => bind (nanoid env) _).
  set (g := fun s => bind (match si_id s with Some i => ret i | None => _ end) _).
  change (bind (f s) (fun _ => forEach f l) w
          = bind (f s) (fun _ => forEach g (map without_id l)) w).
  unfold bind at 1 2. destruct (f s w) as [[[]|e] w1]; [apply IH|done].
Qed.

(** [createWorkflow] when the identifiers it draws are free. *)
Lemma createWorkflow_ok name description steps w :
  let id := ids env (idDraws w) in
  let sids := drawn env (S (idDraws w)) (length steps) in
  let row := {| wf_id := id; wf_name := name; wf_description := description;
                wf_createdAt := clock env (clockReads w) |} in
  has_workflow (db w) id = false ->
  NoDup sids ->
  (forall x, x ∈ sids -> has_step (db w) x = false) ->
  (forall r, r ∈ workflow_steps (db w) -> row_workflow_id r <> id) ->
  exists w',
    createWorkflow env name description steps w
    = (Ok {| w_id := id; w_name := name; w_description := description;
             w_createdAt := clock env (clockReads w);
             w_steps := order_by ws_order (zip_with (step_of_input id) sids steps) |},
       w') /\
    db w'
    = set_workflow_steps
        (workflow_steps (db w) ++ zip_with (row_of_input id) sids steps)
        (set_workflows (workflows (db w) ++ [row]) (db w)) /\
    lookup_workflow (db w') id = Some row /\
    select_steps (db w') id
    = order_by ws_order (zip_with (step_of_input id) sids steps) /\
    same_exec w w'.
Proof.
  intros id sids row Hfresh Hnd Hfree Hnone.
  set (w0 := tick (draw w)).
  set (w1 := with_db (set_workflows (workflows (db w) ++ [row]) (db w)) w0).
  assert (insert_workflow row w0 = (Ok tt, w1)) as Hins.
  { unfold insert_workflow, bind. simpl. fold id. by rewrite Hfresh. }
  destruct (forEach_insert_steps env id (map without_id steps) w1)
    as (w2 & Hloop & Hdb2).
  { unfold fk_ok, has_workflow. simpl. rewrite existsb_app. simpl.
    rewrite String.eqb_refl. by rewrite !orb_true_r. }
  { by rewrite assign_ids_without_id. }
  { intros x Hx. rewrite assign_ids_without_id in Hx. by apply Hfree. }
  rewrite assign_ids_without_id, zip_rows_without_id in Hdb2.
  rewrite <- forEach_create_as_update in Hloop.
  assert (lookup_workflow (db w2) id = Some row) as Hrow.
  { rewrite Hdb2. unfold lookup_workflow. simpl.
    apply find_app_new; [exact Hfresh|apply String.eqb_refl]. }
  assert (select_steps (db w2) id
          = order_by ws_order (zip_with (step_of_input id) sids steps)) as Hsel.
  { apply (select_steps_replaced _ _ (workflow_steps (db w))).
    rewrite Hdb2. simpl. f_equal. symmetry. apply filter_every.
    intros r Hr. apply negb_true_iff, String.eqb_neq, Hnone.
    by apply list_elem_of_In. }
  assert (createWorkflow env name description steps w
          = (Ok {| w_id := id; w_name := name; w_description := description;
                   w_createdAt := clock env (clockReads w);
                   w_steps := order_by ws_order
                                (zip_with (step_of_input id) sids steps) |},
             w2)) as E.
  { unfold createWorkflow. unfold bind at 1. simpl. unfold bind at 1. simpl.
    unfold transaction, bind at 1.
    unfold bind at 1. fold id. fold row. fold w0. rewrite Hins.
    change (idDraws w1) with (S (idDraws w)) in Hloop. rewrite Hloop.
    rewrite (bind_ok _ _ _ _ _ (getWorkflow_found id w2 row Hrow)). simpl.
    by rewrite Hsel. }
  exists w2. split; [exact E|]. split; [exact Hdb2|].
  split; [exact Hrow|]. split; [exact Hsel|].
  pose proof (same_exec_createWorkflow env name description steps w) as H.
  by rewrite E in H.
Qed.

(** A transaction of [createWorkflow] that commits leaves the row of the
    workflow behind. *)
Lemma createWorkflow_committed name description steps w id t w1 :
  (insert_workflow {| wf_id := id; wf_name := name;
                      wf_description := description; wf_createdAt := t |} >>
   forEach (fun s =>
      let* sid := nanoid env in
      insert_step {| row_id := sid; row_workflow_id := id;
                     row_name := si_name s; row_type := si_type s;
                     row_config := stored_config (si_config s);
                     row_step_order := si_order s |}) steps) w
  = (Ok tt, w1) ->
  lookup_workflow (db w1) id
  = Some {| wf_id := id; wf_name := name; wf_description := description;
            wf_createdAt := t |}.
Proof.
  intros (u & wa & Hins & Hloop)%bind_inv.
  unfold insert_workflow, bind in Hins. simpl in Hins.
  destruct (has_workflow (db w) id) eqn:Hfresh; [done|].
  injection Hins as _ <-.
  assert (stable (on_db only_steps_differ)
            (forEach (fun s =>
               let* sid := nanoid env in
               insert_step {| row_id := sid; row_workflow_id := id;
                              row_name := si_name s; row_type := si_type s;
                              row_config := stored_config (si_config s);
                              row_step_order := si_order s |}) steps)) as Hst
    by stable_tac.
  match type of Hloop with forEach _ _ ?w0 = _ => specialize (Hst w0) end.
  rewrite Hloop in Hst. destruct Hst as (_ & Hwf & _). simpl in Hwf.
  unfold lookup_workflow. rewrite Hwf.
  apply find_app_new; [exact Hfresh|apply String.eqb_refl].
Qed.

Lemma createWorkflow_throw name description steps w e w' :
  createWorkflow env name description steps w = (Throw e, w') -> db w' = db w.
Proof.
  unfold createWorkflow. unfold bind at 1. simpl. unfold bind at 1. simpl.
  intros [Htx|(u & w1 & Htx & Hget)]%bind_throw_inv.
  - by apply transaction_throw in Htx.
  - apply transaction_ok in Htx. destruct u.
    apply createWorkflow_committed in Htx.
    rewrite (bind_ok _ _ _ _ _ (getWorkflow_found _ w1 _ Htx)) in Hget.
    discriminate Hget.
Qed.

Lemma lookup_workflow_id d id r : lookup_workflow d id = Some r -> wf_id r = id.
Proof.
  unfold lookup_workflow. intros [_ H]%find_some. by apply String.eqb_eq in H.
Qed.

Lemma lookup_workflow_renamed d id name description i :
  List.find (fun r => String.eqb (wf_id r) i)
    (map (renamed_row id name description) (workflows d))
  = renamed_row id name description <$> lookup_workflow d i.
Proof.
  unfold lookup_workflow. apply (find_map_same_key wf_id).
  intros x. unfold renamed_row. by destruct (String.eqb _ _).
Qed.

(** [updateWorkflow] when the workflow exists and the identifiers of the
    steps are distinct and not used by another workflow. *)
Lemma updateWorkflow_ok id name description steps w row :
  lookup_workflow (db w) id = Some row ->
  NoDup (assign_ids env (idDraws w) steps) ->
  (forall r, r ∈ workflow_steps (db w) ->
             row_id r ∈ assign_ids env (idDraws w) steps ->
             row_workflow_id r = id) ->
  let name' := match name with Some n => n | None => wf_name row end in
  let description' := match description with
                      | Some x => Some x
                      | None => wf_description row
                      end in
  let d2 := cascade_delete_steps id
              (set_workflows
                 (map (renamed_row id name' description') (workflows (db w)))
                 (db w)) in
  let sids := assign_ids env (idDraws w) steps in
  exists w',
    updateWorkflow env id name description steps w
    = (Ok {| w_id := id; w_name := name'; w_description := description';
             w_createdAt := wf_createdAt row;
             w_steps := order_by ws_order (zip_with (step_of_input id) sids steps) |},
       w') /\
    db w'
    = set_workflow_steps
        (workflow_steps d2 ++ zip_with (row_of_input id) sids steps) d2 /\
    lookup_workflow (db w') id = Some (renamed_row id name' description' row) /\
    select_steps (db w') id
    = order_by ws_order (zip_with (step_of_input id) sids steps) /\
    same_exec w w'.
Proof.
  intros Hrow Hnd Hfree name' description' d2 sids.
  pose proof (lookup_workflow_id _ _ _ Hrow) as Hid.
  set (w2 := with_db d2 w).
  assert (lookup_workflow (db w2) id = Some (renamed_row id name' description' row))
    as Hrow2.
  { unfold lookup_workflow. subst w2 d2. simpl.
    rewrite lookup_workflow_renamed. by rewrite Hrow. }
  destruct (forEach_insert_steps env id steps w2) as (w3 & Hloop & Hdb3).
  { unfold fk_ok. rewrite (lookup_workflow_has _ _ _ Hrow2). apply orb_true_r. }
  { exact Hnd. }
  { intros x Hx. subst w2 d2. unfold has_step. simpl.
    apply has_step_filtered. intros r Hr <-. by apply Hfree. }
  assert (lookup_workflow (db w3) id = Some (renamed_row id name' description' row))
    as Hrow3 by (rewrite Hdb3; exact Hrow2).
  assert (select_steps (db w3) id
          = order_by ws_order (zip_with (step_of_input id) sids steps)) as Hsel.
  { apply (select_steps_replaced _ _ (workflow_steps (db w))).
    rewrite Hdb3. subst w2 d2. reflexivity. }
  assert (updateWorkflow env id name description steps w
          = (Ok {| w_id := id; w_name := name'; w_description := description';
                   w_createdAt := wf_createdAt row;
                   w_steps := order_by ws_order
                                (zip_with (step_of_input id) sids steps) |},
             w3)) as E.
  { unfold updateWorkflow.
    rewrite (bind_ok _ _ _ _ _ (getWorkflow_found id w row Hrow)).
    cbn [w_name w_description].
    assert (transaction
              (update_workflow_row id name' description' >>
               delete_steps id >>
               forEach (fun s =>
                  let* sid := match si_id s with
                              | Some i => ret i
                              | None => nanoid env
                              end in
                  insert_step {| row_id := sid; row_workflow_id := id;
                                 row_name := si_name s; row_type := si_type s;
                                 row_config := stored_config (si_config s);
                                 row_step_order := si_order s |}) steps) w
            = (Ok tt, w3)) as Htx.
    { unfold transaction.
      rewrite (bind_ok _ _ w _
                 (with_db (set_workflows
                             (map (renamed_row id name' description')
                                (workflows (db w))) (db w)) w)
                 (eq_refl : update_workflow_row id name' description' w = _)).
      rewrite (bind_ok _ _ _ _ w2
                 (eq_refl : delete_steps id
                              (with_db (set_workflows
                                          (map (renamed_row id name' description')
                                             (workflows (db w))) (db w)) w) = _)).
      by rewrite Hloop. }
    rewrite (bind_ok _ _ _ _ _ Htx).
    rewrite (bind_ok _ _ _ _ _ (getWorkflow_found id w3 _ Hrow3)). simpl.
    unfold renamed_row. rewrite Hid, String.eqb_refl. simpl.
    by rewrite Hsel. }
  exists w3. split; [exact E|]. split; [exact Hdb3|]. split; [exact Hrow3|].
  split; [exact Hsel|].
  pose proof (same_exec_updateWorkflow env id name description steps w) as H.
  by rewrite E in H.
Qed.

Lemma updateWorkflow_throw id name description steps w e w' :
  updateWorkflow env id name description steps w = (Throw e, w') -> db w' = db w.
Proof.
  unfold updateWorkflow. unfold bind at 1. unfold getWorkflow at 1.
  unfold bind at 1. simpl.
  destruct (lookup_workflow (db w) id) as [row|] eqn:Hrow; simpl;
    [|by intros [= _ <-]].
  intros [Htx|(u & w1 & Htx & Hget)]%bind_throw_inv.
  - by apply transaction_throw in Htx.
  - apply transaction_ok in Htx.
    apply bind_inv in Htx as (u1 & wa & Hup & Htx).
    apply bind_inv in Htx as (u2 & wb & Hdel & Hloop).
    injection Hup as _ <-. injection Hdel as _ <-.
    match type of Hloop with forEach ?f _ _ = _ =>
      assert (stable (on_db only_steps_differ) (forEach f steps)) as Hst
        by stable_tac
    end.
    match type of Hloop with forEach _ _ ?w0 = _ => specialize (Hst w0) end.
    rewrite Hloop in Hst. destruct Hst as (_ & Hwf & _). simpl in Hwf.
    assert (lookup_workflow (db w1) id <> None) as Hsome.
    { unfold lookup_workflow in *. rewrite Hwf.
      rewrite (find_map_same_key wf_id);
        [by rewrite Hrow|intros x; by destruct (String.eqb _ _)]. }
    destruct (lookup_workflow (db w1) id) as [row1|] eqn:Hrow1; [|done].
    rewrite (bind_ok _ _ _ _ _ (getWorkflow_found _ w1 _ Hrow1)) in Hget.
    discriminate Hget.
Qed.

End Workflows.

Section WorkflowsCommitted.

Context (env : Env).

(** What a call of [updateWorkflow] that returns has done to the database:
    the row is renamed, the steps of the workflow are deleted with what
    hangs on them, and then only [workflow_steps] changes. *)
Lemma updateWorkflow_committed id name description steps w wf w' :
  updateWorkflow env id name description steps w = (Ok wf, w') ->
  exists row,
    lookup_workflow (db w) id = Some row /\
    only_steps_differ
      (cascade_delete_steps id
         (set_workflows
            (map (renamed_row id
                    (match name with Some n => n | None => wf_name row end)
                    (match description with
                     | Some x => Some x
                     | None => wf_description row
                     end)) (workflows (db w))) (db w)))
      (db w').
Proof.
  unfold updateWorkflow. unfold bind at 1. unfold getWorkflow at 1.
  unfold bind at 1. simpl.
  destruct (lookup_workflow (db w) id) as [row|] eqn:Hrow; simpl; [|done].
  intros (u & w1 & Htx & Hget)%bind_inv. exists row. split; [done|].
  apply transaction_ok in Htx.
  apply bind_inv in Htx as (u1 & wa & Hup & Htx).
  apply bind_inv in Htx as (u2 & wb & Hdel & Hloop).
  injection Hup as _ <-. injection Hdel as _ <-.
  match type of Hloop with forEach ?f _ _ = _ =>
    assert (stable (on_db only_steps_differ) (forEach f steps)) as Hst
      by (pose proof only_steps_insert_step; stable_tac)
  end.
  match type of Hloop with forEach _ _ ?w0 = _ => specialize (Hst w0) end.
  rewrite Hloop in Hst.
  apply bind_inv in Hget as (o & w2 & Hget & Hret).
  assert (w2 = w1) as ->.
  { unfold getWorkflow, bind in Hget. simpl in Hget.
    destruct (lookup_workflow (db w1) id); by injection Hget as _ <-. }
  destruct o as [wf1|]; [|done]. injection Hret as _ <-. exact Hst.
Qed.

End WorkflowsCommitted.

Lemma assign_ids_imap env (g : nat -> StepInput -> StepInput) steps :
  (forall i s, si_id (g i s) = si_id s) ->
  forall n, assign_ids env n (imap g steps) = assign_ids env n steps.
Proof.
  revert g. induction steps as [|s l IH]; intros g Hg n; [done|].
  rewrite imap_cons. simpl. rewrite Hg.
  destruct (si_id s); f_equal; apply IH; intros i x; apply Hg.
Qed.

Lemma sorted_of_nat_seq n k : StronglySorted Z.le (Z.of_nat <$> seq n k).
Proof.
  revert n. induction k as [|k IH]; intros n; simpl; constructor; [apply IH|].
  apply List.Forall_forall. intros z Hz.
  apply in_map_iff in Hz as (m & <- & Hm). apply in_seq in Hm. lia.
Qed.

(** ** Theorems *)

(** X2.  [createWorkflow], when the identifiers it draws are free, returns
    the workflow under the first identifier drawn, with the name and
    description given and the time of the call; its steps are the steps
    given, each under the next identifier drawn, sorted by ascending
    [order] (in the order given when that is ascending, none for an empty
    list), a config that is absent or null being the empty object; and
    [getWorkflow] then returns the same workflow. *)
Theorem createWorkflow_then_getWorkflow (env : Env) (name : string)
    (description : option string) (steps : list StepInput) (w : World) :
  let id := ids env (idDraws w) in
  let sids := drawn env (S (idDraws w)) (length steps) in
  let provided := zip_with (step_of_input id) sids steps in
  has_workflow (db w) id = false ->
  NoDup sids ->
  (forall x, x ∈ sids -> has_step (db w) x = false) ->
  (forall r, r ∈ workflow_steps (db w) -> row_workflow_id r <> id) ->
  exists wf w',
    createWorkflow env name description steps w = (Ok wf, w') /\
    getWorkflow id w' = (Ok (Some wf), w') /\
    w_id wf = id /\ w_name wf = name /\ w_description wf = description /\
    w_createdAt wf = clock env (clockReads w) /\
    w_steps wf = order_by ws_order provided /\
    Permutation (w_steps wf) provided /\
    StronglySorted Z.le (map ws_order (w_steps wf)) /\
    (StronglySorted Z.le (map si_order steps) -> w_steps wf = provided) /\
    (steps = [] -> w_steps wf = []).
Proof.
  intros id sids provided Hfresh Hnd Hfree Hnone.
  destruct (createWorkflow_ok env name description steps w Hfresh Hnd Hfree Hnone)
    as (w' & Hcall & _ & Hrow & Hsel & _).
  eexists _, w'. split; [exact Hcall|]. split.
  { pose proof (getWorkflow_found _ _ _ Hrow) as Hg. simpl in Hg.
    rewrite Hsel in Hg. exact Hg. }
  simpl. repeat split.
  - apply order_by_perm.
  - apply order_by_sorted.
  - intros Hsorted. apply order_by_of_sorted. subst provided.
    rewrite zip_steps_order; [done|]. unfold sids, drawn.
    by rewrite length_map, length_seq.
  - intros ->. by destruct sids.
Qed.

Lemma createWorkflow_then_getWorkflow_witness :
  exists wf w',
    createWorkflow env0 "two approvals" None
      [manual_step "second" 1; manual_step "first" 0] empty_world = (Ok wf, w') /\
    getWorkflow "id0" w' = (Ok (Some wf), w') /\
    map ws_id (w_steps wf) = ["id2"; "id1"] /\
    map ws_name (w_steps wf) = ["first"; "second"] /\
    map ws_config (w_steps wf) = [JObj []; JObj []].
Proof.
  destruct (createWorkflow_then_getWorkflow env0 "two approvals" None
              [manual_step "second" 1; manual_step "first" 0] empty_world)
    as (wf & w' & H1 & H2 & _ & _ & _ & _ & H3 & _).
  - vm_compute. reflexivity.
  - apply (bool_decide_unpack _). vm_compute. exact I.
  - intros x _. reflexivity.
  - intros r Hr. apply list_elem_of_In in Hr. destruct Hr.
  - exists wf, w'. split; [exact H1|]. split; [exact H2|]. rewrite H3.
    repeat split; vm_compute; reflexivity.
Defined.

(** X3.  [createWorkflow] is all or nothing: a call that throws (an
    identifier that is taken, for the workflow or for one of its steps)
    leaves every table as it was, the workflow row and the steps inserted
    before the failure included, and starts nothing. *)
Theorem createWorkflow_all_or_nothing (env : Env) (name : string)
    (description : option string) (steps : list StepInput) (w : World)
    (e : Exn) (w' : World) :
  createWorkflow env name description steps w = (Throw e, w') ->
  db w' = db w /\ same_exec w w'.
Proof.
  intros H. split; [by apply createWorkflow_throw in H|].
  pose proof (same_exec_createWorkflow env name description steps w) as Hs.
  by rewrite H in Hs.
Qed.

Lemma createWorkflow_all_or_nothing_witness :
  exists w',
    createWorkflow env_stuck "twins" None twin_steps empty_world
    = (Throw (unique_failed "workflow_steps.id"), w') /\
    db w' = empty_db.
Proof.
  eexists. split; [vm_compute; reflexivity|].
  refine (proj1 (createWorkflow_all_or_nothing env_stuck "twins" None twin_steps
                   empty_world (unique_failed "workflow_steps.id") _ _)).
  vm_compute. reflexivity.
Defined.

(** X4.  [updateWorkflow] for an identifier that no workflow has throws
    "Workflow not found" and changes nothing at all; and whenever it throws
    (a step identifier used twice or used by another workflow), every table
    is as it was before the call: the old steps are still there. *)
Theorem updateWorkflow_all_or_nothing (env : Env) (id : string)
    (name description : option string) (steps : list StepInput) (w : World) :
  (lookup_workflow (db w) id = None ->
   updateWorkflow env id name description steps w
   = (Throw (JsError "Workflow not found"), w)) /\
  (forall e w',
     updateWorkflow env id name description steps w = (Throw e, w') ->
     db w' = db w /\ same_exec w w').
Proof.
  split.
  - intros Hnone. unfold updateWorkflow, getWorkflow, bind. simpl.
    by rewrite Hnone.
  - intros e w' H. split; [by apply updateWorkflow_throw in H|].
    pose proof (same_exec_updateWorkflow env id name description steps w) as Hs.
    by rewrite H in Hs.
Qed.

Lemma updateWorkflow_all_or_nothing_witness :
  updateWorkflow env0 "nope" None None unordered_steps started_world
  = (Throw (JsError "Workflow not found"), started_world) /\
  exists w',
    updateWorkflow env0 "id0" None None clashing_steps started_world
    = (Throw (unique_failed "workflow_steps.id"), w') /\
    db w' = db started_world.
Proof.
  split.
  - apply (proj1 (updateWorkflow_all_or_nothing env0 "nope" None None
                    unordered_steps started_world)).
    vm_compute. reflexivity.
  - eexists. split; [vm_compute; reflexivity|].
    refine (proj1 (proj2 (updateWorkflow_all_or_nothing env0 "id0" None None
                            clashing_steps started_world)
                     (unique_failed "workflow_steps.id") _ _)).
    vm_compute. reflexivity.
Defined.

Lemma gone_step_iff d id x :
  existsb (String.eqb x)
    (map row_id
       (List.filter (fun r => String.eqb (row_workflow_id r) id) (workflow_steps d)))
  = true <-> step_of_workflow d id x.
Proof.
  rewrite existsb_exists. split.
  - intros (y & Hy & Heq). apply String.eqb_eq in Heq as <-.
    apply in_map_iff in Hy as (r & Hr & Hin).
    apply filter_In in Hin as [Hin Hwf]. apply String.eqb_eq in Hwf.
    exists r. split; [by apply list_elem_of_In|done].
  - intros (r & Hin & Hwf & Hid). exists x. split; [|apply String.eqb_refl].
    apply in_map_iff. exists r. split; [done|]. apply filter_In.
    split; [by apply list_elem_of_In|by apply String.eqb_eq].
Qed.

(** X5.  With foreign keys enforced, an [updateWorkflow] that returns has
    deleted every step run of every step the workflow had before the call,
    also of the steps that are sent again under their old identifier, and
    the events that name such a step run; the other step runs and events,
    and all the runs, are as they were.  A run of the workflow is left
    without step runs. *)
Theorem updateWorkflow_drops_step_runs (env : Env) (id : string)
    (name description : option string) (steps : list StepInput) (w : World)
    (wf : Workflow) (w' : World) :
  foreign_keys (db w) = true ->
  updateWorkflow env id name description steps w = (Ok wf, w') ->
  (forall sr,
     sr ∈ step_runs (db w') <->
     sr ∈ step_runs (db w) /\
     ~ step_of_workflow (db w) id (sr_workflowStepId sr)) /\
  (forall e,
     e ∈ events (db w') <->
     e ∈ events (db w) /\
     forall sr, sr ∈ step_runs (db w) -> ev_stepRunId e = Some (sr_id sr) ->
                ~ step_of_workflow (db w) id (sr_workflowStepId sr)) /\
  workflow_runs (db w') = workflow_runs (db w).
Proof.
  intros Hfk Hcall.
  destruct (updateWorkflow_committed env _ _ _ _ _ _ _ Hcall)
    as (row & _ & _ & _ & Hruns & Hsrs & Hevs).
  split; [|split; [|exact Hruns]].
  - intros sr. rewrite Hsrs. simpl. rewrite Hfk. simpl.
    rewrite list_elem_of_In, filter_In, <- list_elem_of_In.
    rewrite negb_true_iff, <- not_true_iff_false, gone_step_iff. done.
  - intros e. rewrite Hevs. simpl. rewrite Hfk. simpl.
    rewrite list_elem_of_In, filter_In, <- list_elem_of_In.
    rewrite negb_true_iff, <- not_true_iff_false.
    apply and_iff_compat_l. destruct (ev_stepRunId e) as [s|].
    + rewrite existsb_exists. split.
      * intros Hno sr Hsr [= ->] Hstep. apply Hno. exists (sr_id sr).
        split; [|apply String.eqb_refl]. apply in_map_iff. exists sr.
        split; [done|]. apply filter_In. split; [by apply list_elem_of_In|].
        by apply gone_step_iff.
      * intros Hall (y & Hy & Heq). apply String.eqb_eq in Heq as <-.
        apply in_map_iff in Hy as (sr & Hid & Hin).
        apply filter_In in Hin as [Hin Hgone].
        apply (Hall sr); [by apply list_elem_of_In|by rewrite Hid|].
        by apply gone_step_iff.
    + split; [intros _ sr _ [=]|done].
Qed.

Lemma updateWorkflow_drops_step_runs_witness :
  exists wf w',
    updateWorkflow env0 "id0" None None unordered_steps paused_world = (Ok wf, w') /\
    select_step_runs (db paused_world) "id3"
    = [pending_step_run "id4" "id1"; pending_step_run "id5" "id2"] /\
    step_runs (db w') = [] /\
    map ev_type (events (db paused_world))
    = [RUN_STARTED; RUN_STARTED; STEP_STARTED] /\
    map ev_type (events (db w')) = [RUN_STARTED; RUN_STARTED] /\
    workflow_runs (db w') = workflow_runs (db paused_world).
Proof.
  eassert (updateWorkflow env0 "id0" None None unordered_steps paused_world
           = (Ok _, _)) as E by (vm_compute; reflexivity).
  pose proof (updateWorkflow_drops_step_runs env0 "id0" None None unordered_steps
                paused_world _ _ eq_refl E) as (_ & _ & Hruns).
  eexists _, _. split; [exact E|]. split; [vm_compute; reflexivity|].
  split; [vm_compute; reflexivity|]. split; [vm_compute; reflexivity|].
  split; [vm_compute; reflexivity|exact Hruns].
Defined.

(** X6.  What "Save" sends is read back as shown: for a workflow that
    exists and an editor whose steps have distinct identifiers, not used by
    another workflow, the mutation's [updateWorkflow] returns, and
    [getWorkflow] then returns, the steps in the order of the editor's list,
    numbered 0, 1, 2, ..., whatever the [order] fields of the editor were,
    with the names, kinds and identifiers of the editor (the next identifier
    drawn for a step that has none) and the name and description sent. *)
Theorem saved_steps_read_back (env : Env) (id name description : string)
    (steps : list StepInput) (w : World) (row : WorkflowRow) :
  lookup_workflow (db w) id = Some row ->
  NoDup (assign_ids env (idDraws w) steps) ->
  (forall r, r ∈ workflow_steps (db w) ->
             row_id r ∈ assign_ids env (idDraws w) steps ->
             row_workflow_id r = id) ->
  exists wf w',
    updateWorkflow env id (Some name) (Some description) (saved_steps steps) w
    = (Ok wf, w') /\
    getWorkflow id w' = (Ok (Some wf), w') /\
    w_name wf = name /\ w_description wf = Some description /\
    w_steps wf
    = zip_with (step_of_input id) (assign_ids env (idDraws w) steps)
        (saved_steps steps) /\
    map ws_id (w_steps wf) = assign_ids env (idDraws w) steps /\
    map ws_name (w_steps wf) = map si_name steps /\
    map ws_type (w_steps wf) = map si_type steps /\
    map ws_order (w_steps wf) = Z.of_nat <$> seq 0 (length steps).
Proof.
  intros Hrow Hnd Hfree.
  assert (assign_ids env (idDraws w) (saved_steps steps)
          = assign_ids env (idDraws w) steps) as Hids
    by (by apply assign_ids_imap).
  assert (map si_order (saved_steps steps) = Z.of_nat <$> seq 0 (length steps))
    as Hord.
  { unfold saved_steps. change (map si_order) with (fmap (M:=list) si_order).
    rewrite fmap_imap. apply (imap_seq_0 steps Z.of_nat). }
  assert (length (saved_steps steps) = length steps) as Hlen
    by apply length_imap.
  destruct (updateWorkflow_ok env id (Some name) (Some description)
              (saved_steps steps) w row Hrow)
    as (w' & Hcall & _ & Hrow' & Hsel & _).
  { by rewrite Hids. }
  { intros r Hr Hin. rewrite Hids in Hin. by apply Hfree. }
  rewrite Hids in Hcall, Hsel.
  assert (order_by ws_order
            (zip_with (step_of_input id) (assign_ids env (idDraws w) steps)
               (saved_steps steps))
          = zip_with (step_of_input id) (assign_ids env (idDraws w) steps)
              (saved_steps steps)) as Hsorted.
  { apply order_by_of_sorted.
    rewrite zip_steps_order by (by rewrite assign_ids_length, Hlen).
    rewrite Hord. apply sorted_of_nat_seq. }
  rewrite Hsorted in Hcall, Hsel.
  eexists _, w'. split; [exact Hcall|]. split.
  { pose proof (getWorkflow_found _ _ _ Hrow') as Hg. rewrite Hsel in Hg.
    unfold renamed_row in Hg. rewrite (lookup_workflow_id _ _ _ Hrow) in Hg.
    rewrite String.eqb_refl in Hg. exact Hg. }
  simpl. split; [done|]. split; [done|]. split; [done|].
  assert (forall (sids : list string) (l l0 : list StepInput)
                 (g : nat -> StepInput -> StepInput),
            length sids = length l ->
            (forall i s, si_name (g i s) = si_name s /\ si_type (g i s) = si_type s) ->
            map ws_id (zip_with (step_of_input id) sids (imap g l)) = sids /\
            map ws_name (zip_with (step_of_input id) sids (imap g l))
            = map si_name l /\
            map ws_type (zip_with (step_of_input id) sids (imap g l))
            = map si_type l) as Hmaps.
  { clear. intros sids l _. revert sids.
    induction l as [|s l IH]; intros [|x sids] g Hlen Hg; try done.
    rewrite imap_cons. simpl. injection Hlen as Hlen.
    destruct (IH sids (g ∘ S) Hlen) as (-> & -> & ->);
      [intros i y; apply Hg|].
    by destruct (Hg 0%nat s) as [-> ->]. }
  destruct (Hmaps (assign_ids env (idDraws w) steps) steps steps
              (fun idx s =>
                 {| si_id := si_id s; si_name := si_name s; si_type := si_type s;
                    si_config := Some (match si_config s with
                                       | None | Some JNull => JObj []
                                       | Some c => c
                                       end);
                    si_order := Z.of_nat idx |}))
    as (H1 & H2 & H3); [apply assign_ids_length|done|].
  split; [exact H1|]. split; [exact H2|]. split; [exact H3|].
  rewrite zip_steps_order by (by rewrite assign_ids_length, Hlen). exact Hord.
Qed.

Lemma saved_steps_read_back_witness :
  exists wf w',
    updateWorkflow env0 "id0" (Some "renamed") (Some "")
      (saved_steps edited_steps) started_world = (Ok wf, w') /\
    getWorkflow "id0" w' = (Ok (Some wf), w') /\
    map ws_id (w_steps wf) = ["id2"; "id1"; "id8"] /\
    map ws_name (w_steps wf) = ["second"; "first"; "New Step"] /\
    map ws_order (w_steps wf) = [0; 1; 2]%Z.
Proof.
  destruct (saved_steps_read_back env0 "id0" "renamed" "" edited_steps
              started_world scenario_workflow)
    as (wf & w' & H1 & H2 & _ & _ & _ & H3 & H4 & _ & H5).
  - vm_compute. reflexivity.
  - apply (bool_decide_unpack _). vm_compute. exact I.
  - intros r Hr _. apply list_elem_of_In in Hr. vm_compute in Hr.
    destruct Hr as [<-|[<-|[]]]; reflexivity.
  - exists wf, w'. split; [exact H1|]. split; [exact H2|].
    rewrite H3, H4, H5. repeat split; vm_compute; reflexivity.
Defined.

(** * The Store: creating a run *)

Lemma has_step_run_app d row x :
  has_step_run (set_step_runs (step_runs d ++ [row]) d) x
  = has_step_run d x || String.eqb (sr_id row) x.
Proof.
  unfold has_step_run. simpl. rewrite existsb_app. simpl. by rewrite orb_false_r.
Qed.

Lemma select_steps_has_step d workflowId s :
  s ∈ select_steps d workflowId -> has_step d (ws_id s) = true.
Proof.
  unfold select_steps. intros Hs. apply list_elem_of_In, in_map_iff in Hs.
  destruct Hs as (r & <- & Hr).
  apply (Permutation_in _ (order_by_perm _ _)) in Hr.
  apply filter_In in Hr as [Hr _]. unfold has_step. apply existsb_exists.
  exists r. split; [done|apply String.eqb_refl].
Qed.

Section CreateRunRows.

Context (env : Env).

(** The loop of [createRun]: one step run per step, under the identifiers
    drawn, when these are distinct and free. *)
Lemma forEach_insert_step_runs runId (steps : list WorkflowStep) : forall w,
  has_run (db w) runId = true ->
  (forall s, s ∈ steps -> has_step (db w) (ws_id s) = true) ->
  NoDup (drawn env (idDraws w) (length steps)) ->
  (forall x, x ∈ drawn env (idDraws w) (length steps) ->
             has_step_run (db w) x = false) ->
  exists w',
    forEach (fun s =>
       let* srid := nanoid env in
       insert_step_run {| sr_id := srid; sr_workflowRunId := runId;
                          sr_workflowStepId := ws_id s; sr_status := PENDING;
                          sr_startedAt := None; sr_finishedAt := None |}) steps w
    = (Ok tt, w') /\
    db w'
    = set_step_runs
        (step_runs (db w)
         ++ zip_with (new_step_run runId) (drawn env (idDraws w) (length steps))
              steps)
        (db w).
Proof.
  induction steps as [|s l IH]; intros w Hrun Hsteps Hnd Hfree.
  - exists w. split; [done|]. simpl. rewrite app_nil_r. by destruct (db w).
  - simpl forEach. unfold drawn in *. simpl in Hnd, Hfree |- *.
    apply NoDup_cons in Hnd as [Hnotin Hnd].
    set (sr := new_step_run runId (ids env (idDraws w)) s).
    set (w1 := with_db (set_step_runs (step_runs (db w) ++ [sr]) (db w)) (draw w)).
    assert ((let* srid := nanoid env in
             insert_step_run
               {| sr_id := srid; sr_workflowRunId := runId;
                  sr_workflowStepId := ws_id s; sr_status := PENDING;
                  sr_startedAt := None; sr_finishedAt := None |}) w
            = (Ok tt, w1)) as Hins.
    { unfold bind, insert_step_run. simpl. unfold bind. simpl.
      rewrite (Hfree (ids env (idDraws w))) by (by left).
      unfold fk_ok. rewrite Hrun, (Hsteps s) by (by left). simpl.
      by rewrite orb_true_r. }
    rewrite (bind_ok _ _ _ _ _ Hins).
    destruct (IH w1) as (w' & Hrest & Hdb').
    + done.
    + intros x Hx. subst w1. unfold has_step. simpl. apply Hsteps. by right.
    + exact Hnd.
    + intros x Hx. subst w1. simpl. rewrite has_step_run_app.
      rewrite Hfree by (by right). simpl.
      apply String.eqb_neq. intros Heq. apply Hnotin. by rewrite Heq.
    + exists w'. split; [exact Hrest|]. rewrite Hdb'. subst w1. simpl.
      by rewrite <- app_assoc.
Qed.

End CreateRunRows.

Lemma zip_new_step_runs_run id sids steps sr :
  sr ∈ zip_with (new_step_run id) sids steps -> sr_workflowRunId sr = id.
Proof.
  revert steps. induction sids as [|x l IH]; intros [|s steps] Hsr; simpl in *;
    try by apply elem_of_nil in Hsr.
  apply elem_of_cons in Hsr as [->|Hsr]; [done|]. by apply (IH steps).
Qed.

Lemma zip_new_step_runs_steps id sids steps :
  length sids = length steps ->
  map sr_workflowStepId (zip_with (new_step_run id) sids steps) = map ws_id steps.
Proof.
  revert steps. induction sids as [|x l IH]; intros [|s steps] Hlen; simpl in *;
    try done.
  f_equal. apply IH. by injection Hlen.
Qed.

(** X7.  [createRun] for a workflow that exists, when the identifiers it
    draws are free, returns a PENDING run of the workflow with the time of
    the call as [createdAt] and no [startedAt] or [finishedAt], which
    [getRun] then returns; [listStepRuns] then returns one PENDING step run,
    without timestamps, for each step of the workflow, in the order of the
    steps ([order] ascending) and under the identifiers drawn after the
    run's; no event is written and nothing is scheduled. *)
Theorem createRun_creates_step_runs (env : Env) (workflowId : string) (w : World) :
  let id := ids env (idDraws w) in
  let steps := select_steps (db w) workflowId in
  let srids := drawn env (S (idDraws w)) (length steps) in
  has_workflow (db w) workflowId = true ->
  has_run (db w) id = false ->
  NoDup srids ->
  (forall x, x ∈ srids -> has_step_run (db w) x = false) ->
  (forall sr, sr ∈ step_runs (db w) -> sr_workflowRunId sr <> id) ->
  exists w',
    createRun env workflowId w = (Ok (new_run env w workflowId), w') /\
    getRun id w' = (Ok (Some (new_run env w workflowId)), w') /\
    listStepRuns id w' = (Ok (zip_with (new_step_run id) srids steps), w') /\
    map sr_workflowStepId (zip_with (new_step_run id) srids steps)
    = map ws_id steps /\
    events (db w') = events (db w) /\
    same_exec w w'.
Proof.
  intros id steps srids Hwf Hfresh Hnd Hfree Hnone.
  set (run := new_run env w workflowId).
  set (w1 := with_db (set_workflow_runs (workflow_runs (db w) ++ [run]) (db w))
               (tick (draw w))).
  assert (has_run (db w1) id = true) as Hrun1.
  { unfold has_run. simpl. rewrite existsb_app. simpl.
    rewrite String.eqb_refl. by rewrite !orb_true_r. }
  destruct (forEach_insert_step_runs env id steps w1) as (w2 & Hloop & Hdb2).
  - exact Hrun1.
  - intros s Hs. apply (select_steps_has_step (db w) workflowId s Hs).
  - exact Hnd.
  - exact Hfree.
  - assert (lookup_run (db w2) id = Some run) as Hrun2.
    { rewrite Hdb2. unfold lookup_run. simpl.
      apply find_app_new; [exact Hfresh|apply String.eqb_refl]. }
    assert (createRun env workflowId w = (Ok run, w2)) as E.
    { assert (insert_run run (tick (draw w)) = (Ok tt, w1)) as Hins.
      { unfold insert_run, bind. simpl. fold id. rewrite Hfresh.
        unfold fk_ok. by rewrite Hwf, orb_true_r. }
      unfold createRun. unfold bind at 1. simpl. unfold bind at 1. simpl.
      rewrite (bind_ok _ _ _ _ _ Hins).
      rewrite (bind_ok (listWorkflowSteps workflowId) _ w1 steps w1 eq_refl).
      assert (transaction
                (forEach (fun s =>
                   let* srid := nanoid env in
                   insert_step_run
                     {| sr_id := srid; sr_workflowRunId := id;
                        sr_workflowStepId := ws_id s; sr_status := PENDING;
                        sr_startedAt := None; sr_finishedAt := None |}) steps) w1
              = (Ok tt, w2)) as Htx
        by (unfold transaction; by rewrite Hloop).
      rewrite (bind_ok _ _ _ _ _ Htx).
      rewrite (bind_ok (getRun id) _ w2 (Some run) w2); [done|].
      unfold getRun, bind. simpl. by rewrite Hrun2. }
    exists w2. split; [exact E|]. split.
    { unfold getRun, bind. simpl. by rewrite Hrun2. }
    split.
    { unfold listStepRuns, bind. simpl. do 2 f_equal.
      unfold select_step_runs. rewrite Hdb2. simpl.
      rewrite List.filter_app, filter_none, filter_every; [done| |].
      - intros sr Hsr. apply list_elem_of_In in Hsr.
        apply String.eqb_eq. by apply zip_new_step_runs_run in Hsr.
      - intros sr Hsr. apply String.eqb_neq, Hnone. by apply list_elem_of_In. }
    split.
    { apply zip_new_step_runs_steps. unfold srids, drawn.
      by rewrite length_map, length_seq. }
    split; [by rewrite Hdb2|].
    pose proof (same_exec_createRun env workflowId w) as H. by rewrite E in H.
Qed.

Lemma createRun_creates_step_runs_witness :
  exists w',
    createRun env0 "id0" created_world
    = (Ok {| run_id := "id3"; run_workflowId := "id0"; run_status := PENDING;
             run_createdAt := 1001; run_startedAt := None;
             run_finishedAt := None |}, w') /\
    listStepRuns "id3" w'
    = (Ok [pending_step_run "id4" "id1"; pending_step_run "id5" "id2"], w') /\
    events (db w') = [].
Proof.
  destruct (createRun_creates_step_runs env0 "id0" created_world)
    as (w' & H1 & _ & H3 & _ & H5 & _).
  - vm_compute. reflexivity.
  - vm_compute. reflexivity.
  - apply (bool_decide_unpack _). vm_compute. exact I.
  - intros x _. vm_compute. reflexivity.
  - intros sr Hsr. apply list_elem_of_In in Hsr. vm_compute in Hsr. destruct Hsr.
  - assert (ids env0 (idDraws created_world) = "id3") as Hid
      by (vm_compute; reflexivity).
    rewrite Hid in H3.
    exists w'. split; [rewrite H1; vm_compute; reflexivity|].
    split; [rewrite H3; vm_compute; reflexivity|].
    rewrite H5. vm_compute. reflexivity.
Defined.

(** * The Store: reading and writing rows *)

Lemma fromEntries_fold k (l : list StepRun) : forall m : gmap string StepRun,
  fold_left (fun m s => <[sr_workflowStepId s := s]> m) l m !! k
  = match last (List.filter (fun s => String.eqb (sr_workflowStepId s) k) l) with
    | Some s => Some s
    | None => m !! k
    end.
Proof.
  induction l as [|s l IH]; intros m; simpl; [done|].
  rewrite IH. destruct (String.eqb_spec (sr_workflowStepId s) k) as [<-|Hne].
  - rewrite lookup_insert_eq.
    destruct (List.filter _ l) as [|y l'] eqn:E; simpl; [done|].
    destruct (last (y :: l')) eqn:El; [done|]. by apply last_None in El.
  - by rewrite lookup_insert_ne.
Qed.

Lemma fromEntries_lookup (d : Db) (runId stepId : string) :
  fromEntries (select_step_runs d runId) !! stepId
  = last (List.filter (fun sr => String.eqb (sr_workflowStepId sr) stepId)
            (select_step_runs d runId)).
Proof. unfold fromEntries. rewrite fromEntries_fold. by destruct (last _). Qed.

Lemma last_step_run_elem (d : Db) (runId stepId : string) sr :
  last (List.filter (fun sr => String.eqb (sr_workflowStepId sr) stepId)
          (select_step_runs d runId)) = Some sr ->
  sr ∈ step_runs d /\ sr_workflowRunId sr = runId /\
  sr_workflowStepId sr = stepId.
Proof.
  intros Hlast. apply last_Some in Hlast as (l' & Hl').
  assert (In sr (List.filter
                   (fun sr => String.eqb (sr_workflowStepId sr) stepId)
                   (select_step_runs d runId))) as Hin
    by (rewrite Hl'; apply in_or_app; right; by left).
  apply filter_In in Hin as [Hin Hstep]. unfold select_step_runs in Hin.
  apply filter_In in Hin as [Hin Hrun].
  split; [by apply list_elem_of_In|]. split; by apply String.eqb_eq.
Qed.

Lemma last_step_run_none (d : Db) (runId stepId : string) :
  last (List.filter (fun sr => String.eqb (sr_workflowStepId sr) stepId)
          (select_step_runs d runId)) = None <->
  forall sr, sr ∈ step_runs d -> sr_workflowRunId sr = runId ->
             sr_workflowStepId sr <> stepId.
Proof.
  rewrite last_None. split.
  - intros Hnil sr Hsr Hrun Hstep.
    assert (In sr (List.filter
                     (fun sr => String.eqb (sr_workflowStepId sr) stepId)
                     (select_step_runs d runId))) as Hin.
    { apply filter_In. split; [|by apply String.eqb_eq].
      apply filter_In. split; [by apply list_elem_of_In|by apply String.eqb_eq]. }
    rewrite Hnil in Hin. destruct Hin.
  - intros Hall. apply filter_none. intros sr Hin.
    apply filter_In in Hin as [Hin Hrun].
    apply String.eqb_neq, Hall; [by apply list_elem_of_In|by apply String.eqb_eq].
Qed.

(** X8.  [getStepRunsMap] changes nothing, and reading its map under the
    identifier of a step, [m[stepId]], gives the step run of the run for
    that step (the one inserted last if there are several), which belongs
    to the run and to the step.  When the run has no step run for the
    step, the reading is [undefined] unless the identifier is the name of
    a member of [Object.prototype] ("constructor", "toString",
    "__proto__", ...): then it is that member. *)
Theorem getStepRunsMap_lookup (runId : string) (w : World) (stepId : string) :
  exists m,
    getStepRunsMap runId w = (Ok m, w) /\
    get_property m stepId
    = match last (List.filter
                    (fun sr => String.eqb (sr_workflowStepId sr) stepId)
                    (select_step_runs (db w) runId)) with
      | Some sr => Own sr
      | None =>
          if bool_decide (stepId ∈ object_prototype) then Inherited
          else Undefined
      end /\
    (forall sr,
       get_property m stepId = Own sr ->
       sr ∈ step_runs (db w) /\ sr_workflowRunId sr = runId /\
       sr_workflowStepId sr = stepId) /\
    (get_property m stepId = Undefined <->
     (stepId ∉ object_prototype) /\
     forall sr, sr ∈ step_runs (db w) -> sr_workflowRunId sr = runId ->
                sr_workflowStepId sr <> stepId) /\
    (get_property m stepId = Inherited <->
     stepId ∈ object_prototype /\
     forall sr, sr ∈ step_runs (db w) -> sr_workflowRunId sr = runId ->
                sr_workflowStepId sr <> stepId).
Proof.
  exists (fromEntries (select_step_runs (db w) runId)). split; [done|].
  unfold get_property. rewrite fromEntries_lookup.
  pose proof (last_step_run_elem (db w) runId stepId) as Helem.
  pose proof (last_step_run_none (db w) runId stepId) as Hnone.
  destruct (last _) as [found|].
  - split; [done|]. split; [intros sr [= <-]; by apply Helem|].
    split; (split; [done|]); intros [_ Hall]; by apply Hnone in Hall.
  - split; [done|]. split; [by destruct (bool_decide _)|].
    pose proof (proj1 Hnone eq_refl) as Hall.
    destruct (bool_decide_reflect (stepId ∈ object_prototype)) as [Hin|Hout].
    + split; split; try done. by intros [? _].
    + split; split; try done. by intros [? _].
Qed.

Lemma getStepRunsMap_lookup_witness :
  exists m,
    getStepRunsMap "id3" paused_world = (Ok m, paused_world) /\
    get_property m "id2" = Own (pending_step_run "id5" "id2") /\
    get_property m "id7" = Undefined /\
    get_property m "constructor" = Inherited.
Proof.
  destruct (getStepRunsMap_lookup "id3" paused_world "id2") as (m & H1 & H2 & _).
  destruct (getStepRunsMap_lookup "id3" paused_world "id7") as (m' & H1' & H2' & _).
  destruct (getStepRunsMap_lookup "id3" paused_world "constructor")
    as (m'' & H1'' & H2'' & _).
  rewrite H1 in H1', H1''.
  apply (f_equal fst) in H1', H1''. cbn [fst] in H1', H1''.
  injection H1' as <-. injection H1'' as <-.
  exists m. split; [exact H1|].
  split; [rewrite H2|split; [rewrite H2'|rewrite H2'']]; vm_compute; reflexivity.
Defined.

Lemma map_unchanged {A} (f : A -> A) (l : list A) :
  (forall x, In x l -> f x = x) -> map f l = l.
Proof.
  induction l as [|y l IH]; simpl; intros H; [done|].
  rewrite (H y) by (by left). f_equal. apply IH. intros x Hx. apply H. by right.
Qed.

Lemma find_none_key {A} (key : A -> string) id (l : list A) x :
  List.find (fun r => String.eqb (key r) id) l = None -> In x l ->
  String.eqb (key x) id = false.
Proof. intros Hnone Hin. by apply (find_none _ _ Hnone). Qed.

(** X9.  [updateRunStatus] and [updateStepRunStatus] never throw and write
    to one row only: the other runs (step runs) read back as before, no row
    is added or removed, the other tables and the scheduling state are not
    touched, and for an identifier that no row has the database is left
    exactly as it was. *)
Theorem status_updates_touch_one_row (env : Env) (s : RunStatus) (w : World) :
  (forall runId,
     let w' := (updateRunStatus env runId s w).2 in
     (updateRunStatus env runId s w).1 = Ok tt /\
     (forall other, other <> runId ->
                    lookup_run (db w') other = lookup_run (db w) other) /\
     (lookup_run (db w) runId = None -> db w' = db w) /\
     map run_id (workflow_runs (db w')) = map run_id (workflow_runs (db w)) /\
     step_runs (db w') = step_runs (db w) /\ events (db w') = events (db w) /\
     workflows (db w') = workflows (db w) /\
     workflow_steps (db w') = workflow_steps (db w) /\
     same_exec w w') /\
  (forall stepRunId,
     let w' := (updateStepRunStatus env stepRunId s w).2 in
     (updateStepRunStatus env stepRunId s w).1 = Ok tt /\
     (forall other, other <> stepRunId ->
                    lookup_step_run (db w') other = lookup_step_run (db w) other) /\
     (lookup_step_run (db w) stepRunId = None -> db w' = db w) /\
     map sr_id (step_runs (db w')) = map sr_id (step_runs (db w)) /\
     workflow_runs (db w') = workflow_runs (db w) /\
     events (db w') = events (db w) /\
     workflows (db w') = workflows (db w) /\
     workflow_steps (db w') = workflow_steps (db w) /\
     same_exec w w').
Proof.
  split.
  - intros runId w'. subst w'. rewrite updateRunStatus_eq.
    set (w0 := if bool_decide (s = PENDING) then w else tick w).
    assert (db w0 = db w /\ same_exec w w0) as [Hdb Hex]
      by (subst w0; by destruct (bool_decide _)).
    split; [done|]. split; [|split; [|split]].
    + intros other Hne. rewrite lookup_run_update_run_row, Hdb.
      destruct (lookup_run (db w) other) as [r|] eqn:Hr; [|done]. simpl.
      rewrite (lookup_run_id _ _ _ Hr).
      by destruct (String.eqb_spec other runId).
    + intros Hnone. simpl. rewrite Hdb. rewrite map_unchanged.
      * by destruct (db w).
      * intros r Hr. by rewrite (find_none_key run_id _ _ _ Hnone Hr).
    + simpl. rewrite Hdb, map_map. apply map_ext. intros r.
      by destruct (String.eqb _ _).
    + simpl. by rewrite Hdb.
  - intros stepRunId w'. subst w'. rewrite updateStepRunStatus_eq.
    set (w0 := if bool_decide (s = PENDING) then w else tick w).
    assert (db w0 = db w /\ same_exec w w0) as [Hdb Hex]
      by (subst w0; by destruct (bool_decide _)).
    split; [done|]. split; [|split; [|split]].
    + intros other Hne. rewrite lookup_step_run_update_step_run_row, Hdb.
      destruct (lookup_step_run (db w) other) as [r|] eqn:Hr; [|done]. simpl.
      rewrite (lookup_step_run_id _ _ _ Hr).
      by destruct (String.eqb_spec other stepRunId).
    + intros Hnone. simpl. rewrite Hdb. rewrite map_unchanged.
      * by destruct (db w).
      * intros r Hr. by rewrite (find_none_key sr_id _ _ _ Hnone Hr).
    + simpl. rewrite Hdb, map_map. apply map_ext. intros r.
      by destruct (String.eqb _ _).
    + simpl. by rewrite Hdb.
Qed.

Lemma status_updates_touch_one_row_witness :
  db (updateRunStatus env0 "nope" FAILED paused_world).2 = db paused_world /\
  lookup_run (db (updateRunStatus env0 "nope" FAILED paused_world).2) "id3"
  = Some paused_run /\
  lookup_step_run (db (updateStepRunStatus env0 "id4" SUCCEEDED paused_world).2)
    "id5" = Some (pending_step_run "id5" "id2").
Proof.
  destruct (status_updates_touch_one_row env0 FAILED paused_world) as [H _].
  destruct (H "nope") as (_ & H2 & H3 & _).
  destruct (status_updates_touch_one_row env0 SUCCEEDED paused_world) as [_ H'].
  destruct (H' "id4") as (_ & H2' & _).
  split; [apply H3; vm_compute; reflexivity|]. split.
  - rewrite H2 by discriminate. vm_compute. reflexivity.
  - rewrite H2' by discriminate. vm_compute. reflexivity.
Defined.

(** X10.  [appendEvent] followed by [listEvents]: in every state the engine
    reaches, with a clock that never goes back and whose readings, that of
    the call included, are all written with a year of four digits (none is
    after 9999-12-31T23:59:59.999Z), an event that the table accepts is,
    after the call, the last one that [listEvents] returns for its run,
    after the events returned before, and the events of the other runs are
    returned as before. *)
Theorem appendEvent_then_listEvents (env : Env) (actions : list Action)
    (runId : string) (stepRunId : option string) (type : EventType)
    (message : string) :
  monotone_clock env ->
  let w := run_actions env actions empty_world in
  four_digit_years env (S (clockReads w)) ->
  event_accepted env w runId stepRunId ->
  exists w',
    appendEvent env runId stepRunId type message w = (Ok tt, w') /\
    listEvents runId w'
    = (Ok (select_events (db w) runId
           ++ [new_event env w runId stepRunId type message]), w') /\
    (forall other, other <> runId ->
                   select_events (db w') other = select_events (db w) other).
Proof.
  intros Hclock w Hyears' Hacc.
  pose proof (appendEvent_ok env runId stepRunId type message w Hacc) as Hcall.
  assert (timely env w) as Htimely
    by apply (timely_run_actions env Hclock), timely_empty_world.
  assert (four_digit_years env (clockReads w)) as Hyears
    by (intros k Hk; apply Hyears'; lia).
  pose proof (keeps_time_appendEvent env Hclock runId stepRunId type message w)
    as [_ Hkeep].
  rewrite Hcall in Hkeep. specialize (Hkeep Htimely). simpl in Hkeep.
  eexists. split; [exact Hcall|]. split.
  - unfold listEvents, bind. simpl. do 2 f_equal.
    rewrite (select_events_journal env _ _ Hkeep Hyears').
    rewrite (select_events_journal env _ _ Htimely Hyears).
    unfold journal. simpl. rewrite journal_of_app. f_equal.
    unfold journal_of. simpl. by rewrite String.eqb_refl.
  - intros other Hne.
    rewrite (select_events_journal env _ _ Hkeep Hyears').
    rewrite (select_events_journal env _ _ Htimely Hyears).
    unfold journal. simpl. rewrite journal_of_app.
    unfold journal_of at 2. simpl.
    destruct (String.eqb_spec runId other) as [->|_]; [done|].
    apply app_nil_r.
Qed.

Lemma appendEvent_then_listEvents_witness :
  exists w',
    appendEvent env0 "id3" (Some "id4") STEP_STARTED "again" started_world
    = (Ok tt, w') /\
    exists l, listEvents "id3" w' = (Ok l, w') /\
              map ev_message l = ["Run enqueued"; "Run started"; "again"].
Proof.
  destruct (appendEvent_then_listEvents env0
              [CallCreateWorkflow "two approvals" None
                 [manual_step "first" 0; manual_step "second" 1];
               CallStartRun "id0"] "id3" (Some "id4") STEP_STARTED "again")
    as (w' & H1 & H2 & _).
  - intros i j Hij. simpl. lia.
  - intros k Hk. unfold four_digit_year, last_four_digit_instant.
    vm_compute in Hk. simpl. lia.
  - split; vm_compute; reflexivity.
  - exists w'. split; [exact H1|].
    eexists. split; [exact H2|]. vm_compute. reflexivity.
Defined.

(** * The Store: listings *)

Lemma StronglySorted_newest_first {A} (createdAt : A -> Time) (l : list A) :
  StronglySorted
    (fun a b => (iso_rank (createdAt b) <= iso_rank (createdAt a))%Z)
    (newest_first createdAt l).
Proof.
  unfold newest_first.
  pose proof (order_by_sorted (fun r => (- iso_rank (createdAt r))%Z) l) as H.
  induction (order_by _ l) as [|x k IH]; [constructor|].
  simpl in H. apply StronglySorted_inv in H as [Hs Hall].
  constructor; [by apply IH|].
  rewrite List.Forall_forall in Hall. apply List.Forall_forall. intros y Hy.
  assert (- iso_rank (createdAt x) <= - iso_rank (createdAt y))%Z as Hle
    by (apply Hall, in_map_iff; by exists y).
  lia.
Qed.

(** Among timestamps with a year of four digits, the order of the texts is
    the order of the instants. *)
Lemma StronglySorted_four_digit {A} (createdAt : A -> Time) (l : list A) :
  StronglySorted
    (fun a b => (iso_rank (createdAt b) <= iso_rank (createdAt a))%Z) l ->
  Forall (fun r => four_digit_year (createdAt r)) l ->
  StronglySorted (fun a b => (createdAt b <= createdAt a)%nat) l.
Proof.
  induction 1 as [|x l Hs IH Hall]; intros Hyears; [constructor|].
  apply Forall_cons in Hyears as [Hx Hl]. constructor; [by apply IH|].
  rewrite List.Forall_forall in Hall, Hl. apply List.Forall_forall.
  intros y Hy. specialize (Hall y Hy). specialize (Hl y Hy). simpl in Hall.
  rewrite !iso_rank_four_digit in Hall by done. lia.
Qed.

(** X12.  [listRuns] returns the runs of the workflow and no other, each
    once, the newest first, and changes nothing.  The order is that of the
    column [created_at], descending, as the database compares it (as
    text); it is the order of the instants, descending, when every run of
    the list was created with a year of four digits. *)
Theorem listRuns_newest_first (workflowId : string) (w : World) :
  exists l,
    listRuns workflowId w = (Ok l, w) /\
    Permutation l
      (List.filter (fun r => String.eqb (run_workflowId r) workflowId)
         (workflow_runs (db w))) /\
    (forall r, r ∈ l <-> r ∈ workflow_runs (db w) /\ run_workflowId r = workflowId) /\
    StronglySorted
      (fun a b => (iso_rank (run_createdAt b) <= iso_rank (run_createdAt a))%Z)
      l /\
    (Forall (fun r => four_digit_year (run_createdAt r)) l ->
     StronglySorted (fun a b => (run_createdAt b <= run_createdAt a)%nat) l).
Proof.
  eexists. split; [reflexivity|].
  assert (Permutation
            (newest_first run_createdAt
               (List.filter (fun r => String.eqb (run_workflowId r) workflowId)
                  (workflow_runs (db w))))
            (List.filter (fun r => String.eqb (run_workflowId r) workflowId)
               (workflow_runs (db w)))) as Hperm by apply order_by_perm.
  split; [exact Hperm|].
  split; [|split; [apply StronglySorted_newest_first|
                   apply StronglySorted_four_digit,
                     StronglySorted_newest_first]].
  intros r. rewrite !list_elem_of_In. split.
  - intros Hr. apply (Permutation_in _ Hperm) in Hr.
    apply filter_In in Hr as [Hr Hwf]. by apply String.eqb_eq in Hwf.
  - intros [Hr Hwf]. apply (Permutation_in _ (Permutation_sym Hperm)).
    apply filter_In. split; [done|by apply String.eqb_eq].
Qed.

Lemma StronglySorted_map_rel {A B} (R : A -> A -> Prop) (R' : B -> B -> Prop)
    (g : A -> B) (l : list A) :
  (forall a b, R a b -> R' (g a) (g b)) ->
  StronglySorted R l -> StronglySorted R' (map g l).
Proof.
  intros HR. induction 1 as [|x l Hs IH Hall]; simpl; constructor; [done|].
  rewrite List.Forall_forall in Hall. apply List.Forall_forall.
  intros y (z & <- & Hz)%in_map_iff. by apply HR, Hall.
Qed.

Lemma mapM_workflows (d : Db) (rows : list WorkflowRow) (w : World) :
  db w = d ->
  mapM (fun row =>
      let* steps := listWorkflowSteps (wf_id row) in
      ret {| w_id := wf_id row; w_name := wf_name row;
             w_description := wf_description row;
             w_createdAt := wf_createdAt row; w_steps := steps |}) rows w
  = (Ok (map (workflow_of_row d) rows), w).
Proof.
  intros <-. induction rows as [|row rows IH]; simpl; [done|].
  unfold bind at 1. unfold bind at 1. simpl. unfold bind at 1.
  by rewrite IH.
Qed.

Lemma find_unique_key {A} (key : A -> string) (l : list A) x :
  NoDup (map key l) -> In x l ->
  List.find (fun r => String.eqb (key r) (key x)) l = Some x.
Proof.
  induction l as [|y l IH]; simpl; intros Hnd Hin; [done|].
  apply NoDup_cons in Hnd as [Hnotin Hnd].
  destruct Hin as [->|Hin]; [by rewrite String.eqb_refl|].
  destruct (String.eqb_spec (key y) (key x)) as [Heq|_]; [|by apply IH].
  exfalso. apply Hnotin. rewrite Heq. apply list_elem_of_In, in_map. exact Hin.
Qed.

(** X13.  [listWorkflows] returns every workflow once, the newest first,
    each as [getWorkflow] returns it, its steps by ascending [order]
    included; a workflow that [getWorkflow] finds is in the list; nothing is
    changed.  The identifiers of the rows are distinct, as PRIMARY KEY has
    it.  The order is that of the column [created_at], descending, as the
    database compares it (as text); it is the order of the instants,
    descending, when every workflow was created with a year of four
    digits. *)
Theorem listWorkflows_as_getWorkflow (w : World) :
  NoDup (map wf_id (workflows (db w))) ->
  exists l,
    listWorkflows w = (Ok l, w) /\
    Permutation (map w_id l) (map wf_id (workflows (db w))) /\
    (forall wf, wf ∈ l -> getWorkflow (w_id wf) w = (Ok (Some wf), w)) /\
    (forall id wf, getWorkflow id w = (Ok (Some wf), w) -> wf ∈ l) /\
    StronglySorted
      (fun a b => (iso_rank (w_createdAt b) <= iso_rank (w_createdAt a))%Z) l /\
    (Forall (fun wf => four_digit_year (w_createdAt wf)) l ->
     StronglySorted (fun a b => (w_createdAt b <= w_createdAt a)%nat) l).
Proof.
  intros Hnd.
  assert (StronglySorted
            (fun a b => (iso_rank (w_createdAt b) <= iso_rank (w_createdAt a))%Z)
            (map (workflow_of_row (db w))
               (newest_first wf_createdAt (workflows (db w))))) as Hsorted.
  { apply (StronglySorted_map_rel
             (fun a b => (iso_rank (wf_createdAt b)
                          <= iso_rank (wf_createdAt a))%Z)); [done|].
    apply StronglySorted_newest_first. }
  assert (Permutation (newest_first wf_createdAt (workflows (db w)))
            (workflows (db w))) as Hperm by apply order_by_perm.
  exists (map (workflow_of_row (db w))
            (newest_first wf_createdAt (workflows (db w)))).
  split; [|split; [|split; [|split; [|split]]]].
  - unfold listWorkflows. unfold bind at 1. simpl. by apply mapM_workflows.
  - rewrite map_map. simpl. by apply Permutation_map.
  - intros wf Hwf. apply list_elem_of_In, in_map_iff in Hwf as (row & <- & Hrow).
    apply (Permutation_in _ Hperm) in Hrow.
    apply getWorkflow_found. unfold lookup_workflow. simpl.
    by apply (find_unique_key wf_id).
  - intros id wf Hget. unfold getWorkflow, bind in Hget. simpl in Hget.
    destruct (lookup_workflow (db w) id) as [row|] eqn:Hrow; [|done].
    injection Hget as <-. apply list_elem_of_In, in_map_iff.
    pose proof (lookup_workflow_id _ _ _ Hrow) as <-.
    exists row. split; [done|].
    apply (Permutation_in _ (Permutation_sym Hperm)).
    unfold lookup_workflow in Hrow. by apply find_some in Hrow as [Hin _].
  - exact Hsorted.
  - by apply StronglySorted_four_digit.
Qed.

Lemma listWorkflows_as_getWorkflow_witness :
  exists l,
    listWorkflows busy_world = (Ok l, busy_world) /\
    Permutation (map w_id l) ["id0"; "id9"] /\
    forall wf, wf ∈ l -> getWorkflow (w_id wf) busy_world = (Ok (Some wf), busy_world).
Proof.
  destruct (listWorkflows_as_getWorkflow busy_world) as (l & H1 & H2 & H3 & _).
  - apply (bool_decide_unpack _). vm_compute. exact I.
  - assert (map wf_id (workflows (db busy_world)) = ["id0"; "id9"]) as E
      by (vm_compute; reflexivity).
    rewrite E in H2. exists l. split; [exact H1|]. split; [exact H2|exact H3].
Defined.

(** * The Executor: the loop of a pass *)

(** An entry of the map is what the lookup gives. *)
Lemma get_property_own stepRunMap key sr :
  get_property stepRunMap key = Own sr <-> stepRunMap !! key = Some sr.
Proof.
  unfold get_property. destruct (stepRunMap !! key) as [x|].
  - split; intros H; congruence.
  - split; [|done]. by destruct (bool_decide _).
Qed.

Section PassLoop.

Context (env : Env).

Lemma execute_loop_skips runId stepRunMap done rest w :
  Forall (passed_over stepRunMap) done ->
  execute_loop env runId stepRunMap (done ++ rest) w
  = execute_loop env runId stepRunMap rest w.
Proof.
  induction 1 as [|s l Hs _ IH]; simpl; [done|].
  unfold passed_over in Hs.
  destruct (get_property stepRunMap (ws_id s)) as [sr| |]; [|done|done].
  by rewrite Hs.
Qed.

(** The run is given a final status and an event is appended. *)
Lemma finish_run runId s stepRunId type message w run :
  is_terminal s = true ->
  lookup_run (db w) runId = Some run ->
  has_event (db w) (ids env (idDraws w)) = false ->
  (forall i, stepRunId = Some i -> has_step_run (db w) i = true) ->
  exists w',
    (updateRunStatus env runId s >>
     appendEvent env runId stepRunId type message) w = (Ok tt, w') /\
    lookup_run (db w') runId
    = Some (stamp_run s None (Some (clock env (clockReads w))) run) /\
    events (db w')
    = events (db w) ++ [new_event env (tick w) runId stepRunId type message] /\
    step_runs (db w') = step_runs (db w) /\
    published w' = published w /\
    idDraws w' = S (idDraws w) /\
    same_exec w w'.
Proof.
  intros Hterm Hrun Hfresh Hsr.
  rewrite (bind_ok _ _ _ _ _ (eq_trans (updateRunStatus_eq env _ _ _)
                                (update_run_row_eq _ _ _ _ _))).
  assert (bool_decide (s = RUNNING) = false /\ bool_decide (s = PENDING) = false)
    as [-> ->] by (by destruct s).
  rewrite Hterm.
  set (w1 := with_db _ (tick w)).
  assert (event_accepted env w1 runId stepRunId) as Hacc.
  { split; [exact Hfresh|]. unfold fk_ok. subst w1. simpl.
    unfold has_run. simpl.
    rewrite has_run_stamped, (lookup_run_has _ _ _ Hrun). simpl.
    destruct stepRunId as [i|]; [|apply orb_true_r].
    unfold has_step_run in *. simpl. rewrite (Hsr i eq_refl). apply orb_true_r. }
  rewrite (appendEvent_ok env _ _ _ _ _ Hacc).
  eexists. split; [reflexivity|]. subst w1. simpl.
  split; [|done].
  unfold lookup_run in *. simpl.
  rewrite (find_map_same_key run_id); [|intros x; by destruct (String.eqb _ _)].
  rewrite Hrun. simpl.
  apply (lookup_run_id (db w)) in Hrun. by rewrite Hrun, String.eqb_refl.
Qed.

End PassLoop.

(** X14.  A pass whose loop reads, for every step that is left,
    [undefined] from the map (the run has no step run for the step, and the
    identifier of the step is not the name of a member of
    [Object.prototype]) or a step run that is SUCCEEDED (and so a pass over
    a workflow without steps, or with such steps added after the run was
    created) runs no step: it sets the run to SUCCEEDED with [finishedAt],
    appends RUN_SUCCEEDED, publishes the run once, and settles when
    resumed. *)
Theorem pass_succeeds_the_run (env : Env) (runId : string)
    (stepRunMap : gmap string StepRun) (steps : list WorkflowStep) (w : World)
    (run : WorkflowRun) :
  Forall (passed_over stepRunMap) steps ->
  lookup_run (db w) runId = Some run ->
  has_event (db w) (ids env (idDraws w)) = false ->
  exists w',
    execute_loop env runId stepRunMap steps w = (Ok AfterRunSucceeded, w') /\
    lookup_run (db w') runId
    = Some (stamp_run SUCCEEDED None (Some (clock env (clockReads w))) run) /\
    events (db w')
    = events (db w)
      ++ [new_event env (tick w) runId None RUN_SUCCEEDED "Run succeeded"] /\
    step_runs (db w') = step_runs (db w) /\
    published w' = published w ++ ["runUpdated:" +:+ runId] /\
    forall fetched,
      execute_resume env runId AfterRunSucceeded fetched w'
      = (Ok (Settled (Ok tt)), w').
Proof.
  intros Hdone Hrun Hfresh.
  destruct (finish_run env runId SUCCEEDED None RUN_SUCCEEDED "Run succeeded"
              w run eq_refl Hrun Hfresh)
    as (w1 & Hcall & Hrun1 & Hev & Hsrs & Hpub & _); [done|].
  exists (with_published (published w1 ++ ["runUpdated:" +:+ runId]) w1).
  split; [|by rewrite <- Hpub].
  rewrite <- (app_nil_r steps), execute_loop_skips by done. simpl.
  unfold bind at 1. unfold bind at 1.
  unfold bind in Hcall. destruct (updateRunStatus env runId SUCCEEDED w)
    as [[[]|e] wa]; [|done].
  by rewrite Hcall.
Qed.

Lemma pass_succeeds_the_run_witness :
  exists w',
    execute_loop env0 "id3"
      (fromEntries (select_step_runs (db approved_world) "id3"))
      [first_step; second_step] approved_world = (Ok AfterRunSucceeded, w') /\
    run_status <$> lookup_run (db w') "id3" = Some SUCCEEDED /\
    map ev_type (events (db w'))
    = [RUN_STARTED; RUN_STARTED; STEP_STARTED; STEP_SUCCEEDED; RUN_STARTED;
       STEP_SUCCEEDED; RUN_SUCCEEDED].
Proof.
  destruct (pass_succeeds_the_run env0 "id3"
              (fromEntries (select_step_runs (db approved_world) "id3"))
              [first_step; second_step] approved_world paused_run)
    as (w' & H1 & H2 & H3 & _).
  - constructor; [vm_compute; reflexivity|].
    constructor; [vm_compute; reflexivity|constructor].
  - vm_compute. reflexivity.
  - vm_compute. reflexivity.
  - exists w'. split; [exact H1|]. split; [by rewrite H2|].
    rewrite H3. vm_compute. reflexivity.
Defined.

(** X15.  A pass whose loop, after steps it goes past, meets a step run
    that is FAILED stops there: it sets the run to FAILED with [finishedAt],
    appends a RUN_FAILED event "Run already failed" that names the step
    run, and returns without publishing the run and without starting any
    of the steps that follow. *)
Theorem pass_meets_failed_step (env : Env) (runId : string)
    (stepRunMap : gmap string StepRun) (done : list WorkflowStep)
    (step : WorkflowStep) (rest : list WorkflowStep) (w : World)
    (run : WorkflowRun) (sr : StepRun) :
  Forall (passed_over stepRunMap) done ->
  stepRunMap !! ws_id step = Some sr ->
  sr_status sr = FAILED ->
  lookup_run (db w) runId = Some run ->
  has_event (db w) (ids env (idDraws w)) = false ->
  has_step_run (db w) (sr_id sr) = true ->
  exists w',
    execute_loop env runId stepRunMap (done ++ step :: rest) w
    = (Ok (Settled (Ok tt)), w') /\
    lookup_run (db w') runId
    = Some (stamp_run FAILED None (Some (clock env (clockReads w))) run) /\
    events (db w')
    = events (db w)
      ++ [new_event env (tick w) runId (Some (sr_id sr)) RUN_FAILED
            "Run already failed"] /\
    step_runs (db w') = step_runs (db w) /\
    published w' = published w.
Proof.
  intros Hdone Hsr Hfailed Hrun Hfresh Hexists.
  destruct (finish_run env runId FAILED (Some (sr_id sr)) RUN_FAILED
              "Run already failed" w run eq_refl Hrun Hfresh)
    as (w1 & Hcall & Hrun1 & Hev & Hsrs & Hpub & _);
    [by intros i [= <-]|].
  exists w1. split; [|done].
  rewrite execute_loop_skips by done. simpl.
  rewrite (proj2 (get_property_own _ _ _) Hsr), Hfailed.
  unfold bind at 1. unfold bind at 1.
  unfold bind in Hcall. destruct (updateRunStatus env runId FAILED w)
    as [[[]|e] wa]; [|done].
  by rewrite Hcall.
Qed.

Lemma pass_meets_failed_step_witness :
  exists w',
    execute_loop env0 "id3"
      (fromEntries (select_step_runs (db reopened_world) "id3"))
      [first_step; second_step] reopened_world
    = (Ok (Settled (Ok tt)), w') /\
    run_status <$> lookup_run (db w') "id3" = Some FAILED /\
    map ev_message (events (db w'))
    = ["Run enqueued"; "Run started"; "Manual step 'first' awaiting completion";
       "Manual step failed"; "Run failed by manual step";
       "Manual step completed"; "Run started"; "Run already failed"] /\
    published w' = published reopened_world.
Proof.
  eassert (lookup_run (db reopened_world) "id3" = Some _) as Hrun
    by (vm_compute; reflexivity).
  eassert (fromEntries (select_step_runs (db reopened_world) "id3") !! "id2"
           = Some _) as Hsr by (vm_compute; reflexivity).
  assert (Forall (passed_over
                    (fromEntries (select_step_runs (db reopened_world) "id3")))
            [first_step]) as Hdone
    by (constructor; [vm_compute; reflexivity|constructor]).
  destruct (pass_meets_failed_step env0 "id3" _ [first_step] second_step []
              reopened_world _ _ Hdone Hsr eq_refl Hrun)
    as (w' & H1 & H2 & H3 & _ & H5).
  - vm_compute. reflexivity.
  - vm_compute. reflexivity.
  - exists w'. split; [exact H1|]. split; [by rewrite H2|].
    split; [|exact H5]. rewrite H3. vm_compute. reflexivity.
Defined.

(** ** A task whose step run has been deleted appends nothing *)

Lemma set_step_runs_same d : set_step_runs (step_runs d) d = d.
Proof. by destruct d. Qed.

Lemma with_db_same w : with_db (db w) w = w.
Proof. by destruct w. Qed.

Lemma existsb_false_In {A} (f : A -> bool) (l : list A) x :
  existsb f l = false -> In x l -> f x = false.
Proof.
  intros H Hin. destruct (f x) eqn:E; [|done].
  rewrite <- H. symmetry. apply existsb_exists. by exists x.
Qed.

Section Gone.

Context (env : Env).

Lemma update_step_run_row_gone id s a b w :
  has_step_run (db w) id = false ->
  update_step_run_row id s a b w = (Ok tt, w).
Proof.
  intros Hgone. rewrite update_step_run_row_eq. f_equal.
  rewrite map_unchanged.
  - by rewrite set_step_runs_same, with_db_same.
  - intros x Hx. by rewrite (existsb_false_In _ _ x Hgone Hx).
Qed.

Lemma updateStepRunStatus_gone id s w :
  has_step_run (db w) id = false ->
  exists w',
    updateStepRunStatus env id s w = (Ok tt, w') /\
    db w' = db w /\ published w' = published w.
Proof.
  intros Hgone. rewrite updateStepRunStatus_eq.
  destruct (bool_decide (s = PENDING));
    (rewrite update_step_run_row_gone by done); by eexists.
Qed.

Lemma lookup_step_run_gone d id :
  lookup_step_run d id = None <-> has_step_run d id = false.
Proof.
  unfold lookup_step_run, has_step_run. split.
  - intros Hnone. apply not_true_iff_false. intros [r [Hr Hid]]%existsb_exists.
    by rewrite (find_none _ _ Hnone r Hr) in Hid.
  - intros Hgone. destruct (List.find _ _) as [r|] eqn:Hfind; [|done].
    apply find_some in Hfind as [Hr Hid].
    by rewrite (existsb_false_In _ _ r Hgone Hr) in Hid.
Qed.

Lemma appendEvent_refused r i t m w :
  foreign_keys (db w) = true -> has_step_run (db w) i = false ->
  exists e, appendEvent env r (Some i) t m w = (Throw e, tick (draw w)).
Proof.
  intros Hfk Hgone. unfold appendEvent, insert_event, bind. simpl.
  destruct (has_event _ _); [by eexists|].
  unfold fk_ok. rewrite Hfk, Hgone, andb_false_r. simpl. by eexists.
Qed.

(** Neither the [try] block nor the [catch] block gets past its first
    [appendEvent]: the exception leaves [runNonManualStep]. *)
Lemma runNonManualStep_finish_gone r sr h w :
  foreign_keys (db w) = true -> has_step_run (db w) (sr_id sr) = false ->
  exists e w',
    runNonManualStep_finish env r sr h w = (Throw e, w') /\
    db w' = db w /\ published w' = published w.
Proof.
  intros Hfk Hgone.
  assert (forall err w1, db w1 = db w -> published w1 = published w ->
            exists e w',
              runNonManualStep_catch env r sr err w1 = (Throw e, w') /\
              db w' = db w /\ published w' = published w) as Hcatch.
  { intros err w1 Hdb Hpub. unfold runNonManualStep_catch.
    destruct (updateStepRunStatus_gone (sr_id sr) FAILED w1)
      as (w2 & H2 & Hdb2 & Hpub2); [by rewrite Hdb|].
    destruct (appendEvent_refused r (sr_id sr) STEP_FAILED
                ("Step failed: " +:+ exn_message err) w2) as (e & He);
      [by rewrite Hdb2, Hdb|by rewrite Hdb2, Hdb|].
    exists e, (tick (draw w2)).
    split; [|split; [by rewrite <- Hdb, <- Hdb2|by rewrite <- Hpub, <- Hpub2]].
    unfold bind at 1. rewrite H2. unfold bind at 1. by rewrite He. }
  unfold runNonManualStep_finish, try_catch. destruct h as [[]|err].
  - unfold runNonManualStep_succeed.
    destruct (updateStepRunStatus_gone (sr_id sr) SUCCEEDED w)
      as (w2 & H2 & Hdb2 & Hpub2); [done|].
    destruct (appendEvent_refused r (sr_id sr) STEP_SUCCEEDED "Step succeeded" w2)
      as (e & He); [by rewrite Hdb2|by rewrite Hdb2|].
    unfold bind at 1. rewrite H2. unfold bind at 1. rewrite He.
    by apply Hcatch.
  - simpl. by apply Hcatch.
Qed.

Lemma execute_resume_gone r pc f w sr :
  pc_step_run pc = Some sr ->
  foreign_keys (db w) = true -> has_step_run (db w) (sr_id sr) = false ->
  db (execute_resume env r pc f w).2 = db w.
Proof.
  intros Hpc Hfk Hgone.
  assert (forall h (k : M Pc),
            db ((runNonManualStep_finish env r sr h >> k) w).2 = db w) as Hfin.
  { intros h k. destruct (runNonManualStep_finish_gone r sr h w Hfk Hgone)
      as (e & w' & H & Hdb & _).
    unfold bind. by rewrite H. }
  destruct pc as [wid| |sr0 ty cfg rest m|sr0 rest m|u me sr0 rest m|rest m| |o];
    try discriminate Hpc; injection Hpc as ->; simpl.
  - destruct ty; [|done|by apply Hfin].
    simpl. destruct (truthy _); [done|by apply Hfin].
  - by apply Hfin.
  - by apply Hfin.
Qed.

(** A task that enters a step has found its step run in the database. *)
Lemma runNonManualStep_start_has r sr w w' :
  foreign_keys (db w) = true ->
  runNonManualStep_start env r sr w = (Ok tt, w') ->
  has_step_run (db w') (sr_id sr) = true.
Proof.
  intros Hfk H. unfold runNonManualStep_start in H.
  rewrite (bind_ok _ _ _ _ _ (eq_trans (updateStepRunStatus_eq env _ _ _)
                                (update_step_run_row_eq _ _ _ _ _))) in H.
  cbn [is_terminal bool_decide decide_rel] in H.
  set (w1 := with_db _ _) in H.
  assert (has_step_run (db w1) (sr_id sr) = has_step_run (db w) (sr_id sr)) as Hsame.
  { subst w1. unfold has_step_run at 1. simpl. apply has_step_run_stamped. }
  destruct (has_step_run (db w1) (sr_id sr)) eqn:Hhas.
  - apply bind_inv in H as ([] & w2 & H2 & H3).
    destruct (appendEvent_cases env r (Some (sr_id sr)) STEP_STARTED
                "Step started" w1) as [Hok|[e He]]; [|congruence].
    rewrite Hok in H2. injection H2 as <-. injection H3 as <-. exact Hhas.
  - exfalso.
    destruct (appendEvent_refused r (sr_id sr) STEP_STARTED "Step started" w1)
      as (e & He); [by subst w1|done|].
    unfold bind at 1 in H. rewrite He in H. discriminate H.
Qed.

Lemma execute_loop_has r m steps : forall w pc w' sr,
  foreign_keys (db w) = true ->
  execute_loop env r m steps w = (Ok pc, w') ->
  pc_step_run pc = Some sr ->
  has_step_run (db w') (sr_id sr) = true.
Proof.
  induction steps as [|s l IH]; intros w pc w' sr Hfk H Hpc; simpl in H.
  - apply bind_inv in H as ([] & w1 & _ & H).
    apply bind_inv in H as ([] & w2 & _ & H).
    apply bind_inv in H as ([] & w3 & _ & H). injection H as <- <-. done.
  - destruct (get_property m (ws_id s)) as [stepRun| |]; [| |by eapply IH].
    2:{ destruct (ws_type s); try discriminate H.
        injection H as <- <-. done. }
    destruct (sr_status stepRun) eqn:Hst; try (by eapply IH).
    + destruct (ws_type s).
      * apply bind_inv in H as ([] & w1 & H1 & H). injection H as <- <-.
        injection Hpc as <-. by eapply runNonManualStep_start_has.
      * apply bind_inv in H as ([] & w1 & H1 & H). injection H as <- <-.
        injection Hpc as <-. by eapply runNonManualStep_start_has.
      * simpl in H. apply bind_inv in H as ([] & w1 & _ & H).
        apply bind_inv in H as ([] & w2 & _ & H). injection H as <- <-. done.
    + destruct (ws_type s).
      * apply bind_inv in H as ([] & w1 & H1 & H). injection H as <- <-.
        injection Hpc as <-. by eapply runNonManualStep_start_has.
      * apply bind_inv in H as ([] & w1 & H1 & H). injection H as <- <-.
        injection Hpc as <-. by eapply runNonManualStep_start_has.
      * simpl in H. injection H as <- <-. done.
    + apply bind_inv in H as ([] & w1 & _ & H).
      apply bind_inv in H as ([] & w2 & _ & H). injection H as <- <-. done.
Qed.

(** After a segment, the step run that the task holds is one it held
    before or one that is in the database. *)
Lemma execute_resume_has r pc f w x w' sr :
  foreign_keys (db w) = true ->
  execute_resume env r pc f w = (x, w') ->
  pc_step_run (settle x) = Some sr ->
  pc_step_run pc = Some sr \/ has_step_run (db w') (sr_id sr) = true.
Proof.
  intros Hfk H Hpc. destruct x as [pc'|e]; [|done]. simpl in Hpc.
  destruct pc as [wid| |sr0 ty cfg rest m|sr0 rest m|u me sr0 rest m|rest m| |o];
    simpl in H.
  - right. unfold bind in H. simpl in H. by eapply execute_loop_has.
  - injection H as <- <-. done.
  - destruct ty.
    + destruct (truthy (get_prop cfg "url")).
      * injection H as <- <-. by left.
      * apply bind_inv in H as ([] & w1 & _ & H). injection H as <- <-. done.
    + injection H as <- <-. by left.
    + apply bind_inv in H as ([] & w1 & _ & H). injection H as <- <-. done.
  - apply bind_inv in H as ([] & w1 & _ & H). injection H as <- <-. done.
  - apply bind_inv in H as ([] & w1 & _ & H). injection H as <- <-. done.
  - right. unfold bind in H. simpl in H.
    destruct (decide _); [injection H as <- <-; done|].
    by eapply execute_loop_has.
  - injection H as <- <-. done.
  - injection H as <- <-. done.
Qed.

End Gone.

(** X16.  A pass whose loop, after steps it goes past, reaches a MANUAL step
    pauses there.  If the step run is PENDING it appends a STEP_STARTED event
    that names the step in its message, publishes the run, and the task
    settles when resumed: the run keeps its status, no step run is written,
    no later step is started.  If the step run is RUNNING the pass returns
    at once and changes nothing. *)
Theorem pass_pauses_at_manual_step (env : Env) (runId : string)
    (stepRunMap : gmap string StepRun) (done : list WorkflowStep)
    (step : WorkflowStep) (rest : list WorkflowStep) (w : World) (sr : StepRun) :
  Forall (passed_over stepRunMap) done ->
  ws_type step = MANUAL ->
  stepRunMap !! ws_id step = Some sr ->
  (sr_status sr = PENDING ->
   event_accepted env w runId (Some (sr_id sr)) ->
   exists w',
     execute_loop env runId stepRunMap (done ++ step :: rest) w
     = (Ok AfterManualPublish, w') /\
     events (db w')
     = events (db w)
       ++ [new_event env w runId (Some (sr_id sr)) STEP_STARTED
             ("Manual step '" +:+ ws_name step +:+ "' awaiting completion")] /\
     workflow_runs (db w') = workflow_runs (db w) /\
     step_runs (db w') = step_runs (db w) /\
     published w' = published w ++ ["runUpdated:" +:+ runId] /\
     forall fetched,
       execute_resume env runId AfterManualPublish fetched w'
       = (Ok (Settled (Ok tt)), w')) /\
  (sr_status sr = RUNNING ->
   execute_loop env runId stepRunMap (done ++ step :: rest) w
   = (Ok (Settled (Ok tt)), w)).
Proof.
  intros Hdone Htype Hsr. split.
  - intros Hpending Hacc. eexists. split.
    + rewrite execute_loop_skips by done. simpl.
      rewrite (proj2 (get_property_own _ _ _) Hsr), Hpending, Htype. simpl.
      rewrite (bind_ok _ _ _ _ _ (appendEvent_ok env _ _ _ _ _ Hacc)).
      reflexivity.
    + done.
  - intros Hrunning. rewrite execute_loop_skips by done. simpl.
    by rewrite (proj2 (get_property_own _ _ _) Hsr), Hrunning, Htype.
Qed.

Lemma pass_pauses_at_manual_step_witness :
  exists w',
    execute_loop env0 "id3"
      (fromEntries (select_step_runs (db started_world) "id3"))
      [first_step; second_step] started_world
    = (Ok AfterManualPublish, w') /\
    map ev_message (events (db w'))
    = ["Run enqueued"; "Run started"; "Manual step 'first' awaiting completion"] /\
    step_runs (db w') = step_runs (db started_world).
Proof.
  eassert (fromEntries (select_step_runs (db started_world) "id3") !! "id1"
           = Some _) as Hsr by (vm_compute; reflexivity).
  destruct (pass_pauses_at_manual_step env0 "id3" _ [] first_step [second_step]
              started_world _ (Forall_nil_2 _) eq_refl Hsr) as [H _].
  destruct H as (w' & H1 & H2 & _ & H4 & _).
  - reflexivity.
  - split; vm_compute; reflexivity.
  - exists w'. split; [exact H1|]. split; [|exact H4].
    rewrite H2. vm_compute. reflexivity.
Defined.

Section HandlerSuccess.

Context (env : Env).

(** The end of the [try] block, when its event is accepted. *)
Lemma runNonManualStep_succeed_ok runId sr w row :
  lookup_step_run (db w) (sr_id sr) = Some row ->
  has_run (db w) runId = true ->
  has_event (db w) (ids env (idDraws w)) = false ->
  exists w',
    runNonManualStep_succeed env runId sr w = (Ok tt, w') /\
    lookup_step_run (db w') (sr_id sr)
    = Some (stamp_step_run SUCCEEDED None (Some (clock env (clockReads w))) row) /\
    workflow_runs (db w') = workflow_runs (db w) /\
    events (db w')
    = events (db w)
      ++ [new_event env (tick w) runId (Some (sr_id sr)) STEP_SUCCEEDED
            "Step succeeded"] /\
    published w' = published w ++ ["runUpdated:" +:+ runId] /\
    same_exec w w'.
Proof.
  intros Hsr Hrun Hfresh. unfold runNonManualStep_succeed.
  rewrite (bind_ok _ _ _ _ _ (eq_trans (updateStepRunStatus_eq env _ _ _)
                                (update_step_run_row_eq _ _ _ _ _))).
  cbn [is_terminal bool_decide decide_rel].
  set (w1 := with_db _ (if bool_decide (SUCCEEDED = PENDING) then w else tick w)).
  assert (event_accepted env w1 runId (Some (sr_id sr))) as Hacc.
  { split; [exact Hfresh|]. unfold fk_ok. subst w1. simpl.
    unfold has_step_run, has_run in *. simpl.
    rewrite has_step_run_stamped, (lookup_step_run_has _ _ _ Hsr), Hrun.
    apply orb_true_r. }
  rewrite (bind_ok _ _ _ _ _ (appendEvent_ok env _ _ _ _ _ Hacc)).
  eexists. split; [reflexivity|]. subst w1. simpl.
  split; [|done].
  unfold lookup_step_run in *. simpl.
  rewrite (find_map_same_key sr_id); [|intros x; by destruct (String.eqb _ _)].
  rewrite Hsr. simpl.
  apply (lookup_step_run_id (db w)) in Hsr. by rewrite Hsr, String.eqb_refl.
Qed.

End HandlerSuccess.

(** X17.  When the handler of an automated step returns (the timer of a
    DELAY step fires; the response of an HTTP step has a status from 200 to
    299 and no other) and the row of the step run is still in the
    database, the task sets the step run to SUCCEEDED with [finishedAt],
    appends STEP_SUCCEEDED for it, publishes the run and leaves the run's
    row alone; resumed again, it goes on with the steps that are left
    unless the run has been set to FAILED in the meantime.  When the row
    has been deleted in the meantime (the DELETE of [updateWorkflow]
    cascades to the step runs), the task writes nothing and publishes
    nothing: with foreign keys enforced, [appendEvent] throws in the [try]
    block and again in the [catch] block, and the exception leaves
    [execute]. *)
Theorem handler_success_completes_the_step (env : Env) (runId : string)
    (pc : Pc) (fetched : Fetched) (w : World) (stepRun : StepRun)
    (rest : list WorkflowStep) (stepRunMap : gmap string StepRun) :
  handler_returns pc fetched stepRun rest stepRunMap ->
  (forall status, response_ok status = true <-> (200 <= status <= 299)%nat) /\
  (forall row run,
     lookup_step_run (db w) (sr_id stepRun) = Some row ->
     lookup_run (db w) runId = Some run ->
     has_event (db w) (ids env (idDraws w)) = false ->
     exists w',
       execute_resume env runId pc fetched w
       = (Ok (AfterStepPublish rest stepRunMap), w') /\
       lookup_step_run (db w') (sr_id stepRun)
       = Some (stamp_step_run SUCCEEDED None (Some (clock env (clockReads w)))
                 row) /\
       lookup_run (db w') runId = Some run /\
       events (db w')
       = events (db w)
         ++ [new_event env (tick w) runId (Some (sr_id stepRun)) STEP_SUCCEEDED
               "Step succeeded"] /\
       published w' = published w ++ ["runUpdated:" +:+ runId] /\
       forall fetched',
         execute_resume env runId (AfterStepPublish rest stepRunMap) fetched' w'
         = if decide (run_status run = FAILED) then (Ok (Settled (Ok tt)), w')
           else execute_loop env runId stepRunMap rest w') /\
  (lookup_step_run (db w) (sr_id stepRun) = None ->
   foreign_keys (db w) = true ->
   exists e w',
     execute_resume env runId pc fetched w = (Throw e, w') /\
     db w' = db w /\ published w' = published w).
Proof.
  intros Hret. split; [|split].
  { intros status. unfold response_ok.
    rewrite andb_true_iff, !Nat.leb_le. done. }
  - intros row run Hrow Hrun Hfresh.
    destruct (runNonManualStep_succeed_ok env runId stepRun w row Hrow
                (lookup_run_has _ _ _ Hrun) Hfresh)
      as (w' & Hcall & Hrow' & Hruns & Hev & Hpub & _).
    assert (lookup_run (db w') runId = Some run) as Hrun'
      by (unfold lookup_run in *; by rewrite Hruns).
    exists w'. split; [|split; [done|split; [done|split; [done|split; [done|]]]]].
    + destruct Hret as [sr rest' m f|u me sr rest' m status Hok]; simpl.
      * unfold bind, runNonManualStep_finish, try_catch. by rewrite Hcall.
      * rewrite Hok. unfold bind, runNonManualStep_finish, try_catch.
        by rewrite Hcall.
    + intros fetched'. simpl. unfold bind. simpl. rewrite Hrun'. simpl.
      destruct (run_status run); by repeat case_decide.
  - intros Hgone%lookup_step_run_gone Hfk.
    destruct (runNonManualStep_finish_gone env runId stepRun (Ok tt) w Hfk Hgone)
      as (e & w' & Hcall & Hdb & Hpub).
    exists e, w'. split; [|done].
    destruct Hret as [sr rest' m f|u me sr rest' m status Hok]; simpl.
    + unfold bind. by rewrite Hcall.
    + rewrite Hok. unfold bind. by rewrite Hcall.
Qed.

Lemma handler_success_completes_the_step_witness :
  (exists w',
     execute_resume env0 "id2" fetching_pc (FetchResponse 204) fetching_world
     = (Ok (AfterStepPublish [] (fromEntries [read_step_run])), w') /\
     sr_status <$> lookup_step_run (db w') "id3" = Some SUCCEEDED /\
     execute_resume env0 "id2" (AfterStepPublish [] (fromEntries [read_step_run]))
       (FetchResponse 204) w'
     = execute_loop env0 "id2" (fromEntries [read_step_run]) [] w') /\
  (exists e w',
     execute_resume env0 "id2" fetching_pc (FetchResponse 204) rewritten_world
     = (Throw e, w') /\
     events (db w') = events (db rewritten_world) /\
     run_status <$> lookup_run (db w') "id2" = Some RUNNING).
Proof.
  split.
  - eassert (lookup_step_run (db fetching_world) "id3" = Some _) as Hrow
      by (vm_compute; reflexivity).
    destruct (handler_success_completes_the_step env0 "id2" fetching_pc
                (FetchResponse 204) fetching_world read_step_run []
                (fromEntries [read_step_run])
                (status_2xx _ _ _ _ _ 204%nat eq_refl))
      as (_ & H & _).
    destruct (H _ running_run Hrow) as (w' & H1 & H2 & _ & _ & _ & H6).
    + vm_compute. reflexivity.
    + vm_compute. reflexivity.
    + exists w'. split; [exact H1|].
      split; [exact (f_equal (fmap sr_status) H2)|]. by rewrite H6.
  - destruct (handler_success_completes_the_step env0 "id2" fetching_pc
                (FetchResponse 204) rewritten_world read_step_run []
                (fromEntries [read_step_run])
                (status_2xx _ _ _ _ _ 204%nat eq_refl))
      as (_ & _ & H).
    destruct H as (e & w' & H1 & H2 & _).
    + vm_compute. reflexivity.
    + vm_compute. reflexivity.
    + exists e, w'. split; [exact H1|]. rewrite H2.
      split; [reflexivity|]. vm_compute. reflexivity.
Defined.

(** X18.  [completeManualStep] with [success = false] on a step run that is
    PENDING or RUNNING fails the step and its run: the step run becomes
    FAILED with [finishedAt], STEP_FAILED "Manual step failed" is appended,
    the run becomes FAILED with [finishedAt], RUN_FAILED "Run failed by
    manual step" is appended, the run is published twice, and the step run
    is returned as stored.  No pass is enqueued, and a task of the run that
    is waiting is left as it is. *)
Theorem completeManualStep_failure_fails_the_run (env : Env)
    (stepRunId : string) (w : World) (sr : StepRun) (run : WorkflowRun) :
  lookup_step_run (db w) stepRunId = Some sr ->
  is_terminal (sr_status sr) = false ->
  lookup_run (db w) (sr_workflowRunId sr) = Some run ->
  has_event (db w) (ids env (idDraws w)) = false ->
  has_event (db w) (ids env (S (idDraws w))) = false ->
  ids env (idDraws w) <> ids env (S (idDraws w)) ->
  let sr' := stamp_step_run FAILED None (Some (clock env (clockReads w))) sr in
  exists w',
    completeManualStep env stepRunId false w = (Ok (Some sr'), w') /\
    lookup_step_run (db w') stepRunId = Some sr' /\
    lookup_run (db w') (sr_workflowRunId sr)
    = Some (stamp_run FAILED None (Some (clock env (2 + clockReads w))) run) /\
    events (db w')
    = events (db w)
      ++ [ {| ev_id := ids env (idDraws w);
              ev_workflowRunId := sr_workflowRunId sr;
              ev_stepRunId := Some stepRunId; ev_type := STEP_FAILED;
              ev_message := "Manual step failed";
              ev_createdAt := clock env (1 + clockReads w) |};
           {| ev_id := ids env (S (idDraws w));
              ev_workflowRunId := sr_workflowRunId sr;
              ev_stepRunId := None; ev_type := RUN_FAILED;
              ev_message := "Run failed by manual step";
              ev_createdAt := clock env (3 + clockReads w) |} ] /\
    published w'
    = published w ++ ["runUpdated:" +:+ sr_workflowRunId sr;
                      "runUpdated:" +:+ sr_workflowRunId sr] /\
    same_exec w w'.
Proof.
  intros Hsr Hterm Hrun Hf1 Hf2 Hne sr'.
  pose proof (lookup_step_run_id _ _ _ Hsr) as Hid.
  pose proof (lookup_run_id _ _ _ Hrun) as Hrid.
  unfold completeManualStep. unfold bind at 1. simpl. rewrite Hsr, Hterm.
  unfold completeManualStep_record, completeManualStep_fail.
  rewrite (bind_ok (_ >> _) _ w tt
             (with_published
                (published w ++ ["runUpdated:" +:+ sr_workflowRunId sr])
                (with_db
                   (set_events
                      (events (db w)
                       ++ [new_event env (tick w) (sr_workflowRunId sr)
                             (Some stepRunId) STEP_FAILED "Manual step failed"])
                      (set_step_runs
                         (map (fun r => if String.eqb (sr_id r) stepRunId
                                        then stamp_step_run FAILED None
                                               (Some (clock env (clockReads w))) r
                                        else r) (step_runs (db w))) (db w)))
                   (tick (draw (tick w)))))).
  2:{ rewrite (bind_ok _ _ _ _ _ (eq_trans (updateStepRunStatus_eq env _ _ _)
                                    (update_step_run_row_eq _ _ _ _ _))).
      cbn [is_terminal bool_decide decide_rel].
      set (w1 := with_db _ (if bool_decide (FAILED = PENDING) then w else tick w)).
      assert (event_accepted env w1 (sr_workflowRunId sr) (Some stepRunId)) as Hacc.
      { split; [exact Hf1|]. unfold fk_ok. subst w1. simpl.
        unfold has_step_run. simpl.
        rewrite has_step_run_stamped, (lookup_step_run_has _ _ _ Hsr).
        unfold has_run. simpl. fold (has_run (db w) (sr_workflowRunId sr)).
        rewrite (lookup_run_has _ _ _ Hrun). apply orb_true_r. }
      rewrite (bind_ok _ _ _ _ _ (appendEvent_ok env _ _ _ _ _ Hacc)).
      reflexivity. }
  cbn [negb].
  set (w2 := with_published _ _). unfold bind at 1.
  rewrite (bind_ok _ _ _ _ _ (eq_trans (updateRunStatus_eq env _ _ _)
                                (update_run_row_eq _ _ _ _ _))).
  cbn [is_terminal bool_decide decide_rel].
  set (w3 := with_db _ (if bool_decide (FAILED = PENDING) then w2 else tick w2)).
  assert (event_accepted env w3 (sr_workflowRunId sr) None) as Hacc2.
  { split.
    - subst w3 w2. simpl. unfold has_event. simpl.
      rewrite existsb_app. simpl.
      fold (has_event (db w) (ids env (S (idDraws w)))). rewrite Hf2. simpl.
      rewrite orb_false_r. by apply String.eqb_neq.
    - unfold fk_ok. subst w3 w2. simpl. unfold has_run. simpl.
      rewrite has_run_stamped.
      fold (has_run (db w) (sr_workflowRunId sr)).
      rewrite (lookup_run_has _ _ _ Hrun). apply orb_true_r. }
  rewrite (bind_ok _ _ _ _ _ (appendEvent_ok env _ _ _ _ _ Hacc2)).
  cbn [publishRun]. set (w4 := with_published _ _).
  assert (lookup_step_run (db w4) stepRunId = Some sr') as Hl4.
  { subst w4 w3 w2. unfold lookup_step_run in *. simpl.
    rewrite (find_map_same_key sr_id); [|intros x; by destruct (String.eqb _ _)].
    rewrite Hsr. simpl. by rewrite Hid, String.eqb_refl. }
  exists w4. split.
  { unfold getStepRunById, bind, get_db, ret. by rewrite Hl4. }
  split; [exact Hl4|]. subst w4 w3 w2. simpl. split; [|split; [|split]].
  - unfold lookup_run in *. simpl.
    rewrite (find_map_same_key run_id); [|intros x; by destruct (String.eqb _ _)].
    rewrite Hrun. simpl. by rewrite Hrid, String.eqb_refl.
  - by rewrite <- app_assoc.
  - by rewrite <- app_assoc.
  - done.
Qed.

Lemma completeManualStep_failure_fails_the_run_witness :
  exists w',
    completeManualStep env0 "id5" false paused_world
    = (Ok (Some (stamp_step_run FAILED None (Some 1006)
                   (pending_step_run "id5" "id2"))), w') /\
    lookup_run (db w') "id3" = Some failed_run /\
    tasks w' = tasks paused_world /\
    activeRuns w' = activeRuns paused_world.
Proof.
  destruct (completeManualStep_failure_fails_the_run env0 "id5" paused_world
              (pending_step_run "id5" "id2") paused_run)
    as (w' & H1 & _ & H3 & _ & _ & Hact & Htasks).
  - vm_compute. reflexivity.
  - reflexivity.
  - vm_compute. reflexivity.
  - vm_compute. reflexivity.
  - vm_compute. reflexivity.
  - vm_compute. discriminate.
  - exists w'. split; [rewrite H1; vm_compute; reflexivity|].
    split; [|by split].
    etransitivity; [exact H3|]. vm_compute. reflexivity.
Defined.

(** * The resolvers: [startRun] *)

#[global] Instance only_step_runs_differ_preorder : PreOrder only_step_runs_differ.
Proof.
  split.
  - by intros d.
  - intros d1 d2 d3 (A1 & A2 & A3 & A4 & A5) (B1 & B2 & B3 & B4 & B5).
    unfold only_step_runs_differ. repeat split; congruence.
Qed.

Lemma only_step_runs_insert_step_run r :
  stable (on_db only_step_runs_differ) (insert_step_run r).
Proof.
  intros w. unfold insert_step_run, bind, on_db. simpl.
  destruct (has_step_run _ _); [reflexivity|]. destruct (negb _); [reflexivity|].
  by repeat split.
Qed.

Lemma has_workflow_lookup d id :
  has_workflow d id = true -> exists row, lookup_workflow d id = Some row.
Proof.
  unfold has_workflow, lookup_workflow. intros (r & Hin & Heq)%existsb_exists.
  destruct (List.find _ (workflows d)) as [row|] eqn:E; [by exists row|].
  by rewrite (find_none _ _ E r Hin) in Heq.
Qed.

Section StartRun.

Context (env : Env).

(** What a call of [createRun] that returns has done. *)
Lemma createRun_inv workflowId w run w1 :
  createRun env workflowId w = (Ok run, w1) ->
  run = new_run env w workflowId /\
  has_run (db w) (run_id run) = false /\
  fk_ok (db w) (has_workflow (db w) workflowId) = true /\
  lookup_run (db w1) (run_id run) = Some run /\
  workflows (db w1) = workflows (db w) /\
  foreign_keys (db w1) = foreign_keys (db w) /\
  workflow_runs (db w1) = workflow_runs (db w) ++ [run] /\
  events (db w1) = events (db w) /\
  same_exec w w1.
Proof.
  intros Hcall.
  pose proof (same_exec_createRun env workflowId w) as Hex.
  rewrite Hcall in Hex. revert Hcall.
  unfold createRun. unfold bind at 1. simpl. unfold bind at 1. simpl.
  intros (u & wa & Hins & Hrest)%bind_inv.
  unfold insert_run, bind in Hins. simpl in Hins.
  destruct (has_run (db w) (ids env (idDraws w))) eqn:Hfresh; [done|].
  destruct (fk_ok (db w) (has_workflow (db w) workflowId)) eqn:Hfk; [|done].
  simpl in Hins. injection Hins as _ <-.
  apply bind_inv in Hrest as (steps & wb & Hsteps & Hrest).
  injection Hsteps as <- <-.
  apply bind_inv in Hrest as (u2 & wc & Htx & Hget).
  apply transaction_ok in Htx.
  match type of Htx with forEach ?f ?l ?w0 = _ =>
    assert (stable (on_db only_step_runs_differ) (forEach f l)) as Hst
      by (pose proof only_step_runs_insert_step_run; stable_tac);
    specialize (Hst w0)
  end.
  rewrite Htx in Hst. destruct Hst as (Hfk' & Hwf & _ & Hruns & Hev).
  simpl in Hfk', Hwf, Hruns, Hev.
  apply bind_inv in Hget as (o & wd & Hget & Hret).
  unfold getRun, bind in Hget. simpl in Hget. injection Hget as <- <-.
  assert (lookup_run (db wc) (ids env (idDraws w))
          = Some (new_run env w workflowId)) as Hlook.
  { unfold lookup_run. rewrite Hruns.
    apply find_app_new; [exact Hfresh|apply String.eqb_refl]. }
  rewrite Hlook in Hret. injection Hret as <- <-.
  repeat split; try done; apply Hex.
Qed.

End StartRun.

(** X19.  [startRun] for a workflow that does not exist, in any state the
    engine reaches: [createRun] throws at its INSERT (FOREIGN KEY), the
    resolver replies with that error, and no run, no step run and no event
    is written and no pass is enqueued. *)
Theorem startRun_unknown_workflow (env : Env) (actions : list Action)
    (workflowId : string) :
  let w := run_actions env actions empty_world in
  has_workflow (db w) workflowId = false ->
  exists e w',
    startRun_start env workflowId w = (Throw e, w') /\
    db w' = db w /\ same_exec w w' /\
    step env (CallStartRun workflowId) w
    = with_requests (requests w' ++ [Replied (Throw e)]) w'.
Proof.
  intros w Hnone.
  destruct (createRun_unknown_workflow env workflowId w
              (foreign_keys_on env actions) Hnone)
    as (e & w' & Hcall & Hdb & Hex).
  assert (startRun_start env workflowId w = (Throw e, w')) as E
    by (unfold startRun_start, bind; by rewrite Hcall).
  exists e, w'. split; [exact E|]. split; [exact Hdb|]. split; [exact Hex|].
  simpl. by rewrite E.
Qed.

Lemma startRun_unknown_workflow_witness :
  exists e w',
    startRun_start env0 "nope" started_world = (Throw e, w') /\
    db w' = db started_world /\ tasks w' = tasks started_world.
Proof.
  destruct (startRun_unknown_workflow env0
              [CallCreateWorkflow "two approvals" None
                 [manual_step "first" 0; manual_step "second" 1];
               CallStartRun "id0"] "nope")
    as (e & w' & H1 & H2 & [_ H3] & _).
  - vm_compute. reflexivity.
  - exists e, w'. split; [exact H1|]. split; [exact H2|exact H3].
Defined.

(** X20.  The reply of [startRun] is the run as [createRun] returned it: it
    says PENDING, without [startedAt], although the pass that [enqueueRun]
    started inside the call has already set the run to RUNNING with
    [startedAt] in the Store; the step runs and events of the reply are
    read after that. *)
Theorem startRun_reply_is_stale (env : Env) (workflowId : string) (w : World)
    (run : WorkflowRun) (w' : World) :
  foreign_keys (db w) = true ->
  ids env (idDraws w) ∉ activeRuns w ->
  startRun_start env workflowId w = (Ok (StartAfterEnqueue run), w') ->
  run_status run = PENDING /\ run_startedAt run = None /\
  request_resume env (StartAfterEnqueue run) w'
  = (Ok (Replied (Ok (RunResponse run
                        (select_step_runs (db w') (run_id run))
                        (select_events (db w') (run_id run))))), w') /\
  exists run',
    lookup_run (db w') (run_id run) = Some run' /\
    run_status run' = RUNNING /\ run_startedAt run' <> None.
Proof.
  intros Hfk Hidle Hcall.
  unfold startRun_start in Hcall.
  apply bind_inv in Hcall as (run0 & w1 & Hcreate & Hrest).
  apply bind_inv in Hrest as (u1 & w2 & Hevent & Hrest).
  apply bind_inv in Hrest as (u2 & w3 & Henq & Hret).
  injection Hret as <- <-.
  apply createRun_inv in Hcreate
    as (-> & Hfresh & Hfkok & Hlook & Hwf & Hfk1 & Hruns & _ & Hex).
  split; [done|]. split; [done|]. split; [done|].
  simpl run_id in *.
  (* the event "Run enqueued" *)
  assert (workflow_runs (db w2) = workflow_runs (db w1) /\
          workflows (db w2) = workflows (db w1) /\
          activeRuns w2 = activeRuns w1) as (Hruns2 & Hwf2 & Hact2).
  { destruct (appendEvent_cases env (ids env (idDraws w)) None RUN_STARTED
                "Run enqueued" w1) as [E|[e E]];
      rewrite E in Hevent; [|done].
    apply (f_equal snd) in Hevent. simpl in Hevent. by subst w2. }
  (* the pass that [enqueueRun] starts *)
  unfold enqueueRun in Henq.
  destruct (decide (ids env (idDraws w) ∈ activeRuns w2)) as [Hin|_].
  { exfalso. apply Hidle. destruct Hex as [Hact _]. by rewrite <- Hact, <- Hact2. }
  set (wa := with_activeRuns _ w2) in Henq.
  assert (lookup_run (db wa) (ids env (idDraws w))
          = Some (new_run env w workflowId)) as Hlook2
    by (unfold lookup_run in *; subst wa; simpl; by rewrite Hruns2).
  destruct (has_workflow_lookup (db wa) workflowId) as [row Hrow].
  { unfold has_workflow. subst wa. simpl. rewrite Hwf2, Hwf.
    unfold fk_ok in Hfkok. rewrite Hfk in Hfkok. exact Hfkok. }
  assert (exists r wb,
            execute_start env (ids env (idDraws w)) wa = (r, wb) /\
            workflow_runs (db wb)
            = map (fun r => if String.eqb (run_id r) (ids env (idDraws w))
                            then stamp_run RUNNING
                                   (Some (clock env (clockReads wa))) None r
                            else r) (workflow_runs (db wa))) as (r & wb & Hst & Hrunsb).
  { unfold execute_start.
    rewrite (bind_ok (getRun _) _ wa (Some (new_run env w workflowId)) wa)
      by (change (getRun (ids env (idDraws w)) wa)
            with (Ok (lookup_run (db wa) (ids env (idDraws w))), wa);
          by rewrite Hlook2).
    cbn [run_workflowId new_run].
    rewrite (bind_ok _ _ _ _ _ (getWorkflow_found _ _ _ Hrow)).
    rewrite (bind_ok _ _ _ _ _ (eq_trans (updateRunStatus_eq env _ _ _)
                                  (update_run_row_eq _ _ _ _ _))).
    cbn [is_terminal bool_decide decide_rel].
    set (wr := with_db _ _).
    unfold bind at 1.
    destruct (appendEvent_cases env (ids env (idDraws w)) None RUN_STARTED
                "Run started" wr) as [E|[e E]]; rewrite E.
    - eexists _, _. split; [reflexivity|]. by subst wr.
    - eexists _, _. split; [reflexivity|]. by subst wr. }
  rewrite Hst in Henq. apply (f_equal snd) in Henq. simpl in Henq. subst w3.
  eexists. split.
  { unfold lookup_run in *. simpl. rewrite Hrunsb.
    rewrite (find_map_same_key run_id); [|intros x; by destruct (String.eqb _ _)].
    rewrite Hlook2. simpl. rewrite String.eqb_refl. reflexivity. }
  by split.
Qed.

Lemma startRun_reply_is_stale_witness :
  exists run w',
    startRun_start env0 "id0" created_world = (Ok (StartAfterEnqueue run), w') /\
    run_status run = PENDING /\
    run_status <$> lookup_run (db w') (run_id run) = Some RUNNING.
Proof.
  eassert (startRun_start env0 "id0" created_world
           = (Ok (StartAfterEnqueue _), _)) as E by (vm_compute; reflexivity).
  assert (ids env0 (idDraws created_world) ∉ activeRuns created_world) as Hidle
    by (apply (bool_decide_unpack _); vm_compute; exact I).
  pose proof (startRun_reply_is_stale env0 "id0" created_world _ _ eq_refl
                Hidle E) as (H1 & _ & _ & run' & H4 & H5 & _).
  eexists _, _. split; [exact E|]. split; [exact H1|].
  rewrite H4. cbn [fmap option_fmap option_map]. by rewrite H5.
Defined.

(** * The web client: the run graph *)

Lemma omap_id_Some {A} (l : list A) : omap id (Some <$> l) = l.
Proof. induction l as [|x l IH]; csimpl; [done|]. by rewrite IH. Qed.

Lemma all_but_last_lookup {A} (l : list A) i x :
  all_but_last l !! i = Some x ->
  l !! i = Some x /\ exists y, l !! S i = Some y.
Proof.
  unfold all_but_last. intros [Hx Hi]%lookup_take_Some. split; [done|].
  apply lookup_lt_is_Some_2. lia.
Qed.

(** X21.  [RunGraph] draws the steps as a chain: one node per step, in the
    order of the list and 180 apart, one edge fewer than nodes (none for an
    empty list), and the i-th edge goes from the i-th node to the next. *)
Theorem run_graph_is_a_chain (steps : list StepInput) (stepRuns : list StepRun) :
  length (graph_nodes steps stepRuns) = length steps /\
  length (graph_edges steps) = (length steps - 1)%nat /\
  forall i e,
    graph_edges steps !! i = Some e ->
    exists a b,
      graph_nodes steps stepRuns !! i = Some a /\
      graph_nodes steps stepRuns !! S i = Some b /\
      edge_source e = node_id a /\ edge_target e = node_id b /\
      node_x b = (node_x a + 180)%Z.
Proof.
  set (edge := fun idx step =>
         {| edge_id := "e-" +:+ id_text step +:+ "-"
                       +:+ id_text (default step (steps !! S idx));
            edge_source := default (pretty idx) (si_id step);
            edge_target := default (pretty (S idx))
                             (si_id (default step (steps !! S idx))) |}).
  assert (graph_edges steps = imap edge (all_but_last steps)) as E.
  { unfold graph_edges. rewrite <- (omap_id_Some (imap edge _)). f_equal.
    rewrite fmap_imap. apply imap_ext. intros i x Hx. simpl.
    apply all_but_last_lookup in Hx as [_ [y Hy]]. unfold edge.
    by rewrite Hy. }
  split; [apply length_imap|]. split.
  - rewrite E, length_imap. unfold all_but_last. rewrite length_take. lia.
  - intros i e. rewrite E, list_lookup_imap.
    destruct (all_but_last steps !! i) as [s|] eqn:Hs; [|done].
    intros [= <-]. apply all_but_last_lookup in Hs as [Hs [n Hn]].
    unfold graph_nodes. rewrite !list_lookup_imap, Hs, Hn. simpl.
    eexists _, _. split; [reflexivity|]. split; [reflexivity|]. simpl.
    rewrite Hn. simpl. split; [done|]. split; [done|]. lia.
Qed.

(** * The consistency of the database *)

#[global] Instance keeps_consistent_preorder : PreOrder keeps_consistent.
Proof.
  split.
  - intros d H. exact H.
  - intros d1 d2 d3 H1 H2 H. by apply H2, H1.
Qed.

Lemma existsb_key {A} (key : A -> string) (l : list A) id :
  existsb (fun r => String.eqb (key r) id) l = true <-> id ∈ map key l.
Proof.
  rewrite existsb_exists, list_elem_of_In, in_map_iff.
  split; intros (r & H1 & H2); exists r.
  - by apply String.eqb_eq in H2.
  - split; [done|by apply String.eqb_eq].
Qed.

Lemma existsb_key_false {A} (key : A -> string) (l : list A) id :
  existsb (fun r => String.eqb (key r) id) l = false <-> id ∉ map key l.
Proof. rewrite <- existsb_key. by destruct (existsb _ l). Qed.

Lemma existsb_key_elem {A} (key : A -> string) (l : list A) r :
  r ∈ l -> existsb (fun x => String.eqb (key x) (key r)) l = true.
Proof.
  intros Hr. apply existsb_key, list_elem_of_In, in_map.
  by apply list_elem_of_In.
Qed.

Lemma existsb_key_app {A} (key : A -> string) (l k : list A) id :
  existsb (fun r => String.eqb (key r) id) l = true ->
  existsb (fun r => String.eqb (key r) id) (l ++ k) = true.
Proof. intros H. by rewrite existsb_app, H. Qed.

Lemma NoDup_map_snoc {A} (key : A -> string) (l : list A) x :
  NoDup (map key l) ->
  existsb (fun r => String.eqb (key r) (key x)) l = false ->
  NoDup (map key (l ++ [x])).
Proof.
  intros Hnd Hfresh. rewrite map_app. simpl.
  apply NoDup_app. split; [done|]. split; [|apply NoDup_singleton].
  intros y Hy ->%list_elem_of_singleton. by apply existsb_key_false in Hfresh.
Qed.

Lemma NoDup_map_filter {A B} (f : A -> B) (p : A -> bool) (l : list A) :
  NoDup (map f l) -> NoDup (map f (List.filter p l)).
Proof.
  induction l as [|x l IH]; simpl; [done|].
  intros [Hx Hnd]%NoDup_cons. destruct (p x); simpl; [|by apply IH].
  apply NoDup_cons. split; [|by apply IH].
  intros Hin. apply Hx. apply list_elem_of_In, in_map_iff in Hin.
  destruct Hin as (y & Hy & Hin). apply filter_In in Hin as [Hin _].
  apply list_elem_of_In, in_map_iff. by exists y.
Qed.

Lemma find_app_old {A} (p : A -> bool) l k :
  existsb p l = true -> List.find p (l ++ k) = List.find p l.
Proof.
  induction l as [|y l IH]; simpl; [done|].
  destruct (p y); [done|]. simpl. apply IH.
Qed.

Lemma map_same_key {A} (key : A -> string) (f : A -> A) (l : list A) :
  (forall x, key (f x) = key x) -> map key (map f l) = map key l.
Proof. intros H. rewrite map_map. apply map_ext. intros x. apply H. Qed.

Lemma elem_of_map_inv {A} (f : A -> A) (l : list A) y :
  y ∈ map f l -> exists x, x ∈ l /\ y = f x.
Proof.
  intros Hy. apply list_elem_of_In, in_map_iff in Hy as (x & <- & Hx).
  exists x. split; [by apply list_elem_of_In|done].
Qed.

Lemma elem_of_map_inv' {A} (f : A -> string) (l : list A) y :
  y ∈ map f l -> exists x, x ∈ l /\ f x = y.
Proof.
  intros Hy. apply list_elem_of_In, in_map_iff in Hy as (x & <- & Hx).
  exists x. split; [by apply list_elem_of_In|done].
Qed.

Lemma elem_of_filter_inv {A} (p : A -> bool) (l : list A) x :
  x ∈ List.filter p l -> x ∈ l /\ p x = true.
Proof.
  intros Hx. apply list_elem_of_In, filter_In in Hx as [Hx Hp].
  split; [by apply list_elem_of_In|done].
Qed.

Lemma filter_map_same {A} (p : A -> bool) (f : A -> A) (l : list A) :
  (forall x, p (f x) = p x) ->
  List.filter p (map f l) = map f (List.filter p l).
Proof.
  intros H. induction l as [|x l IH]; simpl; [done|].
  rewrite H. destruct (p x); simpl; by rewrite IH.
Qed.

Section Consistency.

Context (env : Env).

Lemma consistent_insert_workflow r :
  stable (on_db keeps_consistent) (insert_workflow r).
Proof.
  intros w. unfold insert_workflow, bind, on_db. simpl.
  destruct (has_workflow (db w) (wf_id r)) eqn:Hfresh; [reflexivity|]. simpl.
  intros (Hfk & (U1 & U2 & U3 & U4 & U5) & (R1 & R2 & R3 & R4) & F).
  split; [done|]. split; [|split; [|done]].
  - split; [|done]. by apply NoDup_map_snoc.
  - split; [|split; [|done]]; intros x Hx; unfold has_workflow; simpl;
      apply existsb_key_app; [by apply R1|by apply R2].
Qed.

Lemma consistent_insert_step r :
  stable (on_db keeps_consistent) (insert_step r).
Proof.
  intros w. unfold insert_step, bind, on_db. simpl.
  destruct (has_step (db w) (row_id r)) eqn:Hfresh; [reflexivity|].
  destruct (negb _) eqn:Hfkok; [reflexivity|]. simpl.
  intros (Hfk & (U1 & U2 & U3 & U4 & U5) & (R1 & R2 & R3 & R4) & (F1 & F2)).
  apply negb_false_iff in Hfkok. unfold fk_ok in Hfkok. rewrite Hfk in Hfkok.
  split; [done|]. split; [|split].
  - split; [done|]. split; [|done]. by apply NoDup_map_snoc.
  - split; [|split; [done|split; [|done]]].
    + intros x [Hx| ->%list_elem_of_singleton]%elem_of_app; [by apply R1|done].
    + intros x Hx. destruct (R3 x Hx) as [Ha Hb]. split; [done|].
      unfold has_step. simpl. by apply existsb_key_app.
  - split; [|done]. intros sr Hsr.
    destruct (F1 sr Hsr) as (run & row & Hrun & Hrow & Hid & Hwf).
    exists run, row. split; [done|]. split; [|done]. simpl.
    apply elem_of_app. by left.
Qed.

Lemma consistent_insert_run r :
  stable (on_db keeps_consistent) (insert_run r).
Proof.
  intros w. unfold insert_run, bind, on_db. simpl.
  destruct (has_run (db w) (run_id r)) eqn:Hfresh; [reflexivity|].
  destruct (negb _) eqn:Hfkok; [reflexivity|]. simpl.
  intros (Hfk & (U1 & U2 & U3 & U4 & U5) & (R1 & R2 & R3 & R4) & (F1 & F2)).
  apply negb_false_iff in Hfkok. unfold fk_ok in Hfkok. rewrite Hfk in Hfkok.
  split; [done|]. split; [|split].
  - split; [done|]. split; [done|]. split; [|done]. by apply NoDup_map_snoc.
  - split; [done|]. split; [|split].
    + intros x [Hx| ->%list_elem_of_singleton]%elem_of_app; [by apply R2|done].
    + intros x Hx. destruct (R3 x Hx) as [Ha Hb]. split; [|done].
      unfold has_run. simpl. by apply existsb_key_app.
    + intros e He. destruct (R4 e He) as [Ha Hb]. split; [|done].
      unfold has_run. simpl. by apply existsb_key_app.
  - split; [|done]. intros sr Hsr.
    destruct (F1 sr Hsr) as (run & row & Hrun & Hrow & Hid & Hwf).
    exists run, row. split; [|done]. unfold lookup_run in *. simpl.
    rewrite find_app_old; [done|]. by apply R3.
Qed.

Lemma consistent_insert_event r :
  stable (on_db keeps_consistent) (insert_event r).
Proof.
  intros w. unfold insert_event, bind, on_db. simpl.
  destruct (has_event (db w) (ev_id r)) eqn:Hfresh; [reflexivity|].
  destruct (negb _) eqn:Hfkok; [reflexivity|]. simpl.
  intros (Hfk & (U1 & U2 & U3 & U4 & U5) & (R1 & R2 & R3 & R4) & (F1 & F2)).
  apply negb_false_iff in Hfkok. unfold fk_ok in Hfkok. rewrite Hfk in Hfkok.
  simpl in Hfkok. apply andb_true_iff in Hfkok as [Hrun Hsr].
  split; [done|]. split; [|split; [|done]].
  - do 4 (split; [done|]). by apply NoDup_map_snoc.
  - split; [done|]. split; [done|]. split; [done|].
    intros e [He| ->%list_elem_of_singleton]%elem_of_app; [by apply R4|].
    split; [done|]. intros s Hs. by rewrite Hs in Hsr.
Qed.

Lemma consistent_update_workflow_row i n d :
  stable (on_db keeps_consistent) (update_workflow_row i n d).
Proof.
  intros w. unfold on_db. simpl.
  intros (Hfk & (U1 & U2 & U3 & U4 & U5) & (R1 & R2 & R3 & R4) & F).
  assert (forall id, has_workflow
                       (set_workflows
                          (map (fun r => if String.eqb (wf_id r) i
                                         then {| wf_id := wf_id r; wf_name := n;
                                                 wf_description := d;
                                                 wf_createdAt := wf_createdAt r |}
                                         else r) (workflows (db w))) (db w)) id
                     = has_workflow (db w) id) as Hsame.
  { intros id. apply (existsb_map_same_key wf_id).
    intros x. by destruct (String.eqb _ _). }
  split; [done|]. split; [|split; [|done]].
  - split; [|done]. simpl. rewrite map_same_key; [done|].
    intros x. by destruct (String.eqb _ _).
  - split; [|split; [|done]]; intros x Hx; rewrite Hsame; [by apply R1|by apply R2].
Qed.

Lemma consistent_update_run_row i s a b :
  stable (on_db keeps_consistent) (update_run_row i s a b).
Proof.
  intros w. unfold on_db. simpl.
  intros (Hfk & (U1 & U2 & U3 & U4 & U5) & (R1 & R2 & R3 & R4) & (F1 & F2)).
  set (f := fun r => if String.eqb (run_id r) i then stamp_run s a b r else r).
  assert (forall x, run_id (f x) = run_id x) as Hkey
    by (intros x; unfold f; by destruct (String.eqb _ _)).
  assert (forall x, run_workflowId (f x) = run_workflowId x) as Hwf
    by (intros x; unfold f; by destruct (String.eqb _ _)).
  assert (forall id, has_run (set_workflow_runs (map f (workflow_runs (db w)))
                                (db w)) id = has_run (db w) id) as Hsame
    by (intros id; by apply (existsb_map_same_key run_id)).
  split; [done|]. split; [|split].
  - split; [done|]. split; [done|]. split; [|done]. simpl.
    by rewrite map_same_key.
  - split; [done|]. split; [|split].
    + intros x (y & Hy & ->)%elem_of_map_inv. rewrite Hwf. by apply R2.
    + intros x Hx. rewrite Hsame. by apply R3.
    + intros e He. rewrite Hsame. by apply R4.
  - split; [|done]. intros sr Hsr.
    destruct (F1 sr Hsr) as (run & row & Hrun & Hrow & Hid & Hw).
    exists (f run), row. split; [|by rewrite Hwf].
    unfold lookup_run in *. simpl.
    rewrite (find_map_same_key run_id) by done. by rewrite Hrun.
Qed.

Lemma consistent_update_step_run_row i s a b :
  stable (on_db keeps_consistent) (update_step_run_row i s a b).
Proof.
  intros w. unfold on_db. simpl.
  intros (Hfk & (U1 & U2 & U3 & U4 & U5) & (R1 & R2 & R3 & R4) & (F1 & F2)).
  set (f := fun r => if String.eqb (sr_id r) i then stamp_step_run s a b r else r).
  assert (forall x, sr_id (f x) = sr_id x) as Hkey
    by (intros x; unfold f; by destruct (String.eqb _ _)).
  assert (forall x, sr_workflowRunId (f x) = sr_workflowRunId x) as Hrun
    by (intros x; unfold f; by destruct (String.eqb _ _)).
  assert (forall x, sr_workflowStepId (f x) = sr_workflowStepId x) as Hstep
    by (intros x; unfold f; by destruct (String.eqb _ _)).
  assert (forall id, has_step_run (set_step_runs (map f (step_runs (db w)))
                                     (db w)) id = has_step_run (db w) id) as Hsame
    by (intros id; by apply (existsb_map_same_key sr_id)).
  split; [done|]. split; [|split].
  - do 3 (split; [done|]). split; [|done]. simpl. by rewrite map_same_key.
  - split; [done|]. split; [done|]. split.
    + intros x (y & Hy & ->)%elem_of_map_inv. rewrite Hrun, Hstep. by apply R3.
    + intros e He. destruct (R4 e He) as [Ha Hb]. split; [done|].
      intros x Hx. rewrite Hsame. by apply Hb.
  - split.
    + intros x (y & Hy & ->)%elem_of_map_inv. rewrite Hrun, Hstep. by apply F1.
    + intros runId. specialize (F2 runId). unfold select_step_runs in *. simpl.
      assert (List.filter (fun r => String.eqb (sr_workflowRunId r) runId)
                (map f (step_runs (db w)))
              = map f (List.filter
                         (fun r => String.eqb (sr_workflowRunId r) runId)
                         (step_runs (db w)))) as ->.
      { apply filter_map_same. intros x. by rewrite Hrun. }
      rewrite map_map. erewrite map_ext; [exact F2|]. intros x. apply Hstep.
Qed.

Lemma consistent_delete_steps id :
  stable (on_db keeps_consistent) (delete_steps id).
Proof.
  intros w. unfold on_db. simpl.
  intros (Hfk & (U1 & U2 & U3 & U4 & U5) & (R1 & R2 & R3 & R4) & (F1 & F2)).
  unfold cascade_delete_steps. rewrite Hfk. cbn [andb].
  set (doomed := fun r => String.eqb (row_workflow_id r) id).
  set (gone_steps := map row_id (List.filter doomed (workflow_steps (db w)))).
  set (sr_doomed := fun r : StepRun =>
         existsb (String.eqb (sr_workflowStepId r)) gone_steps).
  set (gone_srs := map sr_id (List.filter sr_doomed (step_runs (db w)))).
  set (ev_doomed := fun r : Event =>
         match ev_stepRunId r with
         | None => false
         | Some s => existsb (String.eqb s) gone_srs
         end).
  assert (forall sr row, sr_doomed sr = false -> row ∈ workflow_steps (db w) ->
                         row_id row = sr_workflowStepId sr ->
                         negb (doomed row) = true) as Hrow.
  { intros sr row Hkept Hin Hid. apply negb_true_iff.
    destruct (doomed row) eqn:Hd; [|done]. exfalso.
    assert (sr_doomed sr = true) as Hyes; [|by rewrite Hyes in Hkept].
    apply existsb_exists. exists (row_id row).
    split; [|rewrite Hid; apply String.eqb_refl].
    apply in_map, filter_In. split; [by apply list_elem_of_In|done]. }
  assert (forall e s sr, ev_doomed e = false -> ev_stepRunId e = Some s ->
                         sr ∈ step_runs (db w) -> sr_id sr = s ->
                         negb (sr_doomed sr) = true) as Hsr.
  { intros e s sr Hkept Hs Hin Hid. apply negb_true_iff.
    destruct (sr_doomed sr) eqn:Hd; [|done]. exfalso.
    assert (ev_doomed e = true) as Hyes; [|by rewrite Hyes in Hkept].
    unfold ev_doomed. rewrite Hs. apply existsb_exists. exists s.
    split; [|apply String.eqb_refl]. subst s.
    apply in_map, filter_In. split; [by apply list_elem_of_In|done]. }
  split; [done|]. split; [|split; [|split]].
  - split; [done|]. split; [by apply NoDup_map_filter|]. split; [done|].
    split; by apply NoDup_map_filter.
  - split; [|split; [done|split]].
    + intros x [Hx _]%elem_of_filter_inv. by apply R1.
    + intros x [Hx Hkept]%elem_of_filter_inv. apply negb_true_iff in Hkept.
      destruct (R3 x Hx) as [Ha Hb]. split; [done|].
      apply existsb_key, elem_of_map_inv' in Hb as (row & Hrow' & Hid).
      unfold has_step. simpl. apply existsb_exists. exists row.
      split; [|by apply String.eqb_eq].
      apply filter_In. split; [by apply list_elem_of_In|].
      by apply (Hrow x).
    + intros e [He Hkept]%elem_of_filter_inv. apply negb_true_iff in Hkept.
      destruct (R4 e He) as [Ha Hb]. split; [done|]. intros s Hs.
      specialize (Hb s Hs).
      apply existsb_key, elem_of_map_inv' in Hb as (sr & Hsr' & Hid).
      unfold has_step_run. simpl. apply existsb_exists. exists sr.
      split; [|by apply String.eqb_eq].
      apply filter_In. split; [by apply list_elem_of_In|].
      by apply (Hsr e s).
  - intros sr [Hin Hkept]%elem_of_filter_inv. apply negb_true_iff in Hkept.
    destruct (F1 sr Hin) as (run & row & Hrun & Hrow' & Hid & Hwf).
    exists run, row. split; [done|]. split; [|done]. simpl.
    apply list_elem_of_In, filter_In. split; [by apply list_elem_of_In|].
    by apply (Hrow sr).
  - intros runId. specialize (F2 runId). unfold select_step_runs in *. simpl.
    rewrite filter_comm. by apply NoDup_map_filter.
Qed.

Lemma select_steps_row d workflowId s :
  s ∈ select_steps d workflowId ->
  exists row, row ∈ workflow_steps d /\ row_id row = ws_id s /\
              row_workflow_id row = workflowId.
Proof.
  unfold select_steps. intros Hs. apply list_elem_of_In, in_map_iff in Hs.
  destruct Hs as (r & <- & Hr).
  apply (Permutation_in _ (order_by_perm _ _)) in Hr.
  apply filter_In in Hr as [Hr Hwf]. exists r.
  split; [by apply list_elem_of_In|]. split; [done|by apply String.eqb_eq].
Qed.

Lemma select_steps_ids_nodup d workflowId :
  NoDup (map row_id (workflow_steps d)) ->
  NoDup (map ws_id (select_steps d workflowId)).
Proof.
  intros Hnd. unfold select_steps. rewrite map_map. simpl.
  assert (Permutation
            (map row_id
               (order_by row_step_order
                  (List.filter (fun r => String.eqb (row_workflow_id r) workflowId)
                     (workflow_steps d))))
            (map row_id
               (List.filter (fun r => String.eqb (row_workflow_id r) workflowId)
                  (workflow_steps d)))) as Hp
    by apply Permutation_map, order_by_perm.
  change (map (fun x => row_id x)) with (map row_id).
  rewrite Hp. by apply NoDup_map_filter.
Qed.

(** What a loop of [createRun] that returns has inserted. *)
Lemma forEach_insert_step_runs_inv runId (steps : list WorkflowStep) :
  forall w w',
    forEach (fun s =>
       let* srid := nanoid env in
       insert_step_run {| sr_id := srid; sr_workflowRunId := runId;
                          sr_workflowStepId := ws_id s; sr_status := PENDING;
                          sr_startedAt := None; sr_finishedAt := None |}) steps w
    = (Ok tt, w') ->
    db w'
    = set_step_runs
        (step_runs (db w)
         ++ zip_with (new_step_run runId) (drawn env (idDraws w) (length steps))
              steps)
        (db w) /\
    (NoDup (map sr_id (step_runs (db w))) ->
     NoDup (map sr_id (step_runs (db w')))).
Proof.
  induction steps as [|s l IH]; intros w w' Hloop.
  - injection Hloop as <-. split; [|done]. simpl. rewrite app_nil_r.
    by destruct (db w).
  - simpl in Hloop. apply bind_inv in Hloop as (u & w1 & Hins & Hrest).
    unfold bind, insert_step_run in Hins. simpl in Hins. unfold bind in Hins.
    simpl in Hins.
    destruct (has_step_run (db w) (ids env (idDraws w))) eqn:Hfresh; [done|].
    destruct (negb _); [done|]. simpl in Hins. injection Hins as _ <-.
    destruct (IH _ _ Hrest) as [Hdb Hnd]. simpl in Hdb, Hnd. split.
    + rewrite Hdb. unfold drawn. simpl. by rewrite <- app_assoc.
    + intros Hnd0. apply Hnd. by apply NoDup_map_snoc.
Qed.

Lemma consistent_createRun workflowId :
  stable (on_db keeps_consistent) (createRun env workflowId).
Proof.
  intros w Hc. unfold createRun. unfold bind at 1. simpl. unfold bind at 1. simpl.
  set (run := {| run_id := ids env (idDraws w) |}).
  pose proof (consistent_insert_run run (tick (draw w)) Hc) as Hc1.
  unfold bind at 1.
  destruct (insert_run run (tick (draw w))) as [[[]|e] w1] eqn:Hins; [|done].
  unfold insert_run, bind in Hins. simpl in Hins.
  destruct (has_run (db w) (ids env (idDraws w))) eqn:Hfresh; [done|].
  destruct (negb _); [done|]. simpl in Hins. injection Hins as <-.
  simpl in Hc1. unfold bind at 1. simpl.
  set (w1 := with_db _ (tick (draw w))) in *.
  set (steps := select_steps _ workflowId).
  unfold bind at 1. unfold transaction.
  destruct (forEach _ steps w1) as [[[]|e] w2] eqn:Hloop; [|done].
  assert (consistent (db w2)) as Hc2;
    [|unfold bind; simpl; by destruct (lookup_run (db w2) (ids env (idDraws w)))].
  apply forEach_insert_step_runs_inv in Hloop as [Hdb2 Hnd2].
  destruct Hc as (_ & _ & (_ & _ & R3w & _) & _).
  destruct Hc1 as (Hfk & (U1 & U2 & U3 & U4 & U5) & (R1 & R2 & R3 & R4) & (F1 & F2)).
  set (news := zip_with (new_step_run (ids env (idDraws w)))
                 (drawn env (idDraws w1) (length steps)) steps) in *.
  assert (length (drawn env (idDraws w1) (length steps)) = length steps) as Hlen
    by (unfold drawn; by rewrite length_map, length_seq).
  assert (has_run (db w1) (ids env (idDraws w)) = true) as Hrun1.
  { unfold has_run. subst w1. simpl. rewrite existsb_app. simpl.
    rewrite String.eqb_refl. by rewrite !orb_true_r. }
  assert (lookup_run (db w1) (ids env (idDraws w)) = Some run) as Hlook1.
  { unfold lookup_run. subst w1. simpl.
    apply find_app_new; [exact Hfresh|apply String.eqb_refl]. }
  assert (forall sr, sr ∈ step_runs (db w1) ->
                     sr_workflowRunId sr <> ids env (idDraws w)) as Hold.
  { intros sr Hsr Heq. destruct (R3w sr Hsr) as [Ha _].
    rewrite Heq in Ha. by rewrite Ha in Hfresh. }
  assert (forall n, n ∈ news ->
            sr_workflowRunId n = ids env (idDraws w) /\
            exists s, s ∈ steps /\ sr_workflowStepId n = ws_id s) as Hnew.
  { subst news. generalize (drawn env (idDraws w1) (length steps)).
    generalize steps. clear. induction steps as [|s l IH]; intros [|x sids] n Hn;
      simpl in Hn; try by apply elem_of_nil in Hn.
    apply elem_of_cons in Hn as [->|Hn].
    - split; [done|]. exists s. split; [by left|done].
    - destruct (IH sids n Hn) as [Ha (s' & Hs' & Hb)]. split; [done|].
      exists s'. split; [by right|done]. }
  rewrite Hdb2. split; [done|]. split; [|split; [|split]].
  - do 3 (split; [done|]). split; [|done].
    rewrite Hdb2 in Hnd2. by apply Hnd2.
  - split; [done|]. split; [done|]. split.
    + intros x [Hx|Hx]%elem_of_app; [by apply R3|].
      destruct (Hnew x Hx) as [-> (s & Hs & ->)]. split; [done|].
      by apply (select_steps_has_step (db w1) workflowId).
    + intros e He. destruct (R4 e He) as [Ha Hb]. split; [done|].
      intros s Hs. unfold has_step_run. simpl. apply existsb_key_app.
      by apply Hb.
  - intros sr [Hsr|Hsr]%elem_of_app; [by apply F1|].
    destruct (Hnew sr Hsr) as [-> (s & Hs & ->)].
    destruct (select_steps_row _ _ _ Hs) as (row & Hrow & Hid & Hwf).
    exists run, row. by repeat split.
  - intros runId. unfold select_step_runs. simpl. rewrite List.filter_app.
    destruct (String.eqb_spec (ids env (idDraws w)) runId) as [<-|Hne].
    + rewrite filter_none, filter_every.
      * simpl. subst news. rewrite zip_new_step_runs_steps by done.
        by apply select_steps_ids_nodup.
      * intros x Hx. apply String.eqb_eq. apply list_elem_of_In in Hx.
        by destruct (Hnew x Hx).
      * intros x Hx. apply String.eqb_neq, Hold. by apply list_elem_of_In.
    + rewrite (filter_none _ news).
      * rewrite app_nil_r. apply F2.
      * intros x Hx. apply String.eqb_neq. apply list_elem_of_In in Hx.
        destruct (Hnew x Hx) as [-> _]. done.
Qed.

#[local] Hint Resolve consistent_insert_workflow consistent_insert_step
  consistent_insert_run consistent_insert_event consistent_update_workflow_row
  consistent_update_run_row consistent_update_step_run_row
  consistent_delete_steps consistent_createRun : stable.

Lemma consistent_appendEvent r s t m :
  stable (on_db keeps_consistent) (appendEvent env r s t m).
Proof. unfold appendEvent. stable_tac. Qed.
Lemma consistent_updateRunStatus i s :
  stable (on_db keeps_consistent) (updateRunStatus env i s).
Proof. unfold updateRunStatus. stable_tac. Qed.
Lemma consistent_updateStepRunStatus i s :
  stable (on_db keeps_consistent) (updateStepRunStatus env i s).
Proof. unfold updateStepRunStatus. stable_tac. Qed.

#[local] Hint Resolve consistent_appendEvent consistent_updateRunStatus
  consistent_updateStepRunStatus : stable.

Lemma consistent_execute_start r :
  stable (on_db keeps_consistent) (execute_start env r).
Proof. unfold execute_start. stable_tac. Qed.
Lemma consistent_enqueueRun r :
  stable (on_db keeps_consistent) (enqueueRun env r).
Proof. apply on_db_enqueueRun; [apply _|apply consistent_execute_start]. Qed.
Lemma consistent_execute_loop r m l :
  stable (on_db keeps_consistent) (execute_loop env r m l).
Proof.
  induction l as [|s l IH]; simpl; unfold runNonManualStep_start; stable_tac.
Qed.
Lemma consistent_runNonManualStep_finish r sr h :
  stable (on_db keeps_consistent) (runNonManualStep_finish env r sr h).
Proof.
  unfold runNonManualStep_finish, runNonManualStep_succeed,
    runNonManualStep_catch.
  stable_tac.
Qed.

#[local] Hint Resolve consistent_enqueueRun consistent_execute_loop
  consistent_runNonManualStep_finish : stable.

Lemma consistent_step a w :
  consistent (db w) -> consistent (db (step env a w)).
Proof.
  destruct a as [n d l|i n d l|i|i b|i|i fetched|i]; simpl.
  - assert (stable (on_db keeps_consistent) (createWorkflow env n d l)) as H
      by (unfold createWorkflow; stable_tac).
    specialize (H w). by destruct (createWorkflow env n d l w).
  - assert (stable (on_db keeps_consistent) (updateWorkflow env i n d l)) as H
      by (unfold updateWorkflow; stable_tac).
    specialize (H w). by destruct (updateWorkflow env i n d l w).
  - assert (stable (on_db keeps_consistent) (startRun_start env i)) as H
      by (unfold startRun_start; stable_tac).
    specialize (H w). by destruct (startRun_start env i w).
  - assert (stable (on_db keeps_consistent) (completeManualStep_start env i b))
      as H
      by (unfold completeManualStep_start, completeManualStep_record; stable_tac).
    specialize (H w). by destruct (completeManualStep_start env i b w).
  - destruct (requests w !! i) as [pc|]; [|done].
    assert (stable (on_db keeps_consistent) (request_resume env pc)) as H
      by (unfold request_resume, completeManualStep_fail; stable_tac).
    specialize (H w). by destruct (request_resume env pc w).
  - destruct (tasks w !! i) as [t|]; [|done].
    assert (stable (on_db keeps_consistent)
              (execute_resume env (task_runId t) (task_pc t) fetched)) as H
      by (unfold execute_resume; stable_tac).
    specialize (H w). by destruct (execute_resume env _ _ _ w).
  - destruct (tasks w !! i) as [t|]; [|done].
    by destruct (is_settled _).
Qed.

Lemma consistent_run_actions actions w :
  consistent (db w) -> consistent (db (run_actions env actions w)).
Proof.
  revert w. induction actions as [|a l IH]; intros w Hw; simpl; [done|].
  by apply IH, consistent_step.
Qed.

End Consistency.

Lemma consistent_empty : consistent empty_db.
Proof.
  split; [done|]. split; [repeat split; apply NoDup_nil_2|].
  split.
  - split; [|split; [|split]]; intros x Hx; by apply elem_of_nil in Hx.
  - split; [intros x Hx; by apply elem_of_nil in Hx|].
    intros runId. apply NoDup_nil_2.
Qed.

(** X22.  In every state the engine reaches, however the calls of the API
    and the tasks interleave and whichever of them fail, the database is
    consistent: foreign keys are enforced, no identifier is used twice in a
    table, every step, run, step run and event refers to rows that exist
    (also after [updateWorkflow] has deleted steps), every step run is for a
    step of the workflow of its run, and no run has two step runs for the
    same step. *)
Theorem database_stays_consistent (env : Env) (actions : list Action) :
  consistent (db (run_actions env actions empty_world)).
Proof. apply consistent_run_actions, consistent_empty. Qed.

Lemma filter_unique_key {A} (key : A -> string) (l : list A) x :
  NoDup (map key l) -> x ∈ l ->
  List.filter (fun y => String.eqb (key y) (key x)) l = [x].
Proof.
  induction l as [|y l IH]; simpl; intros Hnd Hin; [by apply elem_of_nil in Hin|].
  apply NoDup_cons in Hnd as [Hnotin Hnd].
  apply elem_of_cons in Hin as [->|Hin].
  - rewrite String.eqb_refl. f_equal. apply filter_none. intros z Hz.
    apply String.eqb_neq. intros Heq. apply Hnotin. rewrite <- Heq.
    apply list_elem_of_In, in_map. exact Hz.
  - destruct (String.eqb_spec (key y) (key x)) as [Heq|_]; [|by apply IH].
    exfalso. apply Hnotin. rewrite Heq. apply list_elem_of_In, in_map.
    by apply list_elem_of_In.
Qed.

(** X23.  In every state the engine reaches, [getStepRunsMap] loses no step
    run: every step run of the run is in the map under its step. *)
Theorem getStepRunsMap_complete (env : Env) (actions : list Action)
    (runId : string) (sr : StepRun) :
  let w := run_actions env actions empty_world in
  sr ∈ step_runs (db w) ->
  sr_workflowRunId sr = runId ->
  exists m,
    getStepRunsMap runId w = (Ok m, w) /\
    m !! sr_workflowStepId sr = Some sr.
Proof.
  intros w Hsr Hrun.
  exists (fromEntries (select_step_runs (db w) runId)). split; [done|].
  unfold fromEntries. rewrite fromEntries_fold.
  destruct (consistent_run_actions env actions empty_world consistent_empty)
    as (_ & _ & _ & _ & F2).
  rewrite (filter_unique_key sr_workflowStepId); [done|apply F2|].
  apply list_elem_of_In, filter_In. split; [by apply list_elem_of_In|].
  by apply String.eqb_eq.
Qed.

Lemma getStepRunsMap_complete_witness :
  exists m,
    getStepRunsMap "id3" started_world = (Ok m, started_world) /\
    m !! "id2" = Some (pending_step_run "id5" "id2").
Proof.
  apply (getStepRunsMap_complete env0
           [CallCreateWorkflow "two approvals" None
              [manual_step "first" 0; manual_step "second" 1];
            CallStartRun "id0"] "id3" (pending_step_run "id5" "id2")).
  - apply list_elem_of_In. vm_compute. right. left. reflexivity.
  - reflexivity.
Defined.

(** * The Executor: the start of an automated step *)

Section StepStart.

Context (env : Env).

Lemma runNonManualStep_start_ok runId sr w row :
  lookup_step_run (db w) (sr_id sr) = Some row ->
  has_run (db w) runId = true ->
  has_event (db w) (ids env (idDraws w)) = false ->
  exists w',
    runNonManualStep_start env runId sr w = (Ok tt, w') /\
    lookup_step_run (db w') (sr_id sr)
    = Some (stamp_step_run RUNNING (Some (clock env (clockReads w))) None row) /\
    workflow_runs (db w') = workflow_runs (db w) /\
    events (db w')
    = events (db w)
      ++ [new_event env (tick w) runId (Some (sr_id sr)) STEP_STARTED
            "Step started"] /\
    published w' = published w ++ ["runUpdated:" +:+ runId] /\
    same_exec w w'.
Proof.
  intros Hsr Hrun Hfresh. unfold runNonManualStep_start.
  rewrite (bind_ok _ _ _ _ _ (eq_trans (updateStepRunStatus_eq env _ _ _)
                                (update_step_run_row_eq _ _ _ _ _))).
  cbn [is_terminal bool_decide decide_rel].
  set (w1 := with_db _ (if bool_decide (RUNNING = PENDING) then w else tick w)).
  assert (event_accepted env w1 runId (Some (sr_id sr))) as Hacc.
  { split; [exact Hfresh|]. unfold fk_ok. subst w1. simpl.
    unfold has_step_run, has_run in *. simpl.
    rewrite has_step_run_stamped, (lookup_step_run_has _ _ _ Hsr), Hrun.
    apply orb_true_r. }
  rewrite (bind_ok _ _ _ _ _ (appendEvent_ok env _ _ _ _ _ Hacc)).
  eexists. split; [reflexivity|]. subst w1. simpl.
  split; [|done].
  unfold lookup_step_run in *. simpl.
  rewrite (find_map_same_key sr_id); [|intros x; by destruct (String.eqb _ _)].
  rewrite Hsr. simpl.
  apply (lookup_step_run_id (db w)) in Hsr. by rewrite Hsr, String.eqb_refl.
Qed.

End StepStart.

(** X24.  A pass whose loop, after steps it goes past, reaches a DELAY or
    HTTP step whose step run is PENDING or RUNNING starts it: the step run
    becomes RUNNING, with [startedAt] if it had none, STEP_STARTED "Step
    started" is appended, the run is published and its row is left alone.
    Resumed, the task of a DELAY step sleeps, and the task of an HTTP step
    whose config has a truthy [url] sends the request to it, with the
    method GET when the config gives none. *)
Theorem pass_starts_automated_step (env : Env) (runId : string)
    (stepRunMap : gmap string StepRun) (done : list WorkflowStep)
    (step : WorkflowStep) (rest : list WorkflowStep) (w : World)
    (sr row : StepRun) :
  Forall (passed_over stepRunMap) done ->
  ws_type step <> MANUAL ->
  stepRunMap !! ws_id step = Some sr ->
  is_terminal (sr_status sr) = false ->
  lookup_step_run (db w) (sr_id sr) = Some row ->
  has_run (db w) runId = true ->
  has_event (db w) (ids env (idDraws w)) = false ->
  let pc := AfterStepStarted sr (ws_type step) (ws_config step) rest stepRunMap in
  exists w',
    execute_loop env runId stepRunMap (done ++ step :: rest) w = (Ok pc, w') /\
    lookup_step_run (db w') (sr_id sr)
    = Some (stamp_step_run RUNNING (Some (clock env (clockReads w))) None row) /\
    events (db w')
    = events (db w)
      ++ [new_event env (tick w) runId (Some (sr_id sr)) STEP_STARTED
            "Step started"] /\
    workflow_runs (db w') = workflow_runs (db w) /\
    published w' = published w ++ ["runUpdated:" +:+ runId] /\
    (ws_type step = DELAY ->
     forall fetched,
       execute_resume env runId pc fetched w'
       = (Ok (Sleeping sr rest stepRunMap), w')) /\
    (ws_type step = HTTP ->
     forall url fetched,
       get_prop (ws_config step) "url" = Some url ->
       truthy (Some url) = true ->
       execute_resume env runId pc fetched w'
       = (Ok (Fetching url
                (match get_prop (ws_config step) "method" with
                 | None | Some JNull => JStr "GET"
                 | Some m => m
                 end) sr rest stepRunMap), w')).
Proof.
  intros Hdone Htype Hsr Hterm Hrow Hrun Hfresh pc.
  destruct (runNonManualStep_start_ok env runId sr w row Hrow Hrun Hfresh)
    as (w' & Hcall & Hrow' & Hruns & Hev & Hpub & _).
  exists w'. split; [|split; [done|split; [done|split; [done|split; [done|]]]]].
  - rewrite execute_loop_skips by done. simpl.
    rewrite (proj2 (get_property_own _ _ _) Hsr). subst pc.
    destruct (sr_status sr); try done; destruct (ws_type step); try done;
      by rewrite (bind_ok _ _ _ _ _ Hcall).
  - subst pc. split.
    + intros -> fetched. reflexivity.
    + intros -> url fetched Hurl Htruthy. simpl. by rewrite Hurl, Htruthy.
Qed.

Lemma pass_starts_automated_step_witness :
  exists w',
    execute_resume env0 "id2" (AfterRunStarted "id0") (FetchResponse 200)
      (run_actions env0
         [CallCreateWorkflow "fetch" None [http_step "get" "http://fail" 0];
          CallStartRun "id0"] empty_world)
    = (Ok (AfterStepStarted read_step_run HTTP
             (JObj [("url", JStr "http://fail")]) []
             (fromEntries [read_step_run])), w') /\
    execute_resume env0 "id2"
      (AfterStepStarted read_step_run HTTP (JObj [("url", JStr "http://fail")]) []
         (fromEntries [read_step_run])) (FetchResponse 200) w'
    = (Ok fetching_pc, w').
Proof.
  set (w := run_actions env0 _ empty_world).
  set (step := {| ws_id := "id1"; ws_workflowId := "id0"; ws_name := "get";
                  ws_type := HTTP;
                  ws_config := JObj [("url", JStr "http://fail")];
                  ws_order := 0 |}).
  destruct (pass_starts_automated_step env0 "id2" (fromEntries [read_step_run])
              [] step [] w read_step_run read_step_run)
    as (w' & H1 & _ & _ & _ & _ & _ & H7).
  - constructor.
  - discriminate.
  - vm_compute. reflexivity.
  - reflexivity.
  - vm_compute. reflexivity.
  - vm_compute. reflexivity.
  - vm_compute. reflexivity.
  - exists w'. split.
    + refine (eq_trans _ H1). vm_compute. reflexivity.
    + exact (H7 eq_refl (JStr "http://fail") (FetchResponse 200) eq_refl eq_refl).
Defined.

(** * The journal while workflows are rewritten

    ** The step runs that appear have fresh identifiers *)

#[global] Instance draws_step_runs_preorder env : PreOrder (draws_step_runs env).
Proof.
  split.
  - intros w. split; [done|]. intros i Hi. by left.
  - intros w1 w2 w3 [H1 K1] [H2 K2]. split; [lia|]. intros i Hi.
    destruct (K2 i Hi) as [Hi2|(k & Hk & ->)].
    + destruct (K1 i Hi2) as [Hi1|(k & Hk & ->)]; [by left|].
      right. exists k. split; [lia|done].
    + right. exists k. split; [lia|done].
Qed.

Lemma draws_same_ids env w w' :
  (idDraws w <= idDraws w')%nat ->
  (forall i, has_step_run (db w') i = true -> has_step_run (db w) i = true) ->
  draws_step_runs env w w'.
Proof. intros Hd Hi. split; [done|]. intros i H. left. by apply Hi. Qed.

Lemma draws_rollback env : rollback_closed (draws_step_runs env).
Proof. intros w w' [Hd _]. by apply draws_same_ids. Qed.

Section Draws.

Context (env : Env).

Lemma draws_unchanged {A} (c : M A) :
  (forall w, (c w).2 = w) -> stable (draws_step_runs env) c.
Proof. intros H w. rewrite H. reflexivity. Qed.

Lemma draws_now : stable (draws_step_runs env) (now env).
Proof. intros w. by apply draws_same_ids. Qed.
Lemma draws_nanoid : stable (draws_step_runs env) (nanoid env).
Proof. intros w. apply draws_same_ids; simpl; [lia|done]. Qed.
Lemma draws_publishRun r : stable (draws_step_runs env) (publishRun r).
Proof. intros w. by apply draws_same_ids. Qed.

Lemma draws_insert_workflow r : stable (draws_step_runs env) (insert_workflow r).
Proof.
  intros w. unfold insert_workflow, bind. simpl.
  destruct (has_workflow _ _); by apply draws_same_ids.
Qed.
Lemma draws_insert_step r : stable (draws_step_runs env) (insert_step r).
Proof.
  intros w. unfold insert_step, bind. simpl.
  destruct (has_step _ _); simpl; [by apply draws_same_ids|].
  destruct (negb _); by apply draws_same_ids.
Qed.
Lemma draws_insert_run r : stable (draws_step_runs env) (insert_run r).
Proof.
  intros w. unfold insert_run, bind. simpl.
  destruct (has_run _ _); simpl; [by apply draws_same_ids|].
  destruct (negb _); by apply draws_same_ids.
Qed.
Lemma draws_insert_event r : stable (draws_step_runs env) (insert_event r).
Proof.
  intros w. unfold insert_event, bind. simpl.
  destruct (has_event _ _); simpl; [by apply draws_same_ids|].
  destruct (negb _); by apply draws_same_ids.
Qed.

(** A step run is inserted under the identifier that has just been drawn
    ([db.ts], lines 222-224). *)
Lemma draws_insert_step_run runId stepId :
  stable (draws_step_runs env)
    (let* srid := nanoid env in
     insert_step_run {| sr_id := srid; sr_workflowRunId := runId;
                        sr_workflowStepId := stepId; sr_status := PENDING;
                        sr_startedAt := None; sr_finishedAt := None |}).
Proof.
  intros w. unfold bind at 1. unfold nanoid. simpl.
  unfold insert_step_run, bind. simpl.
  destruct (has_step_run _ _); simpl; [apply draws_same_ids; simpl; [lia|done]|].
  destruct (negb _); simpl; [apply draws_same_ids; simpl; [lia|done]|].
  split; simpl; [lia|]. intros i Hi. unfold has_step_run in Hi. simpl in Hi.
  rewrite existsb_app in Hi. apply orb_true_iff in Hi as [Hi|Hi]; [by left|].
  simpl in Hi. rewrite orb_false_r in Hi. apply String.eqb_eq in Hi as <-.
  right. exists (idDraws w). split; [lia|done].
Qed.

Lemma draws_update_workflow_row i n d :
  stable (draws_step_runs env) (update_workflow_row i n d).
Proof. intros w. by apply draws_same_ids. Qed.
Lemma draws_update_run_row i s a b :
  stable (draws_step_runs env) (update_run_row i s a b).
Proof. intros w. by apply draws_same_ids. Qed.
Lemma draws_update_step_run_row i s a b :
  stable (draws_step_runs env) (update_step_run_row i s a b).
Proof.
  intros w. apply draws_same_ids; [done|]. intros j. simpl.
  unfold has_step_run at 1. simpl. by rewrite has_step_run_stamped.
Qed.

Lemma draws_delete_steps i : stable (draws_step_runs env) (delete_steps i).
Proof.
  intros w. apply draws_same_ids; [done|]. intros j. simpl.
  unfold has_step_run. simpl. rewrite !existsb_exists.
  intros (r & Hr & Hj). apply filter_In in Hr as [Hr _]. by exists r.
Qed.

Lemma draws_listWorkflowSteps i : stable (draws_step_runs env) (listWorkflowSteps i).
Proof. by apply draws_unchanged. Qed.
Lemma draws_getWorkflow i : stable (draws_step_runs env) (getWorkflow i).
Proof.
  apply draws_unchanged. intros w. unfold getWorkflow, bind. simpl.
  by destruct (lookup_workflow (db w) i).
Qed.
Lemma draws_getRun i : stable (draws_step_runs env) (getRun i).
Proof. by apply draws_unchanged. Qed.
Lemma draws_getStepRunById i : stable (draws_step_runs env) (getStepRunById i).
Proof. by apply draws_unchanged. Qed.
Lemma draws_listStepRuns i : stable (draws_step_runs env) (listStepRuns i).
Proof. by apply draws_unchanged. Qed.
Lemma draws_listEvents i : stable (draws_step_runs env) (listEvents i).
Proof. by apply draws_unchanged. Qed.
Lemma draws_getStepRunsMap i : stable (draws_step_runs env) (getStepRunsMap i).
Proof. by apply draws_unchanged. Qed.

#[local] Hint Resolve draws_rollback draws_now draws_nanoid draws_publishRun
  draws_insert_workflow draws_insert_step draws_insert_run draws_insert_event
  draws_insert_step_run draws_update_workflow_row draws_update_run_row
  draws_update_step_run_row draws_delete_steps draws_listWorkflowSteps
  draws_getWorkflow draws_getRun draws_getStepRunById draws_listStepRuns
  draws_listEvents draws_getStepRunsMap : stable.

Lemma draws_appendEvent r s t m :
  stable (draws_step_runs env) (appendEvent env r s t m).
Proof. unfold appendEvent. stable_tac. Qed.
Lemma draws_updateRunStatus i s :
  stable (draws_step_runs env) (updateRunStatus env i s).
Proof. unfold updateRunStatus. stable_tac. Qed.
Lemma draws_updateStepRunStatus i s :
  stable (draws_step_runs env) (updateStepRunStatus env i s).
Proof. unfold updateStepRunStatus. stable_tac. Qed.
Lemma draws_createWorkflow n d l :
  stable (draws_step_runs env) (createWorkflow env n d l).
Proof. unfold createWorkflow. stable_tac. Qed.
Lemma draws_updateWorkflow i n d l :
  stable (draws_step_runs env) (updateWorkflow env i n d l).
Proof. unfold updateWorkflow. stable_tac. Qed.
Lemma draws_createRun i : stable (draws_step_runs env) (createRun env i).
Proof. unfold createRun. stable_tac. Qed.

#[local] Hint Resolve draws_appendEvent draws_updateRunStatus
  draws_updateStepRunStatus draws_createRun : stable.

Lemma draws_execute_start r : stable (draws_step_runs env) (execute_start env r).
Proof. unfold execute_start. stable_tac. Qed.

Lemma draws_enqueueRun r : stable (draws_step_runs env) (enqueueRun env r).
Proof.
  intros w. unfold enqueueRun. destruct (decide _); [simpl; reflexivity|].
  pose proof (draws_execute_start r
                (with_activeRuns ({[r]} ∪ activeRuns w) w)) as H.
  by destruct (execute_start env r _) as [x w2].
Qed.

Lemma draws_execute_loop r m l :
  stable (draws_step_runs env) (execute_loop env r m l).
Proof.
  induction l as [|s l IH]; simpl; unfold runNonManualStep_start; stable_tac.
Qed.

Lemma draws_runNonManualStep_finish r sr h :
  stable (draws_step_runs env) (runNonManualStep_finish env r sr h).
Proof.
  unfold runNonManualStep_finish, runNonManualStep_succeed,
    runNonManualStep_catch.
  stable_tac.
Qed.

#[local] Hint Resolve draws_enqueueRun draws_execute_loop
  draws_runNonManualStep_finish : stable.

Lemma draws_execute_resume r pc fetched :
  stable (draws_step_runs env) (execute_resume env r pc fetched).
Proof. unfold execute_resume. stable_tac. Qed.

Lemma draws_completeManualStep_start i b :
  stable (draws_step_runs env) (completeManualStep_start env i b).
Proof. unfold completeManualStep_start, completeManualStep_record. stable_tac. Qed.

Lemma draws_startRun_start i : stable (draws_step_runs env) (startRun_start env i).
Proof. unfold startRun_start. stable_tac. Qed.

Lemma draws_request_resume pc : stable (draws_step_runs env) (request_resume env pc).
Proof. unfold request_resume, completeManualStep_fail. stable_tac. Qed.

Lemma draws_step a w : draws_step_runs env w (step env a w).
Proof.
  destruct a as [n d l|i n d l|i|i b|i|i fetched|i]; simpl.
  - pose proof (draws_createWorkflow n d l w) as H.
    by destruct (createWorkflow env n d l w).
  - pose proof (draws_updateWorkflow i n d l w) as H.
    by destruct (updateWorkflow env i n d l w).
  - pose proof (draws_startRun_start i w) as H.
    by destruct (startRun_start env i w).
  - pose proof (draws_completeManualStep_start i b w) as H.
    by destruct (completeManualStep_start env i b w).
  - destruct (requests w !! i) as [pc|]; [|reflexivity].
    pose proof (draws_request_resume pc w) as H.
    by destruct (request_resume env pc w).
  - destruct (tasks w !! i) as [t|]; [|reflexivity].
    pose proof (draws_execute_resume (task_runId t) (task_pc t) fetched w) as H.
    by destruct (execute_resume env _ _ _ w).
  - destruct (tasks w !! i) as [t|]; [|reflexivity].
    destruct (is_settled _); [by apply draws_same_ids|reflexivity].
Qed.

End Draws.

(** ** The invariant *)

Lemma prefix_app (p x : string) : String.prefix p (p +:+ x) = true.
Proof.
  induction p as [|c p IH]; simpl; [by destruct x|].
  by destruct (Ascii.ascii_dec c c).
Qed.

Section JournalSteps.

Context (env : Env) (Hfresh : fresh_ids env).
Context (counts : Event -> bool).
Context (Hcounts : forall e, counts e = true -> is_step_end e = true).

Lemma drawn_before_mono w w' id :
  (idDraws w <= idDraws w')%nat -> drawn_before env w id ->
  drawn_before env w' id.
Proof. intros Hle (k & Hk & ->). exists k. split; [lia|done]. Qed.

Lemma has_step_run_elem d id :
  has_step_run d id = true <-> exists sr, sr ∈ step_runs d /\ sr_id sr = id.
Proof.
  unfold has_step_run. rewrite existsb_exists. split.
  - intros (sr & Hsr & Hid). exists sr.
    split; [by apply list_elem_of_In|by apply String.eqb_eq].
  - intros (sr & Hsr & Hid). exists sr.
    split; [by apply list_elem_of_In|by apply String.eqb_eq].
Qed.

Lemma step_runs_drawn_draws w w' :
  draws_step_runs env w w' -> step_runs_drawn env w -> step_runs_drawn env w'.
Proof.
  intros [Hle Hi] Hw sr Hsr.
  destruct (Hi (sr_id sr)) as [Hold|(k & Hk & ->)].
  - apply has_step_run_elem. by exists sr.
  - apply has_step_run_elem in Hold as (sr0 & Hsr0 & <-).
    by apply (drawn_before_mono w), Hw.
  - exists k. split; [lia|done].
Qed.

(** A step run that was not there cannot appear under an identifier that
    has been drawn already. *)
Lemma no_step_run_returns w w' id :
  draws_step_runs env w w' -> drawn_before env w id ->
  has_step_run (db w') id = true -> has_step_run (db w) id = true.
Proof.
  intros [Hle Hi] (k0 & Hk0 & ->) Hhas.
  destruct (Hi _ Hhas) as [Hold|(k & Hk & Heq)]; [done|].
  apply Hfresh in Heq. lia.
Qed.

(** What a task keeps while events are appended. *)
Lemma task_started_appends ok w w' r sr :
  draws_step_runs env w w' -> appends ok (db w) (db w') ->
  drawn_before env w (sr_id sr) /\
  (has_step_run (db w) (sr_id sr) = true ->
   started_in (journal (db w) r) (Some (sr_id sr))) ->
  drawn_before env w' (sr_id sr) /\
  (has_step_run (db w') (sr_id sr) = true ->
   started_in (journal (db w') r) (Some (sr_id sr))).
Proof.
  intros Hdraws Happ [Hdrawn Hstarted]. split.
  - by apply (drawn_before_mono w); [apply Hdraws|].
  - intros Hhas. eapply started_in_appends; [exact Happ|].
    by apply Hstarted, (no_step_run_returns w w').
Qed.

(** The invariant survives events that do not count or whose
    STEP_STARTED is in the journal, and new tasks that are in no step. *)
Lemma journal_inv_grow w w' :
  journal_inv env counts w ->
  draws_step_runs env w w' ->
  consistent (db w') ->
  appends (fun e => counts e = true ->
                    started_in (journal (db w) (ev_workflowRunId e))
                      (ev_stepRunId e)) (db w) (db w') ->
  tasks_grow_idle w w' ->
  journal_inv env counts w'.
Proof.
  intros (Hc & Ht & Hd & _) Hdraws Hcons Happ (new & Hnew & Hidle).
  split; [by apply (causal_appends counts (db w))|].
  split; [|split; [by apply (step_runs_drawn_draws w)|done]].
  intros t sr Hin Hpc. rewrite Hnew in Hin.
  apply elem_of_app in Hin as [Hin|Hin].
  - eapply task_started_appends; [done|exact Happ|by apply Ht].
  - rewrite List.Forall_forall in Hidle.
    apply list_elem_of_In, Hidle in Hin. congruence.
Qed.

Lemma journal_inv_quiet w w' :
  journal_inv env counts w ->
  draws_step_runs env w w' ->
  consistent (db w') ->
  appends quiet (db w) (db w') -> tasks_grow_idle w w' ->
  journal_inv env counts w'.
Proof.
  intros Hinv Hdraws Hcons Happ. apply journal_inv_grow; [done|done|done|].
  eapply appends_weaken; [|exact Happ]. unfold quiet.
  intros e He Hend. apply Hcounts in Hend. congruence.
Qed.

Lemma journal_inv_requests l w :
  journal_inv env counts w -> journal_inv env counts (with_requests l w).
Proof. done. Qed.

(** Rewriting the steps of a workflow removes the events of the step runs
    it removes, and of no other. *)
Lemma journal_inv_pruned w w' :
  journal_inv env counts w ->
  draws_step_runs env w w' ->
  consistent (db w') ->
  pruned (db w) (db w') -> tasks w' = tasks w ->
  journal_inv env counts w'.
Proof.
  intros (Hc & Ht & Hd & Hcons0) Hdraws Hcons Hpr Htasks.
  split; [by apply (causal_pruned counts (db w))|].
  split; [|split; [by apply (step_runs_drawn_draws w)|done]].
  intros t sr Hin Hpc. rewrite Htasks in Hin.
  destruct (Ht t sr Hin Hpc) as [Hdrawn Hstarted]. split.
  - by apply (drawn_before_mono w); [apply Hdraws|].
  - intros Hhas. destruct Hpr as (keep & Hev & Hkeep).
    destruct Hkeep as [_ Hkeep]; [apply Hcons0|].
    destruct (Hkeep _ Hhas) as [Hold Hk].
    destruct (Hstarted Hold) as (e & He & Hty & Hsr).
    exists e. split; [|done]. apply journal_of_elem in He as [He Hr].
    apply journal_of_elem. split; [|done]. rewrite Hev.
    apply list_elem_of_In, filter_In. split; [by apply list_elem_of_In|].
    by rewrite Hsr.
Qed.

Lemma journal_inv_resume_task i f w :
  journal_inv env counts w -> journal_inv env counts (step env (ResumeTask i f) w).
Proof.
  intros Hinv.
  pose proof (consistent_step env (ResumeTask i f) w (proj2 (proj2 (proj2 Hinv))))
    as Hcons.
  pose proof (draws_step env (ResumeTask i f) w) as Hdraws.
  destruct Hinv as (Hc & Ht & Hd & Hcons0).
  assert (foreign_keys (db w) = true) as Hfk by apply Hcons0.
  simpl in *. destruct (tasks w !! i) as [t|] eqn:Hi; [|done].
  assert (t ∈ tasks w) as Hin by (by eapply list_elem_of_lookup_2).
  pose proof (same_exec_execute_resume env (task_runId t) (task_pc t) f w)
    as [_ Htasks].
  pose proof (execute_resume_appends env (task_runId t) (task_pc t) f w)
    as Happ.
  pose proof (execute_resume_started env (task_runId t) (task_pc t) f w)
    as Hpc.
  pose proof (execute_resume_has env (task_runId t) (task_pc t) f w) as Hhas.
  pose proof (execute_resume_gone env (task_runId t) (task_pc t) f w) as Hgone.
  destruct (execute_resume env _ _ f w) as [x w1]. simpl in *.
  unfold on_db in Happ.
  assert (forall sr, pc_step_run (task_pc t) = Some sr ->
            has_step_run (db w) (sr_id sr) = false -> db w1 = db w) as Hgone'
    by (intros sr Hsr Hg; by apply (Hgone sr)).
  split; [|split; [|split; [by apply (step_runs_drawn_draws w)|done]]].
  - destruct (pc_step_run (task_pc t)) as [sr|] eqn:Hsr.
    + destruct (has_step_run (db w) (sr_id sr)) eqn:Hthere.
      * apply (causal_appends counts (db w)); [done|].
        eapply appends_weaken; [|exact Happ]. simpl.
        intros e He Hend. destruct (He (Hcounts e Hend)) as (sr' & [= <-] & -> & ->).
        by apply (Ht t sr).
      * simpl. by rewrite (Hgone' sr eq_refl Hthere).
    + apply (causal_appends counts (db w)); [done|].
      eapply appends_weaken; [|exact Happ]. simpl.
      intros e He Hend. by destruct (He (Hcounts e Hend)) as (sr' & [=] & _).
  - assert (draws_step_runs env w w1) as Hdraws1 by exact Hdraws.
    intros t' sr Hin' Hsr. simpl in Hin'. rewrite Htasks in Hin'.
    apply elem_of_insert_inv in Hin' as [->|Hin']; simpl in *.
    + destruct (Hpc x w1 sr eq_refl Hsr) as [Hold|Hnew].
      { exact (task_started_appends _ w w1 _ sr Hdraws1 Happ (Ht t sr Hin Hold)). }
      destruct (Hhas x w1 sr Hfk eq_refl Hsr) as [Hold|Hthere].
      { exact (task_started_appends _ w w1 _ sr Hdraws1 Happ (Ht t sr Hin Hold)). }
      split; [|done].
      apply has_step_run_elem in Hthere as (sr0 & Hsr0 & <-).
      by apply (step_runs_drawn_draws w w1).
    + exact (task_started_appends _ w w1 _ sr Hdraws1 Happ (Ht t' sr Hin' Hsr)).
Qed.

Lemma journal_inv_finalise i w :
  journal_inv env counts w -> journal_inv env counts (step env (Finalise i) w).
Proof.
  intros (Hc & Ht & Hd & Hcons). simpl. destruct (tasks w !! i) as [t|]; [|done].
  destruct (is_settled (task_pc t)); [|done].
  split; [done|]. split; [|done].
  intros t' sr Hin Hsr. simpl in *. apply Ht; [|done].
  by eapply list_elem_of_delete_inv.
Qed.

Lemma journal_inv_step a w :
  journal_inv env counts w -> manual_ends_started env counts a w ->
  journal_inv env counts (step env a w).
Proof.
  intros Hinv Hmanual.
  pose proof (consistent_step env a w (proj2 (proj2 (proj2 Hinv)))) as Hcons.
  pose proof (draws_step env a w) as Hdraws.
  destruct a as [n d l|i n d l|wid|sid b|i|i f|i].
  - simpl in *.
    pose proof (appends_quiet_createWorkflow env n d l w) as Happ.
    pose proof (same_exec_createWorkflow env n d l w) as Hex.
    destruct (createWorkflow env n d l w) as [r w1].
    apply journal_inv_requests.
    by apply (journal_inv_quiet w); [| | | |apply same_exec_tasks_grow_idle].
  - simpl in *.
    pose proof (pruned_updateWorkflow env i n d l w) as Hpr.
    pose proof (same_exec_updateWorkflow env i n d l w) as [_ Hex].
    destruct (updateWorkflow env i n d l w) as [r w1].
    apply journal_inv_requests. by apply (journal_inv_pruned w).
  - simpl in *.
    pose proof (appends_quiet_startRun_start env wid w) as Happ.
    pose proof (tasks_grow_idle_startRun_start env wid w) as Hgrow.
    destruct (startRun_start env wid w) as [r w1].
    apply journal_inv_requests. by apply (journal_inv_quiet w).
  - simpl in *.
    pose proof (same_exec_completeManualStep_start env sid b w) as Hex.
    destruct (completeManualStep_start env sid b w) as [r w1].
    apply journal_inv_requests.
    by apply (journal_inv_grow w); [| | | |apply same_exec_tasks_grow_idle].
  - simpl in *. destruct (requests w !! i) as [pc|]; [|done].
    pose proof (appends_quiet_request_resume env pc w) as Happ.
    pose proof (tasks_grow_idle_request_resume env pc w) as Hgrow.
    destruct (request_resume env pc w) as [r w1].
    apply journal_inv_requests. by apply (journal_inv_quiet w).
  - by apply journal_inv_resume_task.
  - by apply journal_inv_finalise.
Qed.

Lemma journal_inv_empty : journal_inv env counts empty_world.
Proof.
  split; [intros r; apply step_ends_nil|]. split; [|split].
  - intros t sr Hin. by apply elem_of_nil in Hin.
  - intros sr Hin. by apply elem_of_nil in Hin.
  - apply consistent_empty.
Qed.

End JournalSteps.

Section Journals.

Context (env : Env) (Hfresh : fresh_ids env).

(** [completeManualStep] appends none of the events of the scheduling
    tasks. *)
Lemma completeManualStep_start_manual_ends sid b :
  stable (on_db (appends (fun e => is_scheduler_end e = false)))
    (completeManualStep_start env sid b).
Proof.
  pose proof (appends_appendEvent env (fun e => is_scheduler_end e = false))
    as Hev.
  unfold completeManualStep_start, completeManualStep_record.
  destruct b; stable_tac; apply Hev; by intros ?.
Qed.

Lemma manual_ends_started_scheduler a w :
  manual_ends_started env is_scheduler_end a w.
Proof.
  destruct a as [| | |sid b| | |]; try exact I. simpl.
  eapply appends_weaken; [|apply completeManualStep_start_manual_ends].
  simpl. intros e He Hend. congruence.
Qed.

Lemma manual_ends_started_guarded a w :
  guarded a w -> manual_ends_started env is_step_end a w.
Proof.
  destruct a as [| | |sid b| | |]; try (intros; exact I). simpl. intros Hguard.
  pose proof (appends_only_for_completeManualStep_start env sid b w) as Happ.
  destruct (lookup_step_run (db w) sid) as [sr|].
  - eapply appends_weaken; [|exact Happ]. simpl.
    intros e He Hend. destruct (He Hend) as [-> ->]. by apply Hguard.
  - rewrite Happ. exists []. by rewrite app_nil_r.
Qed.

Lemma is_scheduler_end_is_step_end e :
  is_scheduler_end e = true -> is_step_end e = true.
Proof. unfold is_scheduler_end, is_step_end. by destruct (ev_type e). Qed.

Lemma journal_inv_run_scheduler actions : forall w,
  journal_inv env is_scheduler_end w ->
  journal_inv env is_scheduler_end (run_actions env actions w).
Proof.
  induction actions as [|a l IH]; intros w Hinv; [done|].
  simpl. apply IH.
  apply journal_inv_step;
    [done|apply is_scheduler_end_is_step_end|done|
     apply manual_ends_started_scheduler].
Qed.

Lemma journal_inv_run_guarded actions : forall w,
  journal_inv env is_step_end w -> guarded_run env actions w ->
  journal_inv env is_step_end (run_actions env actions w).
Proof.
  induction actions as [|a l IH]; intros w Hinv Hg; [done|].
  destruct Hg as [Ha Hl]. simpl. apply IH; [|done].
  apply journal_inv_step; [done|done|done|by apply manual_ends_started_guarded].
Qed.

(** The events that a scheduling task appends to end a step are those
    that [is_scheduler_end] knows. *)
Lemma execute_resume_scheduler_ends r pc f :
  stable (on_db (appends (fun e => is_step_end e = true ->
                                   is_scheduler_end e = true)))
    (execute_resume env r pc f).
Proof.
  pose proof (appends_appendEvent env
                (fun e => is_step_end e = true -> is_scheduler_end e = true))
    as Hev.
  assert (forall m l, stable (on_db (appends (fun e => is_step_end e = true ->
                                   is_scheduler_end e = true)))
            (execute_loop env r m l)) as Hloop.
  { intros m l. induction l as [|s l IH]; simpl; unfold runNonManualStep_start;
      stable_tac; apply Hev; by intros ?. }
  unfold execute_resume, runNonManualStep_finish, runNonManualStep_succeed,
    runNonManualStep_catch.
  stable_tac; apply Hev; intros ?; try done.
  all: intros _; apply prefix_app.
Qed.

End Journals.

Lemma env0_fresh_ids : fresh_ids env0.
Proof.
  intros i j H. simpl in H.
  by apply (inj (String.app "id")), (inj pretty) in H.
Qed.

(** C3, as the code has it.  The identifiers that [nanoid] gives are
    distinct.  Then, whatever the calls of the API and however they
    interleave with the tasks, the rewriting of a workflow whose runs are
    under way included, every STEP_SUCCEEDED or STEP_FAILED event that a
    scheduling task has appended comes, in the journal of its run, after a
    STEP_STARTED event with the same step run; these events are known by
    their messages, which [completeManualStep] never writes.
    [completeManualStep] does not look for a STEP_STARTED event.  So in
    every execution in which [completeManualStep] is called only for step
    runs whose STEP_STARTED event is in the journal, every STEP_SUCCEEDED
    or STEP_FAILED event of every run comes after a STEP_STARTED event of
    that run with the same step run. *)
Theorem step_ends_follow_starts_when_guarded (env : Env)
    (actions : list Action) :
  fresh_ids env ->
  let w := run_actions env actions empty_world in
  (forall runId, ends_follow_starts is_scheduler_end (journal (db w) runId)) /\
  (forall i fetched,
     appends (fun e => is_step_end e = true -> is_scheduler_end e = true)
       (db w) (db (step env (ResumeTask i fetched) w))) /\
  (forall stepRunId success,
     appends (fun e => is_scheduler_end e = false)
       (db w) (db (step env (CallCompleteManualStep stepRunId success) w))) /\
  (guarded_run env actions empty_world -> causal w).
Proof.
  intros Hfresh w. split; [|split; [|split]].
  - apply (proj1 (journal_inv_run_scheduler env Hfresh actions empty_world
                    (journal_inv_empty env is_scheduler_end))).
  - intros i fetched. simpl. destruct (tasks w !! i) as [t|].
    + pose proof (execute_resume_scheduler_ends env (task_runId t) (task_pc t)
                    fetched w) as H.
      by destruct (execute_resume env _ _ fetched w).
    + exists []. by rewrite app_nil_r.
  - intros stepRunId success. simpl.
    pose proof (completeManualStep_start_manual_ends env stepRunId success w)
      as H.
    by destruct (completeManualStep_start env stepRunId success w).
  - intros Hg runId. unfold step_ends_follow_starts.
    apply (proj1 (journal_inv_run_guarded env Hfresh actions empty_world
                    (journal_inv_empty env is_step_end) Hg)).
Qed.

Lemma step_ends_follow_starts_when_guarded_witness :
  causal (run_actions env0 approvals empty_world) /\
  map ev_type (journal (db (run_actions env0 approvals empty_world)) "id3")
  = [RUN_STARTED; RUN_STARTED; STEP_STARTED; STEP_SUCCEEDED; RUN_STARTED;
     STEP_STARTED; STEP_SUCCEEDED; RUN_STARTED; RUN_SUCCEEDED].
Proof.
  split; [|vm_compute; reflexivity].
  apply (step_ends_follow_starts_when_guarded env0 approvals env0_fresh_ids).
  unfold approvals.
  do 6 (split; [exact I|]).
  split.
  { intros sr Hsr. vm_compute in Hsr. injection Hsr as <-.
    eexists. split.
    - apply journal_of_elem. split.
      + apply list_elem_of_In. vm_compute. right. right. left. reflexivity.
      + reflexivity.
    - split; reflexivity. }
  do 5 (split; [exact I|]).
  split.
  { intros sr Hsr. vm_compute in Hsr. injection Hsr as <-.
    eexists. split.
    - apply journal_of_elem. split.
      + apply list_elem_of_In. vm_compute.
        right. right. right. right. right. left. reflexivity.
      + reflexivity.
    - split; reflexivity. }
  do 5 (split; [exact I|]). exact I.
Defined.

(** * The Executor: a step named like a member of [Object.prototype] *)

(** X25.  A pass whose loop, after steps it goes past, reaches a step for
    which the map has no step run and whose identifier is the name of a
    member of [Object.prototype] ("constructor", "toString", ...) does not
    go past it as it goes past the other steps without a step run: what
    it reads from the map is the inherited member.  At a MANUAL step the
    pass returns at once and changes nothing: no event is appended, the
    run keeps its status and the steps that follow are not reached.  At
    a DELAY or HTTP step [updateStepRunStatus] reads the clock and throws
    a TypeError, the identifier it is given being [undefined]; nothing is
    written, and the exception leaves [execute]. *)
Theorem pass_meets_prototype_member (env : Env) (runId : string)
    (stepRunMap : gmap string StepRun) (done : list WorkflowStep)
    (step : WorkflowStep) (rest : list WorkflowStep) (w : World) :
  Forall (passed_over stepRunMap) done ->
  stepRunMap !! ws_id step = None ->
  ws_id step ∈ object_prototype ->
  execute_loop env runId stepRunMap (done ++ step :: rest) w
  = if decide (ws_type step = MANUAL) then (Ok (Settled (Ok tt)), w)
    else (Throw bind_refused, tick w).
Proof.
  intros Hdone Hnone Hin. rewrite execute_loop_skips by done. simpl.
  unfold get_property. rewrite Hnone, (bool_decide_eq_true_2 _ Hin).
  by destruct (ws_type step).
Qed.

Lemma pass_meets_prototype_member_witness :
  execute_resume env0 "id1" (AfterRunStarted "id0") (FetchResponse 200)
    (prototype_world MANUAL)
  = (Ok (Settled (Ok tt)), prototype_world MANUAL) /\
  run_status <$> lookup_run (db (prototype_world MANUAL)) "id1" = Some RUNNING /\
  execute_resume env0 "id1" (AfterRunStarted "id0") (FetchResponse 200)
    (prototype_world DELAY)
  = (Throw bind_refused, tick (prototype_world DELAY)).
Proof.
  assert (forall type,
            execute_resume env0 "id1" (AfterRunStarted "id0") (FetchResponse 200)
              (prototype_world type)
            = if decide (type = MANUAL)
              then (Ok (Settled (Ok tt)), prototype_world type)
              else (Throw bind_refused, tick (prototype_world type))) as H.
  { intros type.
    refine (eq_trans _
              (pass_meets_prototype_member env0 "id1" ∅ []
                 {| ws_id := "constructor"; ws_workflowId := "id0";
                    ws_name := "approve"; ws_type := type;
                    ws_config := JObj []; ws_order := 0 |} []
                 (prototype_world type) (Forall_nil_2 _) eq_refl _)).
    - destruct type; vm_compute; reflexivity.
    - apply (bool_decide_unpack _). vm_compute. exact I. }
  split; [exact (H MANUAL)|]. split; [vm_compute; reflexivity|exact (H DELAY)].
Defined.
